(* ===== verification/_CoqProject ===== *)
-Q . S2P
Prelude.v
RustStr.v
Float.v
FloatErr.v
FloatMono.v
FloatRange.v
BinPack.v
JitGuard.v
EmbedMath.v
TrtCache.v
Types.v
SysInfo.v
Fit.v
FitFinite.v
ProbeCache.v
Pipeline.v
TrtWarmup.v
Config.v
Probe.v
Bootstrap.v
Retry.v
WorkerGuard.v
Worker.v
Pool.v
PoolInit.v
AdaptiveWarmup.v
Coverage.v
HttpError.v
Handler.v
Service.v
Permits.v
Logging.v
Server.v
PoolQueue.v
Traffic.v
Lifecycle.v
Run.v
Loading.v
GpuStats.v
EvalMetrics.v
Fp16Eval.v
