(* ===== verification/Prelude.v ===== *)
(** * bge-m3-embedding-server: a Rocq model of the server

    The server embeds texts with the BGE-M3 model: HTTP handlers validate a request
    and pass it, under a concurrency permit, to a pool of worker threads; a worker
    tokenizes the texts, packs them into chunks by a quadratic memory model, refuses
    shapes that would crash TensorRT, runs the ONNX session chunk by chunk and
    scatters the results back; at start-up the memory of the host is detected, the
    cost model is fitted by a probe, and TensorRT engines are compiled ahead.

    ** Files, and the code each models (under src/src)

    - [Prelude] results and the [?] operator, machine integers, lists, sorting by a
      key as an interface ([KeySort]), automation.  [RustStr] the string functions of
      the Rust library on UTF-8 bytes.  [Float], [FloatErr] IEEE binary32/64 on the
      Standard Library's [SpecFloat], exactness and rounding bounds; [FloatMono] rounding
      is monotone, [FloatRange] ranges closed under the operations, without NaN.
    - [BinPack] binpack.rs.  [JitGuard] embedder/jit_guard.rs, with [anyhow] errors as
      chains of causes.  [EmbedMath] embedder/math.rs.  [Types] embedder/types.rs and
      the outcome [M] of a computation that may fail or panic.  [Pipeline]
      embedder/dense.rs, sparse.rs, dual.rs and tokenize.rs over the interface
      [Runtime] (tokenizer and session); an array is its contents, shape and strides.
    - [TrtCache] embedder/trt_cache/*.rs, trt_cache_gc.rs and sm_detect.rs.  [TrtWarmup]
      embedder/trt_warmup/*.rs over [WorkerWorld] (RSS, directory, nvidia-smi).
      [AdaptiveWarmup] embedder/adaptive_warmup.rs over the interface [IndexSet].
    - [Retry] worker/trt_retry.rs.  [WorkerGuard] worker/guard.rs, config.rs and
      propagation.rs: outcomes, circuit breaker, shared counters.  [Worker]
      worker/startup.rs, dispatch.rs and run.rs: the loop as a step function
      [worker_step].  [Pool] embedder/pool.rs: the initialisation by itself, the client
      calls, and the running pool as the step relation [sys_step] over every
      interleaving of the workers.  [PoolInit] the initialisation interleaved with the
      workers it has already started ([boot_step]); its end states ([pool_running]) are
      where the theorems about a serving pool start.  [Coverage] the pool, the suspect
      queue, the adaptive-warmup task and the engine broadcasts in one system
      ([live_step]).
    - [SysInfo] sysinfo.rs.  [Config] config.rs.  [Fit], [FitFinite] (the fit in f64 is never
      NaN), [ProbeCache], [Probe] probe/*.rs.
      [Bootstrap] bootstrap/budget.rs, readiness.rs, probe_task.rs and state.rs: the
      updates start-up publishes, in order.
    - [HttpError] error.rs and models.rs, with what serde derives for the requests.
      [Handler] handler/*.rs, behind the interface [JsonExtractor].  [Permits] the
      embedding handlers as interleaving tasks at the semaphore, over the interface
      [FairSemaphore].  [PoolQueue] the channel between the clients of the pool and its
      workers, over the interface [BoundedChannel].  [Traffic] gate, handlers and queue
      in one system ([traffic_step]).  [Service] the composition handler, pool, worker,
      pipeline.  [Lifecycle] the updates of [Bootstrap] published beside [Traffic], as
      run in lib.rs composes them ([lifecycle_step]).
    - [Logging] logging.rs.  [Server] the parts of lib.rs and bootstrap/router.rs, [Run]
      their composition from the environment to the listener.  [Loading]
      model_files.rs, session.rs and weights.rs over the interface [Ort].  [GpuStats]
      gpu_stats.rs.
    - [EvalMetrics], [Fp16Eval] the evaluation program of src/examples/fp16_eval.rs.

    ** What the theorems show

    - A request, end to end: in every state the server reaches, during start-up and
      after it, the client got one entry per text, in order, with what the run of its
      chunk computed, or the status of an error ([Lifecycle], from [Traffic] and
      [Service]); gate, handlers and workers together
      refine a table of requests answered in one step, that refuses a request only when it
      is not ready, has no worker left or the texts are invalid ([Traffic]); the paired
      pipeline does what the two single ones do on the same outputs, and the three do not panic,
      the layout of the copied rows apart, on which [ndarray] makes no promise ([Pipeline]);
      the packing is a partition into chunks that fit, with the
      fewest chunks possible under every cost model, since rounding is monotone ([BinPack]); the pooled sparse vector is exact
      ([EmbedMath]); the status of an answer is exact on every branch, the
      rejections of the JSON extractor included, and no answer leaks an
      internal message ([Handler]).
    - The JIT guard: which requests are refused, that nothing runs for a refused one,
      that a refusal changes nothing in the worker ([JitGuard], [Pipeline], [Worker]), and
      that the set of refused lengths never changes while the pool serves ([Coverage]).
    - Concurrency: each request is answered exactly once ([Worker]), the counters
      behind /health are right in every interleaving, start-up included, and /health
      reports them truthfully ([PoolInit], [Service]), permits are conserved ([Permits]), every call
      of the pool ends exactly once ([PoolQueue]), every answer is that of its call and no
      request is stuck or forgotten between the gate and the reply ([Traffic]), a closed pool drains and the wait for it ends ([Server]), and
      the process listens only after its tasks were spawned, never in the clear when
      TLS is configured ([Run]).
    - Start-up: every environment yields a configuration in range and a lawful pool
      ([Config], [Server]), a start without a warning dropped no setting the warnings
      are about ([Config]), the memory budget never overcommits, traffic opens last
      ([Bootstrap]); beside the traffic, no request is packed before the final budget is
      published, start-up is never blocked by the requests it races with, and in every
      fair run the server comes up and answers what it accepted ([Lifecycle]); the sweep of the probe stays within its limits, its warm-up is behind none
      ([Probe]), the fit minimises the
      squared error ([Fit]), the cache file is atomic and its whole fingerprint decides ([ProbeCache]), only pinned model
      files are loaded ([Loading]).
    - The evaluation program: its copies of the embedding functions agree with the
      server's, its decision ignores NaN, and it cannot succeed on the exports it
      names ([EvalMetrics], [Fp16Eval]).
    - TensorRT: the warmup covers the grid, the collector spares the plans of the
      detected device ([TrtWarmup], [TrtCache]), adaptive warmup compiles no shape
      twice and keeps its budget ([AdaptiveWarmup]); the shapes it is given can be over
      the workspace budget ([Coverage]).

    ** Conventions and bounds

    Integers are [Z] with their wrap-around or saturation written out for the 64-bit
    targets; floats are bit-exact.  A panic is [Err Panic] (the release profile
    aborts).  Time, channels, files and processes enter as the answers they give, and
    each function is total on them.  Recursion is structural except for
    [wait_for_workers_to_exit], whose fuel [timeout / 100 + 2] is proved enough
    because 100 ms pass between two polls.  Third-party code is a class or a
    parameter, and its laws are documented behaviour: the tokenizer returns one
    encoding per text and the session one row per text ([RuntimeLaws]), a model file has the outputs of its export and an
    index of any other output panics ([ModelOutputs]), the copy of a matrix with contiguous rows
    has contiguous rows ([ModelExport], for the half-precision and quantised exports: what
    [ndarray] does, and does not promise), [powi(2)] of a number of at least 1 is at least 1/2
    ([powi2_law]), the JSON extractor rejects with its documented codes ([JsonExtractor]), the key sort
    of the library sorts ([KeySort]), the semaphore is fair ([FairSemaphore]), the channel is bounded and first in, first out ([BoundedChannel]), an index
    set keeps insertion order ([IndexSetLaws]), JSON reads back what it wrote
    ([JsonLaws]).

    ** Not modelled

    Log events and tracing spans (except the line formatters), the text of JSON documents
    and the serialisation of responses, the middleware layers, the panics of
    [Semaphore::new] and [mpsc::channel] on a capacity above [MAX_PERMITS] (2^59
    workers or more), what the heartbeat tasks of lib.rs log, the CoreML
    branch of macOS, build.rs, benchmarks and tests: they are I/O over libraries or do
    not take part in serving. *)

From stdpp Require Export base option list gmap strings sorting.
From Stdlib Require Export ZArith Lia.

Declare Scope rust_scope.
Delimit Scope rust_scope with rust.
#[global] Open Scope Z_scope.
#[export] Set Warnings "-clear-no-such-hyp".

(** ** Results and the [?] operator

    [result E A] is Rust's [Result<A, E>].  The [MBind] instance is the [?]
    operator, so a fallible function reads as a chain of [x ← e; k]. *)

Inductive result (E A : Type) : Type :=
| Ok (a : A)
| Err (e : E).
Arguments Ok {E A} a.
Arguments Err {E A} e.

#[export] Instance result_ret {E} : MRet (result E) := fun A a => Ok a.
#[export] Instance result_bind {E} : MBind (result E) :=
  fun A B f r => match r with Ok a => f a | Err e => Err e end.
#[export] Instance result_fmap {E} : FMap (result E) :=
  fun A B f r => match r with Ok a => Ok (f a) | Err e => Err e end.

Definition is_ok {E A} (r : result E A) : bool :=
  match r with Ok _ => true | Err _ => false end.
Definition is_err {E A} (r : result E A) : bool := negb (is_ok r).

(** [Result::map_err] *)
Definition map_err {E F A} (f : E -> F) (r : result E A) : result F A :=
  match r with Ok a => Ok a | Err e => Err (f e) end.

(** [Result::ok] *)
Definition ok_opt {E A} (r : result E A) : option A :=
  match r with Ok a => Some a | Err _ => None end.

(** [Option::unwrap_or] *)
Definition unwrap_or {A} (o : option A) (d : A) : A :=
  match o with Some a => a | None => d end.

(** [Option::is_some_and] *)
Definition is_some_and {A} (o : option A) (p : A -> bool) : bool :=
  match o with Some a => p a | None => false end.

(** The fallible [for] loop and [Iterator::collect] into a [Result]. *)
Fixpoint result_mapM {E A B} (f : A -> result E B) (l : list A) : result E (list B) :=
  match l with
  | [] => Ok []
  | x :: l => match f x with
              | Err e => Err e
              | Ok y => match result_mapM f l with
                        | Err e => Err e
                        | Ok ys => Ok (y :: ys)
                        end
              end
  end.

Fixpoint result_foldM {E A S} (f : S -> A -> result E S) (s : S) (l : list A) : result E S :=
  match l with
  | [] => Ok s
  | x :: l => match f s x with Err e => Err e | Ok s' => result_foldM f s' l end
  end.

(** ** Machine-width integers

    A [usize] or a [u64] of the 64-bit targets is a [Z] in [[0, 2^64)]; a
    [u128] is a [Z] in [[0, 2^128)].  Plain [+] and [*] of a release build wrap,
    the [saturating_*] methods clamp. *)

Definition U32_MAX : Z := 2 ^ 32 - 1.
Definition U64_MAX : Z := 2 ^ 64 - 1.
Definition U128_MAX : Z := 2 ^ 128 - 1.
Definition I64_MAX : Z := 2 ^ 63 - 1.

Definition wrap64 (x : Z) : Z := x mod 2 ^ 64.
Definition wrap32 (x : Z) : Z := x mod 2 ^ 32.
Definition sat_add64 (x y : Z) : Z := Z.min (x + y) U64_MAX.
Definition sat_mul64 (x y : Z) : Z := Z.min (x * y) U64_MAX.
Definition sat_sub (x y : Z) : Z := Z.max 0 (x - y).
Definition sat_add128 (x y : Z) : Z := Z.min (x + y) U128_MAX.

(** [u64::try_from(x).unwrap_or(u64::MAX)] for a [u128], [x >= 0]. *)
Definition u64_of_u128 (x : Z) : Z := if x <=? U64_MAX then x else U64_MAX.
(** [u32::try_from(x).unwrap_or(d)] for a [usize], [x >= 0]. *)
Definition u32_try_from_or (x d : Z) : Z := if x <=? U32_MAX then x else d.

Definition usize (x : Z) : Prop := 0 <= x <= U64_MAX.

Lemma wrap64_small x : usize x -> wrap64 x = x.
Proof. unfold usize, wrap64, U64_MAX. intros. apply Z.mod_small. lia. Qed.

Lemma wrap64_range x : usize (wrap64 x).
Proof. unfold usize, wrap64, U64_MAX. pose proof (Z.mod_pos_bound x (2 ^ 64)). lia. Qed.

Lemma sat_sub_0_r x : 0 <= x -> sat_sub x 0 = x.
Proof. unfold sat_sub. lia. Qed.

Lemma sat_add64_range x y : 0 <= x -> 0 <= y -> usize (sat_add64 x y).
Proof. unfold usize, sat_add64, U64_MAX. lia. Qed.

Lemma sat_mul64_range x y : 0 <= x -> 0 <= y -> usize (sat_mul64 x y).
Proof. unfold usize, sat_mul64, U64_MAX. nia. Qed.

Lemma sat_sub_range x y : usize x -> 0 <= y -> usize (sat_sub x y).
Proof. unfold usize, sat_sub, U64_MAX. lia. Qed.

(** ** Proof automation *)

Create HintDb rust discriminated.
#[export] Hint Resolve wrap64_range sat_add64_range sat_mul64_range sat_sub_range : rust.

(** A wrapping counter that goes from [a] to [b] moves by [d]. *)
Definition counter_moves (a b d : Z) : Prop := forall n, a = wrap64 n -> b = wrap64 (n + d).

Lemma wrap64_shift n d : wrap64 (wrap64 n + d) = wrap64 (n + d).
Proof. unfold wrap64. apply Zplus_mod_idemp_l. Qed.

Lemma moves_refl a : counter_moves a a 0.
Proof. intros n ->. f_equal. lia. Qed.

Lemma moves_by a d : counter_moves a (wrap64 (a + d)) d.
Proof. intros n ->. apply wrap64_shift. Qed.

Lemma moves_trans a b c d e : counter_moves a b d -> counter_moves b c e -> counter_moves a c (d + e).
Proof. intros Hab Hbc n Hn. rewrite Z.add_assoc. by apply Hbc, Hab. Qed.

Lemma moves_eq a b d e : counter_moves a b d -> d = e -> counter_moves a b e.
Proof. by intros Hm <-. Qed.

Lemma moves_exact a b d : counter_moves a b d -> usize a -> usize (a + d) -> b = a + d.
Proof. intros Hm Ha Hd. rewrite <- (wrap64_small (a + d)) by done. apply Hm. by rewrite wrap64_small. Qed.
#[export] Hint Extern 2 (_ <= _)%Z => lia : rust.
#[export] Hint Extern 2 (_ < _)%Z => lia : rust.

(** Turns every boolean comparison of the context and of the goal into the
    proposition it decides. *)
Ltac bool_to_prop :=
  repeat match goal with
  | H : (_ <=? _)%Z = true |- _ => apply Z.leb_le in H
  | H : (_ <=? _)%Z = false |- _ => apply Z.leb_gt in H
  | H : (_ <? _)%Z = true |- _ => apply Z.ltb_lt in H
  | H : (_ <? _)%Z = false |- _ => apply Z.ltb_ge in H
  | H : (_ =? _)%Z = true |- _ => apply Z.eqb_eq in H
  | H : (_ =? _)%Z = false |- _ => apply Z.eqb_neq in H
  | H : (_ && _)%bool = true |- _ => apply andb_true_iff in H; destruct H
  | H : (_ || _)%bool = false |- _ => apply orb_false_iff in H; destruct H
  | H : negb _ = true |- _ => apply negb_true_iff in H
  | H : negb _ = false |- _ => apply negb_false_iff in H
  end.

(** Case analysis on the condition of the outermost [if] or [match]. *)
Ltac case_if :=
  match goal with
  | |- context [ if ?b then _ else _ ] => destruct b eqn:?
  | H : context [ if ?b then _ else _ ] |- _ => destruct b eqn:?
  end.

(** Splits the goal and closes what is arithmetic or immediate. *)
Ltac crush := repeat case_if; bool_to_prop; simplify_eq/=; try done; try lia.

(** ** Lists *)

(** [iter().max()] and [iter().min()] of a list of integers. *)
Definition max_of (l : list Z) : option Z :=
  match l with [] => None | x :: l => Some (foldr Z.max x l) end.
Definition min_of (l : list Z) : option Z :=
  match l with [] => None | x :: l => Some (foldr Z.min x l) end.
Definition sum_of (l : list Z) : Z := foldr Z.add 0 l.

Lemma foldr_max_ge x l : x <= foldr Z.max x l /\ Forall (fun y => y <= foldr Z.max x l) l.
Proof.
  induction l as [|y l [IH1 IH2]]; simpl; [done|]. split; [lia|].
  constructor; [lia|]. eapply Forall_impl; [exact IH2|]. simpl. intros. lia.
Qed.

Lemma foldr_max_in x l : foldr Z.max x l = x \/ foldr Z.max x l ∈ l.
Proof.
  induction l as [|y l IH]; simpl; [by left|].
  destruct (Z.max_spec y (foldr Z.max x l)) as [[_ ->]|[_ ->]].
  - destruct IH as [->|IH]; [by left | right; by right].
  - right. by left.
Qed.

Lemma max_of_Some l m :
  max_of l = Some m <-> m ∈ l /\ Forall (fun y => y <= m) l.
Proof.
  destruct l as [|x l]; simpl; [split; [done|]; intros [H _]; inversion H|].
  pose proof (foldr_max_ge x l) as [Hge Hall].
  split.
  - intros [= <-]. split; [|by constructor].
    destruct (foldr_max_in x l) as [->|H]; [left | by right].
  - intros [Hin Hm]. f_equal. apply Z.le_antisymm.
    + rewrite Forall_forall in Hm. apply Hm.
      destruct (foldr_max_in x l) as [->|H]; [left | by right].
    + apply elem_of_cons in Hin as [->|Hin]; [done|].
      rewrite Forall_forall in Hall. by apply Hall.
Qed.

Lemma foldr_min_le x l : foldr Z.min x l <= x /\ Forall (fun y => foldr Z.min x l <= y) l.
Proof.
  induction l as [|y l [IH1 IH2]]; simpl; [done|]. split; [lia|].
  constructor; [lia|]. eapply Forall_impl; [exact IH2|]. simpl. intros. lia.
Qed.

Lemma foldr_min_in x l : foldr Z.min x l = x \/ foldr Z.min x l ∈ l.
Proof.
  induction l as [|y l IH]; simpl; [by left|].
  destruct (Z.min_spec y (foldr Z.min x l)) as [[_ ->]|[_ ->]].
  - right. by left.
  - destruct IH as [->|IH]; [by left | right; by right].
Qed.

Lemma min_of_Some l m :
  min_of l = Some m <-> m ∈ l /\ Forall (fun y => m <= y) l.
Proof.
  destruct l as [|x l]; simpl; [split; [done|]; intros [H _]; inversion H|].
  pose proof (foldr_min_le x l) as [Hge Hall].
  split.
  - intros [= <-]. split; [|by constructor].
    destruct (foldr_min_in x l) as [->|H]; [left | by right].
  - intros [Hin Hm]. f_equal. apply Z.le_antisymm.
    + apply elem_of_cons in Hin as [->|Hin]; [done|].
      rewrite Forall_forall in Hall. by apply Hall.
    + rewrite Forall_forall in Hm. apply Hm.
      destruct (foldr_min_in x l) as [->|H]; [left | by right].
Qed.

Lemma max_of_is_Some l : l <> [] -> is_Some (max_of l).
Proof. destruct l; [done|]. eauto. Qed.

Lemma sum_of_app l1 l2 : sum_of (l1 ++ l2) = sum_of l1 + sum_of l2.
Proof. induction l1 as [|x l1 IH]; simpl in *; [done|]. unfold sum_of in *. simpl. lia. Qed.

Lemma sum_of_bounds l a b :
  Forall (fun x => a <= x <= b) l -> a * Z.of_nat (length l) <= sum_of l <= b * Z.of_nat (length l).
Proof. unfold sum_of. induction 1; cbn -[Z.of_nat]; lia. Qed.

(** Merge sort of [usize] values: [sort_unstable] on plain integers has one
    possible result. *)
Definition sort_z (l : list Z) : list Z := merge_sort Z.le l.

Lemma sort_z_perm l : sort_z l ≡ₚ l.
Proof. apply merge_sort_Permutation. Qed.

Lemma sort_z_sorted l : StronglySorted Z.le (sort_z l).
Proof. apply (StronglySorted_merge_sort Z.le). Qed.

Lemma sort_z_length l : length (sort_z l) = length l.
Proof. apply Permutation_length, sort_z_perm. Qed.

(** An element of a sorted list is above every earlier one. *)
Lemma StronglySorted_lookup {A} (R : relation A) (l : list A) i j x y :
  StronglySorted R l -> (i < j)%nat -> l !! i = Some x -> l !! j = Some y -> R x y.
Proof.
  intros Hs. revert i j. induction Hs as [|a l Hs IH Ha]; intros i j Hij Hi Hj; [done|].
  destruct j as [|j]; [lia|]. simpl in Hj. destruct i as [|i]; simpl in Hi.
  - simplify_eq. rewrite Forall_forall in Ha. apply Ha. by eapply list_elem_of_lookup_2.
  - eapply IH; [|done|done]. lia.
Qed.

Lemma elem_of_concat {A} (x : A) (ls : list (list A)) :
  x ∈ concat ls <-> exists l, l ∈ ls /\ x ∈ l.
Proof.
  induction ls as [|l ls IH]; simpl.
  - split; [intros H; inversion H | intros (? & H & _); inversion H].
  - rewrite elem_of_app, IH. setoid_rewrite elem_of_cons. clear IH. split.
    + intros [H|(l' & ? & ?)]; eauto.
    + intros (l' & [->|H] & ?); eauto.
Qed.

Lemma StronglySorted_weaken {A} (R R' : relation A) (l : list A) :
  (forall x y, R x y -> R' x y) -> StronglySorted R l -> StronglySorted R' l.
Proof.
  intros HR. induction 1 as [|x l _ IH Hx]; constructor; [done|].
  eapply Forall_impl; [exact Hx|]. auto.
Qed.

Lemma length_filter_le {A} (P : A -> Prop) `{forall x, Decision (P x)} (l : list A) :
  (length (filter P l) <= length l)%nat.
Proof. apply submseteq_length, sublist_submseteq, sublist_filter. Qed.

Lemma filter_id {A} (P : A -> Prop) `{forall x, Decision (P x)} (l : list A) :
  Forall P l -> filter P l = l.
Proof. induction 1; [done|]. rewrite filter_cons_True by done. by f_equal. Qed.

Lemma concat_take_drop {A} (ls : list (list A)) (j : nat) :
  concat ls = concat (take j ls) ++ concat (drop j ls).
Proof. by rewrite <- concat_app, take_drop. Qed.

Lemma map_lookup {A B} (f : A -> B) (l : list A) (i : nat) : map f l !! i = f <$> l !! i.
Proof. apply list_lookup_fmap. Qed.

(** Row-major indexing of a list of rows of the same length. *)
Lemma concat_uniform_length {A} (ls : list (list A)) n :
  Forall (fun l => length l = n) ls -> length (concat ls) = (length ls * n)%nat.
Proof. induction 1 as [|l ls Hl _ IH]; simpl; [done|]. rewrite length_app. lia. Qed.

Lemma concat_uniform_lookup {A} (ls : list (list A)) n p l (c : nat) :
  Forall (fun l => length l = n) ls -> ls !! p = Some l -> (c < n)%nat ->
  concat ls !! (p * n + c)%nat = l !! c.
Proof.
  intros Hf. revert p. induction Hf as [|l' ls Hl _ IH]; intros p Hp Hc; [done|].
  destruct p as [|p]; simpl in *.
  - simplify_eq. by rewrite lookup_app_l by lia.
  - rewrite lookup_app_r by lia. rewrite <- (IH p Hp Hc). f_equal. lia.
Qed.

(** Neighbours of a list are related. *)
Fixpoint chained {A} (R : A -> A -> Prop) (l : list A) : Prop :=
  match l with
  | x :: (y :: _) as l' => R x y /\ chained R l'
  | _ => True
  end.

Lemma chained_snoc {A} (R : A -> A -> Prop) l x y :
  chained R (l ++ [x]) -> R x y -> chained R (l ++ [x; y]).
Proof.
  induction l as [|z [|w l] IH]; simpl; [done| |].
  - intros [H1 _] H2. done.
  - intros [H1 H2] H3. split; [done|]. by apply IH.
Qed.

(** Replacing the last element by one with the same left neighbours. *)
Lemma chained_last {A} (R : A -> A -> Prop) l x y :
  (forall z, R z x -> R z y) -> chained R (l ++ [x]) -> chained R (l ++ [y]).
Proof.
  intros Hxy. induction l as [|z [|w l] IH]; simpl; [done| |].
  - intros [H1 _]. auto.
  - intros [H1 H2]. split; [done|]. by apply IH.
Qed.

Lemma chained_app_l {A} (R : A -> A -> Prop) l x : chained R (l ++ [x]) -> chained R l.
Proof.
  induction l as [|z [|w l] IH]; simpl; [done|done|].
  intros [H1 H2]. split; [done|]. by apply IH.
Qed.

Lemma chained_lookup {A} (R : A -> A -> Prop) l i x y :
  chained R l -> l !! i = Some x -> l !! S i = Some y -> R x y.
Proof.
  revert i. induction l as [|a [|b l] IH]; intros i H Hx Hy; [done|by destruct i|].
  destruct H as [HR H]. destruct i as [|i]; simpl in Hx, Hy; [by simplify_eq|].
  by apply (IH i).
Qed.

(** ** Sorting by a key

    [sort_unstable_by_key] promises a permutation ordered by the key and nothing
    about ties.  The interface states exactly that; clients are proved against
    it, and [merge_key_sort] shows that it can be implemented. *)
Class KeySort (A : Type) := {
  sort_by_key : (A -> Z) -> list A -> list A;
  sort_by_key_perm : forall key l, sort_by_key key l ≡ₚ l;
  sort_by_key_sorted : forall key l,
    StronglySorted (fun a b => key a <= key b) (sort_by_key key l);
}.

Section merge_key_sort.
Context {A : Type}.

#[local] Instance key_le_dec (key : A -> Z) : RelDecision (fun a b => key a <= key b).
Proof. intros a b. apply _. Defined.
#[local] Instance key_le_trans (key : A -> Z) : Transitive (fun a b => key a <= key b).
Proof. intros a b c. lia. Qed.
#[local] Instance key_le_total (key : A -> Z) : Total (fun a b => key a <= key b).
Proof. intros a b. lia. Qed.

Definition merge_by_key (key : A -> Z) (l : list A) : list A :=
  merge_sort (fun a b => key a <= key b) l.

#[export, program] Instance merge_key_sort : KeySort A := {| sort_by_key := merge_by_key |}.
Next Obligation. intros. apply merge_sort_Permutation. Qed.
Next Obligation.
  intros. apply (StronglySorted_merge_sort (fun a b => key a <= key b)).
Qed.
End merge_key_sort.
