(* ===== verification/RustStr.v ===== *)
(** * Rust strings

    A [&str] is the Rocq [string] of its UTF-8 bytes.  This file holds the
    methods of [str] the server calls, each as a structural function on that
    representation, with the lemmas that relate them to concatenation. *)

From S2P Require Import Prelude.
From Stdlib Require Export Ascii String.
From stdpp Require Export pretty.
#[global] Open Scope Z_scope.

Definition byte_of (c : ascii) : Z := Z.of_N (N_of_ascii c).
Definition chr (n : N) : ascii := ascii_of_N n.

(** [{}] of an unsigned integer. *)
Definition show (x : Z) : string := pretty (Z.to_N x).

(** [String::is_empty] *)
Definition str_is_empty (s : string) : bool := match s with EmptyString => true | _ => false end.

(** ** Prefixes and suffixes *)

(** [str::strip_prefix] *)
Fixpoint strip_prefix (p s : string) : option string :=
  match p, s with
  | EmptyString, _ => Some s
  | String a p, String b s => if Ascii.eqb a b then strip_prefix p s else None
  | String _ _, EmptyString => None
  end.
Definition starts_with (p s : string) : bool := bool_decide (is_Some (strip_prefix p s)).

Definition srev (s : string) : string :=
  string_of_list_ascii (reverse (list_ascii_of_string s)).

(** [str::strip_suffix] *)
Definition strip_suffix (suf s : string) : option string := srev <$> strip_prefix (srev suf) (srev s).
Definition ends_with (suf s : string) : bool := bool_decide (is_Some (strip_suffix suf s)).

(** [str::contains] of a literal *)
Fixpoint contains (p s : string) : bool :=
  starts_with p s || match s with EmptyString => false | String _ s => contains p s end.

(** [str::rfind] of a literal: the byte offset of the last occurrence *)
Fixpoint rfind (p s : string) : option nat :=
  match s with
  | EmptyString => if starts_with p s then Some 0%nat else None
  | String _ s' => match rfind p s' with
                   | Some i => Some (S i)
                   | None => if starts_with p s then Some 0%nat else None
                   end
  end.

(** [&s[i..]] and [&s[..i]] for an offset within the string *)
Fixpoint str_drop (i : nat) (s : string) : string :=
  match i, s with
  | S i, String _ s => str_drop i s
  | _, _ => s
  end.
Fixpoint str_take (i : nat) (s : string) : string :=
  match i, s with
  | S i, String c s => String c (str_take i s)
  | _, _ => ""
  end.

(** ** Characters *)

(** A byte that starts a character: not of the form [10xxxxxx]. *)
Definition is_char_start (c : ascii) : bool := negb ((128 <=? byte_of c) && (byte_of c <? 192)).

(** [s.chars().count()] *)
Fixpoint char_count (s : string) : Z :=
  match s with
  | EmptyString => 0
  | String c s => (if is_char_start c then 1 else 0) + char_count s
  end.

(** [s.is_char_boundary(i)] *)
Definition is_char_boundary (i : nat) (s : string) : bool :=
  match i with
  | O => true
  | _ => match String.get i s with
         | Some c => is_char_start c
         | None => Nat.eqb i (String.length s)
         end
  end.

Definition is_ascii_digit (c : ascii) : bool := (48 <=? byte_of c) && (byte_of c <=? 57).

(** [s.chars().all(p)] for a predicate that holds of ASCII characters only *)
Fixpoint str_forall (p : ascii -> bool) (s : string) : bool :=
  match s with EmptyString => true | String c s => p c && str_forall p s end.

Definition lower_ascii (c : ascii) : ascii :=
  if (65 <=? byte_of c) && (byte_of c <=? 90) then ascii_of_N (N_of_ascii c + 32) else c.

(** [str::to_lowercase].  The characters outside ASCII whose lower case holds an
    ASCII character are the Kelvin sign (E2 84 AA) and the dotted capital I
    (C4 B0); every other one is kept, which no comparison of the server with an
    ASCII literal can tell apart from its lower case. *)
Fixpoint to_lowercase (s : string) : string :=
  match s with
  | EmptyString => EmptyString
  | String a s1 =>
      match s1 with
      | String b s2 =>
          if (byte_of a =? 196) && (byte_of b =? 176)
          then String "i" (String (chr 204) (String (chr 135) (to_lowercase s2)))
          else match s2 with
               | String c s3 =>
                   if (byte_of a =? 226) && (byte_of b =? 132) && (byte_of c =? 170)
                   then String "k" (to_lowercase s3)
                   else String (lower_ascii a) (to_lowercase s1)
               | EmptyString => String (lower_ascii a) (to_lowercase s1)
               end
      | EmptyString => String (lower_ascii a) EmptyString
      end
  end.

(** ** White space

    [ws_len s] is the number of bytes of the [White_Space] character at the head
    of [s], 0 when there is none. *)
Definition ws_len (s : string) : nat :=
  match s with
  | EmptyString => 0%nat
  | String a s1 =>
      let a := byte_of a in
      if (9 <=? a) && (a <=? 13) || (a =? 32) then 1%nat else
      match s1 with
      | EmptyString => 0%nat
      | String b s2 =>
          let b := byte_of b in
          if (a =? 194) && ((b =? 133) || (b =? 160)) then 2%nat else
          match s2 with
          | EmptyString => 0%nat
          | String c _ =>
              let c := byte_of c in
              if (a =? 225) && (b =? 154) && (c =? 128)
                 || (a =? 226) && (b =? 128) &&
                    ((128 <=? c) && (c <=? 138) || (c =? 168) || (c =? 169) || (c =? 175))
                 || (a =? 226) && (b =? 129) && (c =? 159)
                 || (a =? 227) && (b =? 128) && (c =? 128)
              then 3%nat else 0%nat
          end
      end
  end.

(** The same for the last character, on the reversed bytes. *)
Definition ws_len_rev (s : string) : nat :=
  if (ws_len (str_take 1 s) =? 1)%nat then 1%nat
  else if (ws_len (srev (str_take 2 s)) =? 2)%nat then 2%nat
  else if (ws_len (srev (str_take 3 s)) =? 3)%nat then 3%nat else 0%nat.

(** Drops the leading characters [wl] recognises; [skip] bytes of the current
    one remain. *)
Fixpoint strip_ws (wl : string -> nat) (skip : nat) (s : string) : string :=
  match s with
  | EmptyString => EmptyString
  | String _ s' =>
      match skip with
      | S k => strip_ws wl k s'
      | O => match wl s with O => s | S k => strip_ws wl k s' end
      end
  end.

Definition trim_start (s : string) : string := strip_ws ws_len 0 s.
Definition trim_end (s : string) : string := srev (strip_ws ws_len_rev 0 (srev s)).
(** [str::trim] *)
Definition trim (s : string) : string := trim_end (trim_start s).

(** ** Splitting *)

(** [s.split(c)] of an ASCII character *)
Fixpoint split_char (c : ascii) (s : string) : list string :=
  match s with
  | EmptyString => [EmptyString]
  | String a s' =>
      if Ascii.eqb a c then EmptyString :: split_char c s'
      else match split_char c s' with
           | [] => [String a EmptyString]
           | w :: ws => String a w :: ws
           end
  end.

(** [s.split_once(c)] *)
Fixpoint split_once (c : ascii) (s : string) : option (string * string) :=
  match s with
  | EmptyString => None
  | String a s' =>
      if Ascii.eqb a c then Some (EmptyString, s')
      else '(l, r) ← split_once c s'; Some (String a l, r)
  end.

(** [s.splitn(2, c)] as the first part and the optional second one *)
Definition splitn2 (c : ascii) (s : string) : string * option string :=
  match split_once c s with Some (l, r) => (l, Some r) | None => (s, None) end.

Definition nl : ascii := "010"%char.
Definition cr : string := String "013" EmptyString.

(** [str::lines]: the terminator is [\n] or [\r\n], and an unterminated last
    line counts when it is not empty. *)
Definition lines (s : string) : list string :=
  let parts := split_char nl s in
  let terminated := removelast parts in
  let rest := List.last parts EmptyString in
  map (fun l => unwrap_or (strip_suffix cr l) l) terminated
  ++ (if str_is_empty rest then [] else [rest]).

(** [str::split_whitespace] *)
Fixpoint words_from (skip : nat) (cur : string) (s : string) : list string :=
  let flush := if str_is_empty cur then [] else [cur] in
  match s with
  | EmptyString => flush
  | String c s' =>
      match skip with
      | S k => words_from k cur s'
      | O => match ws_len s with
             | O => words_from 0 (cur +:+ String c EmptyString) s'
             | S k => flush ++ words_from k EmptyString s'
             end
      end
  end.
Definition split_whitespace (s : string) : list string := words_from 0 EmptyString s.

(** [s.replace(c, by)] *)
Fixpoint replace_char (c : ascii) (by_ : string) (s : string) : string :=
  match s with
  | EmptyString => EmptyString
  | String a s => if Ascii.eqb a c then by_ +:+ replace_char c by_ s
                  else String a (replace_char c by_ s)
  end.

(** ** Parsing unsigned integers *)

Fixpoint parse_digits (max acc : Z) (s : string) : option Z :=
  match s with
  | EmptyString => Some acc
  | String c s =>
      if is_ascii_digit c then
        let acc' := acc * 10 + (byte_of c - 48) in
        if acc' <=? max then parse_digits max acc' s else None
      else None
  end.

(** [s.parse::<usize>()] and its kin with largest value [max]: an optional plus
    sign and at least one digit. *)
Definition parse_uint (max : Z) (s : string) : option Z :=
  match s with
  | EmptyString => None
  | String c s' =>
      if Ascii.eqb c "+" then if str_is_empty s' then None else parse_digits max 0 s'
      else parse_digits max 0 s
  end.

Definition parse_usize : string -> option Z := parse_uint U64_MAX.

(** ** Lemmas *)

#[local] Arguments String.append !_ _ / : simpl nomatch.

Lemma strip_prefix_Some p s r : strip_prefix p s = Some r <-> s = p +:+ r.
Proof.
  revert s. induction p as [|a p IH]; intros [|b s]; simpl; try (split; congruence).
  destruct (Ascii.eqb_spec a b) as [->|Hne]; [rewrite IH|]; split; congruence.
Qed.

Lemma starts_with_spec p s : starts_with p s = true <-> exists r, s = p +:+ r.
Proof.
  unfold starts_with, is_Some. rewrite bool_decide_eq_true.
  by setoid_rewrite strip_prefix_Some.
Qed.

Lemma string_app_inj (p a b : string) : p +:+ a = p +:+ b -> a = b.
Proof. by induction p; simpl; intros; simplify_eq; auto. Qed.

Lemma string_app_assoc (a b c : string) : a +:+ (b +:+ c) = (a +:+ b) +:+ c.
Proof. induction a; simpl; congruence. Qed.

Lemma string_app_nil_r (a : string) : a +:+ "" = a.
Proof. induction a; simpl; congruence. Qed.

Lemma to_list_app a b :
  list_ascii_of_string (a +:+ b) = list_ascii_of_string a ++ list_ascii_of_string b.
Proof. induction a; simpl; congruence. Qed.

Lemma of_list_app (a b : list ascii) :
  string_of_list_ascii (a ++ b) = string_of_list_ascii a +:+ string_of_list_ascii b.
Proof. induction a; simpl; congruence. Qed.

Lemma srev_app a b : srev (a +:+ b) = srev b +:+ srev a.
Proof. unfold srev. by rewrite to_list_app, reverse_app, of_list_app. Qed.

Lemma srev_involutive s : srev (srev s) = s.
Proof.
  unfold srev. rewrite list_ascii_of_string_of_list_ascii, reverse_involutive.
  apply string_of_list_ascii_of_string.
Qed.

Lemma strip_suffix_Some suf s r : strip_suffix suf s = Some r <-> s = r +:+ suf.
Proof.
  unfold strip_suffix. rewrite fmap_Some. setoid_rewrite strip_prefix_Some. split.
  - intros (x & Hs & ->). rewrite <- (srev_involutive suf), <- srev_app, <- Hs.
    by rewrite srev_involutive.
  - intros ->. exists (srev r). by rewrite srev_app, srev_involutive.
Qed.

Lemma ends_with_spec suf s : ends_with suf s = true <-> exists r, s = r +:+ suf.
Proof.
  unfold ends_with, is_Some. rewrite bool_decide_eq_true.
  by setoid_rewrite strip_suffix_Some.
Qed.

Lemma string_app_inj_r (a b s : string) : a +:+ s = b +:+ s -> a = b.
Proof.
  intros H. apply (f_equal srev) in H. rewrite !srev_app in H.
  apply string_app_inj in H. rewrite <- (srev_involutive a), H. apply srev_involutive.
Qed.

Lemma contains_spec p s : contains p s = true <-> exists a b, s = a +:+ p +:+ b.
Proof.
  induction s as [|c s IH]; cbn [contains]; rewrite orb_true_iff, starts_with_spec.
  - split; [intros [[r ->]|]; [by exists "", r|done]|].
    intros ([] & b & H); [left; by exists b|done].
  - rewrite IH. split.
    + intros [[r ->]|(a & b & ->)]; [by exists "", r | by exists (String c a), b].
    + intros ([|c' a] & b & H); [left; by exists b|]. right. simpl in H. simplify_eq. eauto.
Qed.

Lemma parse_digits_range max acc s n :
  0 <= acc <= max -> parse_digits max acc s = Some n -> 0 <= n <= max.
Proof.
  revert acc. induction s as [|c s IH]; intros acc Ha; simpl; [by intros [= <-]|].
  destruct (is_ascii_digit c) eqn:Hd; [|done]. unfold is_ascii_digit in Hd. bool_to_prop.
  case_if; [|done]. bool_to_prop. apply IH. lia.
Qed.

Lemma parse_uint_range max s n : 0 <= max -> parse_uint max s = Some n -> 0 <= n <= max.
Proof.
  intros Hm. unfold parse_uint. destruct s as [|c s]; [done|].
  repeat case_if; try done; by apply parse_digits_range.
Qed.

Lemma parse_usize_range s n : parse_usize s = Some n -> usize n.
Proof. apply parse_uint_range. unfold U64_MAX. lia. Qed.
#[export] Hint Resolve parse_usize_range : rust.

(** ** Digit strings *)

Definition digits (s : string) : Prop := s <> "" /\ str_forall is_ascii_digit s = true.

Lemma str_forall_app p a b : str_forall p (a +:+ b) = str_forall p a && str_forall p b.
Proof. induction a as [|c a IH]; simpl; [done|]. by rewrite IH, andb_assoc. Qed.

Lemma rfind_None p s : contains p s = false -> rfind p s = None.
Proof.
  induction s as [|c s IH]; cbn [contains rfind]; intros H; apply orb_false_iff in H as [H1 H2].
  - by rewrite H1.
  - by rewrite (IH H2), H1.
Qed.

(** Characters the literal needs and the string lacks. *)
Lemma not_contains_char (c : ascii) p s :
  In c (list_ascii_of_string p) -> ~ In c (list_ascii_of_string s) -> contains p s = false.
Proof.
  intros Hp Hs. apply not_true_iff_false. intros (a & b & ->)%contains_spec. apply Hs.
  rewrite !to_list_app. apply in_or_app. right. apply in_or_app. by left.
Qed.

Lemma digits_no_char c s :
  is_ascii_digit c = false -> str_forall is_ascii_digit s = true -> ~ In c (list_ascii_of_string s).
Proof.
  intros Hc. induction s as [|x s IH]; simpl; [tauto|].
  intros [Hx Hs]%andb_true_iff [->|Hin]; [congruence|by apply IH].
Qed.

Lemma rfind_app p a s i : rfind p s = Some i -> rfind p (a +:+ s) = Some (String.length a + i)%nat.
Proof. intros H. induction a as [|c a IH]; simpl; [done|]. by rewrite IH. Qed.

Lemma rfind_spec p s i : rfind p s = Some i -> exists r, str_drop i s = p +:+ r.
Proof.
  revert i. induction s as [|c s IH]; intros i; cbn [rfind].
  - destruct (starts_with p "") eqn:Hp; [|done]. apply starts_with_spec in Hp as [r Hr].
    intros [= <-]. eauto.
  - destruct (rfind p s) as [j|] eqn:Hj; [intros [= <-]; by apply IH|].
    destruct (starts_with p (String c s)) eqn:Hp; [|done]. intros [= <-].
    by apply starts_with_spec.
Qed.

Lemma str_take_drop i s : str_take i s +:+ str_drop i s = s.
Proof. revert s. induction i as [|i IH]; intros [|c s]; simpl; try done. by rewrite IH. Qed.

Lemma str_drop_app a s : str_drop (String.length a) (a +:+ s) = s.
Proof. induction a as [|c a IH]; simpl; [done|exact IH]. Qed.

Lemma str_drop_drop i j s : str_drop i (str_drop j s) = str_drop (j + i) s.
Proof.
  revert s. induction j as [|j IH]; intros s; simpl; [done|].
  destruct s as [|c s]; [by destruct i|]. by rewrite <- IH.
Qed.

Lemma pretty_char_digit x : is_ascii_digit (pretty_N_char x) = true.
Proof. unfold pretty_N_char. by repeat case_match. Qed.

Lemma pretty_go_digits x s :
  str_forall is_ascii_digit s = true -> str_forall is_ascii_digit (pretty_N_go x s) = true.
Proof.
  revert s. induction (N.lt_wf_0 x) as [x _ IH]; intros s Hs.
  assert (x = 0 \/ 0 < x)%N as [->|Hx] by lia; [by rewrite pretty_N_go_0|].
  rewrite pretty_N_go_step by done. apply IH; [by apply N.div_lt|].
  simpl. by rewrite pretty_char_digit.
Qed.

Lemma pretty_go_ne x s : s <> "" -> pretty_N_go x s <> "".
Proof.
  revert s. induction (N.lt_wf_0 x) as [x _ IH]; intros s Hs.
  assert (x = 0 \/ 0 < x)%N as [->|Hx] by lia; [by rewrite pretty_N_go_0|].
  rewrite pretty_N_go_step by done. apply IH; [by apply N.div_lt|done].
Qed.

(** The decimal form of an unsigned integer. *)
Lemma show_digits z : digits (show z).
Proof.
  unfold show, pretty, pretty_N. case_decide as Hz; [by split|]. split.
  - rewrite pretty_N_go_step by lia. by apply pretty_go_ne.
  - by apply pretty_go_digits.
Qed.

Lemma pretty_char_value x : (x < 10)%N -> byte_of (pretty_N_char x) - 48 = Z.of_N x.
Proof.
  intros Hx. assert (x = 0 \/ x = 1 \/ x = 2 \/ x = 3 \/ x = 4 \/ x = 5 \/ x = 6 \/ x = 7
                     \/ x = 8 \/ x = 9)%N as H by lia.
  by repeat (destruct H as [->|H]; [done|]); subst x.
Qed.

(** The digits of [x] in front of [s] are read as [x] before [s] is. *)
Lemma parse_pretty_go max x s :
  Z.of_N x <= max -> parse_digits max 0 (pretty_N_go x s) = parse_digits max (Z.of_N x) s.
Proof.
  revert s. induction (N.lt_wf_0 x) as [x _ IH]; intros s Hmax.
  assert (x = 0 \/ 0 < x)%N as [->|Hx] by lia; [by rewrite pretty_N_go_0|].
  assert (Hdm : x = (10 * (x / 10) + x mod 10)%N) by (apply N.div_mod; lia).
  pose proof (N.mod_lt x 10 ltac:(lia)) as Hm.
  assert (Hlt : (x / 10 < x)%N) by (by apply N.div_lt).
  rewrite pretty_N_go_step by done. revert Hdm Hm Hlt.
  generalize (x / 10)%N (x mod 10)%N. intros q m Hdm Hm Hlt. rewrite IH by lia.
  cbn [parse_digits]. rewrite pretty_char_digit, (pretty_char_value _ Hm).
  replace (Z.of_N q * 10 + Z.of_N m) with (Z.of_N x) by lia.
  by rewrite (proj2 (Z.leb_le _ _)).
Qed.

Lemma parse_uint_digits max s : digits s -> parse_uint max s = parse_digits max 0 s.
Proof.
  intros [Hne Hd]. destruct s as [|c s]; [done|]. unfold parse_uint.
  destruct (Ascii.eqb_spec c "+") as [->|]; [done|done].
Qed.

(** Printing then parsing an unsigned integer. *)
Lemma parse_show max z : 0 <= z <= max -> parse_uint max (show z) = Some z.
Proof.
  intros Hz. rewrite parse_uint_digits by apply show_digits.
  unfold show, pretty, pretty_N. case_decide as H0.
  - assert (z = 0) as -> by lia. cbn [parse_digits].
    change (0 * 10 + (byte_of "0" - 48)) with 0. by rewrite (proj2 (Z.leb_le 0 max)) by lia.
  - rewrite parse_pretty_go by lia. simpl. f_equal. lia.
Qed.
