(* ===== verification/Float.v ===== *)
(** * IEEE-754 arithmetic as the server uses it

    [f64] and [f32] are the executable binary64 and binary32 of the standard
    library's [SpecFloat] (round to nearest, ties to even).  The file adds what
    Rust's primitive float types provide on top: comparisons, [max], [clamp],
    the [as] casts from and to unsigned integers, and [iter().sum()]; then the
    lemmas the components share: the comparison is a total preorder away from
    NaN, [clamp] lands in its range, and sums and products of integers below
    2^53 are exact. *)

From Stdlib Require Import SpecFloat.
From S2P Require Import Prelude.

Abbreviation f64 := spec_float (only parsing).
Abbreviation f32 := spec_float (only parsing).

(** ** Operations *)

Definition f64_add : f64 -> f64 -> f64 := SFadd 53 1024.
Definition f64_sub : f64 -> f64 -> f64 := SFsub 53 1024.
Definition f64_mul : f64 -> f64 -> f64 := SFmul 53 1024.
Definition f64_div : f64 -> f64 -> f64 := SFdiv 53 1024.
Definition f64_sqrt : f64 -> f64 := SFsqrt 53 1024.
Definition f32_add : f32 -> f32 -> f32 := SFadd 24 128.
Definition f32_mul : f32 -> f32 -> f32 := SFmul 24 128.
Definition f32_div : f32 -> f32 -> f32 := SFdiv 24 128.
Definition f32_sqrt : f32 -> f32 := SFsqrt 24 128.

(** [x as f64] of an unsigned integer. *)
Definition f64_of_Z (z : Z) : f64 := binary_normalize 53 1024 z 0 false.
Definition f32_of_Z (z : Z) : f32 := binary_normalize 24 128 z 0 false.

(** The literal [n / d] with [n] and [d] exactly representable: division is
    correctly rounded, so it is the nearest double to the quotient. *)
Definition f64_lit (n d : Z) : f64 := f64_div (f64_of_Z n) (f64_of_Z d).
Definition f32_lit (n d : Z) : f32 := f32_div (f32_of_Z n) (f32_of_Z d).

Definition f_zero : spec_float := S754_zero false.
Definition f_neg_zero : spec_float := S754_zero true.

Definition is_nan (x : spec_float) : bool :=
  match x with S754_nan => true | _ => false end.

(** [x < y], [x <= y], [x > y], [x == y]: false on NaN. *)
Definition f_lt : spec_float -> spec_float -> bool := SFltb.
Definition f_le : spec_float -> spec_float -> bool := SFleb.
Definition f_gt (x y : spec_float) : bool := SFltb y x.
Definition f_eq : spec_float -> spec_float -> bool := SFeqb.
Definition f_abs : spec_float -> spec_float := SFabs.

(** [f64::max]: the other operand when one is NaN. *)
Definition f_max (x y : spec_float) : spec_float :=
  if is_nan x then y else if f_lt x y then y else x.

(** [f64::min]: likewise. *)
Definition f_min (x y : spec_float) : spec_float :=
  if is_nan x then y else if f_lt y x then y else x.

(** [f64::clamp]: NaN stays NaN. *)
Definition f_clamp (x lo hi : spec_float) : spec_float :=
  let x := if f_lt x lo then lo else x in
  if f_gt x hi then hi else x.

(** [x as u128], [x as usize]: towards zero, saturating, NaN to 0. *)
Definition f_to_uint (max : Z) (x : spec_float) : Z :=
  match x with
  | S754_finite false m e =>
      Z.min max (if 0 <=? e then Zpos m * 2 ^ e else Zpos m / 2 ^ (- e))
  | S754_infinity false => max
  | _ => 0
  end.
Definition f64_to_u128 : f64 -> Z := f_to_uint U128_MAX.
Definition f64_to_usize : f64 -> Z := f_to_uint U64_MAX.

(** [iter().sum::<f32>()]: the neutral element is [-0.0]. *)
Definition f32_sum (l : list f32) : f32 := foldl f32_add f_neg_zero l.

(** [iter().sum::<f64>()] *)
Definition f64_sum (l : list f64) : f64 := foldl f64_add f_neg_zero l.

(** [f64::from] of an [f32]: exact, so only the encoding changes. *)
Definition f64_of_f32 (x : f32) : f64 :=
  match x with
  | S754_finite s m e => binary_normalize 53 1024 (if s then Zneg m else Zpos m) e s
  | _ => x
  end.

(** ** Order *)

Lemma SFcompare_nan_l y : SFcompare S754_nan y = None.
Proof. reflexivity. Qed.

Lemma SFcompare_None x y : SFcompare x y = None <-> is_nan x || is_nan y = true.
Proof. destruct x as [[]|[]| |[]], y as [[]|[]| |[]]; simpl; split; done. Qed.

Lemma SFcompare_antisym x y : SFcompare y x = CompOpp <$> SFcompare x y.
Proof.
  destruct x as [[]|[]| |[] m e], y as [[]|[]| |[] m' e']; try reflexivity; cbn;
    rewrite (Z.compare_antisym e e'); destruct (e ?= e'); try done; cbn;
    change (Pos.compare_cont Eq m' m) with (Pos.compare m' m);
    change (Pos.compare_cont Eq m m') with (Pos.compare m m');
    rewrite (Pos.compare_antisym m m'); by destruct (Pos.compare m m').
Qed.

Lemma f_le_not_lt x y : is_nan x = false -> is_nan y = false -> f_le x y = negb (f_lt y x).
Proof.
  intros Hx Hy. unfold f_le, f_lt, SFleb, SFltb. rewrite (SFcompare_antisym x y).
  destruct (SFcompare x y) as [[]|] eqn:E; try done.
  apply SFcompare_None in E. by rewrite Hx, Hy in E.
Qed.

Lemma f_lt_le x y : f_lt x y = true -> f_le x y = true.
Proof. unfold f_lt, f_le, SFltb, SFleb. by destruct (SFcompare x y) as [[]|]. Qed.

Lemma f_lt_not_nan x y : f_lt x y = true -> is_nan x = false /\ is_nan y = false.
Proof. destruct x as [[]|[]| |[]], y as [[]|[]| |[]]; simpl; done. Qed.

Lemma f_le_refl x : is_nan x = false -> f_le x x = true.
Proof.
  intros Hx. unfold f_le, SFleb. destruct x as [[]|[]| |[] m e]; try done; cbn;
    rewrite Z.compare_refl; cbn;
    change (Pos.compare_cont Eq m m) with (Pos.compare m m); by rewrite Pos.compare_refl.
Qed.

Lemma lex_trans e1 e2 e3 m1 m2 m3 :
  match e1 ?= e2 with Lt => true | Gt => false | Eq => (Pos.leb m1 m2) end = true ->
  match e2 ?= e3 with Lt => true | Gt => false | Eq => (Pos.leb m2 m3) end = true ->
  match e1 ?= e3 with Lt => true | Gt => false | Eq => (Pos.leb m1 m3) end = true.
Proof.
  destruct (Z.compare_spec e1 e2), (Z.compare_spec e2 e3), (Z.compare_spec e1 e3);
    subst; intros Hab Hbc; try done; try lia;
    rewrite ?Pos.leb_le in *; lia.
Qed.

Lemma f_le_pos s s' m m' e e' :
  f_le (S754_finite s m e) (S754_finite s' m' e') =
  match s, s' with
  | true, false => true
  | false, true => false
  | false, false => match e ?= e' with Lt => true | Gt => false | Eq => Pos.leb m m' end
  | true, true => match e' ?= e with Lt => true | Gt => false | Eq => Pos.leb m' m end
  end.
Proof.
  unfold f_le, SFleb, Pos.leb. cbn.
  change (Pos.compare_cont Eq m m') with (Pos.compare m m').
  destruct s, s'; try done.
  - rewrite (Z.compare_antisym e e'), (Pos.compare_antisym m m').
    by destruct (e ?= e'), (Pos.compare m m').
  - by destruct (e ?= e'), (Pos.compare m m').
Qed.

Lemma f_le_trans x y z : f_le x y = true -> f_le y z = true -> f_le x z = true.
Proof.
  destruct x as [[]|[]| |s1 m1 e1], y as [[]|[]| |s2 m2 e2], z as [[]|[]| |s3 m3 e3];
    try (cbn; done); try (cbn; destruct s1; done); try (cbn; destruct s2; done);
    try (cbn; destruct s3; done);
    try (destruct s1, s2; cbn; done); try (destruct s2, s3; cbn; done);
    try (destruct s1, s3; cbn; done).
  rewrite !f_le_pos. destruct s1, s2, s3; try done; intros H1 H2.
  - exact (lex_trans _ _ _ _ _ _ H2 H1).
  - exact (lex_trans _ _ _ _ _ _ H1 H2).
Qed.

Lemma f_lt_le_trans x y z : f_lt x y = true -> f_le y z = true -> f_lt x z = true.
Proof.
  intros H1 H2. destruct (f_lt_not_nan _ _ H1) as [Hx Hy].
  assert (Hz : is_nan z = false) by (destruct y as [[]|[]| |[]], z as [[]|[]| |[]]; done).
  destruct (f_lt x z) eqn:E; [done|].
  assert (f_le z x = true) by (rewrite f_le_not_lt by done; by rewrite E).
  assert (Hc : f_le y x = true) by (by eapply f_le_trans).
  rewrite f_le_not_lt in Hc by done. by rewrite H1 in Hc.
Qed.

(** [clamp] of a number lands between its bounds, and NaN stays NaN. *)
Lemma f_clamp_range x lo hi :
  is_nan x = false -> f_le lo hi = true ->
  f_le lo (f_clamp x lo hi) = true /\ f_le (f_clamp x lo hi) hi = true.
Proof.
  intros Hx Hb.
  assert (Hlo : is_nan lo = false) by (destruct lo as [[]|[]| |[]], hi as [[]|[]| |[]]; done).
  assert (Hhi : is_nan hi = false) by (destruct lo as [[]|[]| |[]], hi as [[]|[]| |[]]; done).
  unfold f_clamp, f_gt. change SFltb with f_lt.
  destruct (f_lt x lo) eqn:E1.
  - destruct (f_lt hi lo) eqn:E2; [by rewrite f_le_refl|]. by rewrite f_le_refl.
  - destruct (f_lt hi x) eqn:E2; [by rewrite f_le_refl|].
    split; rewrite f_le_not_lt by done; [by rewrite E1 | by rewrite E2].
Qed.

Lemma f_clamp_nan lo hi : is_nan lo = false -> is_nan hi = false -> f_clamp S754_nan lo hi = S754_nan.
Proof. by destruct lo as [[]|[]| |[]], hi as [[]|[]| |[]]. Qed.

Lemma f_clamp_id x lo hi : f_lt x lo = false -> f_gt x hi = false -> f_clamp x lo hi = x.
Proof. intros H1 H2. unfold f_clamp. by rewrite H1, H2. Qed.

Lemma f_max_ge x y :
  is_nan x = false -> is_nan y = false ->
  f_le x (f_max x y) = true /\ f_le y (f_max x y) = true.
Proof.
  intros Hx Hy. unfold f_max. rewrite Hx. destruct (f_lt x y) eqn:E.
  - split; [by apply f_lt_le | by apply f_le_refl].
  - split; [by apply f_le_refl |]. rewrite f_le_not_lt by done. by rewrite E.
Qed.

Lemma f_max_cases x y : f_max x y = x \/ f_max x y = y.
Proof. unfold f_max. destruct (is_nan x), (f_lt x y); auto. Qed.

(** A non-NaN [max] or [min] is on one side of a bound iff both operands are; a NaN
    operand is ignored. *)
Lemma f_max_not_nan x y : is_nan x = false -> is_nan (f_max x y) = false.
Proof.
  intros Hx. unfold f_max. rewrite Hx. destruct (f_lt x y) eqn:E; [|done].
  by apply f_lt_not_nan in E as [_ ?].
Qed.

Lemma f_min_not_nan x y : is_nan x = false -> is_nan (f_min x y) = false.
Proof.
  intros Hx. unfold f_min. rewrite Hx. destruct (f_lt y x) eqn:E; [|done].
  by apply f_lt_not_nan in E as [? _].
Qed.

Lemma f_le_lt_trans x y z : f_le x y = true -> f_lt y z = true -> f_lt x z = true.
Proof.
  intros H1 H2. destruct (f_lt_not_nan _ _ H2) as [Hy Hz].
  assert (Hx : is_nan x = false) by (destruct y as [[]|[]| |[]], x as [[]|[]| |[]]; done).
  destruct (f_lt x z) eqn:E; [done|].
  assert (f_le z x = true) by (rewrite f_le_not_lt by done; by rewrite E).
  assert (Hc : f_le z y = true) by (by eapply f_le_trans).
  rewrite f_le_not_lt in Hc by done. by rewrite H2 in Hc.
Qed.

Lemma f_lt_nan_l y : f_lt S754_nan y = false.
Proof. done. Qed.
Lemma f_lt_nan_r x : f_lt x S754_nan = false.
Proof. by destruct x as [[]|[]| |[]]. Qed.

Lemma f_max_lt x y c : is_nan x = false ->
  f_lt (f_max x y) c = f_lt x c && (is_nan y || f_lt y c).
Proof.
  intros Hx. unfold f_max. rewrite Hx. destruct (is_nan y) eqn:Hy.
  { destruct y; try done. by rewrite f_lt_nan_r, andb_true_r. }
  simpl. destruct (f_lt x y) eqn:E.
  - destruct (f_lt y c) eqn:Hc; [|by rewrite andb_false_r].
    by rewrite (f_le_lt_trans x y c) by (done || by apply f_lt_le).
  - assert (Hle : f_le y x = true) by (rewrite f_le_not_lt by done; by rewrite E).
    destruct (f_lt x c) eqn:Hc; [|done]. by rewrite (f_le_lt_trans y x c).
Qed.

Lemma f_min_gt x y c : is_nan x = false ->
  f_gt (f_min x y) c = f_gt x c && (is_nan y || f_gt y c).
Proof.
  intros Hx. unfold f_min, f_gt. change SFltb with f_lt. rewrite Hx. destruct (is_nan y) eqn:Hy.
  { destruct y; try done. by rewrite f_lt_nan_l, andb_true_r. }
  simpl. destruct (f_lt y x) eqn:E.
  - destruct (f_lt c y) eqn:Hc; [|by rewrite andb_false_r].
    by rewrite (f_lt_le_trans c y x) by (done || by apply f_lt_le).
  - assert (Hle : f_le x y = true) by (rewrite f_le_not_lt by done; by rewrite E).
    destruct (f_lt c x) eqn:Hc; [|done]. by rewrite (f_lt_le_trans c x y).
Qed.

(** ** Exactness on integers

    [int_val m e z]: the finite float [m * 2^e] is the integer [z].  The
    exponent [e] may be negative, so both sides are scaled by [2^k]. *)
Definition int_val (m : positive) (e z : Z) : Prop :=
  exists k, 0 <= k /\ 0 <= e + k /\ Zpos m * 2 ^ (e + k) = z * 2 ^ k.

(** [is_int x z]: [x] is the non-negative integer [z]. *)
Definition is_int (x : spec_float) (z : Z) : Prop :=
  match x with
  | S754_zero _ => z = 0
  | S754_finite false m e => int_val m e z
  | _ => False
  end.

Lemma int_val_scale m e z k :
  int_val m e z -> 0 <= k -> 0 <= e + k -> Zpos m * 2 ^ (e + k) = z * 2 ^ k.
Proof.
  intros (k0 & H0 & H1 & H2) Hk Hek.
  apply (Z.mul_reg_r _ _ (2 ^ k0)); [lia|].
  rewrite <- !Z.mul_assoc, <- !Z.pow_add_r by lia.
  replace (e + k + k0) with ((e + k0) + k) by lia.
  rewrite Z.pow_add_r, Z.mul_assoc, H2 by lia.
  rewrite (Z.add_comm k k0), Z.pow_add_r by lia. ring.
Qed.

Lemma int_val_pos m e z : int_val m e z -> 0 < z.
Proof.
  intros (k & H0 & H1 & H2).
  assert (0 < 2 ^ (e + k)) by (apply Z.pow_pos_nonneg; lia).
  assert (0 < 2 ^ k) by (apply Z.pow_pos_nonneg; lia). nia.
Qed.

Lemma int_val_mul m e z m' e' z' :
  int_val m e z -> int_val m' e' z' -> int_val (m * m') (e + e') (z * z').
Proof.
  intros (k & H0 & H1 & H2) (k' & H0' & H1' & H2').
  exists (k + k'). split; [lia|]. split; [lia|].
  replace (e + e' + (k + k')) with ((e + k) + (e' + k')) by lia.
  rewrite (Z.pow_add_r 2 (e + k)), (Z.pow_add_r 2 k k'), Pos2Z.inj_mul by lia.
  replace (Zpos m * Zpos m' * (2 ^ (e + k) * 2 ^ (e' + k')))
    with ((Zpos m * 2 ^ (e + k)) * (Zpos m' * 2 ^ (e' + k'))) by ring.
  rewrite H2, H2'. ring.
Qed.

(** Number of binary digits. *)
Lemma digits2_pos_bounds m :
  2 ^ (Zpos (digits2_pos m) - 1) <= Zpos m < 2 ^ Zpos (digits2_pos m).
Proof.
  induction m as [m IH|m IH|]; simpl digits2_pos; [| |done];
    rewrite Pos2Z.inj_succ; unfold Z.succ;
    replace (Zpos (digits2_pos m) + 1 - 1) with ((Zpos (digits2_pos m) - 1) + 1) by lia;
    rewrite !Z.pow_add_r by lia; change (2 ^ 1) with 2; lia.
Qed.

Lemma digits2_pos_le m n : 0 <= n -> Zpos m < 2 ^ n -> Zpos (digits2_pos m) <= n.
Proof.
  intros Hn Hm. pose proof (digits2_pos_bounds m) as [Hd _].
  destruct (Z_le_gt_dec (Zpos (digits2_pos m)) n) as [|Hgt]; [done|exfalso].
  assert (2 ^ n <= 2 ^ (Zpos (digits2_pos m) - 1)) by (apply Z.pow_le_mono_r; lia). lia.
Qed.

Lemma digits2_pos_shift m q n :
  0 <= n -> Zpos m = Zpos q * 2 ^ n -> Zpos (digits2_pos m) = Zpos (digits2_pos q) + n.
Proof.
  intros Hn Hm.
  pose proof (digits2_pos_bounds m) as [H1 H2]. pose proof (digits2_pos_bounds q) as [H3 H4].
  set (d := Zpos (digits2_pos m)) in *. set (d' := Zpos (digits2_pos q)) in *.
  assert (0 < d') by (unfold d'; lia). assert (0 < d) by (unfold d; lia).
  assert (0 < 2 ^ n) by (apply Z.pow_pos_nonneg; lia).
  apply Z.le_antisymm.
  - assert (2 ^ (d - 1) < 2 ^ (d' + n)) as Hlt by (rewrite (Z.pow_add_r 2 d' n) by lia; nia).
    apply Z.pow_lt_mono_r_iff in Hlt; lia.
  - assert (2 ^ (d' - 1 + n) < 2 ^ d) as Hlt
      by (rewrite (Z.pow_add_r 2 (d' - 1) n) by lia; nia).
    apply Z.pow_lt_mono_r_iff in Hlt; lia.
Qed.

(** Shifting out zero bits loses nothing. *)
Lemma iter_shr_exact n : forall q,
  SpecFloat.iter_pos shr_1 n {| shr_m := Zpos q * 2 ^ Zpos n; shr_r := false; shr_s := false |}
  = {| shr_m := Zpos q; shr_r := false; shr_s := false |}.
Proof.
  assert (H1 : forall p, shr_1 {| shr_m := Zpos p * 2; shr_r := false; shr_s := false |}
             = {| shr_m := Zpos p; shr_r := false; shr_s := false |}).
  { intros p. rewrite Z.mul_comm. reflexivity. }
  induction n as [n IH|n IH|]; intros q; cbn [SpecFloat.iter_pos].
  - replace (Zpos q * 2 ^ Zpos n~1) with (Zpos (q * 2 ^ n * 2 ^ n) * 2).
    + rewrite H1, Pos2Z.inj_mul, Pos2Z.inj_pow, IH, Pos2Z.inj_mul, Pos2Z.inj_pow. apply IH.
    + rewrite !Pos2Z.inj_mul, !Pos2Z.inj_pow, (Pos2Z.inj_xI n).
      replace (2 * Zpos n + 1) with (Zpos n + Zpos n + 1) by lia.
      rewrite !Z.pow_add_r by lia. change (2 ^ 1) with 2. ring.
  - replace (Zpos q * 2 ^ Zpos n~0) with (Zpos (q * 2 ^ n) * 2 ^ Zpos n).
    + rewrite IH, Pos2Z.inj_mul, Pos2Z.inj_pow. apply IH.
    + rewrite !Pos2Z.inj_mul, !Pos2Z.inj_pow, (Pos2Z.inj_xO n).
      replace (2 * Zpos n) with (Zpos n + Zpos n) by lia.
      rewrite !Z.pow_add_r by lia. ring.
  - apply H1.
Qed.

Lemma shr_exact m e q n :
  0 <= n -> Zpos m = Zpos q * 2 ^ n ->
  shr {| shr_m := Zpos m; shr_r := false; shr_s := false |} e n
  = ({| shr_m := Zpos q; shr_r := false; shr_s := false |}, e + n).
Proof.
  intros Hn Hm. destruct n as [|n|n]; [|unfold shr; by rewrite Hm, iter_shr_exact|lia].
  rewrite Z.mul_1_r in Hm. simplify_eq. cbn. by rewrite Z.add_0_r.
Qed.

Lemma shr_nonpos r e n : n <= 0 -> shr r e n = (r, e).
Proof. destruct n; [done|lia|done]. Qed.

Lemma int_val_digits m e z p :
  int_val m e z -> 0 <= p -> z < 2 ^ p -> Zpos (digits2_pos m) + e <= p.
Proof.
  intros Hv Hp Hz. pose proof (int_val_pos _ _ _ Hv) as Hz0.
  pose proof (digits2_pos_bounds m) as [Hd _].
  set (d := Zpos (digits2_pos m)) in *.
  destruct (Z_le_gt_dec (d + e) p) as [|Hgt]; [done|exfalso].
  assert (He := int_val_scale _ _ _ (Z.max 0 (- e)) Hv ltac:(lia) ltac:(lia)).
  set (k := Z.max 0 (- e)) in *.
  assert (0 < 2 ^ (e + k)) by (apply Z.pow_pos_nonneg; lia).
  assert (0 < 2 ^ k) by (apply Z.pow_pos_nonneg; lia).
  assert (2 ^ (d - 1) * 2 ^ (e + k) <= z * 2 ^ k) as Hle by nia.
  rewrite <- Z.pow_add_r in Hle by lia.
  assert (2 ^ (p + k) <= 2 ^ (d - 1 + (e + k))) as Hle' by (apply Z.pow_le_mono_r; lia).
  rewrite (Z.pow_add_r 2 p k) in Hle' by lia. nia.
Qed.

(** The mantissa of an integer has the zero bits that a shift up to exponent 0
    drops. *)
Lemma int_val_shift m e z n :
  int_val m e z -> e + n <= 0 \/ n <= 0 ->
  exists q, Zpos m = Zpos q * 2 ^ Z.max 0 n /\ int_val q (e + Z.max 0 n) z.
Proof.
  intros Hv Hn. pose proof (int_val_pos _ _ _ Hv) as Hz0.
  destruct (Z_le_gt_dec n 0) as [Hn0|Hn0].
  { exists m. rewrite Z.max_l by lia. rewrite Z.mul_1_r, Z.add_0_r. done. }
  assert (He := int_val_scale _ _ _ (- e) Hv ltac:(lia) ltac:(lia)).
  rewrite Z.add_opp_diag_r, Z.mul_1_r in He.
  assert (0 < 2 ^ (- e - n)) by (apply Z.pow_pos_nonneg; lia).
  rewrite Z.max_r by lia.
  exists (Z.to_pos (z * 2 ^ (- e - n))). split.
  - rewrite Z2Pos.id, <- Z.mul_assoc, <- Z.pow_add_r by nia.
    by replace (- e - n + n) with (- e) by lia.
  - exists (- e - n). rewrite Z2Pos.id by nia. repeat split; [lia..|].
    replace (e + n + (- e - n)) with 0 by lia. apply Z.mul_1_r.
Qed.

(** An integer below 2^53, however scaled, survives rounding unchanged. *)
Lemma round_exact s m e z :
  int_val m e z -> z < 2 ^ 53 ->
  exists m' e', binary_round_aux 53 1024 s (Zpos m) e loc_Exact = S754_finite s m' e'
                /\ int_val m' e' z.
Proof.
  intros Hv Hz. pose proof (int_val_digits _ _ _ 53 Hv ltac:(lia) Hz) as Hde.
  set (d := Zpos (digits2_pos m)) in *.
  set (n := fexp 53 1024 (d + e) - e).
  assert (Hn : n = Z.max (d + e - 53) (-1074) - e) by done.
  destruct (int_val_shift _ _ _ n Hv ltac:(lia)) as (q & Hq & Hv').
  pose proof (digits2_pos_shift _ _ _ (Z.le_max_l 0 n) Hq) as Hdq. fold d in Hdq.
  set (k := Z.max 0 n) in *.
  assert (Hshr : shr {| shr_m := Zpos m; shr_r := false; shr_s := false |} e n
    = ({| shr_m := Zpos q; shr_r := false; shr_s := false |}, e + k)).
  { destruct (Z_le_gt_dec n 0).
    - unfold k in *. rewrite Z.max_l in * by lia. rewrite Z.mul_1_r in Hq. simplify_eq.
      rewrite Z.add_0_r. by apply shr_nonpos.
    - assert (k = n) as -> by lia. apply shr_exact; [lia|done]. }
  exists q, (e + k). split; [|done].
  unfold binary_round_aux, shr_fexp. cbn [shr_record_of_loc Zdigits2]. fold d n.
  rewrite Hshr. cbn [shr_m shr_r shr_s loc_of_shr_record round_nearest_even].
  cbn [shr_record_of_loc Zdigits2]. rewrite shr_nonpos by (unfold fexp, emin in *; lia).
  cbn [shr_m]. assert (e + k <= 1024 - 53) as ->%Z.leb_le by lia. done.
Qed.

Lemma iter_xO m n : Zpos (Pos.iter xO m n) = Zpos m * 2 ^ Zpos n.
Proof.
  induction n as [|n IH] using Pos.peano_ind; [rewrite Z.mul_comm; reflexivity|].
  rewrite Pos.iter_succ, Pos2Z.inj_succ, Z.pow_succ_r, Pos2Z.inj_xO, IH by lia. ring.
Qed.

Lemma shl_align_val m e e' z :
  int_val m e z -> int_val (fst (shl_align m e e')) (snd (shl_align m e e')) z.
Proof.
  intros Hv. unfold shl_align. destruct (e' - e) as [|d|d] eqn:E; [done..|]. simpl.
  destruct Hv as (k & H0 & H1 & H2). exists (k + Zpos d). repeat split; [lia..|].
  rewrite iter_xO. replace (e' + (k + Zpos d)) with (e + k) by lia.
  rewrite (Z.pow_add_r 2 k) by lia. rewrite Z.mul_assoc, <- H2. ring.
Qed.

Lemma normalize_exact m e z :
  int_val m e z -> z < 2 ^ 53 -> is_int (binary_normalize 53 1024 (Zpos m) e false) z.
Proof.
  intros Hv Hz. unfold binary_normalize, binary_round.
  set (e' := fexp 53 1024 (Zpos (digits2_pos m) + e)).
  pose proof (shl_align_val _ _ e' _ Hv) as Hv'.
  destruct (shl_align m e e') as [mz ez]. simpl in Hv'.
  destruct (round_exact false _ _ _ Hv' Hz) as (m' & e'' & -> & H). exact H.
Qed.

Lemma f64_of_Z_exact z : 0 <= z < 2 ^ 53 -> is_int (f64_of_Z z) z.
Proof.
  intros Hz. destruct z as [|z|z]; [done| |lia].
  apply normalize_exact; [|lia]. exists 0. repeat split; lia.
Qed.

Lemma f64_mul_exact x y a b :
  is_int x a -> is_int y b -> a * b < 2 ^ 53 -> is_int (f64_mul x y) (a * b).
Proof.
  intros Hx Hy Hab.
  destruct x as [sx|[]| |[] mx ex], y as [sy|[]| |[] my ey]; simpl in Hx, Hy; try done;
    try (subst; simpl; lia).
  unfold f64_mul, SFmul. cbn [xorb].
  destruct (round_exact false _ _ _ (int_val_mul _ _ _ _ _ _ Hx Hy) Hab) as (m & e & -> & H).
  exact H.
Qed.

Lemma int_val_add mx ex a my ey b m :
  int_val mx ex a -> int_val my ey b ->
  Zpos m = Zpos (fst (shl_align mx ex (Z.min ex ey))) + Zpos (fst (shl_align my ey (Z.min ex ey))) ->
  int_val m (Z.min ex ey) (a + b).
Proof.
  intros Hx Hy Hm.
  assert (Hal : forall m e a, int_val m e a -> forall e', e' <= e ->
            int_val (fst (shl_align m e e')) e' a).
  { intros m' e a' Hv e' He. pose proof (shl_align_val _ _ e' _ Hv) as H.
    unfold shl_align in *. destruct (e' - e) eqn:E; simpl in *; [|lia|done].
    by replace e' with e by lia. }
  pose proof (Hal _ _ _ Hx (Z.min ex ey) ltac:(lia)) as Hx'.
  pose proof (Hal _ _ _ Hy (Z.min ex ey) ltac:(lia)) as Hy'.
  set (e := Z.min ex ey) in *. set (k := Z.max 0 (- e)).
  exists k. repeat split; [lia..|].
  rewrite Hm, Z.mul_add_distr_r, Z.mul_add_distr_r.
  rewrite (int_val_scale _ _ _ k Hx'), (int_val_scale _ _ _ k Hy') by lia. done.
Qed.

Lemma f64_add_exact x y a b :
  is_int x a -> is_int y b -> a + b < 2 ^ 53 -> is_int (f64_add x y) (a + b).
Proof.
  intros Hx Hy Hab.
  destruct x as [sx|[]| |[] mx ex], y as [sy|[]| |[] my ey]; simpl in Hx, Hy; try done;
    subst; rewrite ?Z.add_0_r, ?Z.add_0_l; try exact Hx; try exact Hy;
    try (by destruct sx, sy).
  cbv beta iota zeta delta [f64_add SFadd cond_Zopp]. rewrite <- Pos2Z.inj_add.
  apply normalize_exact; [|done]. by eapply int_val_add.
Qed.

(** Truncation of a float that is an integer. *)
Lemma f_to_uint_exact max x z : is_int x z -> 0 <= z <= max -> f_to_uint max x = z.
Proof.
  intros Hx Hz. destruct x as [sx|[]| |[] m e]; simpl in *; try done.
  assert (He := int_val_scale _ _ _ (Z.max 0 (- e)) Hx ltac:(lia) ltac:(lia)).
  destruct (Z.leb_spec 0 e).
  - rewrite Z.max_l, Z.add_0_r, Z.mul_1_r in He by lia. lia.
  - rewrite Z.max_r, Z.add_opp_diag_r, Z.mul_1_r in He by lia. rewrite He.
    rewrite Z.div_mul by (apply Z.pow_nonzero; lia). lia.
Qed.

Lemma f_to_uint_range max x : 0 <= max -> 0 <= f_to_uint max x <= max.
Proof.
  intros Hm. destruct x as [|[]| |[] m e]; simpl; try lia.
  assert (0 <= (if 0 <=? e then Zpos m * 2 ^ e else Zpos m / 2 ^ (- e))); [|lia].
  case_if; [|apply Z.div_pos; [lia|]; bool_to_prop; apply Z.pow_pos_nonneg; lia].
  pose proof (Z.pow_nonneg 2 e). lia.
Qed.

#[export] Hint Resolve f64_of_Z_exact f64_mul_exact f64_add_exact : rust.
