(* ===== verification/FloatErr.v ===== *)
(** * Rounding error of binary64

    An upper bound on the products and quotients of non-negative doubles: the
    result exceeds the exact value by at most a relative 2^-52 and an absolute
    2^-1074.  The value of a double is a rational number. *)

From Stdlib Require Import SpecFloat QArith Qpower Qfield Lqa Lia.
From S2P Require Import Prelude Float.

#[local] Open Scope Z_scope.

(** ** Powers of two *)

Definition pow2 (e : Z) : Q := Qpower 2 e.

Lemma pow2_pos e : (0 < pow2 e)%Q.
Proof. apply Qpower_0_lt. reflexivity. Qed.

Lemma pow2_plus a b : (pow2 (a + b) == pow2 a * pow2 b)%Q.
Proof. apply Qpower_plus. discriminate. Qed.

Lemma pow2_Z k : 0 <= k -> (pow2 k == inject_Z (2 ^ k))%Q.
Proof. intros Hk. unfold pow2. symmetry. exact (Zpower_Qpower 2 k Hk). Qed.

Lemma pow2_le a b : a <= b -> (pow2 a <= pow2 b)%Q.
Proof.
  intros Hab. replace b with (a + (b - a)) by lia. rewrite pow2_plus, (pow2_Z (b - a)) by lia.
  assert (1 <= 2 ^ (b - a)) as H1 by (pose proof (Z.pow_pos_nonneg 2 (b - a)); lia).
  rewrite Zle_Qle in H1. pose proof (pow2_pos a). change (inject_Z 1) with 1%Q in H1. nra.
Qed.

(** ** Values *)

(** The value of a non-negative number; the others count as 0. *)
Definition fval (x : spec_float) : Q :=
  match x with S754_finite false m e => (inject_Z (Zpos m) * pow2 e)%Q | _ => 0 end.

(** A finite non-negative number. *)
Definition f_nonneg (x : spec_float) : Prop :=
  match x with S754_zero _ | S754_finite false _ _ => True | _ => False end.

Lemma fval_nonneg x : (0 <= fval x)%Q.
Proof.
  destruct x as [| | |[] m e]; try apply Qle_refl. simpl. pose proof (pow2_pos e).
  assert (0 <= inject_Z (Zpos m))%Q by (change 0%Q with (inject_Z 0); rewrite <- Zle_Qle; lia). nra.
Qed.

(** Truncation to an integer is below the value. *)
Lemma f_to_uint_le max x : f_nonneg x -> 0 <= max -> (inject_Z (f_to_uint max x) <= fval x)%Q.
Proof.
  intros Hx Hm. destruct x as [| | |[] m e]; simpl in Hx |- *; try done.
  set (z := if 0 <=? e then _ else _).
  assert (Hz : (inject_Z z <= inject_Z (Zpos m) * pow2 e)%Q).
  { unfold z. destruct (Z.leb_spec 0 e).
    - rewrite inject_Z_mult, (pow2_Z e) by done. apply Qle_refl.
    - pose proof (Z.mul_div_le (Zpos m) (2 ^ (- e))) as Hd.
      assert (0 < 2 ^ (- e)) as Hp by (apply Z.pow_pos_nonneg; lia). specialize (Hd Hp).
      set (q := Zpos m / 2 ^ (- e)) in *.
      rewrite Zle_Qle, inject_Z_mult, <- (pow2_Z (- e)) in Hd by lia.
      pose proof (pow2_pos e) as He. pose proof (pow2_plus e (- e)) as Hu.
      rewrite Z.add_opp_diag_r in Hu. change (pow2 0) with 1%Q in Hu.
      assert (Hq : (inject_Z q == pow2 e * (pow2 (- e) * inject_Z q))%Q)
        by (rewrite Qmult_assoc, <- Hu; ring).
      rewrite Hq. rewrite (Qmult_comm (inject_Z (Zpos m))). apply Qmult_le_l; done. }
  eapply Qle_trans; [|exact Hz]. rewrite <- Zle_Qle. lia.
Qed.

(** ** Shifting right *)

Lemma shr_1_div r : 0 <= shr_m r -> shr_m (shr_1 r) = shr_m r / 2 /\ 0 <= shr_m (shr_1 r).
Proof.
  destruct r as [m b s]. simpl. destruct m as [|[p|p|]|p]; cbn -[Z.div]; intros Hm; [done| | | |lia].
  - split; [|lia]. rewrite (Pos2Z.inj_xI p). apply Z.div_unique with 1; lia.
  - split; [|lia]. rewrite (Pos2Z.inj_xO p). apply Z.div_unique with 0; lia.
  - split; [reflexivity|lia].
Qed.

Lemma iter_shr_div n : forall r, 0 <= shr_m r ->
  shr_m (SpecFloat.iter_pos shr_1 n r) = shr_m r / 2 ^ Zpos n
  /\ 0 <= shr_m (SpecFloat.iter_pos shr_1 n r).
Proof.
  induction n as [n IH|n IH|]; intros r Hr; cbn [SpecFloat.iter_pos].
  - destruct (shr_1_div r Hr) as [H1 H2]. destruct (IH _ H2) as [H3 H4]. destruct (IH _ H4) as [H5 H6].
    split; [|done]. rewrite H5, H3, H1.
    rewrite !Z.div_div by (try apply Z.pow_pos_nonneg; lia). f_equal.
    rewrite (Pos2Z.inj_xI n). replace (2 * Zpos n + 1) with (1 + (Zpos n + Zpos n)) by lia.
    rewrite !Z.pow_add_r by lia. ring.
  - destruct (IH _ Hr) as [H3 H4]. destruct (IH _ H4) as [H5 H6]. split; [|done].
    rewrite H5, H3, Z.div_div by (try apply Z.pow_pos_nonneg; lia). f_equal.
    rewrite (Pos2Z.inj_xO n). replace (2 * Zpos n) with (Zpos n + Zpos n) by lia.
    by rewrite Z.pow_add_r by lia.
  - by apply shr_1_div.
Qed.

(** [shr] keeps the integer part, and its value only decreases. *)
Lemma shr_spec m l e n :
  0 <= m -> let '(r, e') := shr (shr_record_of_loc m l) e n in
  0 <= shr_m r /\ e' = e + Z.max 0 n /\ (inject_Z (shr_m r) * pow2 e' <= inject_Z m * pow2 e)%Q
  /\ (n <= 0 -> r = shr_record_of_loc m l).
Proof.
  intros Hm. assert (Hsm : shr_m (shr_record_of_loc m l) = m) by (by destruct l as [|[]]).
  destruct n as [|n|n]; cbn [shr].
  - rewrite Hsm. split_and!; [done|lia|apply Qle_refl|done].
  - destruct (iter_shr_div n (shr_record_of_loc m l)) as [H1 H2]; [by rewrite Hsm|].
    rewrite Hsm in H1. rewrite H1 in H2 |- *. split_and!; [done|lia| |lia].
    pose proof (Z.mul_div_le m (2 ^ Zpos n) ltac:(apply Z.pow_pos_nonneg; lia)) as Hd.
    set (q := m / 2 ^ Zpos n) in *. rewrite pow2_plus, (pow2_Z (Zpos n)) by lia.
    rewrite Zle_Qle, inject_Z_mult in Hd. pose proof (pow2_pos e).
    assert (inject_Z q * (pow2 e * inject_Z (2 ^ Zpos n)) == inject_Z (2 ^ Zpos n) * inject_Z q * pow2 e)%Q
      as -> by ring.
    by apply Qmult_le_compat_r; [|apply Qlt_le_weak].
  - rewrite Hsm. split_and!; [done|lia|apply Qle_refl|done].
Qed.

(** ** Rounding *)

Definition fexp64 (e : Z) : Z := Z.max (e - 53) (-1074).

Lemma nearest_even_range m l : m <= round_nearest_even m l <= m + 1.
Proof. destruct l as [|[]]; simpl; try lia. destruct (Z.even m); lia. Qed.

Lemma Zdigits2_lower m : 0 < m -> 2 ^ (Zdigits2 m - 1) <= m.
Proof. destruct m as [|p|p]; try lia. intros _. apply digits2_pos_bounds. Qed.

(** One unit in the last place of the result is small against the exact value. *)
Lemma ulp_small mx ex :
  0 <= mx -> ex <= fexp64 (Zdigits2 mx + ex) ->
  (pow2 (fexp64 (Zdigits2 mx + ex)) <= inject_Z mx * pow2 ex * pow2 (-52) + pow2 (-1074))%Q.
Proof.
  intros Hm Hk. set (D := Zdigits2 mx) in *. pose proof (pow2_pos (-1074)) as Hmin.
  assert (HX : (0 <= inject_Z mx * pow2 ex * pow2 (-52))%Q).
  { pose proof (pow2_pos ex). pose proof (pow2_pos (-52)).
    assert (0 <= inject_Z mx)%Q by (change 0%Q with (inject_Z 0); by rewrite <- Zle_Qle).
    repeat apply Qmult_le_0_compat; auto using Qlt_le_weak. }
  unfold fexp64 in *. destruct (Z.le_gt_cases (D + ex - 53) (-1074)) as [Hs|Hs].
  - rewrite Z.max_r by done. lra.
  - rewrite Z.max_l by lia. assert (0 < mx) as Hm0.
    { destruct (Z.eq_dec mx 0) as [->|]; [|lia]. unfold D in *. simpl in *. lia. }
    pose proof (Zdigits2_lower mx Hm0) as Hd. fold D in Hd.
    rewrite Zle_Qle, <- (pow2_Z (D - 1)) in Hd by lia.
    replace (D + ex - 53) with ((D - 1) + ex + (-52)) by lia. rewrite !pow2_plus.
    pose proof (pow2_pos ex) as He. pose proof (pow2_pos (-52)) as H52.
    assert (pow2 (D - 1) * pow2 ex * pow2 (-52) <= inject_Z mx * pow2 ex * pow2 (-52))%Q; [|lra].
    apply Qmult_le_compat_r; [|lra]. apply Qmult_le_compat_r; [done|lra].
Qed.

Lemma round_aux_le mx ex lx :
  0 <= mx -> lx = loc_Exact \/ ex <= fexp64 (Zdigits2 mx + ex) ->
  let X := (inject_Z mx * pow2 ex)%Q in
  (X <= pow2 900)%Q ->
  f_nonneg (binary_round_aux 53 1024 false mx ex lx)
  /\ (fval (binary_round_aux 53 1024 false mx ex lx) <= X + X * pow2 (-52) + pow2 (-1074))%Q.
Proof.
  intros Hm Hl X HX. unfold binary_round_aux, shr_fexp.
  change (SpecFloat.fexp 53 1024) with fexp64. set (k1 := fexp64 (Zdigits2 mx + ex) - ex) in *.
  pose proof (shr_spec mx lx ex k1 Hm) as H1. destruct (shr _ ex k1) as [r1 e1].
  destruct H1 as (Hm1 & He1 & Hv1 & Hid). fold X in Hv1.
  set (c := round_nearest_even _ _). pose proof (nearest_even_range (shr_m r1) (loc_of_shr_record r1)) as Hc.
  fold c in Hc. pose proof (pow2_pos (-1074)) as Hmin. pose proof (pow2_pos (-52)) as H52.
  pose proof (pow2_pos e1) as Hpe1. pose proof (pow2_pos ex) as Hpex.
  assert (HX0 : (0 <= X)%Q).
  { apply Qmult_le_0_compat; [change 0%Q with (inject_Z 0); by rewrite <- Zle_Qle|lra]. }
  assert (Hcv : (inject_Z c * pow2 e1 <= X + X * pow2 (-52) + pow2 (-1074))%Q).
  { destruct (Z.le_gt_cases 0 k1) as [Hk|Hk].
    - rewrite Z.max_r in He1 by done.
      assert (e1 = fexp64 (Zdigits2 mx + ex)) as -> by (unfold k1 in He1; lia).
      pose proof (ulp_small mx ex Hm ltac:(unfold k1 in Hk; lia)) as Hu. fold X in Hu.
      destruct Hc as [_ Hc]. rewrite Zle_Qle, inject_Z_plus in Hc. change (inject_Z 1) with 1%Q in Hc.
      apply (Qmult_le_compat_r _ _ (pow2 (fexp64 (Zdigits2 mx + ex)))) in Hc; [|lra]. lra.
    - destruct Hl as [->|Hl]; [|unfold k1 in Hk; lia]. assert (Hr1 := Hid ltac:(lia)).
      assert (c = shr_m r1) as -> by (unfold c; rewrite Hr1; reflexivity).
      assert (0 <= X * pow2 (-52))%Q by (apply Qmult_le_0_compat; lra). lra. }
  pose proof (shr_spec c loc_Exact e1 (fexp64 (Zdigits2 c + e1) - e1) ltac:(lia)) as H2.
  destruct (shr _ e1 _) as [r2 e2]. destruct H2 as (Hm2 & _ & Hv2 & _).
  assert (Hfin : (inject_Z (shr_m r2) * pow2 e2 <= X + X * pow2 (-52) + pow2 (-1074))%Q)
    by (eapply Qle_trans; [exact Hv2|exact Hcv]).
  destruct (shr_m r2) as [|p|p] eqn:Er2; [|destruct (e2 <=? 1024 - 53) eqn:Ee|lia].
  - split; [done|]. cbn [fval]. assert (0 <= X * pow2 (-52))%Q by (apply Qmult_le_0_compat; lra). lra.
  - split; [done|exact Hfin].
  - exfalso. bool_to_prop. pose proof (pow2_le 972 e2 ltac:(lia)) as H972. pose proof (pow2_pos e2) as Hpe2.
    assert (1 <= inject_Z (Zpos p))%Q by (change 1%Q with (inject_Z 1); rewrite <- Zle_Qle; lia).
    assert (pow2 e2 <= inject_Z (Zpos p) * pow2 e2)%Q by nra.
    assert (Hbig : (X + X * pow2 (-52) + pow2 (-1074) < pow2 972)%Q); [|lra].
    assert (Hs1 : (pow2 (-52) <= 1)%Q) by (apply (pow2_le (-52) 0); lia).
    assert (Hs2 : (pow2 (-1074) <= pow2 900)%Q) by (apply pow2_le; lia).
    assert (Hs3 : (pow2 972 == pow2 902 * pow2 70)%Q) by (rewrite <- pow2_plus; reflexivity).
    assert (Hs4 : (pow2 902 == pow2 900 * 4)%Q) by (change 4%Q with (pow2 2); rewrite <- pow2_plus; reflexivity).
    assert (Hs5 : (2 <= pow2 70)%Q) by (apply (pow2_le 1 70); lia).
    pose proof (pow2_pos 900). rewrite Hs3, Hs4.
    assert (X * pow2 (-52) <= X * 1)%Q by (rewrite (Qmult_comm X (pow2 _)), (Qmult_comm X 1); by apply Qmult_le_compat_r). nra.
Qed.

(** ** Products and quotients *)

(** The bound both operations share. *)
Definition rounded_le (x : spec_float) (X : Q) : Prop :=
  f_nonneg x /\ (fval x <= X + X * pow2 (-52) + pow2 (-1074))%Q.

Lemma rounded_zero X s : (0 <= X)%Q -> rounded_le (S754_zero s) X.
Proof.
  intros HX. split; [done|]. cbn [fval]. pose proof (pow2_pos (-1074)). pose proof (pow2_pos (-52)).
  assert (0 <= X * pow2 (-52))%Q by (apply Qmult_le_0_compat; lra). lra.
Qed.

Lemma rounded_mono x X Y : (X <= Y)%Q -> rounded_le x X -> rounded_le x Y.
Proof.
  intros HXY [Hn Hx]. split; [done|]. pose proof (pow2_pos (-52)).
  assert (X * pow2 (-52) <= Y * pow2 (-52))%Q by (apply Qmult_le_compat_r; lra). lra.
Qed.

Lemma f64_mul_le x y :
  f_nonneg x -> f_nonneg y -> (fval x * fval y <= pow2 900)%Q ->
  rounded_le (f64_mul x y) (fval x * fval y).
Proof.
  intros Hx Hy HX.
  destruct x as [sx| | |[] mx ex], y as [sy| | |[] my ey]; try done;
    try (apply rounded_zero; apply Qmult_le_0_compat; apply fval_nonneg).
  assert (Heq : (fval (S754_finite false mx ex) * fval (S754_finite false my ey)
    == inject_Z (Zpos (mx * my)) * pow2 (ex + ey))%Q).
  { cbn [fval]. rewrite pow2_plus, Pos2Z.inj_mul, inject_Z_mult. ring. }
  rewrite Heq in HX.
  apply (rounded_mono _ (inject_Z (Zpos (mx * my)) * pow2 (ex + ey))); [rewrite Heq; apply Qle_refl|].
  apply round_aux_le; [lia|by left|done].
Qed.

(** The quotient of the mantissas: below the exact one, and precise enough. *)
Lemma div_core_spec mx ex my ey :
  let '(q, e, l) := SFdiv_core_binary 53 1024 (Zpos mx) ex (Zpos my) ey in
  0 <= q /\ (inject_Z q * pow2 e * (inject_Z (Zpos my) * pow2 ey) <= inject_Z (Zpos mx) * pow2 ex)%Q
  /\ e <= fexp64 (Zdigits2 q + e).
Proof.
  unfold SFdiv_core_binary. change (SpecFloat.fexp 53 1024) with fexp64.
  set (d1 := Zdigits2 (Zpos mx)). set (d2 := Zdigits2 (Zpos my)).
  set (e := Z.min (fexp64 (d1 + ex - (d2 + ey))) (ex - ey)). set (s := ex - ey - e).
  assert (Hs : 0 <= s) by (unfold s, e; lia).
  set (m' := match s with Z0 => _ | Zpos _ => _ | Zneg _ => _ end).
  assert (Hm' : m' = Zpos mx * 2 ^ s).
  { unfold m'. destruct s as [|p|p]; [by rewrite Z.mul_1_r|by rewrite Z.shiftl_mul_pow2|lia]. }
  clearbody m'. pose proof (Z_div_mod m' (Zpos my) ltac:(lia)) as Hdm.
  destruct (Z.div_eucl m' (Zpos my)) as [q r]. destruct Hdm as [Hqr Hr].
  assert (Hp : 0 < 2 ^ s) by (apply Z.pow_pos_nonneg; lia).
  assert (Hq : 0 <= q) by nia. split; [done|]. split.
  - assert (Hle : Zpos my * q <= Zpos mx * 2 ^ s) by lia.
    rewrite Zle_Qle, !inject_Z_mult, <- (pow2_Z s) in Hle by done.
    replace ex with (e + ey + s) by (unfold s; lia). rewrite !pow2_plus.
    pose proof (pow2_pos e). pose proof (pow2_pos ey).
    assert (0 < pow2 e * pow2 ey)%Q as Hee by nra.
    apply (Qmult_le_compat_r _ _ (pow2 e * pow2 ey)) in Hle; [|lra].
    lra.
  - unfold fexp64 in *. destruct (Z.le_gt_cases (d1 + ex - (d2 + ey) - 53) (-1074)) as [Hc|Hc];
      [unfold e; lia|].
    pose proof (digits2_pos_bounds mx) as [Hd1 _]. pose proof (digits2_pos_bounds my) as [_ Hd2].
    change (Zpos (digits2_pos mx)) with d1 in Hd1. change (Zpos (digits2_pos my)) with d2 in Hd2.
    assert (0 < d1 /\ 0 < d2) as [Hd1p Hd2p] by (unfold d1, d2; simpl; lia).
    set (k := d1 - d2 + s - 1). assert (Hk : 0 <= k) by (unfold k, s, e; lia).
    assert (Hqk : 2 ^ k <= q).
    { assert (2 ^ k * 2 ^ d2 <= m') as H1.
      { rewrite Hm', <- Z.pow_add_r by lia. replace (k + d2) with ((d1 - 1) + s) by (unfold k; lia).
        rewrite Z.pow_add_r by lia. nia. }
      assert (0 < 2 ^ k) by (apply Z.pow_pos_nonneg; lia). nia. }
    assert (Hdq : k < Zdigits2 q).
    { destruct q as [|q|q]; [pose proof (Z.pow_pos_nonneg 2 k); lia| |lia].
      pose proof (digits2_pos_bounds q) as [_ Hq2]. simpl Zdigits2.
      apply (Z.pow_lt_mono_r_iff 2); lia. }
    unfold k, s, e in *. lia.
Qed.

Lemma f64_div_le x y :
  f_nonneg x -> f_nonneg y -> (0 < fval y)%Q -> (fval x / fval y <= pow2 900)%Q ->
  rounded_le (f64_div x y) (fval x / fval y).
Proof.
  intros Hx Hy Hpos HX.
  assert (Hq0 : (0 <= fval x / fval y)%Q)
    by (apply Qle_shift_div_l; [done|]; rewrite Qmult_0_l; apply fval_nonneg).
  destruct y as [sy| | |[] my ey]; try done.
  destruct x as [sx| | |[] mx ex]; try done; try (by apply rounded_zero).
  unfold f64_div, SFdiv. pose proof (div_core_spec mx ex my ey) as Hcore.
  destruct (SFdiv_core_binary _ _ _ _ _ _) as [[q e] l]. destruct Hcore as (Hq & Hv & He).
  assert (Hle : (inject_Z q * pow2 e <= fval (S754_finite false mx ex) / fval (S754_finite false my ey))%Q)
    by (apply Qle_shift_div_l; [done|exact Hv]).
  apply (rounded_mono _ _ _ Hle). apply round_aux_le; [done|by right|].
  eapply Qle_trans; [exact Hle|exact HX].
Qed.

(** Conversion of an integer below 2^53 is exact. *)
Lemma fval_of_Z z : 0 <= z < 2 ^ 53 -> f_nonneg (f64_of_Z z) /\ (fval (f64_of_Z z) == inject_Z z)%Q.
Proof.
  intros Hz. pose proof (f64_of_Z_exact z Hz) as Hi. destruct (f64_of_Z z) as [s|[]| |[] m e]; simpl in Hi; try done.
  - by subst.
  - split; [done|]. cbn [fval].
    assert (Hs := int_val_scale m e z (Z.max 0 (- e)) Hi ltac:(lia) ltac:(lia)).
    set (k := Z.max 0 (- e)) in *.
    apply (f_equal inject_Z) in Hs. rewrite !inject_Z_mult in Hs.
    assert (He : (pow2 (e + k) == pow2 e * pow2 k)%Q) by apply pow2_plus.
    pose proof (pow2_pos k) as Hk.
    apply (Qmult_inj_r _ _ (pow2 k)); [lra|].
    rewrite <- Qmult_assoc, <- He, (pow2_Z (e + k)), (pow2_Z k) by lia. by rewrite Hs.
Qed.
