(* ===== verification/FloatMono.v ===== *)
(** * Rounding of binary64 is monotone

    Correct rounding to nearest, ties to even, of the non-negative doubles, stated
    on rational values: which multiple of the unit in the last place a product or an
    integer rounds to, and that rounding, overflow included, preserves the order. *)

From Stdlib Require Import SpecFloat QArith Qpower Qround Lqa Lia.
From S2P Require Import Prelude Float FloatErr.

#[local] Open Scope Z_scope.

(** ** Shifting right keeps the information rounding needs *)

(** [r] is [orig] after [n] shifts: twice the original is the mantissa with the
    round bit, scaled, plus a rest the sticky bit stands for. *)
Definition shifted (orig n : Z) (r : shr_record) : Prop :=
  0 <= n /\ 0 <= shr_m r /\ exists rest,
    2 * orig = 2 ^ n * (2 * shr_m r + Z.b2z (shr_r r)) + rest /\ 0 <= rest < 2 ^ n /\
    shr_s r = negb (rest =? 0).

Lemma shifted_0 m : 0 <= m -> shifted m 0 (shr_record_of_loc m loc_Exact).
Proof. intros Hm. split; [done|]. split; [done|]. exists 0. simpl. split; [lia|done]. Qed.

Lemma shifted_1 orig n r : shifted orig n r -> shifted orig (n + 1) (shr_1 r).
Proof.
  intros (Hn & Hm & rest & Heq & Hrest & Hs). destruct r as [m r s]. cbn [shr_m shr_r shr_s] in *. subst s.
  assert (Hp : 2 ^ (n + 1) = 2 * 2 ^ n) by (rewrite Z.pow_add_r by lia; lia).
  assert (0 < 2 ^ n) by (apply Z.pow_pos_nonneg; lia).
  assert (Hm' : shr_m (shr_1 {| shr_m := m; shr_r := r; shr_s := negb (rest =? 0) |}) = m / 2
    /\ shr_r (shr_1 {| shr_m := m; shr_r := r; shr_s := negb (rest =? 0) |}) = Z.odd m
    /\ shr_s (shr_1 {| shr_m := m; shr_r := r; shr_s := negb (rest =? 0) |}) = r || negb (rest =? 0)).
  { destruct m as [|[p|p|]|p]; cbn -[Z.div]; try lia; split_and!; try done.
    - rewrite (Pos2Z.inj_xI p). apply Z.div_unique with 1; lia.
    - rewrite (Pos2Z.inj_xO p). apply Z.div_unique with 0; lia. }
  destruct Hm' as (E1 & E2 & E3). rewrite <- Zdiv2_div in E1.
  pose proof (Zdiv2_odd_eqn m) as Hodd. unfold shifted. rewrite E1, E2, E3. split; [lia|].
  split; [rewrite Zdiv2_div; apply Z.div_pos; lia|]. exists (2 ^ n * Z.b2z r + rest). split; [|split].
  - rewrite Hp. rewrite Heq. rewrite Hodd at 1. unfold Z.b2z. destruct (Z.odd m), r; ring.
  - rewrite Hp. destruct r; cbn [Z.b2z]; lia.
  - destruct r; cbn [Z.b2z orb]; [|f_equal; f_equal; lia].
    symmetry. apply negb_true_iff, Z.eqb_neq. lia.
Qed.

Lemma shifted_iter p : forall orig n r, shifted orig n r -> shifted orig (n + Zpos p) (SpecFloat.iter_pos shr_1 p r).
Proof.
  induction p as [p IH|p IH|]; intros orig n r Hr; cbn [SpecFloat.iter_pos].
  - replace (n + Zpos p~1) with (n + 1 + Zpos p + Zpos p) by lia. by apply IH, IH, shifted_1.
  - replace (n + Zpos p~0) with (n + Zpos p + Zpos p) by lia. by apply IH, IH.
  - by apply shifted_1.
Qed.

(** [c] is [orig / 2^n] rounded to nearest, ties to even. *)
Definition nearest (orig n c : Z) : Prop :=
  2 ^ n * (2 * c - 1) <= 2 * orig <= 2 ^ n * (2 * c + 1) /\
  (2 ^ n * (2 * c - 1) = 2 * orig \/ 2 ^ n * (2 * c + 1) = 2 * orig -> Z.even c = true).

Lemma shifted_nearest orig n r :
  shifted orig n r -> nearest orig n (round_nearest_even (shr_m r) (loc_of_shr_record r)).
Proof.
  intros (Hn & Hm & rest & Heq & Hrest & Hs). assert (Hp : 0 < 2 ^ n) by (apply Z.pow_pos_nonneg; lia).
  unfold nearest. set (u := 2 ^ n) in *. clearbody u.
  destruct r as [m [] s]; cbn [shr_m shr_r shr_s Z.b2z loc_of_shr_record] in *; subst s;
    destruct (Z.eqb_spec rest 0) as [->|Hne]; cbn [negb]; unfold round_nearest_even.
  - destruct (Z.even m) eqn:Em; (split; [lia|]); [done|intros _].
    by rewrite Z.even_add, Em.
  - split; [lia|]. intros [H1|H1]; exfalso; lia.
  - split; [lia|]. intros [H1|H1]; exfalso; lia.
  - split; [lia|]. intros [H1|H1]; exfalso; lia.
Qed.

Lemma shr_nearest m e n :
  0 <= m ->
  let '(r, e') := shr (shr_record_of_loc m loc_Exact) e n in
  e' = e + Z.max 0 n /\ nearest m (Z.max 0 n) (round_nearest_even (shr_m r) (loc_of_shr_record r)).
Proof.
  intros Hm. destruct n as [|n|n]; cbn [shr].
  - split; [lia|]. apply shifted_nearest, shifted_0, Hm.
  - split; [lia|]. apply shifted_nearest. apply (shifted_iter n m 0), shifted_0, Hm.
  - split; [lia|]. apply shifted_nearest, shifted_0, Hm.
Qed.

(** ** The rounded value *)

(** [V] is [X] rounded to a multiple of [2^F]. *)
Definition rounded_at (X : Q) (F : Z) (V : Q) : Prop :=
  exists c, 0 <= c /\ (V == inject_Z c * pow2 F)%Q /\
    ((2 * inject_Z c - 1) * pow2 F <= 2 * X)%Q /\ (2 * X <= (2 * inject_Z c + 1) * pow2 F)%Q /\
    ((2 * inject_Z c - 1) * pow2 F == 2 * X \/ (2 * inject_Z c + 1) * pow2 F == 2 * X ->
       Z.even c = true)%Q.

(** The result of rounding to the value [V]: the value, or infinity above the range. *)
Definition overflowed (x : spec_float) (V : Q) : Prop :=
  (V < pow2 1024)%Q /\ f_nonneg x /\ (fval x == V)%Q \/
  (pow2 1024 <= V)%Q /\ x = S754_infinity false.

(** A number of the form [mx * 2^ex], and its exponent. *)
Definition mant (mx ex : Z) : Q := (inject_Z mx * pow2 ex)%Q.

Lemma mant_shift mx ex n : 0 <= n -> (mant (mx * 2 ^ n) ex == mant mx (ex + n))%Q.
Proof. intros Hn. unfold mant. rewrite inject_Z_mult, <- pow2_Z, pow2_plus by done. ring. Qed.

Lemma mant_le m m' e : m <= m' -> (mant m e <= mant m' e)%Q.
Proof.
  intros Hm. unfold mant. pose proof (pow2_pos e). apply Qmult_le_compat_r; [|lra]. by rewrite <- Zle_Qle.
Qed.

Lemma mant_bounds mx ex :
  0 < mx -> (pow2 (Zdigits2 mx + ex - 1) <= mant mx ex)%Q /\ (mant mx ex < pow2 (Zdigits2 mx + ex))%Q.
Proof.
  intros Hm. destruct mx as [|p|p]; try lia. pose proof (digits2_pos_bounds p) as [H1 H2].
  cbn [Zdigits2]. set (d := Zpos (digits2_pos p)) in *. assert (0 < d) by (unfold d; lia).
  pose proof (pow2_pos ex). unfold mant. split.
  - replace (d + ex - 1) with (d - 1 + ex) by lia. rewrite pow2_plus.
    apply Qmult_le_compat_r; [|lra]. rewrite (pow2_Z (d - 1)) by lia. by rewrite <- Zle_Qle.
  - rewrite pow2_plus. apply Qmult_lt_compat_r; [done|]. rewrite (pow2_Z d) by lia. by rewrite <- Zlt_Qlt.
Qed.

(** The rounded mantissa fits the precision, but for one power of two. *)
Lemma nearest_mantissa mx n c : 0 <= n -> 0 < mx -> Zdigits2 mx <= 53 + n -> nearest mx n c -> 0 <= c <= 2 ^ 53.
Proof.
  intros Hn Hm Hd [[H1 H2] _]. assert (Hp : 0 < 2 ^ n) by (apply Z.pow_pos_nonneg; lia). split; [nia|].
  destruct mx as [|p|p]; try lia. pose proof (digits2_pos_bounds p) as [_ Hb]. cbn [Zdigits2] in Hd.
  assert (Hlt : 2 ^ Zpos (digits2_pos p) <= 2 ^ (53 + n)) by (apply Z.pow_le_mono_r; lia).
  rewrite (Z.pow_add_r 2 53 n) in Hlt by lia. nia.
Qed.

(** The second normalisation loses nothing. *)
Lemma renormalise c e :
  0 <= c <= 2 ^ 53 -> -1074 <= e ->
  let '(r, e') := shr (shr_record_of_loc c loc_Exact) e (fexp64 (Zdigits2 c + e) - e) in
  (mant (shr_m r) e' == mant c e)%Q /\ 0 <= shr_m r < 2 ^ 53 /\ e <= e' /\
  (e < e' -> shr_m r = 2 ^ 52).
Proof.
  intros Hc He. destruct (Z.eq_dec c (2 ^ 53)) as [->|Hne].
  - change (Zdigits2 (2 ^ 53)) with 54. assert (fexp64 (54 + e) - e = 1) as -> by (unfold fexp64; lia).
    cbn [shr]. change (SpecFloat.iter_pos shr_1 1 (shr_record_of_loc (2 ^ 53) loc_Exact))
      with {| shr_m := 2 ^ 52; shr_r := false; shr_s := false |}. cbn [shr_m]. split_and!; [|lia..].
    rewrite <- (mant_shift (2 ^ 52) e 1) by lia. reflexivity.
  - assert (Hd : Zdigits2 c <= 53).
    { destruct c as [|p|p]; [simpl; lia| |lia]. apply digits2_pos_le; lia. }
    assert (Hf : fexp64 (Zdigits2 c + e) - e <= 0) by (unfold fexp64; lia).
    destruct (fexp64 (Zdigits2 c + e) - e) as [|p|p]; [|lia|]; cbn [shr shr_record_of_loc shr_m];
      (split_and!; [reflexivity|lia..]).
Qed.

(** A mantissa with all its digits, or a subnormal one, gives a canonical result. *)
Lemma renormalise_canonical c e :
  0 <= c <= 2 ^ 53 -> -1074 <= e -> (e <> -1074 -> 2 ^ 52 <= c) ->
  let '(r, e') := shr (shr_record_of_loc c loc_Exact) e (fexp64 (Zdigits2 c + e) - e) in
  forall p, shr_m r = Zpos p -> fexp64 (Zpos (digits2_pos p) + e') = e'.
Proof.
  intros Hc He Hfull. pose proof (renormalise c e Hc He) as H.
  destruct (shr (shr_record_of_loc c loc_Exact) e (fexp64 (Zdigits2 c + e) - e)) as [r e'].
  destruct H as (Hv & Hr & He' & Hbig). intros p Hp. destruct (digits2_pos_bounds p) as [Hd1 Hd2]. rewrite Hp in *.
  assert (Hle : Zpos (digits2_pos p) <= 53) by (apply digits2_pos_le; lia).
  destruct (Z.eq_dec e' (-1074)) as [->|Hne]; [unfold fexp64; lia|].
  assert (H52 : 2 ^ 52 <= Zpos p).
  { destruct (Z.eq_dec e e') as [<-|]; [|assert (Zpos p = 2 ^ 52) by (apply Hbig; lia); lia]. specialize (Hfull Hne).
    unfold mant in Hv. apply Qmult_inj_r in Hv; [|pose proof (pow2_pos e); lra].
    apply (proj1 (inject_Z_injective _ _)) in Hv. lia. }
  assert (53 <= Zpos (digits2_pos p)); [|unfold fexp64; lia].
  destruct (Z_le_gt_dec 53 (Zpos (digits2_pos p))) as [|Hgt]; [done|exfalso].
  assert (2 ^ Zpos (digits2_pos p) <= 2 ^ 52) by (apply Z.pow_le_mono_r; lia). lia.
Qed.

(** A double as the format has it: normalised, or subnormal. *)
Definition f64_ok (x : spec_float) : Prop :=
  match x with
  | S754_finite _ m e => fexp64 (Zpos (digits2_pos m) + e) = e /\ e <= 971
  | _ => True
  end.

Lemma valid_f64_ok x : valid_binary 53 1024 x = true -> f64_ok x.
Proof.
  destruct x as [| | |s m e]; try done. simpl. unfold bounded, canonical_mantissa.
  change (SpecFloat.fexp 53 1024) with fexp64. intros Hb. bool_to_prop. lia.
Qed.

Lemma nearest_rounded mx ex n c :
  0 <= n -> 0 <= c -> nearest mx n c -> rounded_at (mant mx ex) (ex + n) (mant c (ex + n)).
Proof.
  intros Hn Hc [[H1 H2] Heven]. exists c. split; [done|]. split; [reflexivity|].
  assert (Hs : forall k, ((2 * inject_Z c + inject_Z k) * pow2 (ex + n) == mant (2 ^ n * (2 * c + k)) ex)%Q).
  { intros k. rewrite (Z.mul_comm (2 ^ n)), mant_shift by done. unfold mant.
    rewrite inject_Z_plus, inject_Z_mult. reflexivity. }
  assert (Hx : (2 * mant mx ex == mant (2 * mx) ex)%Q) by (unfold mant; rewrite inject_Z_mult; ring).
  assert (Hlo : ((2 * inject_Z c - 1) * pow2 (ex + n) == mant (2 ^ n * (2 * c - 1)) ex)%Q) by exact (Hs (-1)).
  assert (Hhi : ((2 * inject_Z c + 1) * pow2 (ex + n) == mant (2 ^ n * (2 * c + 1)) ex)%Q) by exact (Hs 1).
  rewrite Hlo, Hhi, Hx. pose proof (pow2_pos ex) as Hp. split_and!; [by apply mant_le..|].
  intros Heq. apply Heven. unfold mant in Heq.
  destruct Heq as [Heq|Heq]; [left|right];
    (apply Qmult_inj_r in Heq; [by apply (proj1 (inject_Z_injective _ _))|lra]).
Qed.

(** What the rounding of [mx * 2^ex] returns. *)
Lemma round_aux_rounded mx ex :
  0 < mx -> ex <= fexp64 (Zdigits2 mx + ex) ->
  let F := fexp64 (Zdigits2 mx + ex) in
  let r := binary_round_aux 53 1024 false mx ex loc_Exact in
  exists V, rounded_at (mant mx ex) F V /\ overflowed r V /\ f64_ok r.
Proof.
  intros Hm Hal F r. unfold r, binary_round_aux, shr_fexp. change (SpecFloat.fexp 53 1024) with fexp64.
  pose proof (shr_nearest mx ex (F - ex) ltac:(lia)) as H1. fold F.
  destruct (shr (shr_record_of_loc mx loc_Exact) ex (F - ex)) as [r1 e1]. destruct H1 as [He1 Hn].
  rewrite Z.max_r in He1, Hn by lia. assert (e1 = F) as -> by lia. clear He1.
  set (c := round_nearest_even _ _) in *.
  assert (HF : F = Z.max (Zdigits2 mx + ex - 53) (-1074)) by reflexivity.
  assert (Hc : 0 <= c <= 2 ^ 53) by (eapply nearest_mantissa; [|exact Hm| |exact Hn]; lia).
  pose proof (renormalise c F Hc ltac:(lia)) as H2.
  pose proof (renormalise_canonical c F Hc ltac:(lia)) as Hcan'.
  destruct (shr (shr_record_of_loc c loc_Exact) F (fexp64 (Zdigits2 c + F) - F)) as [r2 e2].
  destruct H2 as (Hv & Hr2 & He2 & Hbig). exists (mant c F).
  assert (Hr : rounded_at (mant mx ex) F (mant c F)).
  { pose proof (nearest_rounded mx ex (F - ex) c ltac:(lia) (proj1 Hc) Hn) as Hr.
    by replace (ex + (F - ex)) with F in Hr by lia. }
  split; [exact Hr|]. clear Hr.
  (* a normal result has all its digits *)
  assert (Hfull : F <> -1074 -> 2 ^ 52 <= c).
  { intros Hne. destruct (mant_bounds mx ex Hm) as [Hlo _]. destruct Hn as [[_ H2] _].
    assert (Hd : 2 ^ (Zdigits2 mx - 1) <= mx) by (by apply Zdigits2_lower).
    assert (E : 2 ^ (Zdigits2 mx - 1) = 2 ^ (F - ex) * 2 ^ 52).
    { rewrite <- Z.pow_add_r by lia. f_equal. lia. }
    assert (0 < 2 ^ (F - ex)) by (apply Z.pow_pos_nonneg; lia). nia. }
  pose proof (Hcan' Hfull) as Hcan. clear Hcan'.
  destruct (shr_m r2) as [|p|p] eqn:Ep; [|destruct (e2 <=? 1024 - 53) eqn:Ee|lia]; bool_to_prop.
  - split; [|done]. left. rewrite <- Hv. split; [|done]. unfold mant. pose proof (pow2_pos 1024).
    change (inject_Z 0) with 0%Q. rewrite Qmult_0_l. done.
  - split; [|split; [by apply Hcan|lia]]. left. rewrite <- Hv. split; [|done].
    apply Qlt_le_trans with (mant (2 ^ 53) e2).
    + unfold mant. apply Qmult_lt_compat_r; [apply pow2_pos|]. rewrite <- Zlt_Qlt. lia.
    + unfold mant. rewrite <- pow2_Z, <- pow2_plus by lia. apply pow2_le. lia.
  - split; [|done]. right. split; [|done]. rewrite <- Hv.
    specialize (Hcan p eq_refl). destruct (digits2_pos_bounds p) as [Hd1 _].
    assert (E : Zpos (digits2_pos p) = 53) by (unfold fexp64 in Hcan; lia). rewrite E in Hd1.
    apply Qle_trans with (mant (2 ^ 52) e2); [|by apply mant_le].
    unfold mant. rewrite <- pow2_Z, <- pow2_plus by lia. apply pow2_le. lia.
Qed.

(** ** Rounding preserves the order *)

Lemma mant_le_inv m m' e : (mant m e <= mant m' e)%Q -> m <= m'.
Proof.
  intros H. apply Qmult_lt_0_le_reg_r in H; [|apply pow2_pos]. by rewrite <- Zle_Qle in H.
Qed.

(** A multiple of the unit is its own rounding, so it stays a bound. *)
Lemma rounded_at_below X F V k : rounded_at X F V -> (X <= mant k F)%Q -> (V <= mant k F)%Q.
Proof.
  intros (c & Hc & HV & Hlo & _ & _) HX. rewrite HV. apply mant_le.
  assert (mant (2 * c - 1) F <= mant (2 * k) F)%Q as H%mant_le_inv; [|lia].
  unfold mant, Z.sub in *. rewrite inject_Z_plus, !inject_Z_mult. change (inject_Z (- (1))) with (- (1))%Q.
  change (inject_Z 2) with 2%Q. lra.
Qed.

Lemma rounded_at_above X F V k : rounded_at X F V -> (mant k F <= X)%Q -> (mant k F <= V)%Q.
Proof.
  intros (c & Hc & HV & _ & Hhi & _) HX. rewrite HV. apply mant_le.
  assert (mant (2 * k) F <= mant (2 * c + 1) F)%Q as H%mant_le_inv; [|lia].
  unfold mant in *. rewrite inject_Z_plus, !inject_Z_mult. change (inject_Z 1) with 1%Q.
  change (inject_Z 2) with 2%Q. lra.
Qed.

Lemma rounded_at_same X Y F V W : rounded_at X F V -> rounded_at Y F W -> (X <= Y)%Q -> (V <= W)%Q.
Proof.
  intros (c & Hc & HV & Hlo & _ & Ht) (d & Hd & HW & _ & Hhi & Ht') HXY. rewrite HV, HW.
  destruct (Z.le_gt_cases c d) as [|Hgt]; [by apply mant_le|exfalso].
  set (u := pow2 F) in *. assert (Hu : (0 < u)%Q) by apply pow2_pos.
  assert (Hcd : ((2 * inject_Z c - 1) * u <= (2 * inject_Z d + 1) * u)%Q) by lra.
  apply Qmult_lt_0_le_reg_r in Hcd; [|done].
  assert (c = d + 1) as ->.
  { assert (inject_Z (2 * c) <= inject_Z (2 * d + 2))%Q as H; [|rewrite <- Zle_Qle in H; lia].
    rewrite inject_Z_plus, !inject_Z_mult. change (inject_Z 2) with 2%Q. lra. }
  rewrite inject_Z_plus in *. change (inject_Z 1) with 1%Q in *.
  assert (Ec : Z.even (d + 1) = true) by (apply Ht; left; lra).
  assert (Ed : Z.even d = true) by (apply Ht'; right; lra).
  by rewrite Z.even_add, Ed in Ec.
Qed.

(** [D] is the binary exponent of [X]. *)
Definition binade (X : Q) (D : Z) : Prop := (pow2 (D - 1) <= X)%Q /\ (X < pow2 D)%Q.

Lemma binade_le X Y D E : binade X D -> binade Y E -> (X <= Y)%Q -> D <= E.
Proof.
  intros [H1 H2] [H3 H4] HXY. destruct (Z.le_gt_cases D E) as [|Hgt]; [done|exfalso].
  pose proof (pow2_le E (D - 1) ltac:(lia)). lra.
Qed.

Lemma rounded_at_mono X Y D E V W :
  binade X D -> binade Y E -> (X <= Y)%Q ->
  rounded_at X (fexp64 D) V -> rounded_at Y (fexp64 E) W -> (V <= W)%Q.
Proof.
  intros HX HY HXY HV HW. pose proof (binade_le _ _ _ _ HX HY HXY) as HDE.
  destruct (Z.eq_dec (fexp64 D) (fexp64 E)) as [Heq|Hne].
  { rewrite Heq in HV. by eapply rounded_at_same. }
  assert (Hb : E - 53 = fexp64 E /\ fexp64 D <= E - 54 /\ D <= E - 1) by (unfold fexp64 in *; lia).
  assert (Hm : forall F, F <= E - 1 -> (mant (2 ^ (E - 1 - F)) F == pow2 (E - 1))%Q).
  { intros F HF. unfold mant. rewrite <- pow2_Z, <- pow2_plus by lia. f_equiv. lia. }
  destruct HX as [_ HX], HY as [HY _]. pose proof (pow2_le D (E - 1) ltac:(lia)) as Hp.
  apply Qle_trans with (pow2 (E - 1)).
  - rewrite <- (Hm (fexp64 D)) by lia. eapply rounded_at_below; [exact HV|]. rewrite Hm by lia. lra.
  - rewrite <- (Hm (fexp64 E)) by lia. eapply rounded_at_above; [exact HW|]. rewrite Hm by lia. lra.
Qed.

(** [r] is the double nearest to [X]. *)
Definition rounds (X : Q) (r : spec_float) : Prop :=
  exists D V, binade X D /\ rounded_at X (fexp64 D) V /\ overflowed r V /\ f64_ok r.

#[export] Instance rounds_proper : Proper (Qeq ==> eq ==> iff) rounds.
Proof.
  assert (H : forall X Y r, (X == Y)%Q -> rounds X r -> rounds Y r).
  { intros X Y r HXY (D & V & [H1 H2] & (c & H3 & H4 & H5 & H6 & H7) & H8). exists D, V.
    split; [by split; rewrite <- HXY|]. split; [|done]. exists c. split_and!; [done..| | |].
    - by rewrite <- HXY.
    - by rewrite <- HXY.
    - intros H9. apply H7. by rewrite HXY. }
  intros X Y HXY r r' <-. split; by apply H.
Qed.

Lemma round_aux_rounds mx ex :
  0 < mx -> ex <= fexp64 (Zdigits2 mx + ex) ->
  rounds (mant mx ex) (binary_round_aux 53 1024 false mx ex loc_Exact).
Proof.
  intros Hm He. destruct (round_aux_rounded mx ex Hm He) as (V & H1 & H2 & H3).
  exists (Zdigits2 mx + ex), V. split_and!; try done; by apply mant_bounds.
Qed.

Lemma f64_mul_rounds mx ex my ey :
  f64_ok (S754_finite false mx ex) -> f64_ok (S754_finite false my ey) ->
  rounds (fval (S754_finite false mx ex) * fval (S754_finite false my ey))
    (f64_mul (S754_finite false mx ex) (S754_finite false my ey)).
Proof.
  intros [Hx _] [Hy _].
  assert (Heq : (fval (S754_finite false mx ex) * fval (S754_finite false my ey)
    == mant (Zpos (mx * my)) (ex + ey))%Q).
  { unfold mant. cbn [fval]. rewrite pow2_plus, Pos2Z.inj_mul, inject_Z_mult. ring. }
  rewrite Heq. apply (round_aux_rounds (Zpos (mx * my)) (ex + ey)); [done|]. cbn [Zdigits2].
  assert (Hd : forall p q, (p <= q)%positive -> Zpos (digits2_pos p) <= Zpos (digits2_pos q)).
  { intros p q Hpq. pose proof (digits2_pos_bounds q). apply digits2_pos_le; lia. }
  pose proof (Hd mx (mx * my)%positive ltac:(nia)). pose proof (Hd my (mx * my)%positive ltac:(nia)).
  unfold fexp64 in *. lia.
Qed.

(** A positive mantissa at any exponent rounds to the nearest double. *)
Lemma binary_round_rounds p ex : rounds (mant (Zpos p) ex) (binary_round 53 1024 false p ex).
Proof.
  unfold binary_round. change (fexp 53 1024) with fexp64. set (e := fexp64 _).
  unfold shl_align. destruct (e - ex) as [|d|d] eqn:Ed.
  1-2: apply round_aux_rounds; [done|]; cbn [Zdigits2]; fold e; lia.
  set (q := Pos.iter xO p d).
  assert (Hq : Zpos q = Zpos p * 2 ^ Zpos d) by apply iter_xO.
  assert (Hm : (mant (Zpos p) ex == mant (Zpos q) e)%Q).
  { rewrite Hq, mant_shift by lia. by replace (e + Zpos d) with ex by lia. }
  rewrite Hm. apply round_aux_rounds; [done|]. cbn [Zdigits2].
  rewrite (digits2_pos_shift q p (Zpos d)) by lia.
  replace (Zpos (digits2_pos p) + Zpos d + e) with (Zpos (digits2_pos p) + ex) by lia. fold e. lia.
Qed.

(** An unsigned integer converts to the nearest double. *)
Lemma f64_of_Z_rounds z : 0 < z -> rounds (inject_Z z) (f64_of_Z z).
Proof.
  intros Hz. destruct z as [|p|p]; try lia.
  assert (Hm : (inject_Z (Zpos p) == mant (Zpos p) 0)%Q) by (unfold mant; change (pow2 0) with 1%Q; ring).
  rewrite Hm. apply binary_round_rounds.
Qed.

(** ** The order multiplication and truncation respect

    [vanishes]: NaN, zero and the negative numbers, which all truncate to the unsigned
    integer 0.  [below x y]: [x] vanishes, or both are positive and [x] is at most [y]. *)
Definition vanishes (x : spec_float) : bool :=
  match x with S754_infinity false | S754_finite false _ _ => false | _ => true end.

Definition unsigned (x : spec_float) : Prop :=
  match x with S754_zero false | S754_infinity false | S754_finite false _ _ => True | _ => False end.

Definition below (x y : spec_float) : Prop :=
  vanishes x = true \/
  vanishes x = false /\ f64_ok x /\ f64_ok y /\
  (y = S754_infinity false \/
   f_nonneg x /\ f_nonneg y /\ vanishes y = false /\ (fval x <= fval y)%Q).

Lemma below_refl x : f64_ok x -> below x x.
Proof.
  intros Hx. destruct x as [|[]| |[] m e]; try by left.
  - right. split_and!; try done. by left.
  - right. split_and!; try done. right. split_and!; try done. apply Qle_refl.
Qed.

Lemma rounds_below X Y r s : (X <= Y)%Q -> rounds X r -> rounds Y s -> below r s.
Proof.
  intros HXY (D & V & HX & HV & Hr & Hokr) (E & W & HY & HW & Hs & Hoks).
  pose proof (rounded_at_mono _ _ _ _ _ _ HX HY HXY HV HW) as HVW.
  destruct Hr as [(HlV & Hnr & Er)|[HgV ->]].
  - destruct r as [|[]| |[] m e]; try done; [by left|right]. split_and!; [done..|].
    destruct Hs as [(HlW & Hns & Es)|[_ ->]]; [right|by left].
    split_and!; try done; [|rewrite Er, Es; done].
    destruct s as [sg|[]| |[] m' e']; try done. exfalso. cbn [fval] in Er, Es.
    assert (0 < inject_Z (Zpos m) * pow2 e)%Q; [|lra].
    apply Qmult_lt_0_compat; [|apply pow2_pos]. by change 0%Q with (inject_Z 0); rewrite <- Zlt_Qlt.
  - right. split_and!; [done..|left]. destruct Hs as [(HlW & _)|[_ ->]]; [lra|done].
Qed.

Lemma of_Z_unsigned z : 0 <= z -> unsigned (f64_of_Z z).
Proof.
  intros Hz. destruct z as [|p|p]; [done| |lia].
  destruct (f64_of_Z_rounds (Zpos p) ltac:(lia)) as (D & V & HX & HV & Hr & _).
  unfold f64_of_Z, binary_normalize, binary_round in *. destruct (shl_align _ _ _) as [mz ez].
  unfold binary_round_aux in *. destruct (shr_fexp _ _ _ _ _) as [r1 e1].
  destruct (shr_fexp _ _ _ _ _) as [r2 e2]. destruct (shr_m r2); try done; [by case_if|].
  by destruct Hr as [(_ & [] & _)|[_ ?]].
Qed.

Lemma of_Z_below m n : 0 <= m <= n -> below (f64_of_Z m) (f64_of_Z n).
Proof.
  intros Hmn. destruct (Z.eq_dec m 0) as [->|Hm].
  - by left.
  - eapply rounds_below; [|apply f64_of_Z_rounds; lia..]. rewrite <- Zle_Qle. lia.
Qed.

(** Rounding keeps the sign. *)
Lemma round_aux_negative m e l : vanishes (binary_round_aux 53 1024 true m e l) = true.
Proof.
  unfold binary_round_aux. destruct (shr_fexp _ _ _ _ _) as [r1 e1].
  destruct (shr_fexp _ _ _ _ _) as [r2 e2]. destruct (shr_m r2); try done. by case_if.
Qed.

Lemma vanishes_mul x p : vanishes x = true -> unsigned p -> vanishes (f64_mul x p) = true.
Proof.
  destruct x as [[]|[]| |[] m e], p as [[]|[]| |[] n k]; try done. intros _ _.
  exact (round_aux_negative _ _ _).
Qed.

Lemma mul_vanishes x p : vanishes p = true -> unsigned p -> vanishes (f64_mul x p) = true.
Proof. by destruct x as [[]|[]| |[] m e], p as [[]|[]| |[] n k]. Qed.

(** A positive product is the rounding of the exact one, or infinite with a factor. *)
Lemma mul_cases x y :
  f64_ok x -> f64_ok y -> vanishes x = false -> vanishes y = false ->
  f_nonneg x /\ f_nonneg y /\ rounds (fval x * fval y) (f64_mul x y)
  \/ (x = S754_infinity false \/ y = S754_infinity false) /\ f64_mul x y = S754_infinity false.
Proof.
  destruct x as [|[]| |[] m e], y as [|[]| |[] n k]; try done; intros Hx Hy _ _; auto.
  left. split_and!; try done. by apply f64_mul_rounds.
Qed.

Lemma mul_below x y p q :
  below x y -> below p q -> unsigned p -> below (f64_mul x p) (f64_mul y q).
Proof.
  intros [Hx|(Hx & Hokx & Hoky & Hxy)] Hpq Hp; [by left; apply vanishes_mul|].
  destruct Hpq as [Hv|(Hvp & Hokp & Hokq & Hpq)]; [by left; apply mul_vanishes|].
  assert (Hy : vanishes y = false) by (destruct Hxy as [->|(_ & _ & ? & _)]; done).
  assert (Hq : vanishes q = false) by (destruct Hpq as [->|(_ & _ & ? & _)]; done).
  assert (Hfin : forall z, f_nonneg z -> z <> S754_infinity false) by (by intros []).
  destruct (mul_cases y q) as [(Hny & Hnq & Hr)|[Hinf Hr]]; try done.
  - destruct Hxy as [->|(Hnx & _ & _ & Hxy)]; [done|]. destruct Hpq as [->|(Hnp & _ & _ & Hpq)]; [done|].
    destruct (mul_cases x p) as [(_ & _ & Hs)|[[->| ->] _]]; try done.
    eapply rounds_below; [|exact Hs|exact Hr]. pose proof (fval_nonneg x). pose proof (fval_nonneg p).
    pose proof (fval_nonneg q). apply Qle_trans with (fval x * fval q)%Q; [|by apply Qmult_le_compat_r].
    rewrite !(Qmult_comm (fval x)). by apply Qmult_le_compat_r.
  - rewrite Hr. destruct (vanishes (f64_mul x p)) eqn:Ev; [by left|right]. split; [done|].
    split; [|by split; [|left]].
    destruct (mul_cases x p) as [(_ & _ & (? & ? & _ & _ & _ & ?))|[_ ->]]; done.
Qed.

Lemma floor_mono m e m' e' :
  (mant (Zpos m) e <= mant (Zpos m') e')%Q ->
  (if 0 <=? e then Zpos m * 2 ^ e else Zpos m / 2 ^ (- e))
  <= (if 0 <=? e' then Zpos m' * 2 ^ e' else Zpos m' / 2 ^ (- e')).
Proof.
  assert (Hfl : forall p k, (if 0 <=? k then Zpos p * 2 ^ k else Zpos p / 2 ^ (- k))
                            = Qfloor (mant (Zpos p) k)).
  { intros p k. symmetry. unfold mant. destruct (Z.leb_spec 0 k) as [Hk|Hk].
    - rewrite <- (Qfloor_Z (Zpos p * 2 ^ k)). apply Qfloor_comp.
      by rewrite inject_Z_mult, pow2_Z.
    - rewrite Zdiv_Qdiv. apply Qfloor_comp. unfold Qdiv.
      rewrite <- pow2_Z by lia. unfold pow2. by rewrite <- Qpower_opp, Z.opp_involutive. }
  intros H. rewrite !Hfl. by apply Qfloor_resp_le.
Qed.

Lemma to_uint_below max x y : 0 <= max -> below x y -> f_to_uint max x <= f_to_uint max y.
Proof.
  intros Hmax [Hx|(Hx & _ & _ & [->|(Hnx & Hny & Hy & Hle)])].
  - assert (f_to_uint max x = 0) as -> by (by destruct x as [|[]| |[]]). by apply f_to_uint_range.
  - by apply f_to_uint_range.
  - destruct x as [|[]| |[] m e]; try done. destruct y as [|[]| |[] m' e']; try done. simpl.
    apply Z.min_le_compat_l. by apply floor_mono.
Qed.
