(* ===== verification/FloatRange.v ===== *)
(** * Finite computations stay finite

    [small k x]: a double between 0 and [2^k].  Sums, products and quotients of such
    doubles are of the kind, differences are finite, and quotients by a non-zero double
    are not NaN: the arithmetic of the least-squares fit never meets a NaN. *)

From Stdlib Require Import SpecFloat QArith Qpower Qround Lqa Lia.
From S2P Require Import Prelude Float FloatErr FloatMono.

#[local] Open Scope Z_scope.

(** ** Bounds of a rounded value *)

(** A power of two bounds the rounding of what it bounds. *)
Lemma rounds_upper X r k :
  rounds X r -> -1074 <= k < 1024 -> (X <= pow2 k)%Q -> f_nonneg r /\ (fval r <= pow2 k)%Q.
Proof.
  intros (D & V & HX & HV & Hr & _) Hk HXk.
  assert (HF : fexp64 D <= k).
  { destruct HX as [HX _]. destruct (Z.le_gt_cases (D - 1) k) as [|Hgt]; [unfold fexp64; lia|].
    pose proof (pow2_le (k + 1) (D - 1) ltac:(lia)) as Hp. rewrite pow2_plus in Hp.
    change (pow2 1) with 2%Q in Hp. pose proof (pow2_pos k). lra. }
  assert (Hgrid : (mant (2 ^ (k - fexp64 D)) (fexp64 D) == pow2 k)%Q).
  { unfold mant. rewrite <- pow2_Z, <- pow2_plus by lia. f_equiv. lia. }
  assert (HVk : (V <= pow2 k)%Q).
  { rewrite <- Hgrid. eapply rounded_at_below; [exact HV|]. by rewrite Hgrid. }
  destruct Hr as [(_ & Hn & ->)|[Hbig _]]; [done|]. exfalso.
  pose proof (pow2_le (k + 1) 1024 ltac:(lia)) as Hp. rewrite pow2_plus in Hp.
  change (pow2 1) with 2%Q in Hp. pose proof (pow2_pos k). lra.
Qed.

(** What is at least 1 rounds to at least 1. *)
Lemma rounds_ge_1 X r : rounds X r -> f_nonneg r -> (1 <= X)%Q -> (1 <= fval r)%Q.
Proof.
  intros (D & V & [HX1 HX2] & HV & Hr & _) Hn H1.
  assert (HD : 0 <= D - 1).
  { destruct (Z.le_gt_cases 0 (D - 1)) as [|Hlt]; [done|].
    pose proof (pow2_le D 0 ltac:(lia)) as Hp. change (pow2 0) with 1%Q in Hp. lra. }
  assert (Hgrid : (mant (2 ^ (D - 1 - fexp64 D)) (fexp64 D) == pow2 (D - 1))%Q).
  { unfold mant. rewrite <- pow2_Z, <- pow2_plus by (unfold fexp64; lia). f_equiv. lia. }
  assert (HVD : (pow2 (D - 1) <= V)%Q).
  { rewrite <- Hgrid. eapply rounded_at_above; [exact HV|]. by rewrite Hgrid. }
  pose proof (pow2_le 0 (D - 1) ltac:(lia)) as Hp. change (pow2 0) with 1%Q in Hp.
  destruct Hr as [(_ & _ & ->)|[_ ->]]; [lra|done].
Qed.

(** Equal values round to equal values. *)
Lemma rounds_unique X r s : rounds X r -> rounds X s -> f_nonneg r -> f_nonneg s -> (fval r == fval s)%Q.
Proof.
  intros (D & V & HX & HV & Hr & _) (E & W & HY & HW & Hs & _) Hnr Hns.
  assert (HXX : (X <= X)%Q) by apply Qle_refl.
  pose proof (rounded_at_mono _ _ _ _ _ _ HX HY HXX HV HW). pose proof (rounded_at_mono _ _ _ _ _ _ HY HX HXX HW HV).
  destruct Hr as [(_ & _ & ->)|[_ ->]]; [|done]. destruct Hs as [(_ & _ & ->)|[_ ->]]; [|done]. lra.
Qed.

(** A double is its own rounding. *)
Lemma rounds_self m e : f64_ok (S754_finite false m e) ->
  rounds (mant (Zpos m) e) (S754_finite false m e).
Proof.
  intros [Hc He]. exists (Zpos (digits2_pos m) + e), (mant (Zpos m) e).
  split; [exact (mant_bounds (Zpos m) e ltac:(lia))|]. rewrite Hc. pose proof (pow2_pos e) as Hp.
  split; [|split; [left|by split]].
  - exists (Zpos m). split; [lia|]. split; [reflexivity|]. unfold mant. split; [lra|]. split; [lra|].
    intros [Hx|Hx]; exfalso; lra.
  - split; [|split; [done|reflexivity]]. pose proof (mant_bounds (Zpos m) e ltac:(lia)) as [_ Hb].
    cbn [Zdigits2] in Hb. eapply Qlt_le_trans; [exact Hb|]. apply pow2_le. unfold fexp64 in Hc. lia.
Qed.

(** ** Canonical results, whatever is known of the digits dropped *)

Lemma round_aux_ok mx ex lx :
  0 <= mx -> ex <= fexp64 (Zdigits2 mx + ex) -> f64_ok (binary_round_aux 53 1024 false mx ex lx).
Proof.
  intros Hm Hal. set (F := fexp64 (Zdigits2 mx + ex)) in *. unfold binary_round_aux, shr_fexp.
  change (SpecFloat.fexp 53 1024) with fexp64. fold F.
  assert (H1 : let '(r, e) := shr (shr_record_of_loc mx lx) ex (F - ex) in shr_m r = mx / 2 ^ (F - ex) /\ e = F).
  { assert (Hsm : shr_m (shr_record_of_loc mx lx) = mx) by (by destruct lx as [|[]]).
    destruct (F - ex) as [|n|n] eqn:En; cbn [shr]; [|split; [|lia]|lia].
    - rewrite Hsm. split; [by rewrite Z.div_1_r|lia].
    - rewrite <- Hsm at 2. apply iter_shr_div. lia. }
  destruct (shr (shr_record_of_loc mx lx) ex (F - ex)) as [r1 e1]. destruct H1 as [Hq ->].
  set (c := round_nearest_even _ _). pose proof (nearest_even_range (shr_m r1) (loc_of_shr_record r1)) as Hc.
  fold c in Hc. rewrite Hq in Hc. clear Hq. set (n := F - ex) in *. assert (Hn : 0 <= n) by lia.
  assert (Hp : 0 < 2 ^ n) by (apply Z.pow_pos_nonneg; lia).
  assert (HF : F = Z.max (Zdigits2 mx + ex - 53) (-1074)) by reflexivity.
  assert (Hd : 2 ^ (Zdigits2 mx - 1) <= mx < 2 ^ Zdigits2 mx).
  { destruct mx as [|p|p]; [done|apply digits2_pos_bounds|lia]. }
  assert (Hup : mx / 2 ^ n < 2 ^ 53).
  { apply Z.div_lt_upper_bound; [done|]. rewrite <- Z.pow_add_r by lia.
    assert (2 ^ Zdigits2 mx <= 2 ^ (n + 53)) by (apply Z.pow_le_mono_r; lia). lia. }
  assert (Hlo : 0 <= mx / 2 ^ n) by (apply Z.div_pos; lia).
  pose proof (renormalise c F ltac:(lia) ltac:(lia)) as H2.
  assert (Hfull : F <> -1074 -> 2 ^ 52 <= c).
  { intros Hne. assert (2 ^ 52 <= mx / 2 ^ n); [|lia]. apply Z.div_le_lower_bound; [done|].
    rewrite <- Z.pow_add_r by lia. replace (n + 52) with (Zdigits2 mx - 1) by lia. lia. }
  pose proof (renormalise_canonical c F ltac:(lia) ltac:(lia) Hfull) as Hcan.
  destruct (shr (shr_record_of_loc c loc_Exact) F (fexp64 (Zdigits2 c + F) - F)) as [r2 e2].
  destruct (shr_m r2) as [|p|p] eqn:Ep; [done| |done]. case_if; [|done]. bool_to_prop.
  split; [by apply Hcan|lia].
Qed.

(** The sign and the digits dropped never make a NaN. *)
Lemma round_aux_not_nan s m e l : 0 <= m -> is_nan (binary_round_aux 53 1024 s m e l) = false.
Proof.
  intros Hm. unfold binary_round_aux, shr_fexp. pose proof (shr_spec m l e (SpecFloat.fexp 53 1024 (Zdigits2 m + e) - e) Hm) as H1.
  destruct (shr _ e _) as [r1 e1]. destruct H1 as (Hm1 & _).
  pose proof (nearest_even_range (shr_m r1) (loc_of_shr_record r1)) as Hc. set (c := round_nearest_even _ _) in *.
  pose proof (shr_spec c loc_Exact e1 (SpecFloat.fexp 53 1024 (Zdigits2 c + e1) - e1) ltac:(lia)) as H2.
  destruct (shr _ e1 _) as [r2 e2]. destruct H2 as (Hm2 & _).
  destruct (shr_m r2); [done|by case_if|lia].
Qed.

(** Finite, of either sign. *)
Definition f_finite64 (x : spec_float) : bool :=
  match x with S754_zero _ | S754_finite _ _ _ => true | _ => false end.

Lemma round_aux_sign s m e l :
  f_finite64 (binary_round_aux 53 1024 s m e l) = f_finite64 (binary_round_aux 53 1024 false m e l).
Proof.
  unfold binary_round_aux. destruct (shr_fexp _ _ _ _ _) as [r1 e1].
  destruct (shr_fexp _ _ _ _ _) as [r2 e2]. destruct (shr_m r2); try done. by case_if.
Qed.

(** ** Closure *)

Definition small (k : Z) (x : spec_float) : Prop := f_nonneg x /\ f64_ok x /\ (fval x <= pow2 k)%Q.

Lemma rounds_small X r k : rounds X r -> -1074 <= k < 1024 -> (X <= pow2 k)%Q -> small k r.
Proof.
  intros Hr Hk HX. destruct (rounds_upper _ _ _ Hr Hk HX). destruct Hr as (? & ? & _ & _ & _ & ?). done.
Qed.

Lemma small_zero s k : small k (S754_zero s).
Proof. split_and!; [done|done|]. pose proof (pow2_pos k). cbn [fval]. lra. Qed.

Lemma small_le j k x : j <= k -> small j x -> small k x.
Proof. intros Hjk (? & ? & ?). pose proof (pow2_le j k Hjk). split_and!; [done|done|lra]. Qed.

Lemma of_Z_small z k : 0 <= k < 1024 -> 0 <= z <= 2 ^ k -> small k (f64_of_Z z).
Proof.
  intros Hk Hz. destruct (Z.eq_dec z 0) as [->|]; [apply small_zero|].
  eapply rounds_small; [apply f64_of_Z_rounds; lia|lia|]. rewrite pow2_Z by lia. rewrite <- Zle_Qle. lia.
Qed.

Lemma of_Z_ge_1 z k : 0 <= k < 1024 -> 1 <= z <= 2 ^ k -> (1 <= fval (f64_of_Z z))%Q.
Proof.
  intros Hk Hz. eapply rounds_ge_1; [apply f64_of_Z_rounds; lia|apply (of_Z_small z k); lia|].
  change 1%Q with (inject_Z 1). rewrite <- Zle_Qle. lia.
Qed.

Lemma mul_small x y j k : 0 <= j -> 0 <= k -> j + k < 1024 -> small j x -> small k y -> small (j + k) (f64_mul x y).
Proof.
  intros Hj Hk Hjk (Hnx & Hox & Hx) (Hny & Hoy & Hy). 
  destruct x as [sx| | |[] mx ex], y as [sy| | |[] my ey]; try done; try apply small_zero.
  eapply rounds_small; [by apply f64_mul_rounds|lia|]. rewrite pow2_plus.
  set (X := fval (S754_finite false mx ex)) in *. set (Y := fval (S754_finite false my ey)) in *.
  assert (0 <= X)%Q by apply fval_nonneg. assert (0 <= Y)%Q by apply fval_nonneg.
  pose proof (pow2_pos j). apply Qle_trans with (pow2 j * Y)%Q.
  - by apply Qmult_le_compat_r.
  - rewrite !(Qmult_comm (pow2 j)). apply Qmult_le_compat_r; [done|lra].
Qed.

Lemma mul_ge_1 j k x y :
  0 <= j -> 0 <= k -> j + k < 1024 -> small j x -> small k y -> (1 <= fval x)%Q -> (1 <= fval y)%Q ->
  (1 <= fval (f64_mul x y))%Q.
Proof.
  intros Hj Hk Hjk Hx Hy Hx1 Hy1. pose proof (mul_small x y j k Hj Hk Hjk Hx Hy) as (Hn & _).
  destruct Hx as (Hnx & Hox & Hx), Hy as (Hny & Hoy & Hy).
  destruct x as [sx| | |[] mx ex], y as [sy| | |[] my ey]; try done.
  eapply rounds_ge_1; [by apply f64_mul_rounds|done|].
  set (X := fval (S754_finite false mx ex)) in *. set (Y := fval (S754_finite false my ey)) in *.
  apply Qle_trans with (1 * Y)%Q; [lra|]. apply Qmult_le_compat_r; lra.
Qed.

Lemma shl_align_down m e e' :
  e' <= e -> (mant (Zpos (fst (shl_align m e e'))) e' == mant (Zpos m) e)%Q.
Proof.
  intros He. unfold shl_align. destruct (e' - e) as [|d|d] eqn:Ed; cbn [fst]; [|lia|].
  - by replace e' with e by lia.
  - rewrite iter_xO, mant_shift by lia. by replace (e' + Zpos d) with e by lia.
Qed.

Lemma mant_add m n e : (mant (m + n) e == mant m e + mant n e)%Q.
Proof. unfold mant. rewrite inject_Z_plus. ring. Qed.

Lemma f64_add_rounds mx ex my ey :
  rounds (fval (S754_finite false mx ex) + fval (S754_finite false my ey))
    (f64_add (S754_finite false mx ex) (S754_finite false my ey)).
Proof.
  unfold f64_add. cbn [fval SFadd cond_Zopp]. set (ez := Z.min ex ey).
  assert (Hx : (inject_Z (Zpos mx) * pow2 ex == mant (Zpos (fst (shl_align mx ex ez))) ez)%Q)
    by (symmetry; apply shl_align_down; lia).
  assert (Hy : (inject_Z (Zpos my) * pow2 ey == mant (Zpos (fst (shl_align my ey ez))) ez)%Q)
    by (symmetry; apply shl_align_down; lia).
  rewrite Hx, Hy, <- mant_add. apply binary_round_rounds.
Qed.

Lemma add_small k x y : 0 <= k < 1023 -> small k x -> small k y -> small (k + 1) (f64_add x y).
Proof.
  intros Hk Hx Hy.
  assert (Hx' := small_le k (k + 1) x ltac:(lia) Hx). assert (Hy' := small_le k (k + 1) y ltac:(lia) Hy).
  destruct Hx as (Hnx & _ & Hx), Hy as (Hny & _ & Hy).
  destruct x as [[]| | |[] mx ex], y as [[]| | |[] my ey]; try done; try apply small_zero.
  eapply rounds_small; [apply f64_add_rounds|lia|]. rewrite pow2_plus. change (pow2 1) with 2%Q. lra.
Qed.

(** Adding to a number that is at least 1 leaves one. *)
Lemma add_ge_1 k x y :
  0 <= k < 1023 -> small k x -> small k y -> (1 <= fval x \/ 1 <= fval y)%Q -> (1 <= fval (f64_add x y))%Q.
Proof.
  intros Hk Hx Hy H1. pose proof (add_small k x y Hk Hx Hy) as (Hn & _ & _).
  destruct Hx as (Hnx & _ & Hx), Hy as (Hny & _ & Hy).
  pose proof (fval_nonneg x) as Hx0. pose proof (fval_nonneg y) as Hy0.
  destruct x as [[]| | |[] mx ex], y as [[]| | |[] my ey]; try done;
    try (destruct H1 as [H1|H1]; cbn [fval] in H1; lra);
    try (destruct H1 as [H1|H1]; [cbn [fval] in H1; lra|exact H1]);
    try (destruct H1 as [H1|H1]; [exact H1|cbn [fval] in H1; lra]).
  eapply rounds_ge_1; [apply f64_add_rounds|done|].
  set (X := fval (S754_finite false mx ex)) in *. set (Y := fval (S754_finite false my ey)) in *. lra.
Qed.

(** A difference of such numbers is finite. *)
Lemma normalize_finite z e k :
  0 <= k < 1024 -> (mant (Z.abs z) e <= pow2 k)%Q -> f_finite64 (binary_normalize 53 1024 z e false) = true.
Proof.
  intros Hk Hz. destruct z as [|p|p]; cbn [Z.abs] in Hz; [done| |].
  - destruct (rounds_upper _ _ k (binary_round_rounds p e) ltac:(lia) Hz) as [Hn _].
    unfold binary_normalize. by destruct (binary_round _ _ _ _ _) as [| | |[]].
  - destruct (rounds_upper _ _ k (binary_round_rounds p e) ltac:(lia) Hz) as [Hn _].
    unfold binary_normalize, binary_round in *. destruct (shl_align _ _ _) as [mz ez].
    rewrite round_aux_sign. by destruct (binary_round_aux 53 1024 false _ _ _) as [| | |[]].
Qed.

Lemma sub_finite k x y : 0 <= k < 1024 -> small k x -> small k y -> f_finite64 (f64_sub x y) = true.
Proof.
  intros Hk (Hnx & _ & Hx) (Hny & _ & Hy).
  destruct x as [[]| | |[] mx ex], y as [[]| | |[] my ey]; try done.
  unfold f64_sub. cbn [fval SFsub cond_Zopp] in *. set (ez := Z.min ex ey).
  apply (normalize_finite _ _ k Hk).
  assert (Hx' : (mant (Zpos (fst (shl_align mx ex ez))) ez <= pow2 k)%Q)
    by (rewrite shl_align_down by lia; exact Hx).
  assert (Hy' : (mant (Zpos (fst (shl_align my ey ez))) ez <= pow2 k)%Q)
    by (rewrite shl_align_down by lia; exact Hy).
  set (p := fst (shl_align mx ex ez)) in *. set (q := fst (shl_align my ey ez)) in *.
  destruct (Z.le_gt_cases (Zpos p) (Zpos q)).
  - eapply Qle_trans; [|exact Hy']. apply mant_le. lia.
  - eapply Qle_trans; [|exact Hx']. apply mant_le. lia.
Qed.

(** ** Quotients *)

(** By a finite non-zero number, a quotient is a number. *)
Lemma div_not_nan x y :
  is_nan x = false -> f_finite64 y = true -> f_eq y f_zero = false -> is_nan (f64_div x y) = false.
Proof.
  intros Hx Hy Hz. destruct y as [[]| | |sy my ey]; try done.
  destruct x as [| | |sx mx ex]; try done. unfold f64_div, SFdiv.
  pose proof (div_core_spec mx ex my ey) as Hc. destruct (SFdiv_core_binary _ _ _ _ _ _) as [[q e] l].
  destruct Hc as [Hq _]. by apply round_aux_not_nan.
Qed.

Lemma div_small k x y :
  0 <= k < 899 -> small k x -> small 1023 y -> (1 <= fval y)%Q -> small (k + 1) (f64_div x y).
Proof.
  intros Hk (Hnx & Hox & Hx) (Hny & Hoy & _) Hy.
  assert (Hq : (fval x / fval y <= pow2 k)%Q).
  { apply Qle_shift_div_r; [lra|]. pose proof (fval_nonneg x). pose proof (pow2_pos k).
    apply Qle_trans with (pow2 k * 1)%Q; [lra|]. rewrite !(Qmult_comm (pow2 k)). apply Qmult_le_compat_r; [done|lra]. }
  assert (Hbig : (pow2 k <= pow2 900)%Q) by (apply pow2_le; lia).
  destruct (f64_div_le x y Hnx Hny ltac:(lra) ltac:(lra)) as [Hn Hle]. split; [done|]. split.
  - destruct y as [| | |[] my ey]; try done. destruct x as [| | |[] mx ex]; try done.
    unfold f64_div, SFdiv. pose proof (div_core_spec mx ex my ey) as Hc.
    destruct (SFdiv_core_binary _ _ _ _ _ _) as [[q e] l]. destruct Hc as (Hq0 & _ & He).
    by apply round_aux_ok.
  - rewrite pow2_plus. change (pow2 1) with 2%Q. pose proof (pow2_le 0 k ltac:(lia)) as Hk1.
    set (q := (fval x / fval y)%Q) in *. change (pow2 0) with 1%Q in Hk1.
    assert (Hu : (pow2 (-52) <= 1 # 4)%Q) by (vm_compute; discriminate).
    assert (Hu' : (pow2 (-1074) <= 1 # 4)%Q) by (apply Qle_trans with (pow2 (-2)); [apply pow2_le; lia|vm_compute; discriminate]).
    pose proof (pow2_pos (-52)). assert (q * pow2 (-52) <= pow2 k * (1 # 4))%Q.
    { apply Qle_trans with (pow2 k * pow2 (-52))%Q; [apply Qmult_le_compat_r; lra|].
      rewrite !(Qmult_comm (pow2 k)). apply Qmult_le_compat_r; lra. }
    lra.
Qed.

(** A quotient of mantissas without remainder is rounded once. *)
Lemma f64_div_exact mx ex my ey k :
  let s := ex - ey - Z.min (fexp64 (Zpos (digits2_pos mx) + ex - (Zpos (digits2_pos my) + ey))) (ex - ey) in
  Zpos mx * 2 ^ s = Zpos my * k ->
  rounds (fval (S754_finite false mx ex) / fval (S754_finite false my ey))
    (f64_div (S754_finite false mx ex) (S754_finite false my ey)).
Proof.
  intros s Hk. unfold f64_div, SFdiv. pose proof (div_core_spec mx ex my ey) as Hc.
  unfold SFdiv_core_binary in *. change (SpecFloat.fexp 53 1024) with fexp64 in *.
  cbn [Zdigits2] in *. set (e := Z.min _ _) in *. fold s in Hc |- *.
  assert (Hs : 0 <= s) by (unfold s, e; lia). assert (Hp : 0 < 2 ^ s) by (apply Z.pow_pos_nonneg; lia).
  set (m' := match s with Z0 => _ | Zpos _ => _ | Zneg _ => _ end) in *.
  assert (Hm' : m' = Zpos mx * 2 ^ s).
  { unfold m'. destruct s as [|p|p]; [by rewrite Z.mul_1_r|by rewrite Z.shiftl_mul_pow2|lia]. }
  clearbody m'. pose proof (Z_div_mod m' (Zpos my) ltac:(lia)) as Hdm.
  destruct (Z.div_eucl m' (Zpos my)) as [q r]. destruct Hdm as [Hqr Hr].
  assert (q = k) as ->.
  { rewrite Hm', Hk in Hqr. destruct (Z.lt_trichotomy q k) as [Hlt|[->|Hgt]]; [|done|]; exfalso; nia. }
  assert (r = 0) as -> by lia.
  assert (Hl : new_location (Zpos my) 0 = loc_Exact) by (unfold new_location; by case_if).
  rewrite Hl in *. destruct Hc as (_ & _ & He).
  assert (Hv : (fval (S754_finite false mx ex) / fval (S754_finite false my ey) == mant k e)%Q).
  { cbn [fval]. pose proof (pow2_pos ey). pose proof (pow2_pos e).
    assert (Hmy : (0 < inject_Z (Zpos my))%Q) by (change 0%Q with (inject_Z 0); by rewrite <- Zlt_Qlt).
    apply (Qmult_inj_r _ _ (inject_Z (Zpos my) * pow2 ey)); [intros Hz; apply Qmult_integral in Hz; lra|].
    rewrite Qmult_comm, Qmult_div_r by (intros Hz; apply Qmult_integral in Hz; lra).
    unfold mant. transitivity (inject_Z (Zpos my * k) * (pow2 e * pow2 ey))%Q; [|rewrite inject_Z_mult; ring].
    rewrite <- Hk, inject_Z_mult, <- pow2_Z, <- pow2_plus, <- Qmult_assoc, <- pow2_plus by lia.
    do 2 f_equiv. unfold s. lia. }
  rewrite Hv. apply round_aux_rounds; [nia|done].
Qed.

Lemma div_self x : f_nonneg x -> (0 < fval x)%Q -> (fval (f64_div x x) == 1)%Q.
Proof.
  destruct x as [| | |[] m e]; try done. intros _ Hx.
  assert (Hr := f64_div_exact m e m e _ eq_refl).
  assert (Hv : (fval (S754_finite false m e) / fval (S754_finite false m e) == 1)%Q).
  { set (X := fval (S754_finite false m e)) in *. field. intros Hz. rewrite Hz in Hx. discriminate Hx. }
  rewrite Hv in Hr.
  assert (H1 : rounds 1 (f64_of_Z 1)) by exact (f64_of_Z_rounds 1 ltac:(lia)).
  assert (Hn : f_nonneg (f64_div (S754_finite false m e) (S754_finite false m e)))
    by (apply (rounds_upper _ _ 0 Hr); [lia|apply Qle_refl]).
  rewrite (rounds_unique _ _ _ Hr H1 Hn I). reflexivity.
Qed.

Lemma div_one k x : 0 <= k < 1024 -> small k x -> small k (f64_div x (f64_of_Z 1)) /\ (fval (f64_div x (f64_of_Z 1)) == fval x)%Q.
Proof.
  intros Hk (Hn & Hok & Hx). destruct x as [[]| | |[] m e]; try done.
  change (f64_of_Z 1) with (S754_finite false (2 ^ 52)%positive (-52)).
  set (s := e - -52 - Z.min (fexp64 (Zpos (digits2_pos m) + e - (Zpos (digits2_pos (2 ^ 52)) + -52))) (e - -52)).
  assert (Hs : 52 <= s).
  { unfold s. change (Zpos (digits2_pos (2 ^ 52))) with 53. destruct Hok as [Hc _]. unfold fexp64 in *. lia. }
  assert (Hr := f64_div_exact m e (2 ^ 52) (-52) (Zpos m * 2 ^ (s - 52))).
  cbv zeta in Hr. fold s in Hr.
  assert (Hv : (fval (S754_finite false m e) / fval (S754_finite false (2 ^ 52)%positive (-52)) == fval (S754_finite false m e))%Q).
  { assert (H1 : (fval (S754_finite false (2 ^ 52)%positive (-52)) == 1)%Q) by (vm_compute; reflexivity).
    rewrite H1. field. }
  rewrite Hv in Hr. specialize (Hr ltac:(rewrite (Z.mul_comm (Zpos (2 ^ 52))), <- Z.mul_assoc; f_equal;
    change (Zpos (2 ^ 52)) with (2 ^ 52); rewrite <- Z.pow_add_r by lia; f_equal; lia)).
  pose proof (rounds_small _ _ k Hr ltac:(lia) Hx) as Hsm. split; [done|].
  apply (rounds_unique _ _ _ Hr (rounds_self m e Hok)); [apply Hsm|done].
Qed.
