(* ===== verification/BinPack.v ===== *)
(** * Bin packing of tokenized sequences ([src/binpack.rs])

    [CostModel] is the quadratic workspace model of one [session.run()] call and
    [bin_pack] the greedy packer that partitions a request into chunks within
    the budget.  [Packing] is the contract a packing promises to the pipelines
    that run it; [bin_pack_packing] is the refinement proof.  [fits_mono]: a smaller chunk
    never costs more, whatever the coefficients, because rounding is monotone. *)

From Stdlib Require Import SpecFloat.
From S2P Require Import Prelude Float FloatErr FloatMono.

(** ** The cost model *)

Record CostModel := {
  cm_a : f64;
  cm_b : f64;
  max_workspace_bytes : Z;
}.

Definition CONSERVATIVE_A : f64 := f64_of_Z 16384.
Definition CONSERVATIVE_B : f64 := f64_of_Z 8.
Definition DEFAULT_MAX_WORKSPACE : Z := 2 * 1024 * 1024 * 1024.

Definition conservative (max_workspace_bytes : Z) : CostModel :=
  {| cm_a := CONSERVATIVE_A; cm_b := CONSERVATIVE_B;
     max_workspace_bytes := max_workspace_bytes |}.

(** [CostModel::chunk_cost]: the product [count * max_seq] is taken in [u128],
    the two terms in [f64], and each is truncated before the saturating sum. *)
Definition chunk_cost (cm : CostModel) (count max_seq : Z) : Z :=
  let n := count * max_seq in
  let linear := f64_to_u128 (f64_mul (cm_a cm) (f64_of_Z n)) in
  let quad := f64_to_u128 (f64_mul (f64_mul (cm_b cm) (f64_of_Z n)) (f64_of_Z max_seq)) in
  sat_add128 linear quad.

Definition fits (cm : CostModel) (count max_seq : Z) : bool :=
  chunk_cost cm count max_seq <=? max_workspace_bytes cm.

(** ** The packer *)

(** [seq_lengths[i]] for an index below the length. *)
Definition len_at (seq_lengths : list Z) (i : nat) : Z := nth i seq_lengths 0.

Record PackState := {
  chunks : list (list nat);
  current : list nat;
  current_max_seq : Z;
}.

(** One iteration of the scan over the sorted indices. *)
Definition pack_step (seq_lengths : list Z) (cm : CostModel) (st : PackState) (idx : nat) : PackState :=
  let seq := len_at seq_lengths idx in
  let new_max := Z.max (current_max_seq st) seq in
  let new_count := Z.of_nat (length (current st)) + 1 in
  if bool_decide (current st = []) || fits cm new_count new_max then
    {| chunks := chunks st; current := current st ++ [idx]; current_max_seq := new_max |}
  else
    {| chunks := chunks st ++ [current st]; current := [idx]; current_max_seq := seq |}.

(** The flush after the loop. *)
Definition pack_finish (st : PackState) : list (list nat) :=
  if bool_decide (current st = []) then chunks st else chunks st ++ [current st].

Definition sorted_indices `{KeySort nat} (seq_lengths : list Z) : list nat :=
  sort_by_key (len_at seq_lengths) (seq 0 (length seq_lengths)).

Definition bin_pack `{KeySort nat} (seq_lengths : list Z) (cm : CostModel) : list (list nat) :=
  if bool_decide (seq_lengths = []) then []
  else pack_finish
         (foldl (pack_step seq_lengths cm)
            {| chunks := []; current := []; current_max_seq := 0 |}
            (sorted_indices seq_lengths)).

(** ** The contract of a packing *)

(** Length of the longest sequence of a chunk. *)
Definition chunk_max (seq_lengths : list Z) (c : list nat) : Z :=
  foldr Z.max 0 (map (len_at seq_lengths) c).

Definition chunk_ok (seq_lengths : list Z) (cm : CostModel) (c : list nat) : Prop :=
  c <> [] /\
  (length c = 1%nat \/ fits cm (Z.of_nat (length c)) (chunk_max seq_lengths c) = true).

(** [c'] follows [c]: its first (shortest) text did not fit in [c] any more. *)
Definition closed_before (seq_lengths : list Z) (cm : CostModel) (c c' : list nat) : Prop :=
  match c' with
  | [] => True
  | i :: _ => fits cm (Z.of_nat (length c) + 1)
                (Z.max (chunk_max seq_lengths c) (len_at seq_lengths i)) = false
  end.

Record Packing (seq_lengths : list Z) (cm : CostModel) (cs : list (list nat)) : Prop := {
  packing_partition : concat cs ≡ₚ seq 0 (length seq_lengths);
  packing_sorted :
    StronglySorted (fun i j => len_at seq_lengths i <= len_at seq_lengths j) (concat cs);
  packing_chunks : Forall (chunk_ok seq_lengths cm) cs;
  packing_greedy : chained (closed_before seq_lengths cm) cs;
}.

(** ** Cost-model lemmas *)

Lemma chunk_cost_range cm count max_seq : 0 <= chunk_cost cm count max_seq <= U128_MAX.
Proof.
  unfold chunk_cost, sat_add128.
  set (x := f64_to_u128 _). set (y := f64_to_u128 _).
  assert (0 <= x) by (apply f_to_uint_range; done).
  assert (0 <= y) by (apply f_to_uint_range; done). unfold U128_MAX. lia.
Qed.

(** With integer coefficients and a cost below 2^53 the floating-point
    computation is exact. *)
Lemma chunk_cost_exact cm a b count max_seq :
  is_int (cm_a cm) a -> is_int (cm_b cm) b ->
  0 <= count -> 0 <= max_seq < 2 ^ 53 -> count * max_seq < 2 ^ 53 -> 0 <= a -> 0 <= b ->
  a * (count * max_seq) < 2 ^ 53 -> b * (count * max_seq) < 2 ^ 53 ->
  b * (count * max_seq) * max_seq < 2 ^ 53 ->
  chunk_cost cm count max_seq = a * (count * max_seq) + b * (count * max_seq) * max_seq.
Proof.
  intros Ha Hb Hc Hs Hn Ha0 Hb0 H1 H2 H3. unfold chunk_cost.
  set (n := count * max_seq) in *. assert (0 <= n) by (unfold n; nia).
  assert (0 <= a * n) by nia. assert (0 <= b * n) by nia. assert (0 <= b * n * max_seq) by nia.
  unfold f64_to_u128, U128_MAX.
  rewrite (f_to_uint_exact _ _ (a * n)), (f_to_uint_exact _ _ (b * n * max_seq));
    [unfold sat_add128, U128_MAX; lia|auto with rust|lia|auto with rust|lia].
Qed.

(** The operating range of the server: at most 2^16 texts of at most
    [MODEL_MAX_SEQ] tokens. *)
Lemma conservative_cost_exact w count max_seq :
  0 <= count <= 65536 -> 0 <= max_seq <= 8192 ->
  chunk_cost (conservative w) count max_seq
  = 16384 * (count * max_seq) + 8 * (count * max_seq) * max_seq.
Proof.
  intros Hc Hs. assert (0 <= count * max_seq <= 65536 * 8192) by nia.
  assert (8 * (count * max_seq) * max_seq <= 8 * (65536 * 8192) * 8192) by nia.
  apply chunk_cost_exact; try lia; by apply f64_of_Z_exact.
Qed.

(** ** The loop invariant *)

Section packing.
Context `{KeySort nat} (lens : list Z) (cm : CostModel).
Hypothesis lens_nonneg : Forall (fun x => 0 <= x) lens.

Lemma len_at_nonneg i : 0 <= len_at lens i.
Proof.
  unfold len_at. destruct (nth_in_or_default i lens 0) as [Hin| ->]; [|lia].
  rewrite Forall_forall in lens_nonneg. apply lens_nonneg. by apply list_elem_of_In.
Qed.

Lemma chunk_max_snoc c i : chunk_max lens (c ++ [i]) = Z.max (chunk_max lens c) (len_at lens i).
Proof.
  unfold chunk_max. induction c as [|j c IH]; simpl in *; [pose proof (len_at_nonneg i); lia|].
  rewrite IH. lia.
Qed.

Lemma chunk_max_one i : chunk_max lens [i] = len_at lens i.
Proof. unfold chunk_max. simpl. pose proof (len_at_nonneg i). lia. Qed.

(** [done] is the prefix of the sorted indices already consumed. *)
Record pack_inv (consumed : list nat) (st : PackState) : Prop := {
  inv_concat : concat (chunks st) ++ current st = consumed;
  inv_chunks : Forall (chunk_ok lens cm) (chunks st);
  inv_empty : current st = [] -> chunks st = [] /\ current_max_seq st = 0;
  inv_current : current st <> [] -> chunk_ok lens cm (current st);
  inv_max : current_max_seq st = chunk_max lens (current st);
  inv_greedy : chained (closed_before lens cm) (chunks st ++ [current st]);
}.

Lemma closed_before_grow c c' i :
  c' <> [] -> closed_before lens cm c c' -> closed_before lens cm c (c' ++ [i]).
Proof. by destruct c'. Qed.

Lemma pack_inv_init : pack_inv [] {| chunks := []; current := []; current_max_seq := 0 |}.
Proof. by split. Qed.

Lemma pack_step_inv consumed st i :
  pack_inv consumed st -> pack_inv (consumed ++ [i]) (pack_step lens cm st i).
Proof.
  intros [Hcat Hch He Hcur Hmax Hg]. unfold pack_step.
  destruct (decide (current st = [])) as [Hnil|Hne].
  - destruct (He Hnil) as [Hc0 Hm0]. rewrite bool_decide_true by done. simpl.
    rewrite Hc0, Hnil in *. simpl in *. subst consumed. split; simpl; try done.
    + intros _. split; [done|]. by left.
    + rewrite Hm0, chunk_max_one. pose proof (len_at_nonneg i). lia.
  - rewrite bool_decide_false by done. simpl.
    destruct (fits cm _ _) eqn:Hf; split; simpl.
    + by rewrite app_assoc, Hcat.
    + done.
    + intros Hbad. by destruct (current st).
    + intros _. split; [by destruct (current st)|]. right.
      rewrite length_app, chunk_max_snoc, <- Hmax. simpl.
      by replace (Z.of_nat (length (current st) + 1)) with (Z.of_nat (length (current st)) + 1) by lia.
    + by rewrite chunk_max_snoc, <- Hmax.
    + eapply chained_last; [|exact Hg]. intros z. by apply closed_before_grow.
    + by rewrite concat_app, <- app_assoc, <- Hcat; simpl; rewrite app_nil_r, app_assoc.
    + apply Forall_app. split; [done|]. constructor; [by apply Hcur|done].
    + done.
    + intros _. split; [done|]. by left.
    + by rewrite chunk_max_one.
    + rewrite <- app_assoc. simpl. apply chained_snoc; [done|]. simpl. by rewrite <- Hmax.
Qed.

Lemma pack_foldl_inv l consumed st :
  pack_inv consumed st -> pack_inv (consumed ++ l) (foldl (pack_step lens cm) st l).
Proof.
  revert consumed st. induction l as [|i l IH]; intros consumed st Hinv; simpl.
  - by rewrite app_nil_r.
  - replace (consumed ++ i :: l) with ((consumed ++ [i]) ++ l) by (by rewrite <- app_assoc).
    apply IH. by apply pack_step_inv.
Qed.

Lemma bin_pack_concat : concat (bin_pack lens cm) = sorted_indices lens.
Proof.
  unfold bin_pack. case_bool_decide as Hnil.
  - unfold sorted_indices. subst lens. simpl. symmetry.
    apply Permutation_nil. symmetry. apply sort_by_key_perm.
  - pose proof (pack_foldl_inv (sorted_indices lens) [] _ pack_inv_init) as Hinv.
    simpl in Hinv. revert Hinv. set (st := foldl _ _ _). intros [Hcat _ He _ _ _].
    unfold pack_finish. case_bool_decide as Hc.
    + by rewrite Hc, app_nil_r in Hcat.
    + rewrite concat_app. simpl. by rewrite app_nil_r.
Qed.

Lemma bin_pack_packing : Packing lens cm (bin_pack lens cm).
Proof.
  split.
  - rewrite bin_pack_concat. apply sort_by_key_perm.
  - rewrite bin_pack_concat. apply (sort_by_key_sorted (len_at lens)).
  - unfold bin_pack. case_bool_decide; [done|].
    pose proof (pack_foldl_inv (sorted_indices lens) [] _ pack_inv_init) as [_ Hch _ Hcur _ _].
    unfold pack_finish. case_bool_decide; [done|]. apply Forall_app. split; [done|]. auto.
  - unfold bin_pack. case_bool_decide; [done|].
    pose proof (pack_foldl_inv (sorted_indices lens) [] _ pack_inv_init) as [_ _ _ _ _ Hg].
    unfold pack_finish. case_bool_decide; [by eapply chained_app_l|done].
Qed.
End packing.

(** Facts the clients of a packing use. *)
Section packing_facts.
Context (lens : list Z) (cm : CostModel) (cs : list (list nat)).
Hypothesis Hp : Packing lens cm cs.

Lemma packing_index_range c i : c ∈ cs -> i ∈ c -> (i < length lens)%nat.
Proof.
  intros Hc Hi. assert (Hin : i ∈ concat cs) by (apply elem_of_concat; eauto).
  rewrite (packing_partition _ _ _ Hp) in Hin. apply elem_of_seq in Hin. lia.
Qed.

Lemma packing_NoDup : NoDup (concat cs).
Proof. rewrite (packing_partition _ _ _ Hp). apply NoDup_seq. Qed.

Lemma packing_covers i : (i < length lens)%nat -> exists c, c ∈ cs /\ i ∈ c.
Proof.
  intros Hi. assert (Hin : i ∈ concat cs).
  { rewrite (packing_partition _ _ _ Hp). apply elem_of_seq. lia. }
  apply elem_of_concat in Hin as (c & ? & ?). eauto.
Qed.
End packing_facts.

(** ** No packing uses fewer chunks

    Among all the partitions of a request into chunks that are singletons or fit
    the budget, the greedy one has the least number of [session.run()] calls.
    The argument is "greedy stays ahead": with the chunks of a rival ordered by
    their maximum, the first [j] rival chunks never cover more texts than the
    first [j] greedy ones. *)

(** The coefficients are doubles: the type [f64] of the model has values outside the
    format, which [f64] of Rust does not. *)
Definition cost_model_f64 (cm : CostModel) : Prop :=
  valid_binary 53 1024 (cm_a cm) = true /\ valid_binary 53 1024 (cm_b cm) = true.

(** Whatever the coefficients, dropping texts or shortening the padding of a chunk does
    not increase its cost: the two products are rounded monotonically, a NaN or negative
    term truncates to 0, an infinite one saturates. *)
Lemma chunk_cost_mono cm c1 c2 s1 s2 :
  cost_model_f64 cm -> 0 <= c1 <= c2 -> 0 <= s1 <= s2 ->
  chunk_cost cm c1 s1 <= chunk_cost cm c2 s2.
Proof.
  intros [Ha%valid_f64_ok Hb%valid_f64_ok] Hc Hs. unfold chunk_cost, sat_add128, f64_to_u128.
  assert (Hn : 0 <= c1 * s1 <= c2 * s2) by nia.
  pose proof (of_Z_below _ _ Hn) as Bn. pose proof (of_Z_below _ _ Hs) as Bs.
  pose proof (of_Z_unsigned (c1 * s1) ltac:(lia)) as Un. pose proof (of_Z_unsigned s1 ltac:(lia)) as Us.
  pose proof (mul_below _ _ _ _ (below_refl _ Ha) Bn Un) as Hl.
  pose proof (mul_below _ _ _ _ (mul_below _ _ _ _ (below_refl _ Hb) Bn Un) Bs Us) as Hq.
  assert (Hmax : 0 <= U128_MAX) by done.
  pose proof (to_uint_below _ _ _ Hmax Hl). pose proof (to_uint_below _ _ _ Hmax Hq). lia.
Qed.

Lemma fits_mono cm c1 c2 s1 s2 :
  cost_model_f64 cm -> 0 <= c1 <= c2 -> 0 <= s1 <= s2 ->
  fits cm c2 s2 = true -> fits cm c1 s1 = true.
Proof.
  intros Hcm Hc Hs. unfold fits. pose proof (chunk_cost_mono cm c1 c2 s1 s2 Hcm Hc Hs). lia.
Qed.

Lemma negative_term_is_free x n : vanishes x = true -> 0 <= n -> f64_to_u128 (f64_mul x (f64_of_Z n)) = 0.
Proof.
  intros Hx Hn. pose proof (vanishes_mul x _ Hx (of_Z_unsigned n Hn)) as Hv.
  unfold f64_to_u128. by destruct (f64_mul x (f64_of_Z n)) as [|[]| |[]].
Qed.

Definition covered (cs : list (list nat)) (j : nat) : nat := length (concat (take j cs)).

Lemma covered_S cs j c : cs !! j = Some c -> covered cs (S j) = (covered cs j + length c)%nat.
Proof.
  intros Hc. unfold covered. rewrite (take_S_r _ _ c) by done.
  rewrite concat_app, length_app. simpl. by rewrite app_nil_r.
Qed.

Lemma covered_all cs j : (length cs <= j)%nat -> covered cs j = length (concat cs).
Proof. intros. unfold covered. by rewrite take_ge. Qed.

Lemma concat_lookup_head cs j i c :
  cs !! j = Some (i :: c) -> concat cs !! covered cs j = Some i.
Proof.
  intros Hj. rewrite (concat_take_drop cs j). unfold covered.
  rewrite lookup_app_r by lia. rewrite Nat.sub_diag.
  by rewrite (drop_S _ _ _ Hj).
Qed.

(** In a sorted list at most [g] elements are below the [g]-th one. *)
Lemma sorted_count_below (key : nat -> Z) (l : list nat) g i m :
  StronglySorted (fun a b => key a <= key b) l -> l !! g = Some i -> m < key i ->
  (length (filter (fun a => (key a <= m)%Z) l) <= g)%nat.
Proof.
  intros Hs Hi Hm. rewrite <- (take_drop g l), filter_app, length_app.
  pose proof (length_filter_le (fun a => (key a <= m)%Z) (take g l)) as Htake.
  rewrite length_take in Htake.
  assert (filter (fun a => (key a <= m)%Z) (drop g l) = []) as ->; [|simpl; lia].
  apply elem_of_nil_inv. intros j [Hj Hin]%list_elem_of_filter.
  apply list_elem_of_lookup_1 in Hin as [k Hk]. rewrite lookup_drop in Hk.
  destruct k as [|k].
  - rewrite Nat.add_0_r, Hi in Hk. simplify_eq. lia.
  - pose proof (StronglySorted_lookup _ l g (g + S k) i j Hs ltac:(lia) Hi Hk). simpl in *. lia.
Qed.

Lemma chunk_max_ub lens c i : i ∈ c -> len_at lens i <= chunk_max lens c.
Proof.
  intros Hi. unfold chunk_max. induction Hi as [i c|i j c Hi IH]; simpl; lia.
Qed.

Lemma chunk_max_bound lens c M : 0 <= M -> Forall (fun x => x <= M) lens -> chunk_max lens c <= M.
Proof.
  intros HM Hl. unfold chunk_max. induction c as [|i c IH]; simpl; [done|].
  assert (len_at lens i <= M); [|lia]. unfold len_at.
  destruct (nth_in_or_default i lens 0) as [Hin| ->]; [|done].
  rewrite Forall_forall in Hl. apply Hl. by apply list_elem_of_In.
Qed.

Section minimal.
Context (lens : list Z) (cm : CostModel).
Hypothesis lens_nonneg : Forall (fun x => 0 <= x) lens.
Hypothesis Hcm : cost_model_f64 cm.
Context (gs : list (list nat)).
Hypothesis Hgs : Packing lens cm gs.
(** a rival partition, its chunks in ascending order of their maximum *)
Context (ps : list (list nat)).
Hypothesis Hps : concat ps ≡ₚ seq 0 (length lens).
Hypothesis Hps_ok : Forall (chunk_ok lens cm) ps.
Hypothesis Hps_sorted : StronglySorted (fun c c' => chunk_max lens c <= chunk_max lens c') ps.

Lemma total_gs : length (concat gs) = length lens.
Proof. rewrite (Permutation_length (packing_partition _ _ _ Hgs)). apply length_seq. Qed.
Lemma total_ps : length (concat ps) = length lens.
Proof. rewrite (Permutation_length Hps). apply length_seq. Qed.

Lemma covered_le j : (covered ps j <= length lens)%nat.
Proof.
  rewrite <- total_ps, (concat_take_drop ps j), length_app. unfold covered. lia.
Qed.

(** The texts of the first [j+1] rival chunks are at most as long as the
    maximum of chunk [j]. *)
Lemma rival_prefix_below j p :
  ps !! j = Some p ->
  Forall (fun i => len_at lens i <= chunk_max lens p) (concat (take (S j) ps)).
Proof.
  intros Hp. apply Forall_forall. intros i (c & Hc & Hi)%elem_of_concat.
  pose proof (chunk_max_ub lens c i Hi).
  apply list_elem_of_lookup_1 in Hc as [k Hk].
  apply lookup_take_Some in Hk as [Hk Hkj].
  destruct (decide (k = j)) as [->|]; [by simplify_eq|].
  pose proof (StronglySorted_lookup _ ps k j c p Hps_sorted ltac:(lia) Hk Hp) as Hle.
  simpl in Hle. lia.
Qed.

(** The first text not covered by [g] greedy texts is at most as long as the
    maximum of a rival chunk whose prefix covers more than [g] texts. *)
Lemma next_below_rival j p g i :
  ps !! j = Some p -> (g < covered ps (S j))%nat -> concat gs !! g = Some i ->
  len_at lens i <= chunk_max lens p.
Proof.
  intros Hp Hg Hi. destruct (Z.le_gt_cases (len_at lens i) (chunk_max lens p)) as [|Hgt]; [done|].
  pose proof (sorted_count_below (len_at lens) _ g i (chunk_max lens p)
    (packing_sorted _ _ _ Hgs) Hi Hgt) as Hcount.
  rewrite (packing_partition _ _ _ Hgs), <- Hps in Hcount.
  rewrite (concat_take_drop ps (S j)), filter_app, length_app in Hcount.
  rewrite (filter_id _ (concat (take (S j) ps))) in Hcount.
  - unfold covered in Hg. lia.
  - apply rival_prefix_below. done.
Qed.

Lemma lens_nonneg' i : 0 <= len_at lens i.
Proof. apply len_at_nonneg. exact lens_nonneg. Qed.

(** A greedy chunk is no longer than the first text of its successor. *)
Lemma greedy_max_below j g i g' :
  gs !! j = Some g -> gs !! S j = Some (i :: g') -> chunk_max lens g <= len_at lens i.
Proof.
  intros Hg Hg'. pose proof (concat_lookup_head _ _ _ _ Hg') as Hi.
  assert (Forall (fun x => len_at lens x <= len_at lens i) g) as HF.
  - apply Forall_forall. intros x [k Hk]%list_elem_of_lookup_1.
    apply (StronglySorted_lookup _ (concat gs) (covered gs j + k) (covered gs (S j)) x i
      (packing_sorted _ _ _ Hgs)); [| |done].
    + rewrite (covered_S _ _ _ Hg). apply lookup_lt_Some in Hk. lia.
    + rewrite (concat_take_drop gs j). unfold covered.
      rewrite lookup_app_r by lia. rewrite (drop_S _ _ _ Hg). simpl.
      replace (_ + k - _)%nat with k by lia. by apply lookup_app_l_Some.
  - pose proof (lens_nonneg' i) as H0. clear -HF H0. unfold chunk_max.
    induction HF; simpl; lia.
Qed.

(** Greedy stays ahead. *)
Lemma greedy_ahead j : (j <= length ps)%nat -> (covered ps j <= covered gs j)%nat.
Proof.
  induction j as [|j IH]; intros Hj; [done|]. specialize (IH ltac:(lia)).
  destruct (lookup_lt_is_Some_2 ps j ltac:(lia)) as [p Hp].
  pose proof (covered_le (S j)) as Hall. rewrite <- total_gs in Hall.
  destruct (gs !! j) as [g|] eqn:Hg.
  2: { rewrite covered_all with (cs := gs); [done|]. apply lookup_ge_None in Hg. lia. }
  destruct (gs !! S j) as [g'|] eqn:Hg'.
  2: { rewrite covered_all with (cs := gs); [done|]. by apply lookup_ge_None in Hg'. }
  pose proof (chained_lookup _ _ _ _ _ (packing_greedy _ _ _ Hgs) Hg Hg') as Hclosed.
  pose proof (proj1 (Forall_lookup _ _) (packing_chunks _ _ _ Hgs) _ _ Hg') as [Hne' _].
  pose proof (proj1 (Forall_lookup _ _) (packing_chunks _ _ _ Hgs) _ _ Hg) as [Hne _].
  destruct g' as [|i g']; [done|]. simpl in Hclosed.
  pose proof (concat_lookup_head _ _ _ _ Hg') as Hi.
  destruct (Nat.le_gt_cases (covered ps (S j)) (covered gs (S j))) as [|Hlt]; [done|exfalso].
  pose proof (next_below_rival _ _ _ _ Hp Hlt Hi) as Hbelow.
  rewrite (covered_S _ _ _ Hp), (covered_S _ _ _ Hg) in Hlt.
  rewrite (covered_S _ _ _ Hp), total_gs in Hall.
  assert (length g <> 0)%nat by (destruct g; [done|simpl; lia]).
  pose proof (proj1 (Forall_lookup _ _) Hps_ok _ _ Hp) as [_ [Hone|Hfit]]; [lia|].
  pose proof (greedy_max_below _ _ _ _ Hg Hg') as Hgmax.
  pose proof (lens_nonneg' i) as Hi0.
  rewrite (fits_mono cm (Z.of_nat (length g) + 1) (Z.of_nat (length p))
             (Z.max (chunk_max lens g) (len_at lens i)) (chunk_max lens p)) in Hclosed;
    [done|done|lia|lia|done].
Qed.

Lemma greedy_fewest : (length gs <= length ps)%nat.
Proof.
  pose proof (greedy_ahead (length ps) ltac:(done)) as Hahead.
  rewrite covered_all, total_ps, <- total_gs in Hahead by done.
  destruct (Nat.le_gt_cases (length gs) (length ps)) as [|Hlt]; [done|exfalso].
  destruct (lookup_lt_is_Some_2 gs (length ps) Hlt) as [g Hg].
  pose proof (proj1 (Forall_lookup _ _) (packing_chunks _ _ _ Hgs) _ _ Hg) as [Hne _].
  assert (length g <> 0)%nat by (destruct g; [done|simpl; lia]).
  pose proof (concat_take_drop gs (S (length ps))) as Hcat.
  apply (f_equal length) in Hcat. rewrite length_app in Hcat.
  change (length (concat (take (S (length ps)) gs))) with (covered gs (S (length ps))) in Hcat.
  rewrite (covered_S _ _ _ Hg) in Hcat. lia.
Qed.
End minimal.

(** The rival's chunks may come in any order. *)
Lemma packing_fewest lens cm gs ps :
  Forall (fun x => 0 <= x) lens -> cost_model_f64 cm ->
  Packing lens cm gs -> concat ps ≡ₚ seq 0 (length lens) -> Forall (chunk_ok lens cm) ps ->
  (length gs <= length ps)%nat.
Proof.
  intros Hl Hm Hg Hp Hok.
  rewrite <- (Permutation_length (sort_by_key_perm (chunk_max lens) ps)).
  apply (greedy_fewest lens cm Hl Hm gs Hg).
  - rewrite <- Hp. clear. induction (sort_by_key_perm (chunk_max lens) ps); simpl.
    + done.
    + by f_equiv.
    + by rewrite !app_assoc, (Permutation_app_comm y x).
    + etrans; eauto.
  - by rewrite (sort_by_key_perm (chunk_max lens) ps).
  - apply (sort_by_key_sorted (chunk_max lens)).
Qed.

(** ** Properties *)

(** C7: whatever the sequence lengths, the cost model and the tie-breaking of
    the unstable sort, [bin_pack] implements its contract: it partitions the
    texts of the request, in ascending order of length, into non-empty chunks
    each of which is a single text or fits the budget, and closes a chunk only
    when the next text no longer fits. *)
Theorem bin_pack_refines `{KeySort nat} lens cm :
  Forall usize lens -> Packing lens cm (bin_pack lens cm).
Proof.
  intros Hl. apply bin_pack_packing.
  eapply Forall_impl; [exact Hl|]. unfold usize. simpl. lia.
Qed.

Lemma bin_pack_refines_witness :
  Forall usize [8192; 12; 512; 8192; 700] /\
  Packing [8192; 12; 512; 8192; 700] (conservative (2 ^ 30))
    (bin_pack [8192; 12; 512; 8192; 700] (conservative (2 ^ 30))).
Proof.
  split; [|apply bin_pack_refines];
    repeat (apply Forall_cons; split; [by vm_compute|]); apply Forall_nil; done.
Defined.

(** C13: [bin_pack] is optimal.  For every cost model, the negative, NaN and infinite
    coefficients an override or a cache may hold included, every partition of the request
    into chunks that are single texts or fit the budget makes at least as many
    [session.run()] calls as the greedy one: rounding to nearest, overflow, NaN and the
    saturating casts never make a smaller chunk cost more. *)
Theorem bin_pack_optimal `{KeySort nat} lens cm rival :
  Forall usize lens -> cost_model_f64 cm ->
  concat rival ≡ₚ seq 0 (length lens) ->
  Forall (fun c => c <> [] /\ (length c = 1%nat \/
            fits cm (Z.of_nat (length c)) (chunk_max lens c) = true)) rival ->
  (length (bin_pack lens cm) <= length rival)%nat.
Proof.
  intros Hl Hcm Hperm Hok.
  assert (Hnn : Forall (fun x => 0 <= x) lens) by (eapply Forall_impl; [exact Hl|]; unfold usize; simpl; lia).
  eapply packing_fewest; eauto. by apply bin_pack_packing.
Qed.

(** At the NaN linear and negative quadratic coefficients of a broken override. *)
Lemma bin_pack_optimal_witness :
  (length (bin_pack [8192; 12; 512]%Z
     {| cm_a := S754_nan; cm_b := f64_of_Z (-8); max_workspace_bytes := 0 |}) <= length [[1]; [2; 0]])%nat.
Proof.
  apply (bin_pack_optimal [8192; 12; 512]%Z).
  - repeat (apply Forall_cons; split; [by vm_compute|]). by apply Forall_nil.
  - split; reflexivity.
  - by apply (bool_decide_unpack _).
  - repeat (apply Forall_cons; split; [split; [done|first [by left|right; vm_compute; reflexivity]]|]).
    by apply Forall_nil.
Defined.

(** In the operating range (at most 2^16 texts, at most 8192 tokens) the
    conservative cost is the exact integer [16384 n s + 8 n s^2]: neither the
    [f64] products nor the truncations nor the saturating sum lose a byte. *)
Theorem conservative_cost_formula w count max_seq :
  0 <= count <= 65536 -> 0 <= max_seq <= 8192 ->
  chunk_cost (conservative w) count max_seq
  = 16384 * count * max_seq + 8 * count * max_seq ^ 2.
Proof. intros Hc Hs. rewrite conservative_cost_exact by done. lia. Qed.

Lemma conservative_cost_formula_witness :
  chunk_cost (conservative DEFAULT_MAX_WORKSPACE) 16 512 = 167772160.
Proof. rewrite conservative_cost_formula; [reflexivity|lia|lia]. Defined.
