(* ===== verification/JitGuard.v ===== *)
(** * The in-band TensorRT JIT admission guard ([src/embedder/jit_guard.rs])

    Also holds the error values of the embedder: an [anyhow::Error] is the chain
    of its causes, outermost first, of which the typed rejection of the guard is
    the only one the program downcasts to. *)

From S2P Require Import Prelude Float RustStr BinPack.

(** ** Rejections and error chains *)

Record TrtJitRejection := {
  rej_batch : Z;
  rej_seq : Z;
  rej_guard_seq : Z;
  rej_warmed_seq_ceiling : Z;
}.

#[export] Instance TrtJitRejection_eq_dec : EqDecision TrtJitRejection.
Proof. solve_decision. Defined.

(** [Display for TrtJitRejection] *)
Definition fmt_rejection (r : TrtJitRejection) : string :=
  "refusing in-band TensorRT JIT for chunk (batch=" +:+ show (rej_batch r)
  +:+ ", seq=" +:+ show (rej_seq r)
  +:+ "): seq is at/above the guard threshold (" +:+ show (rej_guard_seq r)
  +:+ ") and exceeds the pool's warmed engine coverage (max warmed seq="
  +:+ show (rej_warmed_seq_ceiling r)
  +:+ "). Issuing this run risks a pathological autotuner allocation that can crash the worker. "
  +:+ "The request is retriable once warmup coverage extends.".

(** One cause of a chain: a message or the typed rejection. *)
Inductive cause := Msg (s : string) | Rejection (r : TrtJitRejection).

(** An [anyhow::Error]: [err_top] is the outermost cause. *)
Record anyhow := { err_top : cause; err_sources : list cause }.

Definition chain (e : anyhow) : list cause := err_top e :: err_sources e.
Definition anyhow_msg (s : string) : anyhow := {| err_top := Msg s; err_sources := [] |}.
Definition anyhow_new (r : TrtJitRejection) : anyhow :=
  {| err_top := Rejection r; err_sources := [] |}.
(** [err.context(msg)] *)
Definition context (msg : string) (e : anyhow) : anyhow :=
  {| err_top := Msg msg; err_sources := chain e |}.

Definition display_cause (c : cause) : string :=
  match c with Msg s => s | Rejection r => fmt_rejection r end.
(** [{e}] prints the outermost cause, [{e:#}] the whole chain. *)
Definition display (e : anyhow) : string := display_cause (err_top e).
Definition display_alt (e : anyhow) : string :=
  String.concat ": " (map display_cause (chain e)).

Definition is_rejection (c : cause) : bool :=
  match c with Rejection _ => true | Msg _ => false end.

(** [is_trt_shape_rejected]: a walk over the whole chain. *)
Definition is_trt_shape_rejected (e : anyhow) : bool := existsb is_rejection (chain e).

(** ** The guard *)

Record TrtJitGuard := { g_guard_seq : Z; g_warmed_seq_ceiling : Z }.

Definition guard_new (guard_seq warmed_seq_ceiling : Z) : TrtJitGuard :=
  {| g_guard_seq := guard_seq; g_warmed_seq_ceiling := warmed_seq_ceiling |}.

(** [TrtJitGuard::admit] *)
Definition admit_chunk (g : TrtJitGuard) (batch seq : Z) : result TrtJitRejection unit :=
  if (g_guard_seq g <=? seq) && (g_warmed_seq_ceiling g <? seq)
  then Err {| rej_batch := batch; rej_seq := seq; rej_guard_seq := g_guard_seq g;
              rej_warmed_seq_ceiling := g_warmed_seq_ceiling g |}
  else Ok tt.

(** The shape [guard_chunks] checks a chunk under. *)
Definition chunk_seq (seq_lens : list Z) (chunk : list nat) : Z :=
  unwrap_or (max_of (map (len_at seq_lens) chunk)) 0.

(** The loop over the chunks, left at the first refusal. *)
Fixpoint guard_each (g : TrtJitGuard) (chunks : list (list nat)) (seq_lens : list Z)
  : result TrtJitRejection unit :=
  match chunks with
  | [] => Ok tt
  | chunk :: rest =>
      _ ← admit_chunk g (Z.of_nat (length chunk)) (chunk_seq seq_lens chunk);
      guard_each g rest seq_lens
  end.

Definition guard_chunks (guard : option TrtJitGuard) (chunks : list (list nat)) (seq_lens : list Z)
  : result TrtJitRejection unit :=
  match guard with None => Ok tt | Some g => guard_each g chunks seq_lens end.

(** ** Lemmas *)

(** A sequence length the guard refuses. *)
Definition dangerous (g : TrtJitGuard) (seq : Z) : Prop :=
  g_guard_seq g <= seq /\ g_warmed_seq_ceiling g < seq.

Lemma dangerous_bool g s :
  (g_guard_seq g <=? s) && (g_warmed_seq_ceiling g <? s) = true <-> dangerous g s.
Proof. by rewrite andb_true_iff, Z.leb_le, Z.ltb_lt. Qed.

Lemma admit_ok g b s : admit_chunk g b s = Ok tt <-> ~ dangerous g s.
Proof. unfold admit_chunk. rewrite <- dangerous_bool. by case_if. Qed.

Lemma admit_err g b s r :
  admit_chunk g b s = Err r <->
  dangerous g s /\
  r = {| rej_batch := b; rej_seq := s; rej_guard_seq := g_guard_seq g;
         rej_warmed_seq_ceiling := g_warmed_seq_ceiling g |}.
Proof.
  unfold admit_chunk. rewrite <- dangerous_bool. case_if; [|split; [done|by intros []]].
  split; [by intros [= <-] | by intros [_ ->]].
Qed.

Lemma guard_each_ok g cs lens :
  guard_each g cs lens = Ok tt <-> Forall (fun c => ~ dangerous g (chunk_seq lens c)) cs.
Proof.
  induction cs as [|c cs IH]; simpl; [by split|]. rewrite Forall_cons, <- IH.
  rewrite <- (admit_ok g (Z.of_nat (length c))). unfold mbind, result_bind.
  destruct (admit_chunk _ _ _) as [[]|]; split; try done; [tauto|by intros []].
Qed.

(** The refusal reported is the one of the first dangerous chunk. *)
Lemma guard_each_err g cs lens r :
  guard_each g cs lens = Err r <->
  exists pre c post, cs = pre ++ c :: post
    /\ Forall (fun c => ~ dangerous g (chunk_seq lens c)) pre
    /\ admit_chunk g (Z.of_nat (length c)) (chunk_seq lens c) = Err r.
Proof.
  induction cs as [|c cs IH]; simpl.
  - split; [done|]. intros (pre & ? & ? & ? & _). by destruct pre.
  - unfold mbind, result_bind. destruct (admit_chunk _ _ _) as [[]|r'] eqn:Ha.
    + rewrite IH. split.
      * intros (pre & c' & post & -> & Hpre & He). exists (c :: pre), c', post.
        split; [done|]. split; [|done]. constructor; [|done]. by eapply admit_ok.
      * intros ([|c0 pre] & c' & post & Heq & Hpre & He); simplify_eq/=; [congruence|].
        inversion Hpre. eauto 10.
    + split.
      * intros [= ->]. by exists [], c, cs.
      * intros ([|c0 pre] & c' & post & Heq & Hpre & He); simplify_eq/=; [congruence|].
        inversion Hpre as [|? ? Hc0 _]. exfalso. apply Hc0. by eapply admit_err.
Qed.

Lemma chunk_seq_ge lens c i : i ∈ c -> len_at lens i <= chunk_seq lens c.
Proof.
  intros Hi. unfold chunk_seq.
  assert (Hin : len_at lens i ∈ map (len_at lens) c) by (by apply list_elem_of_fmap_2).
  destruct (max_of (map (len_at lens) c)) as [m|] eqn:Hm.
  - apply max_of_Some in Hm as [_ Hm]. rewrite Forall_forall in Hm. by apply Hm.
  - destruct (map (len_at lens) c); [inversion Hin|done].
Qed.

Lemma chunk_seq_in lens c : c <> [] -> exists i, i ∈ c /\ chunk_seq lens c = len_at lens i.
Proof.
  intros Hc. unfold chunk_seq.
  destruct (max_of (map (len_at lens) c)) as [m|] eqn:Hm; [|by destruct c].
  apply max_of_Some in Hm as [Hm _]. apply list_elem_of_fmap in Hm as (i & -> & Hi). eauto.
Qed.

Lemma dangerous_mono g s s' : s <= s' -> dangerous g s -> dangerous g s'.
Proof. unfold dangerous. lia. Qed.

(** Over a packing the guard decides by the texts alone. *)
Lemma guard_packing_ok g lens cm cs :
  Packing lens cm cs ->
  guard_each g cs lens = Ok tt <->
  forall i, (i < length lens)%nat -> ~ dangerous g (len_at lens i).
Proof.
  intros Hp. rewrite guard_each_ok, Forall_forall. split.
  - intros H i Hi Hd. destruct (packing_covers _ _ _ Hp i Hi) as (c & Hc & Hic).
    apply (H c Hc). eapply dangerous_mono; [|done]. by apply chunk_seq_ge.
  - intros H c Hc Hd.
    pose proof (packing_chunks _ _ _ Hp) as Hok. rewrite Forall_forall in Hok.
    destruct (chunk_seq_in lens c (proj1 (Hok c Hc))) as (i & Hi & Heq).
    rewrite Heq in Hd. eapply H; [|exact Hd]. by eapply packing_index_range.
Qed.

Lemma guard_ceiling_mono g lens cs c' :
  g_warmed_seq_ceiling g <= c' -> guard_each g cs lens = Ok tt ->
  guard_each (guard_new (g_guard_seq g) c') cs lens = Ok tt.
Proof.
  intros Hc. rewrite !guard_each_ok. intros H. eapply Forall_impl; [exact H|].
  unfold dangerous. simpl. lia.
Qed.

(** ** Properties *)

(** C15: the guard decides a request by its texts alone, whatever the packing: a
    request packed by [bin_pack] is admitted exactly when every text is below
    the danger threshold or within the warmed ceiling; otherwise the whole
    request is refused, with the shape of the first dangerous chunk and the
    parameters of the guard in the rejection. *)
Theorem guard_request_decision `{KeySort nat} g lens cm :
  Forall usize lens ->
  (guard_chunks (Some g) (bin_pack lens cm) lens = Ok tt <->
   Forall (fun s => s < g_guard_seq g \/ s <= g_warmed_seq_ceiling g) lens) /\
  (forall r, guard_chunks (Some g) (bin_pack lens cm) lens = Err r ->
   exists pre c post,
     bin_pack lens cm = pre ++ c :: post /\
     Forall (fun c' => ~ dangerous g (chunk_seq lens c')) pre /\
     dangerous g (rej_seq r) /\
     r = {| rej_batch := Z.of_nat (length c); rej_seq := chunk_seq lens c;
            rej_guard_seq := g_guard_seq g;
            rej_warmed_seq_ceiling := g_warmed_seq_ceiling g |}).
Proof.
  intros Hl. assert (Hp : Packing lens cm (bin_pack lens cm)).
  { apply bin_pack_packing. eapply Forall_impl; [exact Hl|]. unfold usize. simpl. lia. }
  split.
  - simpl. rewrite (guard_packing_ok _ _ _ _ Hp), Forall_lookup. unfold dangerous, len_at.
    split.
    + intros Hall i s Hi. specialize (Hall i (lookup_lt_Some _ _ _ Hi)).
      erewrite nth_lookup_Some in Hall by exact Hi. lia.
    + intros Hall i Hi. destruct (lookup_lt_is_Some_2 _ _ Hi) as [s Hs].
      erewrite nth_lookup_Some by exact Hs. specialize (Hall i s Hs). lia.
  - intros r (pre & c & post & Hcs & Hpre & Ha)%guard_each_err.
    apply admit_err in Ha as [Hd ->]. by exists pre, c, post.
Qed.

Lemma guard_request_decision_witness :
  guard_chunks (Some (guard_new 4096 2048))
    (bin_pack [100; 4095; 2048] (conservative (2 ^ 30))) [100; 4095; 2048] = Ok tt.
Proof.
  apply guard_request_decision.
  - repeat (apply Forall_cons; split; [by vm_compute|]). by apply Forall_nil.
  - repeat (apply Forall_cons; split; [simpl; lia|]). by apply Forall_nil.
Defined.

(** Raising the pool-wide ceiling (the [fetch_max] of warmup and of engine
    propagation) never turns an admitted request into a refused one. *)
Theorem guard_self_healing g ceiling chunks lens :
  g_warmed_seq_ceiling g <= ceiling ->
  guard_chunks (Some g) chunks lens = Ok tt ->
  guard_chunks (Some (guard_new (g_guard_seq g) ceiling)) chunks lens = Ok tt.
Proof. apply guard_ceiling_mono. Qed.

Lemma guard_self_healing_witness :
  guard_chunks (Some (guard_new 4096 8192)) [[0; 1]]%nat [100; 4095] = Ok tt.
Proof. by apply (guard_self_healing (guard_new 4096 2048) 8192 _ _ ltac:(done)). Defined.
