(* ===== verification/EmbedMath.v ===== *)
(** * Vector and statistics helpers of the embedder ([src/embedder/math.rs])

    The dot product of [sparse_project] belongs to the [ndarray] crate: it is a
    parameter of the definitions that use it. *)

From S2P Require Import Prelude Float.

(** ** Dense vectors *)

Definition SPECIAL_TOKENS : list Z := [0; 1; 2; 3].

Definition normalize_l2 (vec : list f32) : list f32 :=
  let norm := f32_sqrt (f32_sum (map (fun x => f32_mul x x) vec)) in
  if f_gt norm f_zero then map (fun x => f32_div x norm) vec else vec.

(** ** Sparse vectors *)

(** [ArrayView1::dot] panics, here [None], on vectors of different lengths. *)
Definition sparse_project (dot : list f32 -> list f32 -> f32)
    (hidden weight : list f32) (bias : f32) : option f32 :=
  if bool_decide (length hidden = length weight)
  then Some (f_max (f32_add (dot hidden weight) bias) f_zero) else None.

(** One iteration of the pooling loop at position [j]; [None] is the panic of an
    index out of bounds. *)
Definition maxpool_step (mask : list Z) (scores : list f32)
    (token_weights : gmap Z f32) (j : nat) (token_id : Z) : option (gmap Z f32) :=
  m ← mask !! j;
  if m =? 0 then Some token_weights
  else if bool_decide (token_id ∈ SPECIAL_TOKENS) then Some token_weights
  else
    score ← scores !! j;
    if f_gt score f_zero then
      Some (match token_weights !! token_id with
            | Some w => <[token_id := f_max w score]> token_weights
            | None => <[token_id := score]> token_weights
            end)
    else Some token_weights.

Fixpoint maxpool_loop (mask : list Z) (scores : list f32) (w : gmap Z f32) (j : nat)
    (ids : list Z) : option (gmap Z f32) :=
  match ids with
  | [] => Some w
  | token_id :: ids => w' ← maxpool_step mask scores w j token_id;
                       maxpool_loop mask scores w' (S j) ids
  end.

Definition sparse_maxpool (ids mask : list Z) (scores : list f32) : option (list Z * list f32) :=
  token_weights ← maxpool_loop mask scores ∅ 0 ids;
  let indices := sort_z (map fst (map_to_list token_weights)) in
  let values := map (fun k => default f_zero (token_weights !! k)) indices in
  Some (indices, values).

(** ** Length statistics *)

Definition median_usize (values : list Z) : Z :=
  if bool_decide (values = []) then 0
  else nth (Nat.div (length values) 2) (sort_z values) 0.

Record SeqLenDistribution := { sld_min : Z; sld_max : Z; sld_mean : Z; sld_p95 : Z }.

Definition seq_len_distribution (lens : list Z) : SeqLenDistribution :=
  if bool_decide (lens = []) then {| sld_min := 0; sld_max := 0; sld_mean := 0; sld_p95 := 0 |}
  else
    let sorted := sort_z lens in
    let p95_idx := Nat.div (length sorted * 95) 100 in
    {| sld_min := default 0 (min_of lens);
       sld_max := default 0 (max_of lens);
       sld_mean := wrap64 (sum_of lens) / Z.of_nat (length lens);
       sld_p95 := nth (Nat.min p95_idx (length sorted - 1)) sorted 0 |}.

(** ** Normalisation and projection *)

Lemma normalize_l2_length v : length (normalize_l2 v) = length v.
Proof. unfold normalize_l2. case_if; [by rewrite length_map|done]. Qed.

Lemma sparse_project_nonneg dot h w b s :
  sparse_project dot h w b = Some s -> is_nan s = false /\ f_le f_zero s = true.
Proof.
  unfold sparse_project. case_bool_decide; [|done]. intros [= <-].
  set (x := f32_add _ _). clearbody x. unfold f_max.
  destruct (is_nan x) eqn:Hn; [done|]. destruct (f_lt x f_zero) eqn:Hx; [done|].
  rewrite f_le_not_lt, Hx by done. done.
Qed.

Lemma sparse_project_total dot h w b :
  length h = length w -> is_Some (sparse_project dot h w b).
Proof. intros Hl. unfold sparse_project. rewrite bool_decide_true by done. eauto. Qed.

(** ** Max pooling *)

Section maxpool.
Context (mask : list Z) (scores : list f32).

(** Position [j] of the token list contributes [s] to token [k]. *)
Definition contributes (ids : list Z) (k : Z) (j : nat) (s : f32) : Prop :=
  ids !! j = Some k /\ (exists m, mask !! j = Some m /\ m <> 0) /\ (k ∉ SPECIAL_TOKENS) /\
  scores !! j = Some s /\ f_gt s f_zero = true.

(** [w] is the pooled map of the positions satisfying [P]. *)
Definition pooled (P : Z -> nat -> f32 -> Prop) (w : gmap Z f32) : Prop :=
  (forall k v, w !! k = Some v ->
     f_gt v f_zero = true /\ (exists j, P k j v) /\ (forall j s, P k j s -> f_le s v = true)) /\
  (forall k j s, P k j s -> is_Some (w !! k)).

Lemma pooled_add (P : Z -> nat -> f32 -> Prop) w k j s :
  pooled P w -> f_gt s f_zero = true ->
  (forall k' j' s', P k' j' s' -> f_gt s' f_zero = true) ->
  pooled (fun k' j' s' => P k' j' s' \/ k' = k /\ j' = j /\ s' = s)
    (match w !! k with
     | Some v => <[k := f_max v s]> w
     | None => <[k := s]> w
     end).
Proof.
  intros [Hin Hdom] Hs HP.
  assert (Hns : is_nan s = false) by (by apply f_lt_not_nan in Hs as [_ ?]).
  destruct (w !! k) as [v|] eqn:Hv.
  - destruct (Hin _ _ Hv) as (Hv0 & (jv & Hjv) & Hmax).
    assert (Hnv : is_nan v = false) by (by apply f_lt_not_nan in Hv0 as [_ ?]).
    destruct (f_max_ge v s Hnv Hns) as [Hge1 Hge2].
    split.
    + intros k' v'. rewrite lookup_insert. case_decide as Hk.
      * subst k'. intros [= <-]. split; [by destruct (f_max_cases v s) as [-> | ->]|]. split.
        -- destruct (f_max_cases v s) as [-> | ->]; eauto.
        -- intros j' s' [HP'|(_ & _ & ->)]; [|done]. eapply f_le_trans; eauto.
      * intros Hv'. destruct (Hin _ _ Hv') as (? & (j' & ?) & Hm). split; [done|].
        split; [by eauto|]. intros j'' s'' [|(-> & _)]; [by eauto|done].
    + intros k' j' s' HP'. rewrite lookup_insert. case_decide; [done|].
      destruct HP' as [|(-> & _)]; [by eauto|done].
  - split.
    + intros k' v'. rewrite lookup_insert. case_decide as Hk.
      * subst k'. intros [= <-]. split; [done|]. split; [by eauto|].
        intros j' s' [HP'|(_ & _ & ->)]; [|by apply f_le_refl].
        apply Hdom in HP'. rewrite Hv in HP'. by destruct HP'.
      * intros Hv'. destruct (Hin _ _ Hv') as (? & (j' & ?) & Hm). split; [done|].
        split; [by eauto|]. intros j'' s'' [|(-> & _)]; [by eauto|done].
    + intros k' j' s' HP'. rewrite lookup_insert. case_decide; [done|].
      destruct HP' as [|(-> & _)]; [by eauto|done].
Qed.

Lemma pooled_ext (P Q : Z -> nat -> f32 -> Prop) w :
  (forall k j s, P k j s <-> Q k j s) -> pooled P w -> pooled Q w.
Proof.
  intros HPQ [H1 H2]. split.
  - intros k v Hv. destruct (H1 _ _ Hv) as (? & (j & Hj) & H3). split; [done|]. split.
    + exists j. by apply HPQ.
    + intros j' s' H'. apply (H3 j'). by apply HPQ.
  - intros k j s H. apply (H2 k j s). by apply HPQ.
Qed.

(** The positions of [ids] before [j]. *)
Definition before (ids : list Z) (j : nat) (k : Z) (i : nat) (s : f32) : Prop :=
  (i < j)%nat /\ contributes ids k i s.

Lemma before_skip ids j w :
  (forall k s, ~ contributes ids k j s) -> pooled (before ids j) w -> pooled (before ids (S j)) w.
Proof.
  intros Hno. apply pooled_ext. intros k i s. unfold before. split; [intros [? ?]; split; [lia|done]|].
  intros [Hi Hc]. split; [|done]. destruct (decide (i = j)) as [->|]; [|lia]. by apply Hno in Hc.
Qed.

Lemma maxpool_step_pooled ids j k w :
  ids !! j = Some k -> (length ids <= length mask)%nat -> (length ids <= length scores)%nat ->
  pooled (before ids j) w ->
  exists w', maxpool_step mask scores w j k = Some w' /\ pooled (before ids (S j)) w'.
Proof.
  intros Hk Hm Hs Hp. pose proof (lookup_lt_Some _ _ _ Hk) as Hj.
  destruct (lookup_lt_is_Some_2 mask j ltac:(lia)) as [m Hmj].
  destruct (lookup_lt_is_Some_2 scores j ltac:(lia)) as [s Hsj].
  unfold maxpool_step. rewrite Hmj. simpl.
  destruct (m =? 0) eqn:Hm0; bool_to_prop.
  { eexists. split; [done|]. apply before_skip; [|done].
    intros k' s' (_ & (m' & ? & ?) & _). by simplify_eq. }
  case_bool_decide as Hsp.
  { eexists. split; [done|]. apply before_skip; [|done].
    intros k' s' (? & _ & ? & _). by simplify_eq. }
  rewrite Hsj. simpl. destruct (f_gt s f_zero) eqn:Hpos.
  - eexists. split; [done|]. eapply pooled_ext; [|apply (pooled_add _ w k j s Hp Hpos)].
    + intros k' i s'. unfold before. split.
      * intros [[? ?]|(-> & -> & ->)]; [split; [lia|done]|]. split; [lia|]. red. eauto 10.
      * intros [Hi Hc]. destruct (decide (i = j)) as [->|]; [right|left; split; [lia|done]].
        destruct Hc as (? & _ & _ & ? & _). by simplify_eq.
    + by intros k' i s' (_ & _ & _ & _ & _ & ?).
  - eexists. split; [done|]. apply before_skip; [|done].
    intros k' s' (_ & _ & _ & ? & ?). congruence.
Qed.

Lemma maxpool_loop_pooled ids rest j w :
  drop j ids = rest -> (length ids <= length mask)%nat -> (length ids <= length scores)%nat ->
  pooled (before ids j) w ->
  exists w', maxpool_loop mask scores w j rest = Some w' /\ pooled (contributes ids) w'.
Proof.
  revert j w. induction rest as [|k rest IH]; intros j w Hd Hm Hs Hp.
  - exists w. split; [done|]. eapply pooled_ext; [|exact Hp]. unfold before.
    intros k i s. split; [tauto|]. intros Hc. split; [|done].
    destruct Hc as [Hi%lookup_lt_Some _].
    apply (f_equal length) in Hd. rewrite length_drop in Hd. simpl in Hd. lia.
  - assert (Hk : ids !! j = Some k).
    { rewrite <- (Nat.add_0_r j), <- lookup_drop, Hd. done. }
    destruct (maxpool_step_pooled ids j k w Hk Hm Hs Hp) as (w' & Hw & Hp').
    simpl. rewrite Hw. apply (IH (S j)); [|done..].
    erewrite drop_S in Hd by exact Hk. by simplify_eq.
Qed.

Lemma maxpool_pooled ids :
  (length ids <= length mask)%nat -> (length ids <= length scores)%nat ->
  exists w, maxpool_loop mask scores ∅ 0 ids = Some w /\ pooled (contributes ids) w.
Proof.
  intros Hm Hs. apply maxpool_loop_pooled; [done..|]. split.
  - intros k v Hv. by rewrite lookup_empty in Hv.
  - intros k j s [Hj _]. lia.
Qed.
End maxpool.

(** The key column of a pooled map. *)
Definition pooled_keys (w : gmap Z f32) : list Z := sort_z (map fst (map_to_list w)).

Lemma pooled_keys_in w k : k ∈ pooled_keys w <-> is_Some (w !! k).
Proof.
  unfold pooled_keys. rewrite sort_z_perm, list_elem_of_fmap. split.
  - intros ([k' v] & -> & Hin%elem_of_map_to_list). eauto.
  - intros [v Hv]. exists (k, v). by rewrite elem_of_map_to_list.
Qed.

Lemma pooled_keys_strict w : StronglySorted Z.lt (pooled_keys w).
Proof.
  assert (Hnd : NoDup (pooled_keys w)).
  { unfold pooled_keys. rewrite sort_z_perm. apply NoDup_fst_map_to_list. }
  pose proof (sort_z_sorted (map fst (map_to_list w))) as Hs. fold (pooled_keys w) in Hs.
  induction Hs as [|x l Hs IH Hx]; [constructor|]. apply NoDup_cons in Hnd as [Hnin Hnd].
  constructor; [auto|]. rewrite Forall_forall in Hx |- *. intros y Hy.
  assert (x <> y) by (by intros ->). specialize (Hx y Hy). lia.
Qed.

(** ** Order statistics *)

Lemma sorted_prefix_le l (i : nat) x :
  StronglySorted Z.le l -> l !! i = Some x -> Forall (fun y => y <= x) (take (S i) l).
Proof.
  intros Hs Hi. apply Forall_lookup. intros j y [Hj Hjl]%lookup_take_Some.
  destruct (decide (i = j)) as [->|]; [by simplify_eq|].
  apply (StronglySorted_lookup _ l j i y x Hs); [lia|done..].
Qed.

Lemma sorted_suffix_ge l (i : nat) x :
  StronglySorted Z.le l -> l !! i = Some x -> Forall (fun y => x <= y) (drop i l).
Proof.
  intros Hs Hi. apply Forall_lookup. intros j y Hj. rewrite lookup_drop in Hj.
  destruct j as [|j]; [rewrite Nat.add_0_r in Hj; by simplify_eq|].
  apply (StronglySorted_lookup _ l i (i + S j) x y Hs); [lia|done..].
Qed.

(** The [i]-th order statistic has more than [i] values at or below it and at
    least [n - i] at or above. *)
Lemma order_statistic l (i : nat) x :
  sort_z l !! i = Some x ->
  x ∈ l /\
  (i < length (filter (fun y => (y <= x)%Z) l))%nat /\
  (length l - i <= length (filter (fun y => (x <= y)%Z) l))%nat.
Proof.
  intros Hi. pose proof (lookup_lt_Some _ _ _ Hi) as Hlt.
  split; [rewrite <- sort_z_perm; by eapply list_elem_of_lookup_2|].
  rewrite <- (sort_z_length l). rewrite <- (sort_z_perm l) at 1 3. split.
  - rewrite <- (take_drop (S i) (sort_z l)), filter_app, length_app, filter_id, length_take
      by (by apply sorted_prefix_le; [apply sort_z_sorted|]). lia.
  - rewrite <- (take_drop i (sort_z l)) at 2. rewrite filter_app, length_app.
    rewrite (filter_id _ (drop i (sort_z l)))
      by (by apply sorted_suffix_ge; [apply sort_z_sorted|]). rewrite length_drop. lia.
Qed.

Lemma sort_z_lookup l (i : nat) : (i < length l)%nat -> sort_z l !! i = Some (nth i (sort_z l) 0).
Proof.
  intros Hi. rewrite <- (sort_z_length l) in Hi.
  destruct (lookup_lt_is_Some_2 _ _ Hi) as [x Hx]. by erewrite nth_lookup_Some.
Qed.

Lemma min_max_bound l x :
  x ∈ l -> default 0 (min_of l) <= x <= default 0 (max_of l).
Proof.
  intros Hx.
  destruct (min_of l) as [a|] eqn:Ha; [|by destruct l; [inversion Hx|]].
  destruct (max_of l) as [b|] eqn:Hb; [|by destruct l; [inversion Hx|]].
  apply min_of_Some in Ha as [_ Ha]. apply max_of_Some in Hb as [_ Hb].
  rewrite Forall_forall in Ha, Hb. split; [by apply Ha|by apply Hb].
Qed.

(** ** Properties *)

(** C32: on token, mask and score lists of matching length [sparse_maxpool] does
    not panic and returns the sparse vector the model card defines: indices
    strictly increasing; exactly the vocabulary tokens that are not special and
    have an unmasked position of positive score; each with the maximum score of
    those positions. *)
Theorem sparse_maxpool_spec ids mask scores :
  (length ids <= length mask)%nat -> (length ids <= length scores)%nat ->
  exists indices values,
    sparse_maxpool ids mask scores = Some (indices, values) /\
    length values = length indices /\
    StronglySorted Z.lt indices /\
    (forall k, k ∈ indices <-> exists j s, contributes mask scores ids k j s) /\
    (forall i k v, indices !! i = Some k -> values !! i = Some v ->
       f_gt v f_zero = true /\
       (exists j, contributes mask scores ids k j v) /\
       (forall j s, contributes mask scores ids k j s -> f_le s v = true)).
Proof.
  intros Hm Hs. destruct (maxpool_pooled mask scores ids Hm Hs) as (w & Hw & Hin & Hdom).
  exists (pooled_keys w), (map (fun k => default f_zero (w !! k)) (pooled_keys w)).
  split; [unfold sparse_maxpool; by rewrite Hw|].
  split; [apply length_map|]. split; [apply pooled_keys_strict|]. split.
  - intros k. rewrite pooled_keys_in. split.
    + intros [v Hv]. destruct (Hin _ _ Hv) as (_ & (j & Hj) & _). eauto.
    + intros (j & s & Hc). eauto.
  - intros i k v Hk Hv. assert (Hkin : is_Some (w !! k)).
    { apply pooled_keys_in. by eapply list_elem_of_lookup_2. }
    destruct Hkin as [v' Hv'].
    rewrite map_lookup, Hk in Hv. simpl in Hv. rewrite Hv' in Hv. simplify_eq/=. by apply Hin.
Qed.

Definition f32_half : f32 := f32_lit 1 2.

Lemma sparse_maxpool_spec_witness :
  exists indices values,
    sparse_maxpool [0; 17; 5; 17; 9; 2] [1; 1; 1; 1; 0; 1]
      [f32_half; f32_half; f_zero; f32_of_Z 1; f32_half; f32_half] = Some (indices, values) /\
    indices = [17] /\ values = [f32_of_Z 1].
Proof.
  destruct (sparse_maxpool_spec [0; 17; 5; 17; 9; 2] [1; 1; 1; 1; 0; 1]
    [f32_half; f32_half; f_zero; f32_of_Z 1; f32_half; f32_half] ltac:(done) ltac:(done))
    as (indices & values & H & _).
  exists indices, values. split; [exact H|]. vm_compute in H. by simplify_eq.
Defined.

(** The length statistics logged for a non-empty batch are genuine: the
    minimum and maximum are attained, the truncated mean and the 95th percentile
    lie between them, and more than [floor (95 n / 100)] texts are no longer than
    the percentile. *)
Theorem seq_len_distribution_sound lens :
  lens <> [] -> Forall usize lens -> sum_of lens <= U64_MAX ->
  let d := seq_len_distribution lens in
  (sld_min d ∈ lens /\ sld_max d ∈ lens) /\
  Forall (fun x => sld_min d <= x <= sld_max d) lens /\
  sld_min d <= sld_mean d <= sld_max d /\
  (sld_p95 d ∈ lens /\ sld_min d <= sld_p95 d <= sld_max d) /\
  (Nat.div (length lens * 95) 100
   < length (filter (fun x => (x <= sld_p95 d)%Z) lens))%nat.
Proof.
  intros Hne Hu Hsum. unfold seq_len_distribution. rewrite bool_decide_false by done.
  cbv zeta. cbn [sld_min sld_max sld_mean sld_p95].
  set (lo := default 0 (min_of lens)). set (hi := default 0 (max_of lens)).
  assert (Hlen : (0 < length lens)%nat) by (destruct lens; simpl; [done|lia]).
  assert (Hb : Forall (fun x => lo <= x <= hi) lens).
  { apply Forall_forall. intros x Hx. by apply min_max_bound. }
  rewrite sort_z_length, Nat.min_l.
  2: { assert (length lens * 95 / 100 < length lens)%nat; [|lia].
       apply Nat.Div0.div_lt_upper_bound; lia. }
  pose proof (sort_z_lookup lens (length lens * 95 / 100)
    ltac:(apply Nat.Div0.div_lt_upper_bound; lia)) as Hp.
  apply order_statistic in Hp as (Hpin & Hplt & _).
  split; [|split; [done|split; [|split; [|done]]]].
  - split; unfold lo, hi.
    + destruct (min_of lens) eqn:E; [by apply min_of_Some in E as [? _]|by destruct lens].
    + destruct (max_of lens) eqn:E; [by apply max_of_Some in E as [? _]|by destruct lens].
  - pose proof (sum_of_bounds lens lo hi Hb) as [Hlo Hhi].
    pose proof (sum_of_bounds lens 0 U64_MAX Hu) as [H0 _].
    rewrite wrap64_small by (unfold usize; lia).
    split; [apply Z.div_le_lower_bound | apply Z.div_le_upper_bound]; lia.
  - split; [done|]. rewrite Forall_forall in Hb. by apply Hb.
Qed.

Lemma seq_len_distribution_sound_witness :
  let d := seq_len_distribution [10; 200; 35] in
  sld_min d <= sld_p95 d <= sld_max d.
Proof.
  apply (seq_len_distribution_sound [10; 200; 35]); [done| |by vm_compute].
  repeat (apply Forall_cons; split; [by vm_compute|]). by apply Forall_nil.
Defined.

(** [median_usize] returns the upper median: an element of the input with
    more than half of the values (rounding down) at or below it and at least
    half at or above; on an even number of values it is the greater of the two
    middle ones. *)
Theorem median_usize_upper values :
  values <> [] ->
  median_usize values ∈ values /\
  (Nat.div (length values) 2
   < length (filter (fun x => (x <= median_usize values)%Z) values))%nat /\
  (length values - Nat.div (length values) 2
   <= length (filter (fun x => (median_usize values <= x)%Z) values))%nat /\
  median_usize [1; 2] = 2.
Proof.
  intros Hne.
  assert (median_usize values = nth (Nat.div (length values) 2) (sort_z values) 0) as ->.
  { unfold median_usize. by rewrite bool_decide_false. }
  assert (Hlen : (0 < length values)%nat) by (destruct values; simpl; [done|lia]).
  pose proof (sort_z_lookup values (length values / 2)
    ltac:(apply Nat.div_lt; lia)) as Hm.
  apply order_statistic in Hm as (? & ? & ?). by split_and!.
Qed.

Lemma median_usize_upper_witness : median_usize [7; 3; 9; 5] ∈ [7; 3; 9; 5].
Proof. by apply (median_usize_upper [7; 3; 9; 5]). Defined.
