(* ===== verification/TrtCache.v ===== *)
(** * The TensorRT engine cache

    [src/embedder/sm_detect.rs] (compute-capability parsing),
    [src/embedder/trt_cache/] (paths, SM-aware enumeration, write probe, fsync)
    and [src/embedder/trt_cache_gc.rs] (the destructive collection of plans of
    other SMs).  A directory is the list of entries its enumeration yields;
    whether a system call succeeds is an argument. *)

From S2P Require Import Prelude RustStr.

(** ** Directories *)

(** [is_file] is [None] when the file type cannot be read, [len] when the
    metadata cannot. *)
Record DirEntry := { e_name : string; e_is_file : option bool; e_len : option Z }.

#[export] Instance DirEntry_eq_dec : EqDecision DirEntry.
Proof. solve_decision. Defined.

(** [None]: missing or unreadable. *)
Definition Dir := option (list DirEntry).

Definition regular (e : DirEntry) : bool := is_some_and (e_is_file e) id.

(** ** Paths *)

Definition TRT_ENGINE_SUBDIR : string := "trt-engines".
Definition TRT_TIMING_SUBDIR : string := "trt-timing".

(** [Path::join] of a relative component *)
Definition path_join (p c : string) : string :=
  if ends_with "/" p then p +:+ c else if str_is_empty p then c else p +:+ "/" +:+ c.

Definition engine_cache_path (cache_dir : string) : string := path_join cache_dir TRT_ENGINE_SUBDIR.
Definition timing_cache_path (cache_dir : string) : string := path_join cache_dir TRT_TIMING_SUBDIR.

Record TrtCacheInfo := { tci_path : string; engine_count : Z; profile_count : Z }.

(** ** Compute capability *)

Definition parse_compute_capability (stdout : string) : option string :=
  first ← List.find (fun l => negb (str_is_empty (trim l))) (lines stdout);
  let first_line := trim first in
  '(major, minor) ← split_once "." first_line;
  if str_is_empty major || str_is_empty minor then None
  else if negb (str_forall is_ascii_digit major) || negb (str_forall is_ascii_digit minor) then None
  else Some ("sm" +:+ major +:+ minor).

(** [nvidia_smi id] is [None] when the binary cannot be run, otherwise whether it
    exited with success and its standard output, [None] when not UTF-8. *)
Definition detect_sm_for_device (nvidia_smi : Z -> option (bool * option string)) (device_id : Z)
  : option string :=
  '(success, out) ← nvidia_smi device_id;
  if negb success then None
  else stdout ← out; parse_compute_capability stdout.

(** ** Enumeration *)

Definition matches_sm_suffix (name sm : string) : bool :=
  ends_with ("_" +:+ sm +:+ ".engine") name.

(** The filter both enumerators share. *)
Definition engine_for_sm (sm : option string) (e : DirEntry) : bool :=
  regular e && ends_with ".engine" (e_name e) &&
  match sm with Some target => matches_sm_suffix (e_name e) target | None => true end.

Definition engine_files_for_sm (engine_dir : Dir) (sm : option string) : list DirEntry :=
  match engine_dir with
  | None => []
  | Some entries => List.filter (engine_for_sm sm) entries
  end.

Definition count_engine_files_for_sm (dir : Dir) (sm : option string) : Z :=
  Z.of_nat (length (engine_files_for_sm dir sm)).
Definition count_engine_files (dir : Dir) : Z := count_engine_files_for_sm dir None.

(** Byte-wise order of strings, for [Vec<String>::sort]. *)
Fixpoint str_leb (a b : string) : bool :=
  match a, b with
  | EmptyString, _ => true
  | String _ _, EmptyString => false
  | String x a, String y b =>
      if byte_of x <? byte_of y then true
      else if byte_of y <? byte_of x then false else str_leb a b
  end.
Definition str_le (a b : string) : Prop := str_leb a b = true.
#[export] Instance str_le_dec : RelDecision str_le := fun a b => decide (str_leb a b = true).

Definition engine_basenames_for_sm (engine_dir : Dir) (sm : option string) : option (list string) :=
  entries ← engine_dir;
  Some (merge_sort str_le (map e_name (List.filter (engine_for_sm sm) entries))).

(** [count_cache_entries]: engines and profiles of an unfiltered directory *)
Definition count_cache_entries (dir : Dir) : Z * Z :=
  match dir with
  | None => (0, 0)
  | Some entries =>
      foldl (fun '(engines, profiles) e =>
        if negb (regular e) then (engines, profiles)
        else if ends_with ".engine" (e_name e) then (engines + 1, profiles)
        else if ends_with ".profile" (e_name e) then (engines, profiles + 1)
        else (engines, profiles)) (0, 0) entries
  end.

(** What the pre-warm log line reports: the number of plans of this SM, the
    names listed, whether the list was cut, and the unfiltered total. *)
Definition MAX_LIST : nat := 64.

Definition prewarm_listing (engine_dir : Dir) (sm : option string)
  : option (Z * list string * bool * Z) :=
  basenames ← engine_basenames_for_sm engine_dir sm;
  let matching_total := length basenames in
  let truncated := Nat.ltb MAX_LIST matching_total in
  let listed := if truncated then take MAX_LIST basenames else basenames in
  let unfiltered_total :=
    match sm with
    | Some _ => match engine_basenames_for_sm engine_dir None with
                | Some v => length v
                | None => matching_total
                end
    | None => matching_total
    end in
  Some (Z.of_nat matching_total, listed, truncated, Z.of_nat unfiltered_total).

(** ** Durability *)

(** The targets [fsync_cache_dir] syncs: every regular file whose sync succeeds
    counts, then the directory itself.  [None]: the directory cannot be
    enumerated and nothing is synced. *)
Definition fsync_cache_dir (sync_file : string -> bool) (dir : Dir) : option (list string * Z) :=
  entries ← dir;
  let files := map e_name (List.filter regular entries) in
  Some (files, Z.of_nat (length (List.filter sync_file files))).

(** ** The write probe *)

Inductive probe_phase := PCreate | PWrite | PRead | PMismatch | PUnlink.
Inductive probe_event := ProbeFailed (p : probe_phase) | ProbeSucceeded.

(** The outcomes of the system calls of one probe; [pr_remove_first] is the
    clean-up before the creation, [pr_remove_last] the final unlink. *)
Record ProbeCalls := {
  pr_remove_first : bool;
  pr_create : bool;
  pr_write : bool;
  pr_open : bool;
  pr_read : option string;
  pr_remove_last : bool;
}.

Definition PROBE_DATA : string := "trt-probe".

(** [run_write_probe]: the events it logs and whether the sentinel is left. *)
Definition run_write_probe (present : bool) (c : ProbeCalls) : list probe_event * bool :=
  let present := present && negb (pr_remove_first c) in
  (* [create_new] refuses an existing file *)
  if present || negb (pr_create c) then ([ProbeFailed PCreate], present)
  else
    let left_over := negb (pr_remove_last c) in
    if negb (pr_write c) then ([ProbeFailed PWrite], left_over)
    else if negb (pr_open c) then ([ProbeFailed PRead], left_over)
    else match pr_read c with
         | None => ([ProbeFailed PRead], left_over)
         | Some buf =>
             if negb (String.eqb buf PROBE_DATA) then ([ProbeFailed PMismatch], left_over)
             else if negb (pr_remove_last c) then ([ProbeSucceeded; ProbeFailed PUnlink], true)
             else ([ProbeSucceeded], false)
         end.

(** [ensure_and_inspect]: [create] is whether [create_dir_all] succeeds. *)
Definition ensure_and_inspect (cache_dir : string) (create : bool) (dir : Dir) : TrtCacheInfo :=
  let path := engine_cache_path cache_dir in
  if negb create then {| tci_path := path; engine_count := 0; profile_count := 0 |}
  else let '(engines, profiles) := count_cache_entries dir in
       {| tci_path := path; engine_count := engines; profile_count := profiles |}.

(** ** Garbage collection of other SMs' plans *)

Definition ENGINE_SIDE_SUFFIXES : list string := [".profile"; ".timing_cache"].

Record GcStats := {
  plans_deleted : Z;
  bytes_freed : Z;
  other_sms_observed : list string;
}.

Definition extract_sm_tag (stem : string) : option string :=
  idx ← rfind "_sm" stem;
  let after_underscore := str_drop (idx + 1) stem in
  if (String.length after_underscore <? 3)%nat then None
  else
    let digits := str_drop 2 after_underscore in
    if str_is_empty digits || negb (str_forall is_ascii_digit digits) then None
    else Some after_underscore.

(** The state of a sweep: the directory, the statistics and the prefixes of the
    deleted plans. *)
Record GcState := { gc_dir : list DirEntry; gc_stats : GcStats; deletions : list string }.

Definition remove_entry (e : DirEntry) (d : list DirEntry) : list DirEntry :=
  List.filter (fun e' => negb (String.eqb (e_name e') (e_name e))) d.

Section gc.
(** [std::fs::remove_file] of a directory entry *)
Context (can_remove : string -> bool) (current_sm : string).

Definition gc_plan (st : GcState) (e : DirEntry) : GcState :=
if negb (regular e) then st else
match strip_suffix ".engine" (e_name e) with
| None => st
| Some stem =>
    match extract_sm_tag stem with
    | None => st
    | Some plan_sm =>
        if String.eqb plan_sm current_sm then st
        else
          let plan_bytes := default 0 (e_len e) in
          if can_remove (e_name e) then
            let s := gc_stats st in
            {| gc_dir := remove_entry e (gc_dir st);
               gc_stats :=
                 {| plans_deleted := plans_deleted s + 1;
                    bytes_freed := sat_add64 (bytes_freed s) plan_bytes;
                    other_sms_observed :=
                      if existsb (String.eqb plan_sm) (other_sms_observed s)
                      then other_sms_observed s else other_sms_observed s ++ [plan_sm] |};
               deletions := deletions st ++ [stem] |}
          else st
    end
end.

(** The first suffix that strips. *)
Fixpoint strip_side (suffixes : list string) (name : string) : option string :=
match suffixes with
| [] => None
| s :: rest => match strip_suffix s name with
               | Some p => Some p
               | None => strip_side rest name
               end
end.

Definition gc_sidecar (st : GcState) (e : DirEntry) : GcState :=
if negb (regular e) then st else
match strip_side ENGINE_SIDE_SUFFIXES (e_name e) with
| None => st
| Some prefix_with_engine =>
    match strip_suffix ".engine" prefix_with_engine with
    | None => st
    | Some prefix =>
        if negb (existsb (String.eqb prefix) (deletions st)) then st
        else if can_remove (e_name e) then
          let s := gc_stats st in
          {| gc_dir := remove_entry e (gc_dir st);
             gc_stats :=
               {| plans_deleted := plans_deleted s;
                  bytes_freed := sat_add64 (bytes_freed s) (default 0 (e_len e));
                  other_sms_observed := other_sms_observed s |};
             deletions := deletions st |}
        else st
    end
end.

Definition gc_default : GcStats :=
{| plans_deleted := 0; bytes_freed := 0; other_sms_observed := [] |}.

(** The two passes; [reread] is whether the directory can be read again. *)
Definition gc_stale_sm_plans (reread : bool) (cache : Dir) : GcStats * Dir :=
match cache with
| None => (gc_default, None)
| Some entries =>
    let st := foldl gc_plan {| gc_dir := entries; gc_stats := gc_default; deletions := [] |}
                entries in
    if bool_decide (deletions st = []) || negb reread then (gc_stats st, Some (gc_dir st))
    else
      let st' := foldl gc_sidecar st (gc_dir st) in
      (gc_stats st', Some (gc_dir st'))
end.
End gc.

(** ** SM tags *)

(** The form ORT writes and [parse_compute_capability] produces. *)
Definition sm_tag (t : string) : Prop := exists d, t = "sm" +:+ d /\ digits d.

Lemma extract_sm_tag_spec stem t :
  extract_sm_tag stem = Some t <-> exists x d, stem = x +:+ "_sm" +:+ d /\ digits d /\ t = "sm" +:+ d.
Proof.
  unfold extract_sm_tag. split.
  - destruct (rfind "_sm" stem) as [i|] eqn:Hi; [|done]. cbn -[str_drop String.length str_forall].
    apply rfind_spec in Hi as [r Hr].
    assert (Hdrop : str_drop (i + 1) stem = "sm" +:+ r).
    { rewrite <- str_drop_drop, Hr. done. }
    rewrite Hdrop. case_if; [done|]. cbn [str_drop]. case_if; [done|]. intros [= <-].
    apply orb_false_iff in Heqb0 as [Hne Hd]. bool_to_prop.
    exists (str_take i stem), r. split_and!; [|split|done].
    + rewrite <- Hr. symmetry. apply str_take_drop.
    + by intros ->.
    + done.
  - intros (x & d & -> & [Hne Hd] & ->).
    assert (Hnone : rfind "_sm" ("sm" +:+ d) = None).
    { apply rfind_None, (not_contains_char "_"%char); [by left|].
      intros [H|[H|H]]; [done|done|]. by eapply digits_no_char in H. }
    rewrite (rfind_app "_sm" x ("_sm" +:+ d) 0).
    2: { change ("_sm" +:+ d) with (String "_" ("sm" +:+ d)). cbn [rfind]. rewrite Hnone.
         assert (Hsw : starts_with "_sm" (String "_" ("sm" +:+ d)) = true)
           by (apply starts_with_spec; by exists d).
         by rewrite Hsw. }
    cbn -[str_drop String.length str_forall].
    rewrite Nat.add_0_r, <- str_drop_drop, str_drop_app. cbn [str_drop].
    change (str_drop 0 ("sm" +:+ d)) with ("sm" +:+ d).
    destruct d as [|c d]; [done|]. cbn [str_drop String.append String.length].
    change (str_drop 2 ("sm" +:+ String c d)) with (String c d).
    simpl in Hd |- *. by rewrite Hd.
Qed.

Lemma matches_sm_extract name t :
  sm_tag t -> matches_sm_suffix name t = true <->
  exists stem, strip_suffix ".engine" name = Some stem /\ extract_sm_tag stem = Some t.
Proof.
  intros (d & -> & Hd). unfold matches_sm_suffix. rewrite ends_with_spec. split.
  - intros [x ->]. exists (x +:+ "_sm" +:+ d). split.
    + apply strip_suffix_Some. rewrite <- !string_app_assoc. done.
    + apply extract_sm_tag_spec. eauto.
  - intros (stem & ->%strip_suffix_Some & (x & d' & -> & _ & Heq)%extract_sm_tag_spec).
    simpl in Heq. simplify_eq. exists x. rewrite <- !string_app_assoc. done.
Qed.

Lemma parse_compute_capability_tag s t : parse_compute_capability s = Some t -> sm_tag t.
Proof.
  unfold parse_compute_capability. destruct (List.find _ _); simpl; [|done].
  destruct (split_once _ _) as [[ma mi]|]; simpl; [|done].
  case_if; [done|]. case_if; [done|]. intros [= <-]. exists (ma +:+ mi). split; [done|].
  apply orb_false_iff in Heqb as [Hma Hmi]. apply orb_false_iff in Heqb0 as [Ha Hi].
  bool_to_prop. split; [by destruct ma|]. by rewrite str_forall_app, Ha, Hi.
Qed.

(** ** Garbage collection: lemmas *)

Section gc_lemmas.
Context (can_remove : string -> bool) (current_sm : string) (entries : list DirEntry).

Definition stale_stem (stem : string) : Prop :=
  exists t, extract_sm_tag stem = Some t /\ t <> current_sm.

(** The names a sweep may delete. *)
Definition doomed (name : string) : Prop :=
  exists stem, stale_stem stem /\
    (name = stem +:+ ".engine" \/ name = stem +:+ ".engine.profile" \/
     name = stem +:+ ".engine.timing_cache").

Lemma doomed_not_current name : sm_tag current_sm -> doomed name -> matches_sm_suffix name current_sm = false.
Proof.
  intros Htag (stem & (t & Ht & Hne) & Hname). apply not_true_iff_false.
  intros (stem' & Hs%strip_suffix_Some & Ht')%matches_sm_extract; [|done].
  destruct Hname as [-> | [-> | ->]].
  - apply string_app_inj_r in Hs. subst stem'. congruence.
  - apply (f_equal srev) in Hs. rewrite !srev_app in Hs. done.
  - apply (f_equal srev) in Hs. rewrite !srev_app in Hs. done.
Qed.
Record gc_inv (st : GcState) : Prop := {
  gc_sub : forall e, e ∈ gc_dir st -> e ∈ entries;
  gc_kept : forall e, e ∈ entries -> e ∈ gc_dir st \/ doomed (e_name e);
  gc_dels : Forall stale_stem (deletions st);
  gc_live : sm_tag current_sm ->
    List.filter (engine_for_sm (Some current_sm)) (gc_dir st)
    = List.filter (engine_for_sm (Some current_sm)) entries;
}.

Lemma remove_entry_in e e' d :
  e' ∈ remove_entry e d <-> e' ∈ d /\ e_name e' <> e_name e.
Proof.
  unfold remove_entry. rewrite !list_elem_of_In, filter_In, negb_true_iff, String.eqb_neq. done.
Qed.

Lemma remove_doomed_live e d :
  sm_tag current_sm -> doomed (e_name e) ->
  List.filter (engine_for_sm (Some current_sm)) (remove_entry e d)
  = List.filter (engine_for_sm (Some current_sm)) d.
Proof.
  intros Htag Hd. induction d as [|e' d IH]; [done|]. cbn [remove_entry List.filter].
  destruct (String.eqb_spec (e_name e') (e_name e)) as [Heq|Hne]; cbn [negb List.filter].
  - fold (remove_entry e d). rewrite IH. destruct (engine_for_sm _ e') eqn:He; [|done].
    exfalso. unfold engine_for_sm in He. bool_to_prop.
    rewrite Heq, doomed_not_current in H0 by done. done.
  - fold (remove_entry e d). by rewrite IH.
Qed.

Lemma gc_remove_inv st e stats dels :
  gc_inv st -> doomed (e_name e) -> Forall stale_stem dels ->
  gc_inv {| gc_dir := remove_entry e (gc_dir st); gc_stats := stats; deletions := dels |}.
Proof.
  intros [Hsub Hkept _ Hlive] Hd Hdels.
  split; simpl; [| |done|intros Htag; rewrite remove_doomed_live; auto].
  - intros e' [? _]%remove_entry_in. auto.
  - intros e' He'. destruct (Hkept e' He') as [Hin|]; [|by right].
    destruct (decide (e_name e' = e_name e)) as [Heq|Hne]; [right; by rewrite Heq|].
    left. by apply remove_entry_in.
Qed.

Lemma gc_plan_inv st e : gc_inv st -> gc_inv (gc_plan can_remove current_sm st e).
Proof.
  intros Hinv. unfold gc_plan. case_if; [done|].
  destruct (strip_suffix _ _) as [stem|] eqn:Hs; [|done]. apply strip_suffix_Some in Hs.
  destruct (extract_sm_tag stem) as [t|] eqn:Ht; [|done].
  destruct (String.eqb_spec t current_sm) as [|Hne]; [done|].
  assert (Hst : stale_stem stem) by (by exists t).
  case_if; [|done]. apply gc_remove_inv; [done|exists stem; auto|].
  apply Forall_app. split; [by apply gc_dels|]. by constructor.
Qed.

Lemma strip_side_spec name p :
  strip_side ENGINE_SIDE_SUFFIXES name = Some p ->
  name = p +:+ ".profile" \/ name = p +:+ ".timing_cache".
Proof.
  cbn [strip_side ENGINE_SIDE_SUFFIXES].
  destruct (strip_suffix ".profile" name) as [q|] eqn:H1.
  - intros [= <-]. left. by apply strip_suffix_Some.
  - destruct (strip_suffix ".timing_cache" name) as [q|] eqn:H2; [|done].
    intros [= <-]. right. by apply strip_suffix_Some.
Qed.

Lemma gc_sidecar_inv st e : gc_inv st -> gc_inv (gc_sidecar can_remove st e).
Proof.
  intros Hinv. unfold gc_sidecar. case_if; [done|].
  destruct (strip_side _ _) as [p|] eqn:Hs; [|done]. apply strip_side_spec in Hs.
  destruct (strip_suffix ".engine" p) as [stem|] eqn:Hp; [|done]. apply strip_suffix_Some in Hp.
  case_if; [done|]. bool_to_prop. apply existsb_exists in Heqb0 as (x & Hx & ->%String.eqb_eq).
  apply list_elem_of_In in Hx.
  pose proof (gc_dels _ Hinv) as Hdels. rewrite Forall_forall in Hdels.
  case_if; [|done]. apply gc_remove_inv; [done| |by apply gc_dels].
  exists x. split; [by apply Hdels|]. subst p.
  rewrite <- !string_app_assoc in Hs. destruct Hs as [->| ->]; auto.
Qed.

Lemma gc_foldl_inv (f : GcState -> DirEntry -> GcState) l st :
  (forall st e, gc_inv st -> gc_inv (f st e)) -> gc_inv st -> gc_inv (foldl f st l).
Proof. intros Hf. revert st. induction l as [|e l IH]; intros st H; simpl; auto. Qed.

Lemma gc_result_inv reread stats d :
  gc_stale_sm_plans can_remove current_sm reread (Some entries) = (stats, d) ->
  exists st, d = Some (gc_dir st) /\ gc_inv st.
Proof.
  unfold gc_stale_sm_plans. set (st := foldl (gc_plan _ _) _ _).
  assert (Hinv : gc_inv st).
  { apply gc_foldl_inv; [apply gc_plan_inv|]. split; simpl; auto. }
  case_if; intros [= <- <-]; [eauto|]. eexists. split; [done|].
  apply gc_foldl_inv; [apply gc_sidecar_inv|done].
Qed.

End gc_lemmas.

(** ** Properties *)

(** The SM filter is strict: a plan name matches at most one SM tag, so
    [sm12] never claims a plan of [sm120]; and the tag of a name that matches is
    the one the garbage collector extracts. *)
Theorem sm_suffix_strict name t1 t2 :
  sm_tag t1 -> sm_tag t2 ->
  matches_sm_suffix name t1 = true -> matches_sm_suffix name t2 = true ->
  t1 = t2 /\
  exists stem, strip_suffix ".engine" name = Some stem /\ extract_sm_tag stem = Some t1.
Proof.
  intros H1 H2 (stem1 & Hs1 & Ht1)%matches_sm_extract (stem2 & Hs2 & Ht2)%matches_sm_extract;
    [|done..]. split; [congruence|eauto].
Qed.

Lemma sm_suffix_strict_witness :
  exists stem, strip_suffix ".engine" "trt_graph_7_fp16_sm120.engine" = Some stem /\
               extract_sm_tag stem = Some "sm120".
Proof.
  assert (Htag : sm_tag "sm120") by (by exists "120").
  apply (sm_suffix_strict "trt_graph_7_fp16_sm120.engine" "sm120" "sm120" Htag Htag);
    by vm_compute.
Defined.

(** C31: with the SM that was detected from [nvidia-smi], a sweep leaves exactly
    the same plans visible to this GPU, whichever deletions succeed, adds
    nothing, and deletes only plans of another SM and their sidecars. *)
Theorem gc_spares_current_sm can_remove stdout sm reread entries stats dir' :
  parse_compute_capability stdout = Some sm ->
  gc_stale_sm_plans can_remove sm reread (Some entries) = (stats, dir') ->
  engine_files_for_sm dir' (Some sm) = engine_files_for_sm (Some entries) (Some sm) /\
  exists after, dir' = Some after /\
    (forall e, e ∈ after -> e ∈ entries) /\
    (forall e, e ∈ entries -> e ∈ after \/ doomed sm (e_name e)).
Proof.
  intros Htag%parse_compute_capability_tag (st & -> & Hinv)%gc_result_inv.
  split; [by apply (gc_live _ _ _ Hinv)|].
  exists (gc_dir st). split_and!; [done|by apply (gc_sub _ _ _ Hinv)|by apply (gc_kept _ _ _ Hinv)].
Qed.

Definition example_cache : list DirEntry :=
  map (fun n => {| e_name := n; e_is_file := Some true; e_len := Some 100 |})
    ["a_sm89.engine"; "a_sm89.engine.profile"; "b_sm120.engine"; "b_sm120.engine.profile";
     "c.engine"; "README"].

Lemma gc_spares_current_sm_witness :
  let '(stats, dir') := gc_stale_sm_plans (fun _ => true) "sm120" true (Some example_cache) in
  engine_files_for_sm dir' (Some "sm120")
    = engine_files_for_sm (Some example_cache) (Some "sm120") /\
  plans_deleted stats = 1 /\ bytes_freed stats = 200.
Proof.
  assert (Hs : let stats := fst (gc_stale_sm_plans (fun _ => true) "sm120" true (Some example_cache)) in
    plans_deleted stats = 1 /\ bytes_freed stats = 200) by (by vm_compute).
  destruct (gc_stale_sm_plans _ _ _ _) as [stats dir'] eqn:E0.
  split; [|exact Hs].
  by apply (gc_spares_current_sm (fun _ => true) ("12.0" +:+ String nl "") "sm120" true
    example_cache stats dir' eq_refl E0).
Defined.

(** The write probe logs success exactly when it created the sentinel, wrote
    it and read the same bytes back, whatever was there before; the sentinel is
    then left behind only when the unlink itself fails, which is logged. *)
Theorem write_probe_sound present c :
  (ProbeSucceeded ∈ fst (run_write_probe present c) <->
   (present = false \/ pr_remove_first c = true) /\ pr_create c = true /\ pr_write c = true /\
   pr_open c = true /\ pr_read c = Some PROBE_DATA) /\
  (ProbeSucceeded ∈ fst (run_write_probe present c) ->
   snd (run_write_probe present c) = negb (pr_remove_last c) /\
   (ProbeFailed PUnlink ∈ fst (run_write_probe present c) <-> pr_remove_last c = false)).
Proof.
  destruct c as [rf cr wr op rd rl]. unfold run_write_probe. cbn.
  assert (Hno : forall p, ~ ProbeSucceeded ∈ [ProbeFailed p]).
  { intros p [H|H]%elem_of_cons; [done|inversion H]. }
  assert (Hfail : forall p (P Q : Prop), ~ P ->
    (ProbeSucceeded ∈ [ProbeFailed p] <-> P) /\ (ProbeSucceeded ∈ [ProbeFailed p] -> Q)).
  { intros p P Q HP. split; [split; [|done]|]; intros H; by apply Hno in H. }
  destruct present, rf, cr, wr, op; cbn;
    try (apply Hfail; intros ([?|?] & ? & ? & ? & ?); discriminate);
    (destruct rd as [buf|]; cbn; [|apply Hfail; by intros (_ & _ & _ & _ & ?)]);
    (destruct (String.eqb_spec buf PROBE_DATA) as [->|Hne]; cbn;
      [|apply Hfail; intros (_ & _ & _ & _ & ?); congruence]);
    destruct rl; cbn; set_solver.
Qed.
