(* ===== verification/Types.v ===== *)
(** * Data exchanged between the components

    The DTOs of [src/embedder/types.rs], the error chain of the embedder with
    the outcome of a computation that can also panic, and the model variants of
    [src/config.rs]. *)

From S2P Require Import Prelude Float RustStr JitGuard.

(** ** Failure

    The release profile aborts on panic, so a panic is the end of the process
    and not a value the program handles; [Fail] is the [Err] of an
    [anyhow::Result]. *)
Inductive failure := Panic | Fail (e : anyhow).

Abbreviation M := (result failure).

(** An index or an [expect]: [None] panics. *)
Definition expect {A} (o : option A) : M A :=
  match o with Some a => Ok a | None => Err Panic end.

(** An [Err(e)?] of a fallible call. *)
Definition lift {A} (r : result anyhow A) : M A := map_err Fail r.

Definition no_panic {A} (r : M A) : Prop := r <> Err Panic.

(** ** DTOs *)

Inductive ModelVariant := Fp32 | Fp16 | Int8.
#[export] Instance ModelVariant_eq_dec : EqDecision ModelVariant.
Proof. solve_decision. Defined.

Inductive EpSelection := Cpu | Cuda | TensorRt.
#[export] Instance EpSelection_eq_dec : EqDecision EpSelection.
Proof. solve_decision. Defined.

(** [Display for EpSelection] *)
Definition fmt_ep (e : EpSelection) : string :=
  match e with Cpu => "cpu" | Cuda => "cuda" | TensorRt => "tensorrt" end.

Record SparseEmbedding := { indices : list Z; values : list f32 }.
Record DualEmbedding := { dense : list f32; sparse : SparseEmbedding }.

Definition OS_HEADROOM_BYTES : Z := 256 * 1024 * 1024.

Record EmbedStats := {
  st_chunks : Z;
  max_chunk_seq : Z;
  total_token_positions : Z;
  tokenize_ms : Z;
  inference_ms : Z;
  seq_len_min : Z;
  seq_len_max : Z;
  seq_len_mean : Z;
  seq_len_p95 : Z;
}.

(** [EmbedStats::default()] *)
Definition default_stats : EmbedStats := {|
  st_chunks := 0; max_chunk_seq := 0; total_token_positions := 0; tokenize_ms := 0;
  inference_ms := 0; seq_len_min := 0; seq_len_max := 0; seq_len_mean := 0; seq_len_p95 := 0 |}.

Record ProbeResult := { rss_before : Z; rss_after : Z }.

(** ** Lemmas *)

Lemma expect_Some {A} (o : option A) a : o = Some a -> expect o = Ok a.
Proof. by intros ->. Qed.

Lemma result_mapM_length {E A B} (f : A -> result E B) l r :
  result_mapM f l = Ok r -> length r = length l.
Proof.
  revert r. induction l as [|x l IH]; intros r; simpl; [by intros [= <-]|].
  destruct (f x); [|done]. destruct (result_mapM f l) eqn:E0; [|done].
  intros [= <-]. simpl. by rewrite (IH _ eq_refl).
Qed.

Lemma result_mapM_ok {E A B} (f : A -> result E B) l :
  (forall x, x ∈ l -> is_ok (f x) = true) -> exists r, result_mapM f l = Ok r.
Proof.
  induction l as [|x l IH]; intros H; simpl; [eauto|].
  pose proof (H x ltac:(by left)) as Hx. destruct (f x); [|done].
  destruct IH as [r ->]; [|eauto]. intros y Hy. apply H. by right.
Qed.

Lemma result_mapM_lookup {E A B} (f : A -> result E B) l r i x :
  result_mapM f l = Ok r -> l !! i = Some x -> exists y, r !! i = Some y /\ f x = Ok y.
Proof.
  revert r i. induction l as [|a l IH]; intros r i; simpl; [done|].
  destruct (f a) eqn:Ha; [|done]. destruct (result_mapM f l) eqn:E0; [|done].
  intros [= <-] Hi. destruct i as [|i]; simpl in *; [simplify_eq; eauto|]. by apply (IH _ i).
Qed.
