(* ===== verification/SysInfo.v ===== *)
(** * Memory and device detection ([src/sysinfo.rs])

    The Linux build: the memory limit of the container from the cgroup tree,
    the fall-back chain, the resident set size and the GPU count.  The file
    system is the function [read] from the components of an absolute path to
    the content [read_to_string] returns for it. *)

From S2P Require Import Prelude RustStr.

Inductive MemorySource := Override | CgroupV2 | CgroupV1 | HostRam.

(** [Display for MemorySource] *)
Definition fmt_source (s : MemorySource) : string :=
  match s with
  | Override => "override"
  | CgroupV2 => "cgroup_v2"
  | CgroupV1 => "cgroup_v1"
  | HostRam => "host_ram"
  end.

Record MemoryReading := { available_bytes : Z; source : MemorySource }.

Definition ONE_TIB : Z := 1024 * 1024 * 1024 * 1024.

(** [str::trim_start_matches] of a character *)
Fixpoint trim_start_char (c : ascii) (s : string) : string :=
  match s with
  | String a s' => if Ascii.eqb a c then trim_start_char c s' else s
  | EmptyString => EmptyString
  end.

(** The components [Path] sees in a relative path: empty ones and [.] are
    dropped. *)
Definition path_components (s : string) : list string :=
  filter (fun p => p <> "" /\ p <> ".") (split_char "/" s).

Abbreviation path := (list string) (only parsing).

Section sysinfo.
Variable read : path -> option string.

(** ** cgroup v2 *)

(** The numeric limit below 1 TiB a [memory.max] holds. *)
Definition numeric_limit (raw : string) : option Z :=
  let trimmed := trim raw in
  if String.eqb trimmed "max" then None
  else bytes ← parse_usize trimmed; if bytes <? ONE_TIB then Some bytes else None.

Definition memory_max (dir : path) : option Z := read (dir ++ ["memory.max"]) ≫= numeric_limit.

(** The walk; [rcur] is [current] with its components in reverse order. *)
Fixpoint walk (fs_root : path) (rcur : list string) : option MemoryReading :=
  match memory_max (reverse rcur) with
  | Some bytes => Some {| available_bytes := bytes; source := CgroupV2 |}
  | None =>
      if bool_decide (reverse rcur = fs_root) then None
      else match rcur with
           | [] => None
           | _ :: parent => walk fs_root parent
           end
  end.

(** The path recorded on the first unified-hierarchy line. *)
Definition cgroup_rel_path (content : string) : option string :=
  head (omap (strip_prefix "0::") (lines content)).

Definition cgroup_v2_walk (cgroup_fs_root proc_self_cgroup : path) : option MemoryReading :=
  cgroup_content ← read proc_self_cgroup;
  rel ← cgroup_rel_path cgroup_content;
  walk cgroup_fs_root (reverse (cgroup_fs_root ++ path_components (trim_start_char "/" rel))).

(** ** cgroup v1 and the host *)

Definition cgroup_memory : option MemoryReading :=
  match cgroup_v2_walk ["sys"; "fs"; "cgroup"] ["proc"; "self"; "cgroup"] with
  | Some reading => Some reading
  | None =>
      raw ← read ["sys"; "fs"; "cgroup"; "memory"; "memory.limit_in_bytes"];
      bytes ← parse_usize (trim raw);
      if bytes <? ONE_TIB then Some {| available_bytes := bytes; source := CgroupV1 |} else None
  end.

(** The first [MemAvailable] line decides, also when it does not parse. *)
Definition linux_meminfo_available : option Z :=
  content ← read ["proc"; "meminfo"];
  line ← head (filter (fun l => starts_with "MemAvailable:" l = true) (lines content));
  field ← split_whitespace line !! 1%nat;
  kb ← parse_usize field;
  Some (wrap64 (kb * 1024)).

Definition page_size_bytes : Z := 4096.

(** [read_process_rss_bytes] on Linux *)
Definition linux_rss : option Z :=
  raw ← read ["proc"; "self"; "statm"];
  field ← split_whitespace raw !! 1%nat;
  rss_pages ← parse_usize field;
  Some (wrap64 (rss_pages * page_size_bytes)).

(** [env_override] on the value of [BGE_M3_AVAILABLE_MEMORY_BYTES] *)
Definition env_override (v : option string) : option Z := v ≫= parse_usize.

Definition detect_available_memory (v : option string) : MemoryReading :=
  match env_override v with
  | Some bytes => {| available_bytes := bytes; source := Override |}
  | None =>
      match cgroup_memory with
      | Some r => r
      | None =>
          match linux_meminfo_available with
          | Some bytes => {| available_bytes := bytes; source := HostRam |}
          | None => {| available_bytes := 4 * 1024 * 1024 * 1024; source := HostRam |}
          end
      end
  end.
End sysinfo.

(** ** GPUs

    [entries] is what [read_dir] of the driver directory yields, one flag per
    entry that could be read. *)
Definition count_nvidia_gpus_from_proc (entries : option (list bool)) : option Z :=
  es ← entries;
  let count := Z.of_nat (length (filter (fun b => b = true) es)) in
  if 0 <? count then Some count else None.

Definition detect_gpu_count (entries : option (list bool)) (override_val : option Z) : Z :=
  match override_val with
  | Some n => Z.max n 1
  | None => unwrap_or (count_nvidia_gpus_from_proc entries) 1
  end.

(** ** Lemmas *)

Lemma numeric_limit_range raw b : numeric_limit raw = Some b -> 0 <= b < ONE_TIB.
Proof.
  unfold numeric_limit. case_if; [done|]. destruct (parse_usize _) as [x|] eqn:E; [|done]. simpl.
  apply parse_usize_range in E as [? _]. case_if; [|done]. intros [= <-]. bool_to_prop. lia.
Qed.

Section walk.
Variable read : path -> option string.

(** The walk from [root ++ rel] returns the limit of the deepest directory on the
    way down from [root] that has one. *)
Lemma walk_spec root rel :
  match walk read root (reverse (root ++ rel)) with
  | Some r => exists k, (k <= length rel)%nat /\ source r = CgroupV2
      /\ memory_max read (root ++ take k rel) = Some (available_bytes r)
      /\ forall j, (k < j <= length rel)%nat -> memory_max read (root ++ take j rel) = None
  | None => forall j, (j <= length rel)%nat -> memory_max read (root ++ take j rel) = None
  end.
Proof.
  induction rel as [|d rel IH] using rev_ind.
  - rewrite app_nil_r. destruct (walk read root (reverse root)) as [r|] eqn:E;
      destruct (reverse root) as [|d r0] eqn:Er; cbn [walk] in E;
      rewrite <- Er, ?reverse_involutive in E.
    all: destruct (memory_max read root) as [b|] eqn:Em;
      [simplify_eq; try (exists 0%nat; rewrite take_0, app_nil_r; split_and!;
         [done|done|done|simpl; lia])
      |rewrite ?bool_decide_true in E by done; try done].
    all: intros j Hj; simpl in Hj; assert (j = 0%nat) as -> by lia; by rewrite take_0, app_nil_r.
  - rewrite app_assoc, reverse_snoc. cbn [walk].
    rewrite <- reverse_snoc, reverse_involutive, <- app_assoc.
    assert (Hfull : forall j, (length rel < j <= length (rel ++ [d]))%nat ->
      take j (rel ++ [d]) = rel ++ [d]).
    { intros j Hj. rewrite length_app in Hj. simpl in Hj. apply take_ge. rewrite length_app. simpl. lia. }
    assert (Hpre : forall j, (j <= length rel)%nat -> take j (rel ++ [d]) = take j rel).
    { intros j Hj. by apply take_app_le. }
    destruct (memory_max read (root ++ rel ++ [d])) as [b|] eqn:Em.
    + exists (length (rel ++ [d])). rewrite firstn_all. split_and!; [done|done|done|lia].
    + rewrite bool_decide_false.
      2:{ intros H. apply (f_equal length) in H. rewrite !length_app in H. simpl in H. lia. }
      assert (Hlast : forall j, (length rel < j <= length (rel ++ [d]))%nat ->
        memory_max read (root ++ take j (rel ++ [d])) = None) by (intros j Hj; by rewrite Hfull).
      destruct (walk read root (reverse (root ++ rel))) as [r|].
      * destruct IH as (k & Hk & Hr & Hm & Hd). exists k. rewrite length_app in *. rewrite Hpre by done.
        split_and!; [lia|done|done|]. intros j Hj.
        destruct (decide (j <= length rel)%nat); [rewrite Hpre by done; apply Hd; lia|].
        apply Hlast. lia.
      * intros j Hj. destruct (decide (j <= length rel)%nat); [rewrite Hpre by done; by apply IH|].
        apply Hlast. lia.
Qed.
End walk.

Lemma memory_max_range read dir b : memory_max read dir = Some b -> 0 <= b < ONE_TIB.
Proof. unfold memory_max. destruct (read _); [|done]. simpl. apply numeric_limit_range. Qed.

(** Both cgroup versions report a limit below 1 TiB. *)
Lemma cgroup_memory_spec read r :
  cgroup_memory read = Some r ->
  0 <= available_bytes r < ONE_TIB /\ (source r = CgroupV1 \/ source r = CgroupV2).
Proof.
  unfold cgroup_memory. destruct (cgroup_v2_walk _ _ _) as [r'|] eqn:E.
  - intros [= ->]. unfold cgroup_v2_walk in E. destruct (read _) as [c|]; [|done]. simpl in E.
    destruct (cgroup_rel_path c) as [rel|]; [|done]. simpl in E.
    set (dirs := path_components _) in E.
    pose proof (walk_spec read ["sys"; "fs"; "cgroup"] dirs) as H. simpl app in *. rewrite E in H.
    destruct H as (k & _ & Hs & Hm & _). apply memory_max_range in Hm. auto.
  - clear E. destruct (read _) as [raw|]; [|done]. simpl. destruct (parse_usize _) as [b|] eqn:Eb; [|done].
    simpl. case_if; [|done]. intros [= <-]. apply parse_usize_range in Eb as [? _]. bool_to_prop.
    simpl. auto.
Qed.

Lemma linux_meminfo_range read b : linux_meminfo_available read = Some b -> usize b.
Proof.
  unfold linux_meminfo_available. destruct (read _); [|done]. simpl.
  destruct (head _); [|done]. simpl. destruct (_ !! _); [|done]. simpl.
  destruct (parse_usize _); [|done]. simpl. intros [= <-]. apply wrap64_range.
Qed.

Lemma env_override_range v b : env_override v = Some b -> usize b.
Proof. destruct v as [s|]; [|done]. apply parse_usize_range. Qed.

Lemma detect_gpu_count_pos entries o : 1 <= detect_gpu_count entries o.
Proof.
  unfold detect_gpu_count. destruct o as [n|]; [lia|]. unfold count_nvidia_gpus_from_proc.
  destruct entries as [es|]; simpl; [|lia]. case_if; simpl; bool_to_prop; lia.
Qed.

(** ** Properties *)

(** C35: On a unified cgroup hierarchy the walk reports the limit of the deepest
    directory, from the container's own cgroup up to and including the mount
    point, whose [memory.max] holds a number below 1 TiB; it reports nothing iff
    no directory of that chain has one.  No directory outside the chain is
    consulted, and a reported limit is below 1 TiB. *)
Theorem cgroup_v2_walk_deepest (read : path -> option string) (root proc : path)
    (content rel : string)
    (Hcontent : read proc = Some content) (Hrel : cgroup_rel_path content = Some rel) :
  let dirs := path_components (trim_start_char "/" rel) in
  match cgroup_v2_walk read root proc with
  | Some r => source r = CgroupV2 /\ 0 <= available_bytes r < ONE_TIB
      /\ exists k, (k <= length dirs)%nat
           /\ memory_max read (root ++ take k dirs) = Some (available_bytes r)
           /\ forall j, (k < j <= length dirs)%nat -> memory_max read (root ++ take j dirs) = None
  | None => forall j, (j <= length dirs)%nat -> memory_max read (root ++ take j dirs) = None
  end.
Proof.
  intros dirs. unfold cgroup_v2_walk. rewrite Hcontent. simpl. rewrite Hrel. simpl. fold dirs.
  pose proof (walk_spec read root dirs) as H. destruct (walk _ _ _) as [r|]; [|done].
  destruct H as (k & Hk & Hs & Hm & Hd). split; [done|].
  split; [by eapply memory_max_range|]. by exists k.
Qed.

(** The layout of an ECS task: no limit at the root, the container's limit two
    levels below, [max] in the leaf. *)
Definition example_fs : path -> option string := fun p =>
  if bool_decide (p = ["proc"; "self"; "cgroup"]) then Some ("0::/ecs.slice/task.scope/leaf" +:+ String nl "")
  else if bool_decide (p = ["cg"; "memory.max"]) then Some ("max" +:+ String nl "")
  else if bool_decide (p = ["cg"; "ecs.slice"; "memory.max"]) then Some "8589934592"
  else if bool_decide (p = ["cg"; "ecs.slice"; "task.scope"; "memory.max"]) then Some ("4294967296" +:+ String nl "")
  else if bool_decide (p = ["cg"; "ecs.slice"; "task.scope"; "leaf"; "memory.max"]) then Some "max"
  else None.

Lemma cgroup_v2_walk_deepest_witness :
  exists r, cgroup_v2_walk example_fs ["cg"] ["proc"; "self"; "cgroup"] = Some r
  /\ available_bytes r = 4294967296 /\ available_bytes r < ONE_TIB.
Proof.
  eexists. split; [vm_compute; reflexivity|]. split; [reflexivity|].
  pose proof (cgroup_v2_walk_deepest example_fs ["cg"] ["proc"; "self"; "cgroup"]
    ("0::/ecs.slice/task.scope/leaf" +:+ String nl "") "/ecs.slice/task.scope/leaf") as H.
  assert (E : cgroup_v2_walk example_fs ["cg"] ["proc"; "self"; "cgroup"]
    = Some {| available_bytes := 4294967296; source := CgroupV2 |}) by (vm_compute; reflexivity).
  rewrite E in H. destruct H as (_ & [_ Hlt] & _); [vm_compute; reflexivity..|exact Hlt].
Defined.

(** Memory detection always answers with a [usize]: the environment's value
    when it parses, even below every other source; else a container limit below
    1 TiB; else the host's [MemAvailable] or 4 GiB.  GPU detection answers at
    least 1, the override when it is positive. *)
Theorem detection_total (read : path -> option string) (v : option string)
    (entries : option (list bool)) (o : option Z) :
  let r := detect_available_memory read v in
  usize (available_bytes r)
  /\ (source r = Override <-> is_Some (env_override v))
  /\ (source r = CgroupV1 \/ source r = CgroupV2 -> available_bytes r < ONE_TIB)
  /\ (source r = HostRam -> cgroup_memory read = None)
  /\ 1 <= detect_gpu_count entries o
  /\ (forall n, 1 <= n -> detect_gpu_count entries (Some n) = n).
Proof.
  pose proof (detect_gpu_count_pos entries o) as Hgpu.
  assert (Hover : forall n, 1 <= n -> detect_gpu_count entries (Some n) = n) by (simpl; lia).
  assert (Hno : ~ is_Some (@None Z)) by (intros [? ?]; done).
  cbv zeta. unfold detect_available_memory. destruct (env_override v) as [b|] eqn:Eo.
  - apply env_override_range in Eo. simpl. by split_and!; try done; intros [|].
  - destruct (cgroup_memory read) as [r|] eqn:Ec.
    + apply cgroup_memory_spec in Ec as [[Hr1 Hr2] Hr3]. split_and!; try done.
      * unfold usize, ONE_TIB, U64_MAX in *. lia.
      * split; [|done]. intros H. destruct Hr3 as [Hr3|Hr3]; by rewrite Hr3 in H.
      * intros H. destruct Hr3 as [Hr3|Hr3]; by rewrite Hr3 in H.
    + destruct (linux_meminfo_available read) as [b|] eqn:Em; simpl.
      * apply linux_meminfo_range in Em. by split_and!; try done; intros [|].
      * by split_and!; try done; intros [|].
Qed.
