(* ===== verification/Fit.v ===== *)
(** * Least-squares fit of the cost model ([src/probe/fit.rs])

    The fit is written once over a structure of numbers.  The program is its
    [f64] instance; the rational instance is the same algorithm in exact
    arithmetic, against which it is shown to solve the least-squares problem. *)

From Stdlib Require Import SpecFloat QArith Qfield Qabs Lqa.
From S2P Require Import Prelude Float.

#[local] Open Scope Z_scope.

Record DataPoint := { dp_batch : Z; dp_seq : Z; rss_delta : Z }.

(** ** Numbers *)

(** [num_pow2] is [powi(2)], whose precision Rust leaves unspecified. *)
Class Num (T : Type) := {
  num_add : T -> T -> T;
  num_sub : T -> T -> T;
  num_mul : T -> T -> T;
  num_div : T -> T -> T;
  num_max : T -> T -> T;
  num_abs : T -> T;
  num_pow2 : T -> T;
  num_lt : T -> T -> bool;
  num_is_zero : T -> bool;
  num_lit : Z -> positive -> T;
}.
(** [x as f64] *)
Definition num_of `{Num T} (z : Z) : T := num_lit z 1.

Declare Scope num_scope.
Delimit Scope num_scope with num.
Infix "+" := num_add : num_scope.
Infix "-" := num_sub : num_scope.
Infix "*" := num_mul : num_scope.
Infix "/" := num_div : num_scope.
Infix "<?" := num_lt : num_scope.

Definition num_clamp `{Num T} (x lo hi : T) : T :=
  let x := if num_lt x lo then lo else x in
  if num_lt hi x then hi else x.

(** ** The fit *)

Section fit.
Context `{Num T}.

(** The accumulators of the normalised Gram matrix. *)
Record Gram := { g11 : T; g12 : T; g22 : T; gy1 : T; gy2 : T }.

Definition column1 (dp : DataPoint) : Z := wrap64 (dp_batch dp * dp_seq dp).
Definition column2 (dp : DataPoint) : Z := wrap64 (wrap64 (dp_batch dp * dp_seq dp) * dp_seq dp).

Definition column_max (column : DataPoint -> Z) (data : list DataPoint) : T :=
  foldl (fun acc dp => num_max acc (num_of (column dp))) (num_of 0) data.

Definition gram_step (x1_max x2_max : T) (g : Gram) (dp : DataPoint) : Gram :=
  let n1 := (num_of (column1 dp) / x1_max)%num in
  let n2 := (num_of (column2 dp) / x2_max)%num in
  let y := num_of (rss_delta dp) in
  {| g11 := (g11 g + n1 * n1)%num; g12 := (g12 g + n1 * n2)%num; g22 := (g22 g + n2 * n2)%num;
     gy1 := (gy1 g + n1 * y)%num; gy2 := (gy2 g + n2 * y)%num |}.

Definition gram_zero : Gram :=
  {| g11 := num_of 0; g12 := num_of 0; g22 := num_of 0; gy1 := num_of 0; gy2 := num_of 0 |}.

Definition gram (x1_max x2_max : T) (data : list DataPoint) : Gram :=
  foldl (gram_step x1_max x2_max) gram_zero data.

Definition gram_det (g : Gram) : T := (g11 g * g22 g - g12 g * g12 g)%num.

(** [det.abs() < 1e-6 * max_diag_sq] *)
Definition nearly_singular (g : Gram) : bool :=
  (num_abs (gram_det g) <? num_lit 1 1000000 * num_pow2 (num_max (g11 g) (g22 g)))%num.

(** Cramer's rule and the unscaling: [(a_raw, b_raw)]. *)
Definition raw_coefficients (x1_max x2_max : T) (g : Gram) : T * T :=
  let det := gram_det g in
  let alpha := ((g22 g * gy1 g - g12 g * gy2 g) / det)%num in
  let beta := ((g11 g * gy2 g - g12 g * gy1 g) / det)%num in
  ((alpha / x1_max)%num, (beta / x2_max)%num).

Definition fit_cost_model (data : list DataPoint) : option (T * T) :=
  if (length data <? 2)%nat then None
  else
    let x1_max := column_max column1 data in
    let x2_max := column_max column2 data in
    if num_is_zero x1_max || num_is_zero x2_max then None
    else
      let g := gram x1_max x2_max data in
      if nearly_singular g then None
      else
        let (a_raw, b_raw) := raw_coefficients x1_max x2_max g in
        if num_lt b_raw (num_of 0) then None
        else
          let a_raw := num_max a_raw (num_of 0) in
          Some (num_clamp a_raw (num_of 4096) (num_of 262144),
                num_clamp b_raw (num_lit 1 100) (num_of 50000)).
End fit.

(** ** The program: binary64

    [powi2] is the implementation's [x.powi(2)]. *)
Section f64_num.
Variable powi2 : f64 -> f64.

Definition f64_num : Num f64 := {|
  num_add := f64_add; num_sub := f64_sub; num_mul := f64_mul; num_div := f64_div;
  num_max := f_max; num_abs := f_abs; num_pow2 := powi2; num_lt := f_lt;
  num_is_zero x := f_eq x f_zero;
  num_lit n d := f64_lit n (Zpos d);
|}.

Definition fit_f64 (data : list DataPoint) : option (f64 * f64) :=
  @fit_cost_model f64 f64_num data.
End f64_num.

(** ** Exact arithmetic: the rationals *)

Definition Q_lt (x y : Q) : bool := negb (Qle_bool y x).

#[export] Instance Q_num : Num Q := {|
  num_add := Qplus; num_sub := Qminus; num_mul := Qmult; num_div := Qdiv;
  num_max x y := if Q_lt x y then y else x; num_abs := Qabs; num_pow2 x := (x * x)%Q;
  num_lt := Q_lt;
  num_is_zero x := Qeq_bool x 0;
  num_lit n d := n # d;
|}.

(** ** Exact sums *)

#[local] Open Scope Q_scope.

Definition Qsum {A} (f : A -> Q) (l : list A) : Q := foldr (fun x acc => f x + acc) 0 l.

Lemma Qsum_nonneg {A} (f : A -> Q) l : (forall x, 0 <= f x) -> 0 <= Qsum f l.
Proof.
  intros Hf. unfold Qsum. induction l as [|x l IH]; simpl; [apply Qle_refl|].
  specialize (Hf x). lra.
Qed.

Lemma Qsum_member {A} (f : A -> Q) l x : (forall y, 0 <= f y) -> x ∈ l -> f x <= Qsum f l.
Proof.
  intros Hf. induction l as [|y l IH]; [by intros ?%elem_of_nil|]. unfold Qsum in *. cbn [foldr].
  pose proof (Qsum_nonneg f l Hf) as Hl. unfold Qsum in Hl. pose proof (Hf y).
  intros [->|Hx]%elem_of_cons; [lra|]. specialize (IH Hx). lra.
Qed.

Lemma Qsq_nonneg x : 0 <= x * x.
Proof. unfold Qle. simpl. nia. Qed.

Section exact.
Variables (data : list DataPoint).

Definition col1 (dp : DataPoint) : Q := num_of (column1 dp).
Definition col2 (dp : DataPoint) : Q := num_of (column2 dp).
Definition resp (dp : DataPoint) : Q := num_of (rss_delta dp).

(** The sum of the squared residuals of the model [a * x1 + b * x2]. *)
Definition residual (a b : Q) : Q :=
  Qsum (fun dp => (resp dp - a * col1 dp - b * col2 dp) * (resp dp - a * col1 dp - b * col2 dp)) data.

Variables (X1 X2 : Q).
Definition n1 (dp : DataPoint) : Q := col1 dp / X1.
Definition n2 (dp : DataPoint) : Q := col2 dp / X2.

(** The accumulators are the sums of the normal equations. *)
Lemma gram_sums :
  g11 (gram X1 X2 data) == Qsum (fun dp => n1 dp * n1 dp) data
  /\ g12 (gram X1 X2 data) == Qsum (fun dp => n1 dp * n2 dp) data
  /\ g22 (gram X1 X2 data) == Qsum (fun dp => n2 dp * n2 dp) data
  /\ gy1 (gram X1 X2 data) == Qsum (fun dp => n1 dp * resp dp) data
  /\ gy2 (gram X1 X2 data) == Qsum (fun dp => n2 dp * resp dp) data.
Proof.
  assert (Hg : forall l g, let r := foldl (gram_step X1 X2) g l in
    g11 r == g11 g + Qsum (fun dp => n1 dp * n1 dp) l
    /\ g12 r == g12 g + Qsum (fun dp => n1 dp * n2 dp) l
    /\ g22 r == g22 g + Qsum (fun dp => n2 dp * n2 dp) l
    /\ gy1 r == gy1 g + Qsum (fun dp => n1 dp * resp dp) l
    /\ gy2 r == gy2 g + Qsum (fun dp => n2 dp * resp dp) l).
  { induction l as [|dp l IH]; intros g; cbn [foldl Qsum foldr]; [split_and!; ring|].
    destruct (IH (gram_step X1 X2 g dp)) as (H1 & H2 & H3 & H4 & H5). cbv zeta.
    unfold Qsum in *. rewrite H1, H2, H3, H4, H5.
    unfold gram_step, n1, n2, col1, col2, resp. cbn [g11 g12 g22 gy1 gy2 num_add num_mul num_div Q_num].
    split_and!; ring. }
  destruct (Hg data gram_zero) as (H1 & H2 & H3 & H4 & H5).
  cbn [gram_zero g11 g12 g22 gy1 gy2] in *. unfold num_of, num_lit, Q_num in *. cbn in *.
  unfold gram. split_and!; rewrite ?H1, ?H2, ?H3, ?H4, ?H5; ring.
Qed.

Hypothesis X1_nz : ~ X1 == 0.
Hypothesis X2_nz : ~ X2 == 0.

(** The residual around a point [(A, B)] of the normalised problem. *)
Lemma residual_around a b A B :
  residual a b
  == residual (A / X1) (B / X2)
     + Qsum (fun dp => ((a * X1 - A) * n1 dp + (b * X2 - B) * n2 dp)
                       * ((a * X1 - A) * n1 dp + (b * X2 - B) * n2 dp)) data
     - 2 * (a * X1 - A) * (gy1 (gram X1 X2 data) - A * g11 (gram X1 X2 data) - B * g12 (gram X1 X2 data))
     - 2 * (b * X2 - B) * (gy2 (gram X1 X2 data) - A * g12 (gram X1 X2 data) - B * g22 (gram X1 X2 data)).
Proof.
  destruct gram_sums as (-> & -> & -> & -> & ->). unfold residual, Qsum.
  induction data as [|dp l IH]; cbn [foldr]; [ring|]. rewrite IH. unfold n1, n2. field. auto.
Qed.

(** Cramer's rule solves the normal equations, so it minimises the residual. *)
Lemma cramer_minimises a b :
  ~ gram_det (gram X1 X2 data) == 0 ->
  residual (raw_coefficients X1 X2 (gram X1 X2 data)).1 (raw_coefficients X1 X2 (gram X1 X2 data)).2
  <= residual a b.
Proof.
  set (g := gram X1 X2 data). intros Hdet. unfold gram_det in Hdet.
  unfold raw_coefficients, gram_det. cbn [num_add num_sub num_mul num_div Q_num] in *. cbn [fst snd].
  set (det := g11 g * g22 g - g12 g * g12 g) in *.
  set (A := (g22 g * gy1 g - g12 g * gy2 g) / det). set (B := (g11 g * gy2 g - g12 g * gy1 g) / det).
  rewrite (residual_around a b A B). fold g.
  assert (H1 : gy1 g - A * g11 g - B * g12 g == 0) by (unfold A, B, det in *; field; done).
  assert (H2 : gy2 g - A * g12 g - B * g22 g == 0) by (unfold A, B, det in *; field; done).
  rewrite H1, H2.
  assert (0 <= Qsum (fun dp => ((a * X1 - A) * n1 dp + (b * X2 - B) * n2 dp)
    * ((a * X1 - A) * n1 dp + (b * X2 - B) * n2 dp)) data) by (apply Qsum_nonneg; intros; apply Qsq_nonneg).
  lra.
Qed.
End exact.

(** ** The guards of the fit *)

Lemma column_max_attained c data :
  ~ column_max (T := Q) c data == 0 -> exists dp, dp ∈ data /\ column_max (T := Q) c data = num_of (c dp).
Proof.
  unfold column_max. intros Hnz.
  assert (Hg : forall l acc, foldl (fun acc dp => num_max acc (num_of (c dp))) acc l = acc
    \/ exists dp, dp ∈ l /\ foldl (fun acc dp => num_max acc (num_of (c dp))) acc l = num_of (c dp)).
  { induction l as [|dp l IH]; intros acc; cbn [foldl]; [by left|].
    destruct (IH (num_max acc (num_of (c dp)))) as [->|(dp' & Hin & ->)].
    - simpl. case_if; [right|by left]. exists dp. split; [by left|done].
    - right. exists dp'. split; [by right|done]. }
  destruct (Hg data (num_of 0)) as [Hz|Hz]; [|done]. exfalso. apply Hnz. rewrite Hz. reflexivity.
Qed.

Lemma g11_ge_1 data X2 :
  ~ column_max (T := Q) column1 data == 0 -> 1 <= g11 (gram (column_max column1 data) X2 data).
Proof.
  intros Hnz. destruct (gram_sums data (column_max column1 data) X2) as (-> & _).
  destruct (column_max_attained _ _ Hnz) as (dp & Hin & Heq).
  assert (H1 : n1 (column_max column1 data) dp == 1).
  { unfold n1, col1. rewrite <- Heq. field. done. }
  set (f := fun dp' => n1 (column_max column1 data) dp' * n1 (column_max column1 data) dp').
  assert (Hf : f dp <= Qsum f data) by (apply Qsum_member; [intros; apply Qsq_nonneg|done]).
  assert (Hf1 : f dp == 1) by (unfold f; rewrite H1; ring). rewrite Hf1 in Hf. exact Hf.
Qed.

Lemma Q_lt_false x y : Q_lt x y = false -> y <= x.
Proof. unfold Q_lt. intros Hf. apply negb_false_iff in Hf. by apply Qle_bool_iff. Qed.

Lemma nonsingular_det g : 1 <= g11 g -> nearly_singular (T := Q) g = false -> ~ gram_det g == 0.
Proof.
  unfold nearly_singular. cbn [num_lt num_mul num_lit num_pow2 num_max num_abs Q_num].
  intros H1 Hs%Q_lt_false Hdet. rewrite Hdet in Hs.
  assert (Hm : 1 <= (if Q_lt (g11 g) (g22 g) then g22 g else g11 g)).
  { destruct (Q_lt (g11 g) (g22 g)) eqn:E; [|done]. unfold Q_lt in E.
    destruct (Qle_bool (g22 g) (g11 g)) eqn:E'; [done|].
    destruct (Qlt_le_dec (g11 g) (g22 g)) as [?|Hle]; [lra|]. apply Qle_bool_iff in Hle. congruence. }
  set (m := if Q_lt _ _ then _ else _) in *. change (Qabs 0) with 0 in Hs.
  assert (1 <= m * m) by nra. lra.
Qed.

(** Noise-free data determine the normalised right-hand sides. *)
Lemma gram_noise_free data X1 X2 a b :
  ~ X1 == 0 -> ~ X2 == 0 -> Forall (fun dp => resp dp == a * col1 dp + b * col2 dp) data ->
  gy1 (gram X1 X2 data) == a * X1 * g11 (gram X1 X2 data) + b * X2 * g12 (gram X1 X2 data)
  /\ gy2 (gram X1 X2 data) == a * X1 * g12 (gram X1 X2 data) + b * X2 * g22 (gram X1 X2 data).
Proof.
  intros H1 H2 Hd. destruct (gram_sums data X1 X2) as (-> & -> & -> & -> & ->). unfold Qsum.
  induction Hd as [|dp l Hdp _ [IH1 IH2]]; cbn [foldr]; [split; ring|].
  rewrite IH1, IH2, Hdp. unfold n1, n2. split; field; auto.
Qed.

(** ** Clamping *)

Lemma Q_clamp_range x lo hi : lo <= hi -> lo <= num_clamp x lo hi /\ num_clamp x lo hi <= hi.
Proof.
  intros Hb. unfold num_clamp. cbn [num_lt Q_num]. unfold Q_lt.
  destruct (Qle_bool lo x) eqn:E1; cbn [negb].
  - apply Qle_bool_iff in E1. destruct (Qle_bool x hi) eqn:E2; cbn [negb];
      [apply Qle_bool_iff in E2; done|lra].
  - destruct (Qle_bool lo hi) eqn:E2; cbn [negb]; [lra|]. lra.
Qed.

Lemma Q_clamp_id x lo hi : lo <= x -> x <= hi -> num_clamp x lo hi == x.
Proof.
  intros H1 H2. unfold num_clamp. cbn [num_lt Q_num]. unfold Q_lt.
  apply Qle_bool_iff in H1. rewrite H1. cbn [negb]. apply Qle_bool_iff in H2. by rewrite H2.
Qed.

(** What a fit that answers has computed. *)
Lemma fit_Q_inv data a b :
  fit_cost_model (T := Q) data = Some (a, b) ->
  let X1 := column_max column1 data in let X2 := column_max column2 data in
  let r := raw_coefficients X1 X2 (gram X1 X2 data) in
  ~ X1 == 0 /\ ~ X2 == 0 /\ ~ gram_det (gram X1 X2 data) == 0 /\ 0 <= r.2
  /\ a = num_clamp (num_max r.1 (num_of 0)) (num_of 4096) (num_of 262144)
  /\ b = num_clamp r.2 (num_lit 1 100) (num_of 50000).
Proof.
  intros Hfit X1 X2 r. unfold fit_cost_model in Hfit. fold X1 X2 in Hfit.
  destruct (length data <? 2)%nat; [done|].
  destruct (num_is_zero X1 || num_is_zero X2) eqn:Ez; [done|].
  apply orb_false_iff in Ez as [Hz1 Hz2]. cbn [num_is_zero Q_num] in Hz1, Hz2.
  apply Qeq_bool_neq in Hz1, Hz2.
  destruct (nearly_singular (gram X1 X2 data)) eqn:Es; [done|].
  fold r in Hfit. destruct r as [ar br] eqn:Er. destruct (num_lt br (num_of 0)) eqn:Eb; [done|].
  simplify_eq. split_and!; [done|done| |by apply Q_lt_false|done|done].
  apply nonsingular_det; [by apply g11_ge_1|done].
Qed.

(** The operating ranges of the coefficients, NaN excepted for [b]. *)
Lemma fit_f64_range powi2 data a b :
  fit_f64 powi2 data = Some (a, b) ->
  f_le (f64_of_Z 4096) a = true /\ f_le a (f64_of_Z 262144) = true
  /\ (b = S754_nan \/ f_le (f64_lit 1 100) b = true /\ f_le b (f64_of_Z 50000) = true).
Proof.
  unfold fit_f64, fit_cost_model. destruct (length data <? 2)%nat; [done|].
  set (X1 := column_max _ _). set (X2 := column_max _ _).
  case_if; [done|]. case_if; [done|]. destruct (raw_coefficients _ _ _) as [ar br].
  case_if; [done|]. intros Hab. unfold num_clamp, num_of in Hab.
  cbn [num_lt num_max num_lit f64_num] in Hab.
  assert (Hlit : forall z, z = 4096%Z \/ z = 262144%Z \/ z = 50000%Z -> f64_lit z 1 = f64_of_Z z)
    by (intros z [->|[->| ->]]; reflexivity).
  rewrite !Hlit in Hab by auto. set (m := f_max ar (f64_lit 0 1)) in Hab.
  assert (Hm : is_nan m = false).
  { unfold m, f_max. destruct (is_nan ar) eqn:E; [done|].
    destruct (f_lt ar _) eqn:El; [by apply f_lt_not_nan in El|done]. }
  destruct (f_clamp_range m (f64_of_Z 4096) (f64_of_Z 262144)) as [H1 H2]; [done|reflexivity|].
  unfold f_clamp, f_gt in H1, H2. change SFltb with f_lt in H1, H2. simplify_eq.
  split_and!; [exact H1|exact H2|].
  destruct (is_nan br) eqn:En; [left; by destruct br as [|[]| |[]]|right].
  destruct (f_clamp_range br (f64_lit 1 100) (f64_of_Z 50000)) as [H3 H4]; [done|reflexivity|].
  unfold f_clamp, f_gt in H3, H4. by change SFltb with f_lt in H3, H4.
Qed.

(** ** Properties *)

(** C24: The fit is ordinary least squares: in exact arithmetic, when it answers,
    its unclamped coefficients minimise the sum of squared residuals over all
    pairs of coefficients, the slope of the quadratic term is not negative, and
    the answer is those coefficients moved into the operating ranges (a negative
    linear coefficient is raised, not refused).  Measurements without noise give
    their coefficients back. *)
Theorem fit_least_squares (data : list DataPoint) (a b : Q)
    (Hfit : fit_cost_model data = Some (a, b)) :
  (exists ar br,
     (forall a' b', residual data ar br <= residual data a' b') /\ 0 <= br
     /\ a = num_clamp (num_max ar (num_of 0)) (num_of 4096) (num_of 262144)
     /\ b = num_clamp br (num_lit 1 100) (num_of 50000))
  /\ 4096 <= a <= 262144 /\ 1 # 100 <= b <= 50000
  /\ forall a0 b0, 4096 <= a0 <= 262144 -> 1 # 100 <= b0 <= 50000 ->
       Forall (fun dp => resp dp == a0 * col1 dp + b0 * col2 dp) data -> a == a0 /\ b == b0.
Proof.
  destruct (fit_Q_inv data a b Hfit) as (H1 & H2 & Hdet & Hbr & -> & ->).
  set (X1 := column_max column1 data) in *. set (X2 := column_max column2 data) in *.
  split_and!; try (by apply Q_clamp_range).
  - eexists _, _. split; [|split; [exact Hbr|split; reflexivity]].
    intros a' b'. by apply cramer_minimises.
  - intros a0 b0 Ha Hb Hd. destruct (gram_noise_free data X1 X2 a0 b0 H1 H2 Hd) as [Hy1 Hy2].
    set (g := gram X1 X2 data) in *. unfold raw_coefficients, gram_det in *.
    cbn [num_add num_sub num_mul num_div Q_num fst snd] in *.
    assert (Har : (g22 g * gy1 g - g12 g * gy2 g) / (g11 g * g22 g - g12 g * g12 g) / X1 == a0)
      by (rewrite Hy1, Hy2; field; auto).
    assert (Hbr' : (g11 g * gy2 g - g12 g * gy1 g) / (g11 g * g22 g - g12 g * g12 g) / X2 == b0)
      by (rewrite Hy1, Hy2; field; auto).
    set (ar := _ / _ / X1) in *. set (br := _ / _ / X2) in *.
    assert (Hmax : num_max ar (num_of 0) == ar).
    { cbn [num_max Q_num]. unfold Q_lt. destruct (Qle_bool (num_of 0) ar) eqn:E; cbn [negb]; [done|].
      assert (H0 : 0 <= ar) by lra. apply Qle_bool_iff in H0. unfold num_of in E. cbn in E. congruence. }
    split; [transitivity (num_max ar (num_of 0)); [|by rewrite Hmax] | transitivity br; [|done]];
      apply Q_clamp_id; rewrite ?Hmax; unfold num_of; cbn [num_lit Q_num]; lra.
Qed.

(** Three shapes measured on a machine whose workspace costs 20000 bytes per
    position and 9 per squared position. *)
Definition example_data : list DataPoint :=
  map (fun p => {| dp_batch := p.1; dp_seq := p.2;
                   rss_delta := 20000 * (p.1 * p.2) + 9 * (p.1 * p.2 * p.2) |}%Z)
      [(1, 64); (4, 64); (1, 4096)]%Z.

Lemma fit_least_squares_witness :
  exists a b, fit_cost_model example_data = Some (a, b) /\ a == 20000 /\ b == 9.
Proof.
  destruct (fit_cost_model (T := Q) example_data) as [[a b]|] eqn:E; [|vm_compute in E; discriminate].
  exists a, b. split; [reflexivity|].
  destruct (fit_least_squares example_data a b E) as (_ & _ & _ & Hrec).
  apply Hrec; [split; vm_compute; discriminate..|].
  repeat constructor; vm_compute; reflexivity.
Defined.

(** A fit of the program ([f64], whatever precision [powi] has) always lands
    in the operating ranges: the linear coefficient is a number between 4 KiB
    and 256 KiB per position, the quadratic one lies in [[0.01, 50000]] or is
    NaN; it answers only on two measurements or more. *)
Theorem fit_f64_bounds (powi2 : f64 -> f64) (data : list DataPoint) :
  match fit_f64 powi2 data with
  | Some (a, b) =>
      (2 <= length data)%nat
      /\ f_le (f64_of_Z 4096) a = true /\ f_le a (f64_of_Z 262144) = true
      /\ (b = S754_nan \/ f_le (f64_lit 1 100) b = true /\ f_le b (f64_of_Z 50000) = true)
  | None => True
  end.
Proof.
  destruct (fit_f64 powi2 data) as [[a b]|] eqn:E; [|done]. split; [|by eapply fit_f64_range].
  unfold fit_f64, fit_cost_model in E. destruct (length data <? 2)%nat eqn:El; [done|].
  apply Nat.ltb_ge in El. done.
Qed.

(** Measurements with a step between two sequence lengths have a negative linear
    coefficient, which is raised to the lower bound. *)
Lemma fit_raises_negative_linear :
  let powi2 x := f64_mul x x in
  let data := map (fun p => {| dp_batch := 1; dp_seq := p.1; rss_delta := p.2 |})
                [(1024, 0); (2048, 0); (4096, 2000000000); (8192, 9000000000)]%Z in
  let X1 := @column_max f64 (f64_num powi2) column1 data in
  let X2 := @column_max f64 (f64_num powi2) column2 data in
  f_lt (@raw_coefficients f64 (f64_num powi2) X1 X2 (@gram f64 (f64_num powi2) X1 X2 data)).1 f_zero = true
  /\ exists b, fit_f64 powi2 data = Some (f64_of_Z 4096, b).
Proof. split; [vm_compute; reflexivity|]. eexists. vm_compute. reflexivity. Qed.
