(* ===== verification/FitFinite.v ===== *)
(** * The fit never meets a NaN ([src/probe/fit.rs])

    The binary64 instance of the least-squares fit on measurements the probe can make:
    every accumulator stays finite, the determinant the singularity test lets through is
    not zero, so both coefficients are numbers, and lie in the operating ranges. *)

From Stdlib Require Import SpecFloat QArith Lqa Lia.
From S2P Require Import Prelude Float FloatErr FloatMono FloatRange Fit.

#[local] Open Scope Z_scope.

(** What the fit relies on [powi(2)] for, whose precision Rust leaves open: the square of
    a number that is at least 1 is a number that is at least one half, or infinite. *)
Definition powi2_law (powi2 : f64 -> f64) : Prop :=
  forall x, f_nonneg x -> f64_ok x -> (1 <= fval x)%Q -> below (f64_lit 1 2) (powi2 x).

(** The rounded product is such a function. *)
Lemma powi2_mul : powi2_law (fun x => f64_mul x x).
Proof.
  intros x Hn Hok H1.
  assert (Hb : below (f64_of_Z 1) x).
  { destruct x as [| | |[] m e]; try done. right. split_and!; try done. right. split_and!; try done.
    eapply Qle_trans; [|exact H1]. vm_compute. discriminate. }
  assert (Hp := mul_below _ _ _ _ Hb Hb I). destruct Hp as [Hv|(_ & _ & Hok2 & Hp)]; [discriminate Hv|].
  right. split_and!; [done|by vm_compute|done|]. destruct Hp as [->|(_ & Hn2 & Hv2 & Hle)]; [by left|right].
  split_and!; try done. eapply Qle_trans; [|exact Hle]. vm_compute. discriminate.
Qed.

Section finite.
Variable powi2 : f64 -> f64.
#[local] Instance f64_num' : Num f64 := f64_num powi2.

(** ** The normalised columns *)

Lemma num_small z k : 0 <= k < 1024 -> 0 <= z <= 2 ^ k -> small k (num_of z).
Proof. intros Hk Hz. by apply (div_one k), of_Z_small. Qed.

Lemma num_ge_1 z k : 0 <= k < 1024 -> 1 <= z <= 2 ^ k -> (1 <= fval (num_of z))%Q.
Proof.
  intros Hk Hz. destruct (div_one k (f64_of_Z z) Hk) as [_ Hv]; [apply of_Z_small; lia|].
  change (num_of z) with (f64_div (f64_of_Z z) (f64_of_Z 1)). rewrite Hv. apply (of_Z_ge_1 z k); lia.
Qed.

Lemma wrap64_bound z : 0 <= wrap64 z <= 2 ^ 64.
Proof. pose proof (wrap64_range z). unfold usize, U64_MAX in *. lia. Qed.

(** A column maximum that passes the zero test is attained, and at least 1. *)
Lemma column_max_spec (c : DataPoint -> Z) data :
  (forall dp, 0 <= c dp <= 2 ^ 64) -> num_is_zero (column_max c data) = false ->
  exists dp, dp ∈ data /\ column_max c data = num_of (c dp) /\ 1 <= c dp.
Proof.
  intros Hc Hz. unfold column_max in *.
  assert (Hg : forall l acc, foldl (fun acc dp => num_max acc (num_of (c dp))) acc l = acc
    \/ exists dp, dp ∈ l /\ foldl (fun acc dp => num_max acc (num_of (c dp))) acc l = num_of (c dp)).
  { induction l as [|dp l IH]; intros acc; cbn [foldl]; [by left|].
    destruct (IH (num_max acc (num_of (c dp)))) as [->|(dp' & Hin & ->)].
    - change (num_max acc (num_of (c dp))) with (f_max acc (num_of (c dp))).
      destruct (f_max_cases acc (num_of (c dp))) as [->| ->]; [by left|right]. exists dp. split; [by left|done].
    - right. exists dp'. split; [by right|done]. }
  destruct (Hg data (num_of 0)) as [Heq|(dp & Hin & Heq)]; rewrite Heq in *; [discriminate Hz|].
  exists dp. split_and!; [done..|]. destruct (Z.eq_dec (c dp) 0) as [H0|]; [|specialize (Hc dp); lia].
  rewrite H0 in Hz. discriminate Hz.
Qed.

(** ** The accumulators *)

Definition good_max (X : f64) : Prop := small 64 X /\ (1 <= fval X)%Q.

Lemma column_max_good c data :
  (forall dp, 0 <= c dp <= 2 ^ 64) -> num_is_zero (column_max c data) = false -> good_max (column_max c data).
Proof.
  intros Hc Hz. destruct (column_max_spec c data Hc Hz) as (dp & _ & -> & H1). pose proof (Hc dp).
  split; [apply num_small; lia|apply (num_ge_1 _ 64); lia].
Qed.

Definition gram_in (k : Z) (g : Gram) : Prop :=
  small k (g11 g) /\ small k (g12 g) /\ small k (g22 g) /\ small k (gy1 g) /\ small k (gy2 g).

Section accumulate.
Context (X1 X2 : f64).
Hypothesis HX1 : good_max X1.
Hypothesis HX2 : good_max X2.

Lemma normalised_small X z : good_max X -> 0 <= z <= 2 ^ 64 -> small 65 (num_div (num_of z) X).
Proof.
  intros [HX H1] Hz. apply (div_small 64); [lia|apply num_small; lia|by apply (small_le 64); [lia|]|done].
Qed.

Lemma gram_step_in k g dp :
  130 <= k < 1023 -> 0 <= rss_delta dp <= U64_MAX -> gram_in k g -> gram_in (k + 1) (gram_step X1 X2 g dp).
Proof.
  intros Hk Hy (H11 & H12 & H22 & Hy1 & Hy2).
  pose proof (normalised_small X1 (column1 dp) HX1 (wrap64_bound _)) as Hn1.
  pose proof (normalised_small X2 (column2 dp) HX2 (wrap64_bound _)) as Hn2.
  assert (HY : small 65 (num_of (rss_delta dp))) by (apply num_small; unfold U64_MAX in Hy; lia).
  assert (Hmul : forall x y, small 65 x -> small 65 y -> small k (f64_mul x y)).
  { intros x y Hx Hy'. apply (small_le (65 + 65)); [lia|]. by apply mul_small. }
  split_and!; apply add_small; try lia; try done; by apply Hmul.
Qed.

Lemma gram_foldl_in l : forall k g,
  130 <= k -> k + Z.of_nat (length l) < 1023 -> Forall (fun dp => 0 <= rss_delta dp <= U64_MAX) l ->
  gram_in k g -> gram_in (k + Z.of_nat (length l)) (foldl (gram_step X1 X2) g l).
Proof.
  induction l as [|dp l IH]; intros k g Hk Hl Hd Hg; cbn [foldl length] in *.
  - by rewrite Z.add_0_r.
  - apply Forall_cons in Hd as [Hdp Hd]. replace (k + Z.of_nat (S (length l))) with (k + 1 + Z.of_nat (length l)) by lia.
    apply IH; [lia|lia|done|]. apply gram_step_in; [lia|done|done].
Qed.

(** The diagonal entries: [true] is the first. *)
Definition diag (i : bool) (g : Gram) : f64 := if i then g11 g else g22 g.
Definition column (i : bool) : DataPoint -> Z := if i then column1 else column2.
Definition scale (i : bool) : f64 := if i then X1 else X2.

Lemma diag_step i g dp :
  let n := num_div (num_of (column i dp)) (scale i) in
  diag i (gram_step X1 X2 g dp) = f64_add (diag i g) (f64_mul n n).
Proof. by destruct i. Qed.

Lemma diag_small i k g : gram_in k g -> small k (diag i g).
Proof. intros (? & ? & ? & ? & ?). by destruct i. Qed.

Lemma normalised_diag i dp : small 65 (num_div (num_of (column i dp)) (scale i)).
Proof. destruct i; by apply normalised_small, wrap64_bound. Qed.

Lemma diag_step_ge_1 i k g dp :
  130 <= k < 1023 -> gram_in k g ->
  (1 <= fval (diag i g))%Q \/ (1 <= fval (num_div (num_of (column i dp)) (scale i)))%Q ->
  (1 <= fval (diag i (gram_step X1 X2 g dp)))%Q.
Proof.
  intros Hk Hg H1. rewrite diag_step. cbv zeta. pose proof (normalised_diag i dp) as Hn.
  set (n := num_div _ _) in *. apply (add_ge_1 k); [lia|by apply diag_small| |].
  - apply (small_le (65 + 65)); [lia|]. by apply mul_small.
  - destruct H1 as [H1|H1]; [by left|right]. by apply (mul_ge_1 65 65).
Qed.

Lemma diag_foldl_ge_1 i l : forall k g,
  130 <= k -> k + Z.of_nat (length l) < 1023 -> Forall (fun dp => 0 <= rss_delta dp <= U64_MAX) l ->
  gram_in k g ->
  (1 <= fval (diag i g))%Q \/ (exists dp, dp ∈ l /\ scale i = num_of (column i dp)) ->
  (1 <= fval (diag i (foldl (gram_step X1 X2) g l)))%Q.
Proof.
  induction l as [|dp l IH]; intros k g Hk Hl Hd Hg H1; cbn [foldl length] in *.
  - destruct H1 as [H1|(dp & []%elem_of_nil & _)]; done.
  - apply Forall_cons in Hd as [Hdp Hd].
    apply (IH (k + 1)); [lia|lia|done|apply gram_step_in; [lia|done|done]|].
    assert (Hs : good_max (scale i)) by (by destruct i).
    destruct H1 as [H1|(dp' & [->|Hin]%elem_of_cons & Heq)].
    + left. apply (diag_step_ge_1 i k); [lia|done|by left].
    + left. apply (diag_step_ge_1 i k); [lia|done|right]. rewrite <- Heq.
      change (num_div (scale i) (scale i)) with (f64_div (scale i) (scale i)).
      destruct Hs as [(Hn & _) Hs1]. rewrite div_self; [apply Qle_refl|done|lra].
    + right. by exists dp'.
Qed.
End accumulate.

(** ** The fit *)

(** The sweep makes seven measurements at most; the accumulators of 256 stay finite. *)
Definition measurable (data : list DataPoint) : Prop :=
  (length data <= 256)%nat /\ Forall (fun dp => 0 <= rss_delta dp <= U64_MAX) data.

Lemma gram_facts data :
  let X1 := column_max column1 data in let X2 := column_max column2 data in
  measurable data -> num_is_zero X1 = false -> num_is_zero X2 = false ->
  gram_in 400 (gram X1 X2 data) /\ (1 <= fval (g11 (gram X1 X2 data)))%Q /\ (1 <= fval (g22 (gram X1 X2 data)))%Q.
Proof.
  intros X1 X2 [Hl Hd] H1 H2. assert (Hc : forall i dp, 0 <= column i dp <= 2 ^ 64) by (intros [] ?; apply wrap64_bound).
  pose proof (column_max_good column1 data (Hc true) H1) as HX1.
  pose proof (column_max_good column2 data (Hc false) H2) as HX2.
  destruct (column_max_spec column1 data (Hc true) H1) as (dp1 & Hin1 & Heq1 & _).
  destruct (column_max_spec column2 data (Hc false) H2) as (dp2 & Hin2 & Heq2 & _).
  assert (Hz : gram_in 130 gram_zero) by (split_and!; apply small_zero).
  assert (Hk : 130 + Z.of_nat (length data) < 1023) by lia. split.
  - pose proof (gram_foldl_in X1 X2 HX1 HX2 data 130 gram_zero ltac:(lia) Hk Hd Hz) as (? & ? & ? & ? & ?).
    split_and!; (eapply small_le; [|eassumption]; lia).
  - split.
    + apply (diag_foldl_ge_1 X1 X2 HX1 HX2 true data 130 gram_zero); try done. right. by exists dp1.
    + apply (diag_foldl_ge_1 X1 X2 HX1 HX2 false data 130 gram_zero); try done. right. by exists dp2.
Qed.

Hypothesis Hpow : powi2_law powi2.

(** A determinant that passes the singularity test is a finite non-zero number. *)
Lemma determinant_nonzero g :
  gram_in 400 g -> (1 <= fval (g11 g))%Q -> (1 <= fval (g22 g))%Q -> nearly_singular g = false ->
  f_finite64 (gram_det g) = true /\ f_eq (gram_det g) f_zero = false.
Proof.
  intros (H11 & H12 & H22 & _) Hd1 Hd2 Hs.
  assert (Hfin : f_finite64 (gram_det g) = true).
  { apply (sub_finite 800); [lia|by apply (mul_small _ _ 400 400)|by apply (mul_small _ _ 400 400)]. }
  split; [done|]. unfold nearly_singular in Hs. set (m := num_max (g11 g) (g22 g)) in Hs.
  assert (Hm : below (f64_lit 1 2) (powi2 m)).
  { destruct H11 as (? & ? & _), H22 as (? & ? & _).
    destruct (f_max_cases (g11 g) (g22 g)) as [Hm|Hm]; change (f_max _ _) with m in Hm; rewrite Hm; by apply Hpow. }
  assert (Hc : below (f64_lit 1 1000000) (f64_lit 1 1000000)) by (apply below_refl; by vm_compute).
  assert (Ht := mul_below _ _ _ _ Hc Hm I). destruct Ht as [Hv|(_ & _ & _ & Ht)]; [discriminate Hv|].
  change (num_mul (num_lit 1 1000000) (num_pow2 m)) with (f64_mul (f64_lit 1 1000000) (powi2 m)) in Hs.
  change num_abs with f_abs in Hs. change num_lt with f_lt in Hs.
  destruct (gram_det g) as [s| | |s p e]; try done; [|by destruct s].
  destruct Ht as [Ht|(_ & Hn & Hv & _)]; [by rewrite Ht in Hs|].
  by destruct (f64_mul (f64_lit 1 1000000) (powi2 m)) as [| | |[]].
Qed.

(** Both coefficients are numbers. *)
Lemma raw_not_nan data :
  let X1 := column_max column1 data in let X2 := column_max column2 data in
  measurable data -> num_is_zero X1 = false -> num_is_zero X2 = false ->
  nearly_singular (gram X1 X2 data) = false ->
  is_nan (raw_coefficients X1 X2 (gram X1 X2 data)).1 = false /\
  is_nan (raw_coefficients X1 X2 (gram X1 X2 data)).2 = false.
Proof.
  intros X1 X2 Hdata H1 H2 Hs. destruct (gram_facts data Hdata H1 H2) as (Hg & Hd1 & Hd2).
  fold X1 X2 in Hg, Hd1, Hd2. destruct (determinant_nonzero _ Hg Hd1 Hd2 Hs) as [Hf Hnz].
  assert (Hc : forall i dp, 0 <= column i dp <= 2 ^ 64) by (intros [] ?; apply wrap64_bound).
  assert (HX : forall X, good_max X -> f_finite64 X = true) by (by intros [| | |[]] [(? & _) _]).
  pose proof (HX _ (column_max_good column1 data (Hc true) H1)) as Hf1.
  pose proof (HX _ (column_max_good column2 data (Hc false) H2)) as Hf2.
  assert (Hnum : forall a b c d, small 400 a -> small 400 b -> small 400 c -> small 400 d ->
    is_nan (f64_div (f64_sub (f64_mul a b) (f64_mul c d)) (gram_det (gram X1 X2 data))) = false).
  { intros a b c d Ha Hb Hc' Hd. apply div_not_nan; [|done|done].
    assert (Hfin : f_finite64 (f64_sub (f64_mul a b) (f64_mul c d)) = true)
      by (apply (sub_finite 800); [lia|by apply (mul_small _ _ 400 400)|by apply (mul_small _ _ 400 400)]).
    by destruct (f64_sub _ _). }
  destruct Hg as (H11 & H12 & H22 & Hy1 & Hy2).
  split; apply div_not_nan; try done; by apply Hnum.
Qed.

(** The operating ranges of the coefficients. *)
Lemma fit_f64_finite data a b :
  measurable data -> fit_f64 powi2 data = Some (a, b) ->
  f_le (f64_of_Z 4096) a = true /\ f_le a (f64_of_Z 262144) = true /\
  f_le (f64_lit 1 100) b = true /\ f_le b (f64_of_Z 50000) = true.
Proof.
  intros Hdata Hfit. destruct (fit_f64_range powi2 data a b Hfit) as (Ha1 & Ha2 & [->|Hb]); [exfalso|done].
  unfold fit_f64, fit_cost_model in Hfit. destruct (length data <? 2)%nat; [done|].
  change (f64_num powi2) with f64_num' in Hfit.
  destruct (num_is_zero (column_max column1 data)) eqn:H1; [done|].
  destruct (num_is_zero (column_max column2 data)) eqn:H2; [done|]. cbn [orb] in Hfit.
  destruct (nearly_singular _) eqn:Hs; [done|]. destruct (raw_not_nan data Hdata H1 H2 Hs) as [_ Hb].
  destruct (raw_coefficients _ _ _) as [ar br]. cbn [snd] in Hb.
  destruct (num_lt br (num_of 0)); [done|]. injection Hfit as _ Hfit.
  assert (Hn : is_nan (f_clamp br (f64_lit 1 100) (num_of 50000)) = false).
  { destruct (f_clamp_range br (f64_lit 1 100) (num_of 50000)) as [Hlo _]; [done|reflexivity|].
    by destruct (f_clamp _ _ _) as [|[]| |[]]. }
  assert (Hx : f_clamp br (f64_lit 1 100) (num_of 50000) = S754_nan) by exact Hfit.
  by rewrite Hx in Hn.
Qed.
End finite.
