(* ===== verification/ProbeCache.v ===== *)
(** * The persistent probe cache ([src/probe/cache.rs])

    The fingerprinted coefficients file and its atomic replacement.  The file
    system is a finite map from a directory and a file name to a content; the
    outcome of each call on it is an argument.  The JSON library and the
    build-time constants are parameters. *)

From Stdlib Require Import SpecFloat.
From S2P Require Import Prelude RustStr Float.

(** ** Data *)

Record ProbeCache := {
  schema_version : Z;
  server_version : string;
  pc_model : string;
  pc_max_seq : Z;
  pc_arch : string;
  fitted_at_unix : Z;
  pc_a : f64;
  pc_b : f64;
}.

Definition set_coefficients (f : f64 -> f64) (c : ProbeCache) : ProbeCache :=
  {| schema_version := schema_version c; server_version := server_version c; pc_model := pc_model c;
     pc_max_seq := pc_max_seq c; pc_arch := pc_arch c; fitted_at_unix := fitted_at_unix c;
     pc_a := f (pc_a c); pc_b := f (pc_b c) |}.

Definition f_finite (x : spec_float) : bool :=
  match x with S754_zero _ | S754_finite _ _ _ => true | _ => false end.

(** [serde_json] on this record: [reread] is what a finite number becomes when it
    is printed and parsed (the default parser does not promise the last bit). *)
Class Json := {
  to_json : ProbeCache -> option string;
  from_json : string -> option ProbeCache;
  reread : f64 -> f64;
}.
Class JsonLaws `{Json} := {
  json_roundtrip : forall c s, f_finite (pc_a c) = true -> f_finite (pc_b c) = true ->
    to_json c = Some s -> from_json s = Some (set_coefficients reread c);
}.

(** ** The file *)

Abbreviation files := (gmap (string * string) string) (only parsing).

Definition final_name : string := "probe-coefficients.json".
Definition tmp_name : string := "probe-coefficients.json.tmp".

Section cache.
Context `{Json}.
(** [CARGO_PKG_VERSION] and [std::env::consts::ARCH] *)
Variables current_version current_arch : string.

Definition fingerprint_matches (c : ProbeCache) (model_variant : string) (max_seq : Z) : bool :=
  (schema_version c =? 1) && String.eqb (server_version c) current_version
  && String.eqb (pc_model c) model_variant && (pc_max_seq c =? max_seq)
  && String.eqb (pc_arch c) current_arch.

Definition try_load_probe_cache (fs : files) (cache_dir model_variant : string) (max_seq : Z)
  : option (f64 * f64) :=
  raw ← fs !! (cache_dir, final_name);
  cache ← from_json raw;
  if negb (fingerprint_matches cache model_variant max_seq) then None
  else if f_le (pc_a cache) f_zero || f_le (pc_b cache) f_zero then None
  else Some (pc_a cache, pc_b cache).

(** How the calls on the file system end: [write] (with the content it leaves when
    it fails, if any), [rename] and [remove_file]. *)
Inductive Write := WriteOk | WriteErr (partial : option string).
Record Io := { io_write : Write; io_rename : bool; io_remove : bool }.

(** The record [save_probe_cache] writes. *)
Definition fresh_cache (now : Z) (model_variant : string) (max_seq : Z) (a b : f64) : ProbeCache :=
  {| schema_version := 1; server_version := current_version; pc_model := model_variant;
     pc_max_seq := max_seq; pc_arch := current_arch; fitted_at_unix := now; pc_a := a; pc_b := b |}.

Definition save_probe_cache (io : Io) (now : Z) (fs : files) (cache_dir model_variant : string)
    (max_seq : Z) (a b : f64) : files :=
  match to_json (fresh_cache now model_variant max_seq a b) with
  | None => fs
  | Some json =>
      match io_write io with
      | WriteErr (Some partial) => <[(cache_dir, tmp_name) := partial]> fs
      | WriteErr None => fs
      | WriteOk =>
          let fs := <[(cache_dir, tmp_name) := json]> fs in
          if io_rename io then delete (cache_dir, tmp_name) (<[(cache_dir, final_name) := json]> fs)
          else if io_remove io then delete (cache_dir, tmp_name) fs else fs
      end
  end.

(** ** Lemmas *)

Lemma names_differ (d : string) : (d, tmp_name) <> (d, final_name).
Proof. unfold tmp_name, final_name. congruence. Qed.

Lemma save_final io now fs d mv ms a b :
  save_probe_cache io now fs d mv ms a b !! (d, final_name)
  = (match to_json (fresh_cache now mv ms a b), io_write io, io_rename io with
     | Some json, WriteOk, true => Some json
     | _, _, _ => fs !! (d, final_name)
     end).
Proof.
  unfold save_probe_cache. pose proof (names_differ d) as Hn.
  destruct (to_json _) as [json|]; [|done]. destruct (io_write io) as [|[partial|]]; [|by rewrite lookup_insert_ne|done].
  - destruct (io_rename io).
    + rewrite lookup_delete_ne by done. by rewrite lookup_insert_eq.
    + destruct (io_remove io); rewrite ?lookup_delete_ne, lookup_insert_ne; done.
Qed.

Lemma save_other io now fs d mv ms a b p :
  p <> (d, final_name) -> p <> (d, tmp_name) ->
  save_probe_cache io now fs d mv ms a b !! p = fs !! p.
Proof.
  intros H1 H2. unfold save_probe_cache. destruct (to_json _); [|done].
  destruct (io_write io) as [|[|]]; [|by rewrite lookup_insert_ne|done].
  destruct (io_rename io), (io_remove io); rewrite ?lookup_delete_ne, ?lookup_insert_ne; done.
Qed.

Lemma fingerprint_fresh now mv ms a b mv' ms' :
  fingerprint_matches (set_coefficients reread (fresh_cache now mv ms a b)) mv' ms'
  = String.eqb mv mv' && (ms =? ms').
Proof.
  unfold fingerprint_matches. cbn [set_coefficients fresh_cache schema_version server_version pc_model
    pc_max_seq pc_arch]. rewrite !String.eqb_refl, andb_true_r. done.
Qed.

(** ** Properties *)

Context `{!JsonLaws}.

(** A hit: the file parses, every field of its fingerprint is the one asked for or the
    running server's, and neither coefficient compares as at most zero. *)
Definition cache_hit (fs : files) (dir mv : string) (ms : Z) (x y : f64) : Prop :=
  exists raw c, fs !! (dir, final_name) = Some raw /\ from_json raw = Some c /\
    schema_version c = 1 /\ server_version c = current_version /\ pc_model c = mv /\
    pc_max_seq c = ms /\ pc_arch c = current_arch /\ pc_a c = x /\ pc_b c = y /\
    f_le x f_zero = false /\ f_le y f_zero = false.

Lemma fingerprint_fields c mv ms :
  fingerprint_matches c mv ms = true <->
  schema_version c = 1 /\ server_version c = current_version /\ pc_model c = mv /\
  pc_max_seq c = ms /\ pc_arch c = current_arch.
Proof. unfold fingerprint_matches. rewrite !andb_true_iff, !Z.eqb_eq, !String.eqb_eq. tauto. Qed.

Lemma try_load_hit fs dir mv ms x y :
  try_load_probe_cache fs dir mv ms = Some (x, y) <-> cache_hit fs dir mv ms x y.
Proof.
  unfold try_load_probe_cache, cache_hit. split.
  - destruct (fs !! (dir, final_name)) as [raw|] eqn:Hf; [|done]. simpl.
    destruct (from_json raw) as [c|] eqn:Hc; [|done]. simpl.
    destruct (fingerprint_matches c mv ms) eqn:Hm; [|done]. simpl.
    destruct (f_le (pc_a c) f_zero) eqn:Ea; [done|]. destruct (f_le (pc_b c) f_zero) eqn:Eb; [done|].
    intros [= <- <-]. apply fingerprint_fields in Hm as (? & ? & ? & ? & ?). by exists raw, c.
  - intros (raw & c & -> & Hc & H1 & H2 & H3 & H4 & H5 & <- & <- & Ea & Eb). simpl. rewrite Hc. simpl.
    by rewrite (proj2 (fingerprint_fields c mv ms)), Ea, Eb by done.
Qed.

(** C29: Replacing the cache is atomic and correct: whatever the file-system calls
    do, the coefficients file holds its old content or the complete new record,
    and no file of another name but the temporary one changes; when the calls
    succeed, loading with the same model and length gives the saved coefficients
    as JSON prints and reads them (if those are positive), and any other model
    or length misses.  Whatever file is there, a load hits exactly when it parses to a
    record with schema version 1, the version and the architecture of the running
    server, the model and the length asked for, and coefficients that are not at most
    zero, which it returns. *)
Theorem probe_cache_atomic (io : Io) (now : Z) (fs : files) (dir model_variant : string)
    (max_seq : Z) (a b : f64) (json : string)
    (Hjson : to_json (fresh_cache now model_variant max_seq a b) = Some json)
    (Ha : f_finite a = true) (Hb : f_finite b = true) :
  let fs' := save_probe_cache io now fs dir model_variant max_seq a b in
  (fs' !! (dir, final_name) = fs !! (dir, final_name) \/ fs' !! (dir, final_name) = Some json)
  /\ (forall p, p <> (dir, final_name) -> p <> (dir, tmp_name) -> fs' !! p = fs !! p)
  /\ (io_write io = WriteOk -> io_rename io = true ->
        (f_le (reread a) f_zero = false -> f_le (reread b) f_zero = false ->
           try_load_probe_cache fs' dir model_variant max_seq = Some (reread a, reread b))
        /\ (forall mv ms, mv <> model_variant \/ ms <> max_seq -> try_load_probe_cache fs' dir mv ms = None))
  /\ (forall fs0 mv ms x y,
        try_load_probe_cache fs0 dir mv ms = Some (x, y) <-> cache_hit fs0 dir mv ms x y).
Proof.
  intros fs'. pose proof (save_final io now fs dir model_variant max_seq a b) as Hf. fold fs' in Hf.
  rewrite Hjson in Hf. split_and!.
  - rewrite Hf. destruct (io_write io), (io_rename io); auto.
  - intros p. apply save_other.
  - intros Hw Hr. rewrite Hw, Hr in Hf.
    pose proof (json_roundtrip (fresh_cache now model_variant max_seq a b) json Ha Hb Hjson) as Hj.
    unfold try_load_probe_cache. rewrite Hf. simpl. rewrite Hj. cbn [mbind option_bind]. split.
    + intros Hpa Hpb. rewrite fingerprint_fresh, String.eqb_refl, Z.eqb_refl.
      cbn [set_coefficients fresh_cache pc_a pc_b negb andb]. by rewrite Hpa, Hpb.
    + intros mv ms Hne. rewrite fingerprint_fresh.
      destruct (String.eqb_spec model_variant mv), (Z.eqb_spec max_seq ms); simpl; try done. naive_solver.
  - intros fs0 mv ms x y. apply try_load_hit.
Qed.
End cache.

(** ** A concrete JSON *)

(** A number as the binary digits of its encoding. *)
Fixpoint bits_of (p : positive) : string :=
  match p with xH => "" | xO p => String "0" (bits_of p) | xI p => String "1" (bits_of p) end.
Fixpoint of_bits (s : string) : positive :=
  match s with
  | EmptyString => xH
  | String c s => if Ascii.eqb c "0" then xO (of_bits s) else xI (of_bits s)
  end.

Lemma of_bits_of p : of_bits (bits_of p) = p.
Proof. induction p as [p IH|p IH|]; simpl; by rewrite ?IH. Qed.

(** A finite float as sign, mantissa and exponent. *)
Definition float_code (x : f64) : option (bool * option positive * Z) :=
  match x with
  | S754_zero s => Some (s, None, 0)
  | S754_finite s m e => Some (s, Some m, e)
  | _ => None
  end.
Definition float_decode (c : bool * option positive * Z) : f64 :=
  match c with
  | (s, None, _) => S754_zero s
  | (s, Some m, e) => S754_finite s m e
  end.

Definition cache_code (c : ProbeCache) : option positive :=
  a ← float_code (pc_a c);
  b ← float_code (pc_b c);
  Some (encode (schema_version c, server_version c, pc_model c, pc_max_seq c, pc_arch c,
                fitted_at_unix c, a, b)).
Definition cache_decode (p : positive) : option ProbeCache :=
  '(sv, v, m, ms, ar, t, a, b) ← (decode p : option (Z * string * string * Z * string * Z
      * (bool * option positive * Z) * (bool * option positive * Z)));
  Some {| schema_version := sv; server_version := v; pc_model := m; pc_max_seq := ms; pc_arch := ar;
          fitted_at_unix := t; pc_a := float_decode a; pc_b := float_decode b |}.

Definition bits_json : Json := {|
  to_json c := bits_of <$> cache_code c;
  from_json s := cache_decode (of_bits s);
  reread x := x;
|}.

Lemma bits_json_laws : @JsonLaws bits_json.
Proof.
  constructor. intros c s Ha Hb Hs. cbn [to_json from_json reread bits_json] in *.
  unfold cache_code in Hs. destruct c as [sv v m ms ar t a b]. cbn in Ha, Hb, Hs.
  destruct a as [sa| | |sa ma ea], b as [sb| | |sb mb eb]; try done; cbn in Hs; simplify_eq;
    unfold cache_decode; rewrite of_bits_of, decode_encode; reflexivity.
Qed.

Lemma probe_cache_atomic_witness :
  let fs := @save_probe_cache bits_json "1.0" "x86_64" {| io_write := WriteOk; io_rename := true; io_remove := true |}
              7 ∅ "/cache" "fp16" 8192 (f64_of_Z 20000) (f64_of_Z 9) in
  @try_load_probe_cache bits_json "1.0" "x86_64" fs "/cache" "fp16" 8192 = Some (f64_of_Z 20000, f64_of_Z 9)
  /\ @try_load_probe_cache bits_json "1.0" "x86_64" fs "/cache" "fp32" 8192 = None.
Proof.
  destruct (@to_json bits_json (fresh_cache "1.0" "x86_64" 7 "fp16" 8192 (f64_of_Z 20000) (f64_of_Z 9)))
    as [json|] eqn:Ej; [|exfalso; discriminate Ej].
  destruct (@probe_cache_atomic bits_json "1.0" "x86_64" bits_json_laws
    {| io_write := WriteOk; io_rename := true; io_remove := true |} 7 ∅ "/cache" "fp16" 8192
    (f64_of_Z 20000) (f64_of_Z 9) json Ej) as (_ & _ & Hl & _); [reflexivity|reflexivity|].
  destruct (Hl eq_refl eq_refl) as [Hhit Hmiss]. split.
  - apply Hhit; reflexivity.
  - apply Hmiss. left. discriminate.
Defined.
