(* ===== verification/Pipeline.v ===== *)
(** * The embedding pipelines

    [src/embedder/tokenize.rs], [dense.rs], [sparse.rs] and [dual.rs] under
    [src/embedder/].  The three pipelines are the same loop over the chunks of a
    packing; they differ in the tensors they extract from an output and in the
    row they compute per text, which are the arguments of [run_chunks] and
    [embed_with].

    The tokenizer, the ONNX session, the [ndarray] dot product and the embedded
    weights are code outside the repository: the class [Runtime] lists their
    operations and [RuntimeLaws] what the pipelines rely on.  An array is its logical
    contents beside its shape and strides, on which the [as_slice().expect(..)] of a
    row depends. *)

From S2P Require Import Prelude Float RustStr BinPack JitGuard EmbedMath Types.

(** ** The runtime *)

Record Encoding := { get_ids : list Z; get_attention_mask : list Z }.

(** An [Array2<i64>] in row-major order. *)
Record Array2 := { nrows : Z; ncols : Z; elems : list Z }.

Class Runtime (Session Output : Type) := {
  (** [encode_batch_fast(texts, true)] *)
  encode_batch : list string -> result string (list Encoding);
  (** [session.run] on [input_ids] and [attention_mask] *)
  session_run : Session -> Array2 -> Array2 -> Session * result string Output;
  (** [Instant::elapsed] around a run, in milliseconds, read off the session *)
  run_elapsed_ms : Session -> Z;
  tokenize_elapsed_ms : Z;
  (** the contents of [outputs[name].try_extract_array::<f32>()] of a rank-2 and a
      rank-3 output, which is a view of the tensor in row-major order;
      [None] is the panic of the index when no output has the name *)
  extract2 : Output -> string -> option (result string (list (list f32)));
  extract3 : Output -> string -> option (result string (list (list (list f32))));
  (** the strides [ArrayBase::to_owned] gives the copy of an array of a shape and strides *)
  copy_strides : list Z -> list Z -> list Z;
  (** [ArrayView1::dot] *)
  dot : list f32 -> list f32 -> f32;
  (** [weights::sparse_linear()] *)
  sparse_weight : list f32;
  sparse_bias : f32;
  (** the message of [ndarray]'s [ShapeError] *)
  shape_error : string;
}.

(** ** Arrays *)

Record NdArray (A : Type) := { nd_shape : list Z; nd_strides : list Z; nd_data : A }.
Arguments nd_shape {A}. Arguments nd_strides {A}. Arguments nd_data {A}.

Fixpoint row_major (shape : list Z) : list Z :=
  match shape with
  | [] => []
  | _ :: rest => foldr Z.mul 1 rest :: row_major rest
  end.

(** [is_standard_layout]: an empty array, or the strides of row-major order on the axes
    that have more than one position. *)
Definition is_standard_layout (shape strides : list Z) : bool :=
  existsb (Z.eqb 0) shape
  || forallb (fun p => (p.1 =? 1) || (p.2.1 =? p.2.2)) (zip shape (zip strides (row_major shape))).

(** [as_slice] of a row *)
Definition as_slice {A} (x : NdArray (list A)) : option (list A) :=
  if is_standard_layout (nd_shape x) (nd_strides x) then Some (nd_data x) else None.

(** [index_axis(Axis(0), k)] *)
Definition index_axis0 {A} (x : NdArray (list A)) (k : nat) : M (NdArray A) :=
  v ← expect (nd_data x !! k);
  Ok {| nd_shape := tail (nd_shape x); nd_strides := tail (nd_strides x); nd_data := v |}.

(** The extraction views the tensor in place. *)
Definition view2 (x : list (list f32)) : NdArray (list (list f32)) :=
  let shape := [Z.of_nat (length x); Z.of_nat (length (default [] (head x)))] in
  {| nd_shape := shape; nd_strides := row_major shape; nd_data := x |}.
Definition view3 (x : list (list (list f32))) : NdArray (list (list (list f32))) :=
  let m := default [] (head x) in
  let shape := [Z.of_nat (length x); Z.of_nat (length m); Z.of_nat (length (default [] (head m)))] in
  {| nd_shape := shape; nd_strides := row_major shape; nd_data := x |}.

(** One encoding per text, with one mask entry per id; a copy of an array in standard layout has
    the layout of the array (that of any other copy is left unspecified); outputs with one row per
    row of the input and, per token, one vector per column, of the width of the
    embedded weights. *)
Class RuntimeLaws (Session Output : Type) `{Runtime Session Output} : Prop := {
  encode_length texts encs : encode_batch texts = Ok encs -> length encs = length texts;
  encode_mask texts encs : encode_batch texts = Ok encs ->
    Forall (fun e => length (get_attention_mask e) = length (get_ids e)) encs;
  copy_standard shape strides : is_standard_layout shape strides = true ->
    copy_strides shape strides = strides;
  extract2_rows s s' ids mask out name x :
    session_run s ids mask = (s', Ok out) -> extract2 out name = Some (Ok x) ->
    Z.of_nat (length x) = nrows ids;
  extract3_rows s s' ids mask out name x :
    session_run s ids mask = (s', Ok out) -> extract3 out name = Some (Ok x) ->
    Z.of_nat (length x) = nrows ids /\
    Forall (fun m => Z.of_nat (length m) = ncols ids /\
                     Forall (fun h => length h = length sparse_weight) m) x;
}.

(** The model file of the variant has the outputs its export documents. *)
Class ModelOutputs (Session Output : Type) `{Runtime Session Output} (v : ModelVariant) : Prop :=
  exported s s' ids mask out :
    session_run s ids mask = (s', Ok out) ->
    match v with
    | Fp32 => is_Some (extract2 out "sentence_embedding") /\ is_Some (extract3 out "token_embeddings")
    | Fp16 | Int8 => is_Some (extract3 out "last_hidden_state")
    end.

(** The copy of a matrix whose rows are contiguous has contiguous rows: what [ndarray] does,
    and documents for a matrix that is contiguous as a whole only. *)
Definition copies_keep_rows (Session Output : Type) `{Runtime Session Output} : Prop :=
  forall b h sb, exists c, copy_strides [b; h] [sb; 1] = [c; 1].

(** What the pipelines of a variant need: its outputs, and contiguous rows in the copy the
    dense rows of the half-precision and quantised exports come from. *)
Definition copies_ok (Session Output : Type) `{Runtime Session Output} (v : ModelVariant) : Prop :=
  v = Fp32 \/ copies_keep_rows Session Output.
Class ModelExport (Session Output : Type) `{Runtime Session Output} (v : ModelVariant) : Prop := {
  export_outputs :: ModelOutputs Session Output v;
  export_copies : copies_ok Session Output v;
}.

Definition ort_err (e : string) : anyhow := anyhow_msg e.

(** ** Chunk arrays *)

(** One row: the ids followed by the padding. *)
Definition pad_row (pad_id : Z) (pad_to : Z) (row : list Z) (seq_len : nat) : list Z :=
  row ++ replicate (Z.to_nat (sat_sub pad_to (Z.of_nat seq_len))) pad_id.

(** The loop over the indices, which fills the two flat vectors. *)
Fixpoint chunk_rows (all_encodings : list Encoding) (indices : list nat) (pad_to : Z)
    (ids_flat mask_flat : list Z) : M (list Z * list Z) :=
  match indices with
  | [] => Ok (ids_flat, mask_flat)
  | idx :: rest =>
      enc ← expect (all_encodings !! idx);
      let seq_len := length (get_ids enc) in
      chunk_rows all_encodings rest pad_to
        (ids_flat ++ pad_row 1 pad_to (get_ids enc) seq_len)
        (mask_flat ++ pad_row 0 pad_to (get_attention_mask enc) seq_len)
  end.

Section pipeline.
Context `{KeySort nat} {Session Output : Type} `{Runtime Session Output}.

(** [Array2::from_shape_vec((rows, cols), v)?] *)
Definition from_shape_vec (rows cols : Z) (v : list Z) : M Array2 :=
  if Z.of_nat (length v) =? rows * cols then Ok {| nrows := rows; ncols := cols; elems := v |}
  else Err (Fail (anyhow_msg shape_error)).

Definition build_chunk_arrays (all_encodings : list Encoding) (indices : list nat) (pad_to : Z)
  : M (Array2 * Array2) :=
  let batch := Z.of_nat (length indices) in
  '(ids_flat, mask_flat) ← chunk_rows all_encodings indices pad_to [] [];
  ids_array ← from_shape_vec batch pad_to ids_flat;
  mask_array ← from_shape_vec batch pad_to mask_flat;
  Ok (ids_array, mask_array).

(** ** Rows of an output *)

Definition extracted {A} (o : option (result string A)) : M A :=
  r ← expect o; map_err (fun e => Fail (ort_err e)) r.
#[global] Arguments extracted {A} !o / : simpl nomatch.

(** [lhs.index_axis(Axis(1), 0)] *)
Definition drop_axis1 (l : list Z) : list Z := match l with a :: _ :: rest => a :: rest | _ => l end.
Definition cls_rows (lhs : NdArray (list (list (list f32)))) : M (NdArray (list (list f32))) :=
  rows ← result_mapM (fun hidden => expect (hidden !! 0%nat)) (nd_data lhs);
  Ok {| nd_shape := drop_axis1 (nd_shape lhs); nd_strides := drop_axis1 (nd_strides lhs); nd_data := rows |}.

Definition to_owned {A} (x : NdArray A) : NdArray A :=
  {| nd_shape := nd_shape x; nd_strides := copy_strides (nd_shape x) (nd_strides x); nd_data := nd_data x |}.

(** The dense output: the pooled output of the FP32 export, the CLS position of
    the hidden states otherwise. *)
Definition dense_output (v : ModelVariant) (out : Output) : M (NdArray (list (list f32))) :=
  match v with
  | Fp32 => x ← extracted (extract2 out "sentence_embedding"); Ok (to_owned (view2 x))
  | Fp16 | Int8 =>
      lhs ← extracted (extract3 out "last_hidden_state");
      rows ← cls_rows (view3 lhs);
      Ok (to_owned rows)
  end.

Definition token_output (v : ModelVariant) (out : Output) : M (NdArray (list (list (list f32)))) :=
  match v with
  | Fp32 => x ← extracted (extract3 out "token_embeddings"); Ok (view3 x)
  | Fp16 | Int8 => x ← extracted (extract3 out "last_hidden_state"); Ok (view3 x)
  end.

Definition both_output (v : ModelVariant) (out : Output)
  : M (NdArray (list (list f32)) * NdArray (list (list (list f32)))) :=
  match v with
  | Fp32 =>
      dense ← extracted (extract2 out "sentence_embedding");
      tokens ← extracted (extract3 out "token_embeddings");
      Ok (to_owned (view2 dense), to_owned (view3 tokens))
  | Fp16 | Int8 =>
      lhs ← extracted (extract3 out "last_hidden_state");
      dense ← cls_rows (view3 lhs);
      Ok (to_owned dense, to_owned (view3 lhs))
  end.

(** The vector of the text at row [chunk_pos]. *)
Definition dense_row (emb : NdArray (list (list f32))) (chunk_pos : nat) : M (list f32) :=
  row ← index_axis0 emb chunk_pos;
  vec ← expect (as_slice row);
  Ok (normalize_l2 vec).

Definition sparse_row (encodings : list Encoding) (token_emb : NdArray (list (list (list f32))))
    (chunk_pos orig_idx : nat) : M SparseEmbedding :=
  enc ← expect (encodings !! orig_idx);
  batch_hidden ← index_axis0 token_emb chunk_pos;
  scores ← result_mapM
    (fun j => hidden ← index_axis0 batch_hidden j;
              hidden_slice ← expect (as_slice hidden);
              expect (sparse_project dot hidden_slice sparse_weight sparse_bias))
    (seq 0 (length (get_ids enc)));
  '(indices, values) ← expect (sparse_maxpool (get_ids enc) (get_attention_mask enc) scores);
  Ok {| indices := indices; values := values |}.

Definition both_row (encodings : list Encoding)
    (embs : NdArray (list (list f32)) * NdArray (list (list (list f32)))) (chunk_pos orig_idx : nat)
  : M DualEmbedding :=
  dense_vec ← dense_row (fst embs) chunk_pos;
  sp ← sparse_row encodings (snd embs) chunk_pos orig_idx;
  Ok {| dense := dense_vec; sparse := sp |}.

(** ** The chunk loop *)

(** The rows of one output, scattered to the original positions. *)
Fixpoint scatter {T} (row : nat -> nat -> M T) (chunk_pos : nat) (chunk_indices : list nat)
    (slots : list (option T)) : M (list (option T)) :=
  match chunk_indices with
  | [] => Ok slots
  | orig_idx :: rest =>
      v ← row chunk_pos orig_idx;
      _ ← expect (slots !! orig_idx);
      scatter row (S chunk_pos) rest (<[orig_idx := Some v]> slots)
  end.

Record LoopState (T : Type) := {
  slots : list (option T);
  ls_max_chunk_seq : Z;
  ls_inference_ms : Z;
}.
Arguments slots {T}. Arguments ls_max_chunk_seq {T}. Arguments ls_inference_ms {T}.

Definition chunk_pad (seq_lens : list Z) (chunk : list nat) : Z :=
  Z.max (unwrap_or (max_of (map (len_at seq_lens) chunk)) 1) 1.

(** [for (chunk_idx, chunk_indices) in chunks]: [extract] reads the tensors of an
    output, [row] computes the result of one text.  The session moves on even
    when the loop is left by an error. *)
Fixpoint run_chunks {X T} (extract : Output -> M X) (row : X -> nat -> nat -> M T)
    (encodings : list Encoding) (seq_lens : list Z) (chunks : list (list nat))
    (s : Session) (st : LoopState T) : Session * M (LoopState T) :=
  match chunks with
  | [] => (s, Ok st)
  | chunk :: rest =>
      let chunk_max := chunk_pad seq_lens chunk in
      match build_chunk_arrays encodings chunk chunk_max with
      | Err e => (s, Err e)
      | Ok (ids_array, mask_array) =>
          let '(s', outputs) := session_run s ids_array mask_array in
          match (out ← map_err (fun e => Fail (ort_err e)) outputs;
                 x ← extract out;
                 scatter (row x) 0 chunk (slots st)) with
          | Err e => (s', Err e)
          | Ok slots' =>
              run_chunks extract row encodings seq_lens rest s'
                {| slots := slots';
                   ls_max_chunk_seq := Z.max (ls_max_chunk_seq st) chunk_max;
                   ls_inference_ms :=
                     sat_add64 (ls_inference_ms st) (u64_of_u128 (run_elapsed_ms s')) |}
          end
      end
  end.

Definition seq_lengths_of (encodings : list Encoding) : list Z :=
  map (fun e => Z.of_nat (length (get_ids e))) encodings.

(** [EmbedStats] of a finished request. *)
Definition stats_of {T} (seq_lens : list Z) (chunks : list (list nat)) (st : LoopState T)
  : EmbedStats :=
  let seq_dist := seq_len_distribution seq_lens in
  {| st_chunks := Z.of_nat (length chunks);
     max_chunk_seq := ls_max_chunk_seq st;
     total_token_positions := wrap64 (sum_of seq_lens);
     tokenize_ms := u64_of_u128 tokenize_elapsed_ms;
     inference_ms := ls_inference_ms st;
     seq_len_min := sld_min seq_dist; seq_len_max := sld_max seq_dist;
     seq_len_mean := sld_mean seq_dist; seq_len_p95 := sld_p95 seq_dist |}.

(** The body the three pipelines share; [finish] turns the filled slots into the
    output vector. *)
Definition embed_with {X T} (extract : Output -> M X)
    (row : list Encoding -> X -> nat -> nat -> M T) (finish : list (option T) -> M (list T))
    (s : Session) (texts : list string) (cost_model : CostModel) (guard : option TrtJitGuard)
  : Session * M (list T * EmbedStats) :=
  match encode_batch texts with
  | Err e => (s, Err (Fail (anyhow_msg ("Tokenization failed: " +:+ e))))
  | Ok encodings =>
      let seq_lens := seq_lengths_of encodings in
      let chunks := bin_pack seq_lens cost_model in
      match guard_chunks guard chunks seq_lens with
      | Err r => (s, Err (Fail (anyhow_new r)))
      | Ok _ =>
          let '(s', r) :=
            run_chunks extract (row encodings) encodings seq_lens chunks s
              {| slots := replicate (length texts) None; ls_max_chunk_seq := 0;
                 ls_inference_ms := 0 |} in
          (s', st ← r; out ← finish (slots st); Ok (out, stats_of seq_lens chunks st))
      end
  end.

(** The dense slots start as empty vectors, the other two as [None] and are
    unwrapped with [expect("every slot must be filled")]. *)
Definition finish_dense (sl : list (option (list f32))) : M (list (list f32)) :=
  Ok (map (default []) sl).
Definition finish_slots {T} (sl : list (option T)) : M (list T) := result_mapM expect sl.

Definition embed_dense (s : Session) (texts : list string) (cost_model : CostModel)
    (v : ModelVariant) (guard : option TrtJitGuard) :=
  embed_with (dense_output v) (fun _ emb chunk_pos _ => dense_row emb chunk_pos) finish_dense
    s texts cost_model guard.

Definition embed_sparse (s : Session) (texts : list string) (cost_model : CostModel)
    (v : ModelVariant) (guard : option TrtJitGuard) :=
  embed_with (token_output v) sparse_row finish_slots s texts cost_model guard.

Definition embed_both (s : Session) (texts : list string) (cost_model : CostModel)
    (v : ModelVariant) (guard : option TrtJitGuard) :=
  embed_with (both_output v) both_row finish_slots s texts cost_model guard.
End pipeline.
Arguments slots {T}. Arguments ls_max_chunk_seq {T}. Arguments ls_inference_ms {T}.

(** ** Chunk arrays: lemmas *)

(** The texts of a chunk fit the padding and have a mask entry per id. *)
Definition rows_fit (encs : list Encoding) (idxs : list nat) (pad_to : Z) : Prop :=
  Forall (fun i => exists e, encs !! i = Some e /\
            Z.of_nat (length (get_ids e)) <= pad_to /\
            length (get_attention_mask e) = length (get_ids e)) idxs.

Definition row_of (encs : list Encoding) (pad_id : Z) (get : Encoding -> list Z) (pad_to : Z)
    (i : nat) : list Z :=
  match encs !! i with
  | Some e => pad_row pad_id pad_to (get e) (length (get_ids e))
  | None => []
  end.

Lemma chunk_rows_ok encs idxs pad_to a b :
  rows_fit encs idxs pad_to ->
  chunk_rows encs idxs pad_to a b
  = Ok (a ++ concat (map (row_of encs 1 get_ids pad_to) idxs),
        b ++ concat (map (row_of encs 0 get_attention_mask pad_to) idxs)).
Proof.
  intros Hf. revert a b. induction Hf as [|i idxs (e & He & _) _ IH]; intros a b; simpl.
  - by rewrite !app_nil_r.
  - unfold row_of at 1 3. rewrite He. simpl. rewrite IH. by rewrite <- !app_assoc.
Qed.

Lemma pad_row_length pad_id pad_to row n :
  length row = n -> Z.of_nat n <= pad_to ->
  length (pad_row pad_id pad_to row n) = Z.to_nat pad_to.
Proof. intros <- Hp. unfold pad_row, sat_sub. rewrite length_app, length_replicate. lia. Qed.

Lemma pad_row_lookup pad_id pad_to row n (c : nat) :
  length row = n -> Z.of_nat c < pad_to ->
  pad_row pad_id pad_to row n !! c = Some (nth c row pad_id).
Proof.
  intros <- Hc. unfold pad_row, sat_sub.
  destruct (row !! c) as [x|] eqn:Hx.
  - erewrite nth_lookup_Some by exact Hx. by apply lookup_app_l_Some.
  - apply lookup_ge_None in Hx. rewrite lookup_app_r by done.
    rewrite nth_overflow by done. apply lookup_replicate. split; [done|lia].
Qed.

Lemma row_of_uniform encs pad_id get pad_to idxs :
  (forall e, length (get_attention_mask e) = length (get_ids e) ->
             length (get e) = length (get_ids e)) ->
  rows_fit encs idxs pad_to ->
  Forall (fun l => length l = Z.to_nat pad_to) (map (row_of encs pad_id get pad_to) idxs).
Proof.
  intros Hget Hf. apply Forall_map. eapply Forall_impl; [exact Hf|].
  intros i (e & He & Hl & Hm). simpl. unfold row_of. rewrite He. apply pad_row_length; auto.
Qed.

Section arrays.
Context {Session Output : Type} `{Runtime Session Output}.

Lemma build_chunk_arrays_ok encs idxs pad_to :
  0 <= pad_to -> rows_fit encs idxs pad_to ->
  build_chunk_arrays encs idxs pad_to
  = Ok ({| nrows := Z.of_nat (length idxs); ncols := pad_to;
           elems := concat (map (row_of encs 1 get_ids pad_to) idxs) |},
        {| nrows := Z.of_nat (length idxs); ncols := pad_to;
           elems := concat (map (row_of encs 0 get_attention_mask pad_to) idxs) |}).
Proof.
  intros Hp Hf. unfold build_chunk_arrays. rewrite (chunk_rows_ok _ _ _ _ _ Hf). simpl.
  assert (Hlen : forall pad_id get,
    (forall e, length (get_attention_mask e) = length (get_ids e) ->
               length (get e) = length (get_ids e)) ->
    (Z.of_nat (length (concat (map (row_of encs pad_id get pad_to) idxs)))
      =? Z.of_nat (length idxs) * pad_to) = true).
  { intros pad_id get Hget.
    rewrite (concat_uniform_length _ _ (row_of_uniform _ pad_id _ _ _ Hget Hf)), length_map.
    apply Z.eqb_eq. lia. }
  unfold from_shape_vec. rewrite !Hlen by auto. done.
Qed.

Lemma row_elem encs idxs pad_to pad_id get p i e (c : nat) :
  (forall e, length (get_attention_mask e) = length (get_ids e) ->
             length (get e) = length (get_ids e)) ->
  rows_fit encs idxs pad_to -> idxs !! p = Some i -> encs !! i = Some e -> Z.of_nat c < pad_to ->
  concat (map (row_of encs pad_id get pad_to) idxs) !! (p * Z.to_nat pad_to + c)%nat
  = Some (nth c (get e) pad_id).
Proof.
  intros Hget Hf Hp He Hc.
  erewrite concat_uniform_lookup;
    [|by apply row_of_uniform| by rewrite map_lookup, Hp|lia].
  unfold row_of. rewrite He. apply pad_row_lookup; [|done]. apply Hget.
  pose proof (proj1 (Forall_lookup _ _) Hf _ _ Hp) as (e' & He' & _ & Hm). by simplify_eq.
Qed.
End arrays.

(** ** The chunk loop: lemmas *)

Lemma scatter_spec {T} (row : nat -> nat -> M T) k idxs sl sl' :
  scatter row k idxs sl = Ok sl' -> NoDup idxs ->
  length sl' = length sl /\
  (forall i, i ∉ idxs -> sl' !! i = sl !! i) /\
  (forall p i, idxs !! p = Some i ->
     exists v, row (k + p)%nat i = Ok v /\ sl' !! i = Some (Some v)).
Proof.
  revert k sl. induction idxs as [|i0 idxs IH]; intros k sl; simpl.
  - intros [= <-] _. split_and!; done.
  - destruct (row k i0) as [v|e] eqn:Hv; [|done]. simpl.
    destruct (sl !! i0) as [o|] eqn:Ho; [|done]. simpl. intros Hs [Hnin Hnd]%NoDup_cons.
    destruct (IH _ _ Hs Hnd) as (Hlen & Hout & Hin). rewrite length_insert in Hlen.
    split; [done|]. split.
    + intros i [Hne Hi]%not_elem_of_cons. rewrite Hout by done. by rewrite list_lookup_insert_ne.
    + intros [|p] i Hp; simpl in Hp.
      * simplify_eq. exists v. rewrite Nat.add_0_r. split; [done|].
        rewrite Hout by done. apply list_lookup_insert_eq. by eapply lookup_lt_Some.
      * destruct (Hin p i Hp) as (v' & Hr & Hi). exists v'.
        by replace (k + S p)%nat with (S k + p)%nat by lia.
Qed.

Lemma scatter_total {T} (row : nat -> nat -> M T) k idxs sl :
  (forall p i, idxs !! p = Some i -> exists v, row (k + p)%nat i = Ok v) ->
  (forall i, i ∈ idxs -> (i < length sl)%nat) ->
  exists sl', scatter row k idxs sl = Ok sl' /\ length sl' = length sl.
Proof.
  revert k sl. induction idxs as [|i0 idxs IH]; intros k sl Hrow Hlt; simpl; [eauto|].
  destruct (Hrow 0%nat i0 eq_refl) as [v Hv]. rewrite Nat.add_0_r in Hv. rewrite Hv. simpl.
  destruct (lookup_lt_is_Some_2 sl i0 (Hlt i0 ltac:(by left))) as [o ->]. simpl.
  destruct (IH (S k) (<[i0:=Some v]> sl)) as (sl' & Hs & Hl).
  - intros p i Hp. replace (S k + p)%nat with (k + S p)%nat by lia. by apply Hrow.
  - intros i Hi. rewrite length_insert. apply Hlt. by right.
  - exists sl'. by rewrite length_insert in Hl.
Qed.

Section loop.
Context {Session Output : Type} `{Runtime Session Output} {X T : Type}.
Context (extract : Output -> M X) (row : X -> nat -> nat -> M T).
Context (encs : list Encoding) (lens : list Z).

(** [v] is what the run of chunk [c] computed for the text at position [p]. *)
Definition computed (c : list nat) (p i : nat) (v : T) : Prop :=
  exists ids mask s s' out x,
    build_chunk_arrays encs c (chunk_pad lens c) = Ok (ids, mask) /\
    session_run s ids mask = (s', Ok out) /\ extract out = Ok x /\ row x p i = Ok v.

Lemma run_chunks_spec chunks s st s' st' :
  run_chunks extract row encs lens chunks s st = (s', Ok st') -> NoDup (concat chunks) ->
  length (slots st') = length (slots st) /\
  (forall i, i ∉ concat chunks -> slots st' !! i = slots st !! i) /\
  (forall c p i, c ∈ chunks -> c !! p = Some i ->
     exists v, computed c p i v /\ slots st' !! i = Some (Some v)).
Proof.
  revert s st. induction chunks as [|c chunks IH]; intros s st; simpl.
  - intros [= <- <-] _. split_and!; [done..|]. intros c p i Hc. inversion Hc.
  - destruct (build_chunk_arrays _ _ _) as [[ids mask]|e] eqn:Hb; [|done].
    destruct (session_run s ids mask) as [s1 [out|e]] eqn:Hr; simpl; [|done].
    destruct (extract out) as [x|e] eqn:Hx; simpl; [|done].
    destruct (scatter _ _ _ _) as [sl|e] eqn:Hs; [|done].
    intros Hrun (Hndc & Hdis & Hnd)%NoDup_app.
    destruct (scatter_spec _ _ _ _ _ Hs Hndc) as (Hl1 & Hout1 & Hin1).
    destruct (IH _ _ Hrun Hnd) as (Hl2 & Hout2 & Hin2). simpl in *.
    split; [congruence|]. split.
    + intros i [Hni Hni']%not_elem_of_app. rewrite Hout2 by done. by apply Hout1.
    + intros c' p i [->|Hc']%elem_of_cons Hp; [|by eauto].
      destruct (Hin1 p i Hp) as (v & Hv & Hsl). exists v. split.
      * exists ids, mask, s, s1, out, x. done.
      * rewrite Hout2; [done|]. intros Hi. apply (Hdis i); [|done]. by eapply list_elem_of_lookup_2.
Qed.

(** What each chunk must satisfy for the loop not to panic. *)
Definition chunk_safe (n : nat) (c : list nat) : Prop :=
  rows_fit encs c (chunk_pad lens c) /\
  (forall i, i ∈ c -> (i < n)%nat) /\
  (forall s s' ids mask out,
     session_run s ids mask = (s', Ok out) ->
     nrows ids = Z.of_nat (length c) -> ncols ids = chunk_pad lens c ->
     extract out <> Err Panic /\
     forall x p i, extract out = Ok x -> c !! p = Some i -> exists v, row x p i = Ok v).

Lemma run_chunks_no_panic chunks s st :
  Forall (chunk_safe (length (slots st))) chunks ->
  snd (run_chunks extract row encs lens chunks s st) <> Err Panic.
Proof.
  revert s st. induction chunks as [|c chunks IH]; intros s st Hsafe; [done|].
  apply Forall_cons in Hsafe as [(Hfit & Hlt & Hrun) Hsafe]. simpl.
  rewrite build_chunk_arrays_ok by (done || unfold chunk_pad; lia).
  set (ids := {| nrows := _ |}). set (mask := {| nrows := _ |}).
  destruct (session_run s ids mask) as [s1 [out|e]] eqn:Hr; simpl; [|done].
  destruct (Hrun _ _ _ _ _ Hr eq_refl eq_refl) as [Hnp Hrow].
  destruct (extract out) as [x|e] eqn:Hx; simpl; [|simpl; congruence].
  destruct (scatter_total (row x) 0 c (slots st)) as (sl & -> & Hl);
    [intros p i Hp; by apply Hrow|done|].
  apply IH. simpl. by rewrite Hl.
Qed.
End loop.

(** ** The pipelines on a lawful runtime *)

Section lawful.
Context `{KeySort nat} {Session Output : Type} `{RuntimeLaws Session Output}.

Lemma len_at_seq_lengths encs i e :
  encs !! i = Some e -> len_at (seq_lengths_of encs) i = Z.of_nat (length (get_ids e)).
Proof.
  intros He. unfold len_at, seq_lengths_of. apply nth_lookup_Some. by rewrite map_lookup, He.
Qed.

Lemma seq_lengths_nonneg encs : Forall (fun x => 0 <= x) (seq_lengths_of encs).
Proof. unfold seq_lengths_of. apply Forall_map, Forall_true. intros e. simpl. lia. Qed.

Lemma seq_lengths_length encs : length (seq_lengths_of encs) = length encs.
Proof. apply length_map. Qed.

Lemma encoded_packing encs cm :
  Packing (seq_lengths_of encs) cm (bin_pack (seq_lengths_of encs) cm).
Proof. apply bin_pack_packing, seq_lengths_nonneg. Qed.

Lemma chunk_pad_ge lens c i : i ∈ c -> len_at lens i <= chunk_pad lens c.
Proof.
  intros Hi. pose proof (chunk_seq_ge lens c i Hi) as Hge. unfold chunk_pad, chunk_seq in *.
  destruct (max_of (map (len_at lens) c)) eqn:E; simpl in *; [lia|].
  destruct c; [inversion Hi|done].
Qed.

(** The chunks of a packing of an encoded request only read what is there. *)
Lemma encoded_chunk_fits texts encs cm c :
  encode_batch texts = Ok encs -> c ∈ bin_pack (seq_lengths_of encs) cm ->
  rows_fit encs c (chunk_pad (seq_lengths_of encs) c) /\ (forall i, i ∈ c -> (i < length texts)%nat).
Proof.
  intros He Hc. pose proof (encoded_packing encs cm) as Hp.
  assert (Hlt : forall i, i ∈ c -> (i < length encs)%nat).
  { intros i Hi. pose proof (packing_index_range _ _ _ Hp _ _ Hc Hi) as Hlt.
    by rewrite seq_lengths_length in Hlt. }
  split; [|by rewrite <- (encode_length _ _ He)].
  apply Forall_forall. intros i Hi. destruct (lookup_lt_is_Some_2 _ _ (Hlt i Hi)) as [e Hei].
  exists e. split; [done|]. split.
  - rewrite <- (len_at_seq_lengths _ _ _ Hei). by apply chunk_pad_ge.
  - pose proof (encode_mask _ _ He) as Hm. rewrite Forall_lookup in Hm. by eapply Hm.
Qed.

(** A pipeline whose extraction and rows are safe on the outputs of its chunks
    never panics. *)
Definition rows_safe {X T} (extract : Output -> M X) (row : list Encoding -> X -> nat -> nat -> M T)
  : Prop :=
  forall encs c pad s s' ids mask out,
    session_run s ids mask = (s', Ok out) ->
    nrows ids = Z.of_nat (length c) -> ncols ids = pad -> 1 <= pad -> rows_fit encs c pad ->
    extract out <> Err Panic /\
    forall x p i, extract out = Ok x -> c !! p = Some i -> exists v, row encs x p i = Ok v.

Definition finish_safe {T} (finish : list (option T) -> M (list T)) : Prop :=
  forall sl, Forall is_Some sl -> finish sl <> Err Panic.

Lemma embed_with_no_panic {X T} (extract : Output -> M X) (row : list Encoding -> X -> nat -> nat -> M T)
    finish s texts cm guard :
  rows_safe extract row -> finish_safe finish ->
  snd (embed_with extract row finish s texts cm guard) <> Err Panic.
Proof.
  intros Hrow Hfin. unfold embed_with.
  destruct (encode_batch texts) as [encs|e] eqn:He; [|done].
  destruct (guard_chunks _ _ _) as [[]|r]; [|done].
  destruct (run_chunks _ _ _ _ _ _ _) as [s' r] eqn:Hrun.
  pose proof (encoded_packing encs cm) as Hp.
  assert (Hnp : r <> Err Panic).
  { change r with (snd (s', r)). rewrite <- Hrun. apply run_chunks_no_panic. simpl.
    rewrite length_replicate. apply Forall_forall. intros c Hc.
    destruct (encoded_chunk_fits _ _ _ _ He Hc) as [Hfit Hlt]. split; [done|]. split; [done|].
    intros s0 s1 ids mask out Hr Hn Hm. eapply Hrow; eauto. unfold chunk_pad. lia. }
  simpl. destruct r as [st|e]; simpl; [|congruence].
  apply run_chunks_spec in Hrun as (Hlen & _ & Hin); [|by eapply packing_NoDup].
  cbn [slots] in Hlen. rewrite length_replicate in Hlen.
  destruct (finish (slots st)) as [out|e] eqn:Hf; simpl; [done|].
  intros [= ->]. eapply Hfin; [|exact Hf]. apply Forall_lookup. intros i o Ho.
  apply lookup_lt_Some in Ho as Hi. simpl in Hlen.
  rewrite Hlen, <- (encode_length _ _ He), <- seq_lengths_length in Hi.
  destruct (packing_covers _ _ _ Hp i Hi) as (c & Hc & [p Hpi]%list_elem_of_lookup_1).
  destruct (Hin c p i Hc Hpi) as (v & _ & Hv). simplify_eq. eauto.
Qed.

(** Every result is what the run of the text's chunk computed, at the position
    of the text in the request. *)
Lemma embed_with_rows {X T} (extract : Output -> M X) row (finish : list (option T) -> M (list T))
    s texts cm guard s' out stats :
  (forall sl r i v, finish sl = Ok r -> sl !! i = Some (Some v) -> r !! i = Some v) ->
  (forall sl r, finish sl = Ok r -> length r = length sl) ->
  embed_with extract row finish s texts cm guard = (s', Ok (out, stats)) ->
  exists encs, encode_batch texts = Ok encs /\ length out = length texts /\
    forall i, (i < length texts)%nat ->
      exists c p v, c ∈ bin_pack (seq_lengths_of encs) cm /\ c !! p = Some i /\
        computed extract (row encs) encs (seq_lengths_of encs) c p i v /\ out !! i = Some v.
Proof.
  intros Hfin Hflen. unfold embed_with.
  destruct (encode_batch texts) as [encs|e] eqn:He; [|done].
  destruct (guard_chunks _ _ _) as [[]|r]; [|done].
  destruct (run_chunks _ _ _ _ _ _ _) as [s1 [st|e]] eqn:Hrun; simpl; [|done].
  destruct (finish (slots st)) as [o|e] eqn:Hf; simpl; [|done].
  intros [= <- <- <-]. exists encs. split; [done|].
  apply run_chunks_spec in Hrun as (Hlen & _ & Hin);
    [|eapply packing_NoDup; apply encoded_packing].
  cbn [slots] in Hlen. rewrite length_replicate in Hlen.
  split; [by rewrite (Hflen _ _ Hf)|]. intros i Hi.
  rewrite <- (encode_length _ _ He), <- seq_lengths_length in Hi.
  destruct (packing_covers _ _ _ (encoded_packing encs cm) i Hi)
    as (c & Hc & [p Hpi]%list_elem_of_lookup_1).
  destruct (Hin c p i Hc Hpi) as (v & Hv & Hsl). exists c, p, v. eauto.
Qed.

Lemma extracted_no_panic {A} (o : option (result string A)) :
  is_Some o -> extracted o <> Err Panic.
Proof. by intros [[] ->]. Qed.

Lemma extracted_Ok {A} (o : option (result string A)) x : extracted o = Ok x -> o = Some (Ok x).
Proof. destruct o as [[]|]; [intros [= ->]| |]; done. Qed.

(** ** Layouts *)

Lemma standard_row_major shape : is_standard_layout shape (row_major shape) = true.
Proof.
  unfold is_standard_layout. apply orb_true_iff. right.
  assert (Hz : forall sh st : list Z, forallb (fun p => (p.1 =? 1) || (p.2.1 =? p.2.2)) (zip sh (zip st st)) = true).
  { induction sh as [|d sh IH]; intros [|s st]; simpl; try done. by rewrite Z.eqb_refl, orb_true_r, IH. }
  apply Hz.
Qed.

Lemma view2_owned x : to_owned (view2 x) = view2 x.
Proof. unfold to_owned, view2. cbn [nd_shape nd_strides nd_data]. by rewrite copy_standard by apply standard_row_major. Qed.

Lemma view3_owned x : to_owned (view3 x) = view3 x.
Proof. unfold to_owned, view3. cbn [nd_shape nd_strides nd_data]. by rewrite copy_standard by apply standard_row_major. Qed.

(** A matrix whose rows are contiguous. *)
Definition rows_contiguous (emb : NdArray (list (list f32))) : Prop :=
  exists b h sb, nd_shape emb = [b; h] /\ nd_strides emb = [sb; 1].

Lemma view2_contiguous x : rows_contiguous (view2 x).
Proof. by eexists _, _, _. Qed.

Lemma unit_stride_slice {A} h (r : list A) : as_slice {| nd_shape := [h]; nd_strides := [1]; nd_data := r |} = Some r.
Proof. unfold as_slice, is_standard_layout. cbn. by rewrite !orb_true_r. Qed.

Lemma cls_rows_view lhs d :
  cls_rows (view3 lhs) = Ok d -> length (nd_data d) = length lhs /\ rows_contiguous d.
Proof.
  unfold cls_rows. destruct (result_mapM _ _) as [rows|] eqn:Hr; simpl; [|done]. intros [= <-].
  apply result_mapM_length in Hr. split; [done|]. by eexists _, _, _.
Qed.

Lemma copied_contiguous d :
  copies_keep_rows Session Output -> rows_contiguous d -> rows_contiguous (to_owned d).
Proof.
  intros Hc (b & h & sb & Hs & Ht). unfold rows_contiguous, to_owned. cbn [nd_shape nd_strides].
  rewrite Hs, Ht. destruct (Hc b h sb) as [c ->]. by exists b, h, c.
Qed.

Lemma cls_rows_safe lhs pad :
  1 <= pad -> Forall (fun m : list (list f32) => Z.of_nat (length m) = pad) lhs ->
  exists d, cls_rows (view3 lhs) = Ok d.
Proof.
  intros Hpad Hl. unfold cls_rows.
  destruct (result_mapM_ok (fun h : list (list f32) => expect (h !! 0%nat)) lhs) as [d Hd].
  - intros m Hm. rewrite Forall_forall in Hl. specialize (Hl m Hm).
    destruct m as [|x m]; [simpl in Hl; lia|done].
  - cbn [nd_data view3]. rewrite Hd. by eexists.
Qed.

Lemma dense_row_total emb (p : nat) :
  rows_contiguous emb -> (p < length (nd_data emb))%nat -> exists v, dense_row emb p = Ok v.
Proof.
  intros (b & h & sb & Hs & Ht) [r Hr]%lookup_lt_is_Some_2. unfold dense_row, index_axis0.
  rewrite Hr, Hs, Ht. cbn [expect mbind result_bind tail]. rewrite unit_stride_slice. simpl. eauto.
Qed.

Lemma rows_uniform pad (x : list (list (list f32))) :
  Forall (fun m => Z.of_nat (length m) = pad /\ Forall (fun h => length h = length sparse_weight) m) x ->
  Forall (fun m => Z.of_nat (length m) = pad) x.
Proof. intros Hx. eapply Forall_impl; [exact Hx|]. by intros m [? _]. Qed.

Lemma sparse_row_total encs c pad tok p i :
  rows_fit encs c pad -> c !! p = Some i -> (p < length tok)%nat ->
  Forall (fun m : list (list f32) => Z.of_nat (length m) = pad /\
                                     Forall (fun h => length h = length sparse_weight) m) tok ->
  exists v, sparse_row encs (view3 tok) p i = Ok v.
Proof.
  intros Hfit Hp Hlt Htok. unfold sparse_row, index_axis0.
  pose proof (proj1 (Forall_lookup _ _) Hfit _ _ Hp) as (e & -> & Hle & Hm). cbn [expect mbind result_bind nd_data view3].
  destruct (lookup_lt_is_Some_2 _ _ Hlt) as [m Htm]. rewrite Htm. cbn [expect mbind result_bind nd_shape nd_strides nd_data tail row_major].
  rewrite Forall_lookup in Htok. destruct (Htok _ _ Htm) as [Hmlen Hwid].
  match goal with |- context [ result_mapM ?f _ ] => destruct (result_mapM_ok f (seq 0 (length (get_ids e)))) as [scores Hs] end.
  { intros j Hj%elem_of_seq.
    destruct (lookup_lt_is_Some_2 m j ltac:(lia)) as [h Hh]. rewrite Hh.
    cbn [expect mbind result_bind nd_shape nd_strides nd_data tail row_major foldr view3]. rewrite unit_stride_slice. cbn [expect mbind result_bind].
    rewrite Forall_lookup in Hwid. by destruct (sparse_project_total dot h sparse_weight sparse_bias
      (Hwid _ _ Hh)) as [sc ->]. }
  setoid_rewrite Hs. cbn [mbind result_bind]. apply result_mapM_length in Hs. rewrite length_seq in Hs.
  destruct (maxpool_pooled (get_attention_mask e) scores (get_ids e)) as (w & Hw & _); [lia..|].
  unfold sparse_maxpool. rewrite Hw. simpl. eauto.
Qed.

(** A successful extraction is an output of the run. *)
Ltac extract H :=
  match type of H with
  | context [ extracted ?o ] =>
      destruct (extracted o) eqn:?; simpl in H; [|done];
      match goal with E : extracted _ = Ok _ |- _ => apply extracted_Ok in E end
  end.

Lemma dense_safe v `{!ModelOutputs Session Output v} :
  copies_ok Session Output v -> rows_safe (dense_output v) (fun _ emb p _ => dense_row emb p).
Proof.
  intros Hcopy encs c pad s s' ids mask out Hr Hn Hc Hpad Hfit.
  pose proof (exported _ _ _ _ _ Hr) as Hex.
  assert (Hcls : forall r x, extract3 out "last_hidden_state" = Some (Ok r) -> v <> Fp32 ->
    (rows ← cls_rows (view3 r); Ok (to_owned rows)) = Ok x -> length (nd_data x) = length c /\ rows_contiguous x).
  { intros r x Hx Hv Hd. destruct (cls_rows (view3 r)) as [d|] eqn:Ec; simpl in Hd; [|done]. injection Hd as <-.
    apply cls_rows_view in Ec as [Hl Hk]. destruct Hcopy as [->|Hcopy]; [done|].
    split; [|by apply copied_contiguous]. cbn [to_owned nd_data].
    pose proof (extract3_rows _ _ _ _ _ _ _ Hr Hx) as [? _]. lia. }
  assert (Hlen : forall x, dense_output v out = Ok x -> length (nd_data x) = length c /\ rows_contiguous x).
  { intros x Hx. destruct v; simpl in Hx; extract Hx; [|by eapply Hcls..].
    injection Hx as <-. rewrite view2_owned. split; [|apply view2_contiguous].
    pose proof (extract2_rows _ _ _ _ _ _ _ Hr Heqr). cbn [view2 nd_data]. lia. }
  split.
  - destruct v; simpl; [destruct Hex as [[[y|e] Hy] _]; rewrite Hy; done| |];
      (destruct Hex as [[y|e] Hy]; rewrite Hy; simpl; [|done];
       destruct (extract3_rows _ _ _ _ _ _ _ Hr Hy) as [_ Hf%rows_uniform];
       destruct (cls_rows_safe y pad Hpad) as (d & ->); [by rewrite Hc in Hf|done]).
  - intros x p i Hx Hp. destruct (Hlen _ Hx) as [Hl Hk]. apply dense_row_total; [done|].
    rewrite Hl. by eapply lookup_lt_Some.
Qed.

Lemma token_output_view v out x :
  token_output v out = Ok x -> exists name t, extract3 out name = Some (Ok t) /\ x = view3 t.
Proof. intros Hx. destruct v; simpl in Hx; extract Hx; injection Hx as <-; eauto. Qed.

Lemma token_safe v `{!ModelOutputs Session Output v} : rows_safe (token_output v) sparse_row.
Proof.
  intros encs c pad s s' ids mask out Hr Hn Hc Hpad Hfit. split.
  - pose proof (exported _ _ _ _ _ Hr) as Hex.
    destruct v; simpl; [destruct Hex as [_ [[y|e] Hy]]|destruct Hex as [[y|e] Hy]..]; by rewrite Hy.
  - intros x p i Hx Hp. destruct (token_output_view _ _ _ Hx) as (name & t & Hy & ->).
    destruct (extract3_rows _ _ _ _ _ _ _ Hr Hy) as [Hlen Hf]. rewrite Hc in Hf.
    eapply sparse_row_total; eauto. apply lookup_lt_Some in Hp. lia.
Qed.

(** The two outputs of the paired pipeline are those of the single ones; the copy of the
    hidden states changes nothing. *)
Lemma both_output_split v out d t :
  both_output v out = Ok (d, t) <-> dense_output v out = Ok d /\ token_output v out = Ok t.
Proof.
  destruct v; simpl; destruct (extracted (extract3 out _)) as [l|]; simpl; rewrite ?view3_owned;
    try destruct (extracted (extract2 out _)); simpl; try destruct (cls_rows (view3 l)); simpl; naive_solver.
Qed.

Lemma both_row_split encs d t p i r :
  both_row encs (d, t) p i = Ok r <->
  dense_row d p = Ok (dense r) /\ sparse_row encs t p i = Ok (sparse r).
Proof.
  unfold both_row. simpl. destruct (dense_row d p) as [dv|]; simpl; [|naive_solver].
  destruct (sparse_row encs t p i) as [sv|]; simpl; [|naive_solver].
  destruct r. naive_solver.
Qed.

Lemma both_output_panic v out :
  both_output v out = Err Panic -> dense_output v out = Err Panic \/ token_output v out = Err Panic.
Proof.
  destruct v; simpl; destruct (extracted (extract3 out _)) as [l|]; simpl;
    try destruct (extracted (extract2 out _)); simpl; try destruct (cls_rows (view3 l)); simpl; naive_solver.
Qed.

Lemma both_safe v `{!ModelOutputs Session Output v} : copies_ok Session Output v -> rows_safe (both_output v) both_row.
Proof.
  intros Hcopy encs c pad s s' ids mask out Hr Hn Hc Hpad Hfit.
  destruct (dense_safe v Hcopy encs c pad s s' ids mask out Hr Hn Hc Hpad Hfit) as [Hd1 Hd2].
  destruct (token_safe v encs c pad s s' ids mask out Hr Hn Hc Hpad Hfit) as [Ht1 Ht2].
  split; [by intros [?|?]%both_output_panic|].
  intros [d t] p i [Hd Ht]%both_output_split Hp.
  destruct (Hd2 d p i Hd Hp) as [dv Hdv]. destruct (Ht2 t p i Ht Hp) as [sv Hsv].
  exists {| dense := dv; sparse := sv |}. by apply both_row_split.
Qed.

Lemma finish_slots_safe {T} : finish_safe (@finish_slots T).
Proof.
  intros sl Hsl. unfold finish_slots.
  destruct (result_mapM_ok (E := failure) expect sl) as [r ->]; [|done].
  intros o Ho. rewrite Forall_forall in Hsl. by destruct (Hsl o Ho) as [v ->].
Qed.

Lemma finish_slots_lookup {T} (sl : list (option T)) r i v :
  finish_slots sl = Ok r -> sl !! i = Some (Some v) -> r !! i = Some v.
Proof.
  intros Hr Hi. destruct (result_mapM_lookup _ _ _ _ _ Hr Hi) as (y & Hy & He).
  simpl in He. by simplify_eq.
Qed.

Lemma finish_dense_lookup sl r i v :
  finish_dense sl = Ok r -> sl !! i = Some (Some v) -> r !! i = Some v.
Proof. intros [= <-] Hi. by rewrite map_lookup, Hi. Qed.

Lemma finish_dense_length sl r : finish_dense sl = Ok r -> length r = length sl.
Proof. intros [= <-]. apply length_map. Qed.
End lawful.

(** ** Statistics *)

(** The fields of the statistics that do not hold a measured time. *)
Definition same_shape_stats (a b : EmbedStats) : Prop :=
  st_chunks a = st_chunks b /\ max_chunk_seq a = max_chunk_seq b /\
  total_token_positions a = total_token_positions b /\
  seq_len_min a = seq_len_min b /\ seq_len_max a = seq_len_max b /\
  seq_len_mean a = seq_len_mean b /\ seq_len_p95 a = seq_len_p95 b.

Lemma run_chunks_longest {Session Output} `{Runtime Session Output} {X T} (extract : Output -> M X)
    (row : X -> nat -> nat -> M T) encs lens chunks : forall s st s' st',
  run_chunks extract row encs lens chunks s st = (s', Ok st') ->
  ls_max_chunk_seq st' = foldl Z.max (ls_max_chunk_seq st) (map (chunk_pad lens) chunks).
Proof.
  induction chunks as [|c chunks IH]; intros s st s' st'; cbn [run_chunks map foldl]; [by intros [= _ <-]|].
  destruct (build_chunk_arrays _ _ _) as [[ids mask]|]; [|done].
  destruct (session_run s ids mask) as [s1 [out|]]; simpl; [|done].
  destruct (extract out) as [x|]; simpl; [|done]. destruct (scatter _ _ _ _) as [sl|]; simpl; [|done].
  intros Hrun. by apply IH in Hrun.
Qed.

(** An element of a list of lists without duplicates is in one place. *)
Lemma concat_position {A} (cs : list (list A)) c c' p p' i :
  NoDup (concat cs) -> c ∈ cs -> c' ∈ cs -> c !! p = Some i -> c' !! p' = Some i -> c = c' /\ p = p'.
Proof.
  intros Hnd Hc Hc' Hp Hp'. induction cs as [|d cs IH]; [by apply elem_of_nil in Hc|]. simpl in Hnd.
  apply NoDup_app in Hnd as (Hd & Hdis & Hcs).
  assert (Hin : forall c q, c ∈ cs -> c !! q = Some i -> i ∈ concat cs).
  { intros c0 q H0 Hq%list_elem_of_lookup_2. apply elem_of_concat. by exists c0. }
  apply elem_of_cons in Hc as [->|Hc], Hc' as [->|Hc'].
  - split; [done|]. exact (NoDup_lookup _ _ _ _ Hd Hp Hp').
  - exfalso. apply (Hdis i); [by eapply list_elem_of_lookup_2|by eapply Hin].
  - exfalso. apply (Hdis i); [by eapply list_elem_of_lookup_2|by eapply Hin].
  - by apply IH.
Qed.

(** They depend on the texts and the cost model only. *)
Lemma embed_with_same_stats `{KeySort nat} {Session Output} `{Runtime Session Output} {X Y T U}
    (ex : Output -> M X) row (fin : list (option T) -> M (list T)) (ex' : Output -> M Y) row'
    (fin' : list (option U) -> M (list U)) s1 s2 texts cm guard guard' s1' s2' out out' st st' :
  embed_with ex row fin s1 texts cm guard = (s1', Ok (out, st)) ->
  embed_with ex' row' fin' s2 texts cm guard' = (s2', Ok (out', st')) -> same_shape_stats st st'.
Proof.
  unfold embed_with. destruct (encode_batch texts) as [encs|]; [|done].
  destruct (guard_chunks guard _ _) as [[]|]; [|done]. destruct (guard_chunks guard' _ _) as [[]|]; [|done].
  destruct (run_chunks ex _ _ _ _ _ _) as [sa [sta|]] eqn:Ha; simpl; [|done].
  destruct (run_chunks ex' _ _ _ _ _ _) as [sb [stb|]] eqn:Hb; simpl; [|by destruct (fin _)].
  destruct (fin (slots sta)); simpl; [|done]. destruct (fin' (slots stb)); simpl; [|done].
  intros [= _ _ <-] [= _ _ <-]. apply run_chunks_longest in Ha, Hb.
  split_and!; try done. unfold stats_of. cbn [max_chunk_seq]. by rewrite Ha, Hb.
Qed.

(** A dangerous text refuses the request before any run. *)
Lemma refuse_dangerous `{KeySort nat} {Session Output} `{Runtime Session Output}
    (s : Session) texts encs cm v g :
  encode_batch texts = Ok encs -> Exists (dangerous g) (seq_lengths_of encs) ->
  exists r, dangerous g (rej_seq r) /\
    embed_dense s texts cm v (Some g) = (s, Err (Fail (anyhow_new r))) /\
    embed_sparse s texts cm v (Some g) = (s, Err (Fail (anyhow_new r))) /\
    embed_both s texts cm v (Some g) = (s, Err (Fail (anyhow_new r))).
Proof.
  intros He Hd. unfold embed_dense, embed_sparse, embed_both, embed_with. rewrite He. simpl.
  pose proof (encoded_packing encs cm) as Hp.
  destruct (guard_each g (bin_pack (seq_lengths_of encs) cm) (seq_lengths_of encs))
    as [[]|r] eqn:Hg.
  - exfalso. rewrite (guard_packing_ok _ _ _ _ Hp) in Hg.
    apply Exists_exists in Hd as (x & [i Hi]%list_elem_of_lookup_1 & Hx).
    apply (Hg i (lookup_lt_Some _ _ _ Hi)). unfold len_at.
    by erewrite nth_lookup_Some by exact Hi.
  - exists r. split; [|done]. apply guard_each_err in Hg as (pre & c & post & _ & _ & Ha).
    by apply admit_err in Ha as [? ->].
Qed.

(** ** A concrete runtime

    A stand-in with one token per byte and constant outputs of the documented
    shapes; the witnesses run the pipelines on it. *)

Definition byte_encoding (t : string) : Encoding :=
  let ids := map (fun c => 4 + byte_of c) (list_ascii_of_string t) in
  {| get_ids := ids; get_attention_mask := map (fun _ => 1) ids |}.

Lemma byte_ids_u32 t : Forall (fun id => 0 <= id <= U32_MAX) (get_ids (byte_encoding t)).
Proof.
  apply Forall_forall. intros x (c & -> & _)%list_elem_of_fmap.
  pose proof (N_ascii_bounded c). unfold byte_of, U32_MAX. lia.
Qed.

Definition unit_hidden : list f32 := [f32_of_Z 3; f32_of_Z 4].

#[export] Instance byte_runtime : Runtime nat (nat * nat) := {|
  encode_batch texts := Ok (map byte_encoding texts);
  session_run s ids _ :=
    if (0 <=? nrows ids) && (0 <=? ncols ids)
    then (S s, Ok (Z.to_nat (nrows ids), Z.to_nat (ncols ids)))
    else (s, Err "invalid shape");
  run_elapsed_ms _ := 5;
  tokenize_elapsed_ms := 1;
  extract2 out _ := Some (Ok (replicate (fst out) unit_hidden));
  extract3 out _ := Some (Ok (replicate (fst out) (replicate (snd out) unit_hidden)));
  copy_strides _ strides := strides;
  dot h w := match h, w with x :: _, y :: _ => f32_mul x y | _, _ => f_zero end;
  sparse_weight := [f32_of_Z 1; f_zero];
  sparse_bias := f_zero;
  shape_error := "ShapeError/IncompatibleShape: incompatible shapes"
|}.

#[export] Instance byte_runtime_laws : RuntimeLaws nat (nat * nat).
Proof.
  split.
  - intros texts encs [= <-]. apply length_map.
  - intros texts encs [= <-]. apply Forall_map, Forall_true. intros t. simpl. by rewrite !length_map.
  - done.
  - intros s s' ids mask out name x. simpl. case_if; [|done]. bool_to_prop.
    intros [= <- <-] [= <-]. simpl. rewrite length_replicate. lia.
  - intros s s' ids mask out name x. simpl. case_if; [|done]. bool_to_prop.
    intros [= <- <-] [= <-]. simpl. rewrite length_replicate. split; [lia|].
    apply Forall_replicate. rewrite length_replicate. split; [lia|].
    by apply Forall_replicate.
Qed.

Lemma byte_copies_keep_rows : copies_keep_rows nat (nat * nat).
Proof. intros b h sb. by exists sb. Qed.

#[export] Instance byte_runtime_export v : ModelExport nat (nat * nat) v.
Proof.
  split; [|right; exact byte_copies_keep_rows]. intros s s' ids mask out _. by destruct v; simpl; eauto.
Qed.

(** ** Properties *)

(** C14: no index, slot or [expect] of the three pipelines can panic: whatever
    the texts, the cost model, the guard and the errors of the session, a lawful
    runtime makes them return an [Err] or a full result.  In particular the
    [expect("every slot must be filled")] never fires.  For the sparse pipeline, and for
    the other two on the FP32 export, that includes the [as_slice().expect(..)] of the rows; on the
    half-precision and quantised exports the dense and the paired pipeline take their rows from a copy of
    a strided view, whose layout [ndarray] leaves unspecified, so for them it holds
    provided that copy has contiguous rows. *)
Theorem pipelines_never_panic `{KeySort nat} {Session Output} `{RuntimeLaws Session Output}
    (s : Session) texts cm v guard `{!ModelOutputs Session Output v} :
  snd (embed_sparse s texts cm v guard) <> Err Panic /\
  (v = Fp32 \/ copies_keep_rows Session Output ->
   snd (embed_dense s texts cm v guard) <> Err Panic /\
   snd (embed_both s texts cm v guard) <> Err Panic).
Proof.
  split; [|intros Hcopy; split]; apply embed_with_no_panic.
  - by apply token_safe.
  - apply finish_slots_safe.
  - by apply dense_safe.
  - done.
  - by apply both_safe.
  - apply finish_slots_safe.
Qed.

Lemma pipelines_never_panic_witness :
  snd (embed_both 0%nat ["hello"; ""; "abc"] (conservative 200000) Fp16 None) <> Err Panic.
Proof.
  apply (pipelines_never_panic 0%nat ["hello"; ""; "abc"] (conservative 200000) Fp16 None).
  right. exact byte_copies_keep_rows.
Defined.

(** The byte runtime with copies in column-major order, which the documentation of [to_owned]
    allows for a strided view. *)
Definition column_copy (shape strides : list Z) : list Z :=
  if is_standard_layout shape strides then strides
  else match shape with [b; h] => [1; b] | _ => strides end.
Definition column_runtime : Runtime nat (nat * nat) := {|
  encode_batch := encode_batch (Runtime := byte_runtime);
  session_run := session_run (Runtime := byte_runtime);
  run_elapsed_ms := run_elapsed_ms (Runtime := byte_runtime);
  tokenize_elapsed_ms := 1;
  extract2 := extract2 (Runtime := byte_runtime);
  extract3 := extract3 (Runtime := byte_runtime);
  copy_strides := column_copy;
  dot := dot (Runtime := byte_runtime);
  sparse_weight := sparse_weight (Runtime := byte_runtime);
  sparse_bias := f_zero;
  shape_error := ""
|}.

(** There the [expect] on a dense row of a two-text chunk panics. *)
Lemma strided_copy_can_panic :
  snd (embed_dense (H0 := column_runtime) 0%nat ["ab"; "cd"] (conservative (2 ^ 30)) Fp16 None) = Err Panic /\
  is_ok (snd (embed_dense (H0 := column_runtime) 0%nat ["ab"; "cd"] (conservative (2 ^ 30)) Fp32 None)) = true.
Proof. by vm_compute. Qed.

(** The results are scattered back to the order of the request: result [i]
    of a successful [embed_both] is what the run of the chunk holding text [i]
    computed at the text's row of that chunk, and there is one result per text. *)
Theorem embed_both_scatter `{KeySort nat} {Session Output} `{RuntimeLaws Session Output}
    (s s' : Session) texts cm v guard out stats :
  embed_both s texts cm v guard = (s', Ok (out, stats)) ->
  exists encs, encode_batch texts = Ok encs /\ length out = length texts /\
    forall i, (i < length texts)%nat ->
      exists c p r, c ∈ bin_pack (seq_lengths_of encs) cm /\ c !! p = Some i /\
        out !! i = Some r /\
        exists ids mask s1 s2 o embs,
          build_chunk_arrays encs c (chunk_pad (seq_lengths_of encs) c) = Ok (ids, mask) /\
          session_run s1 ids mask = (s2, Ok o) /\
          both_output v o = Ok embs /\ both_row encs embs p i = Ok r.
Proof.
  intros Hrun. unfold embed_both in Hrun.
  apply embed_with_rows in Hrun as (encs & He & Hl & Hrows).
  - exists encs. split; [done|]. split; [done|]. intros i Hi.
    destruct (Hrows i Hi) as (c & p & r & Hc & Hp & Hcomp & Hout). exists c, p, r. done.
  - intros sl r i w. apply finish_slots_lookup.
  - intros sl r Hf. by eapply result_mapM_length.
Qed.

Lemma embed_both_scatter_witness :
  exists s' out stats,
    embed_both 0%nat ["hello"; ""; "abc"] (conservative 200000) Fp16 None = (s', Ok (out, stats)) /\
    length out = 3%nat /\ s' = 2%nat.
Proof.
  assert (Hr : let x := embed_both 0%nat ["hello"; ""; "abc"] (conservative 200000) Fp16 None in
               is_ok (snd x) = true /\ fst x = 2%nat) by (vm_compute; by split).
  destruct (embed_both 0%nat ["hello"; ""; "abc"] (conservative 200000) Fp16 None)
    as [s' [[out stats]|]] eqn:E0; simpl in Hr; destruct Hr as [Hr Hs]; [|done].
  exists s', out, stats. split; [done|]. split; [|done].
  by destruct (embed_both_scatter _ _ _ _ _ _ _ _ E0) as (encs & _ & Hl & _).
Defined.

(** C19: [embed_both] does for each text what [embed_dense] and [embed_sparse] do: when the
    three succeed on the same texts and cost model, from any session states, they give one result
    per text and the same statistics, measured times apart; and for each text they run the session on the same
    arrays, those of the same chunk with the text in the same row, and take their
    results by the same functions from the outputs of their runs.  So the dense half of a result
    is that of [embed_dense] whenever the two runs gave the same dense output, and
    the sparse half likewise; nothing is assumed of the runs. *)
Theorem embed_both_projections `{KeySort nat} {Session Output} `{RuntimeLaws Session Output}
    (s s' sd sd' ss ss' : Session) texts cm v guard out ds sps stats dstats sstats :
  embed_both s texts cm v guard = (s', Ok (out, stats)) ->
  embed_dense sd texts cm v guard = (sd', Ok (ds, dstats)) ->
  embed_sparse ss texts cm v guard = (ss', Ok (sps, sstats)) ->
  (length out = length texts /\ length ds = length texts /\ length sps = length texts) /\
  same_shape_stats stats dstats /\ same_shape_stats stats sstats /\
  exists encs, encode_batch texts = Ok encs /\ forall i, (i < length texts)%nat ->
    exists c p ids mask ob od os r d sp,
      c ∈ bin_pack (seq_lengths_of encs) cm /\ c !! p = Some i /\
      build_chunk_arrays encs c (chunk_pad (seq_lengths_of encs) c) = Ok (ids, mask) /\
      (forall o, o ∈ [ob; od; os] -> exists s1 s2, session_run s1 ids mask = (s2, Ok o)) /\
      out !! i = Some r /\ ds !! i = Some d /\ sps !! i = Some sp /\
      (t ← dense_output v ob; dense_row t p) = Ok (dense r) /\ (t ← dense_output v od; dense_row t p) = Ok d /\
      (t ← token_output v ob; sparse_row encs t p i) = Ok (sparse r) /\
      (t ← token_output v os; sparse_row encs t p i) = Ok sp /\
      (dense_output v ob = dense_output v od -> dense r = d) /\
      (token_output v ob = token_output v os -> sparse r = sp).
Proof.
  intros Hb Hd Hs.
  split; [|split; [by eapply embed_with_same_stats|split; [by eapply embed_with_same_stats|]]].
  all: apply embed_with_rows in Hb as (encs & He & Hlb & Hrb);
    [|intros sl r i w; apply finish_slots_lookup|intros sl r Hf; by eapply result_mapM_length].
  all: apply embed_with_rows in Hd as (encs' & He' & Hld & Hrd); [|apply finish_dense_lookup|apply finish_dense_length].
  all: apply embed_with_rows in Hs as (encs'' & He'' & Hls & Hrs);
    [|intros sl r i w; apply finish_slots_lookup|intros sl r Hf; by eapply result_mapM_length].
  all: rewrite He in He', He''; injection He' as <-; injection He'' as <-.
  { done. }
  exists encs. split; [done|]. intros i Hi. pose proof (packing_NoDup _ _ _ (encoded_packing encs cm)) as Hnd.
  destruct (Hrb i Hi) as (c & p & r & Hc & Hp & (ids & mask & s1 & s2 & ob & [db tb] & Ha & Hrun & Hx & Hv) & Hob).
  destruct (Hrd i Hi) as (c1 & p1 & d & Hc1 & Hp1 & (ids1 & mask1 & s3 & s4 & od & dd & Ha1 & Hrun1 & Hx1 & Hv1) & Hod).
  destruct (Hrs i Hi) as (c2 & p2 & sp & Hc2 & Hp2 & (ids2 & mask2 & s5 & s6 & os & ts & Ha2 & Hrun2 & Hx2 & Hv2) & Hos).
  destruct (concat_position _ _ _ _ _ _ Hnd Hc Hc1 Hp Hp1) as [<- <-].
  destruct (concat_position _ _ _ _ _ _ Hnd Hc Hc2 Hp Hp2) as [<- <-].
  rewrite Ha in Ha1, Ha2. injection Ha1 as <- <-. injection Ha2 as <- <-.
  apply both_output_split in Hx as [Hx Hxt]. apply both_row_split in Hv as [Hv Hvt].
  exists c, p, ids, mask, ob, od, os, r, d, sp. rewrite Hx, Hx1, Hxt, Hx2. cbn [mbind result_bind].
  split_and!; try done.
  - intros o Ho. repeat (apply elem_of_cons in Ho as [->|Ho]; [by eauto|]). by apply elem_of_nil in Ho.
  - intros [= <-]. congruence.
  - intros [= <-]. congruence.
Qed.

Lemma embed_both_projections_witness :
  exists out ds, ok_opt (snd (embed_both 0%nat ["ab"; "c"] (conservative 200000) Fp32 None)) = Some out /\
    ok_opt (snd (embed_dense 7%nat ["ab"; "c"] (conservative 200000) Fp32 None)) = Some ds /\
    same_shape_stats (snd out) (snd ds).
Proof.
  assert (Hr : is_ok (snd (embed_both 0%nat ["ab"; "c"] (conservative 200000) Fp32 None)) = true /\
    is_ok (snd (embed_dense 7%nat ["ab"; "c"] (conservative 200000) Fp32 None)) = true /\
    is_ok (snd (embed_sparse 3%nat ["ab"; "c"] (conservative 200000) Fp32 None)) = true)
    by (vm_compute; by split_and!).
  destruct Hr as (Hr1 & Hr2 & Hr3).
  destruct (embed_both 0%nat ["ab"; "c"] (conservative 200000) Fp32 None) as [s' [[out stats]|]] eqn:E0;
    [|discriminate Hr1].
  destruct (embed_dense 7%nat ["ab"; "c"] (conservative 200000) Fp32 None) as [sd' [[ds dstats]|]] eqn:E1;
    [|discriminate Hr2].
  destruct (embed_sparse 3%nat ["ab"; "c"] (conservative 200000) Fp32 None) as [ss' [[sps sstats]|]] eqn:E2;
    [|discriminate Hr3].
  exists (out, stats), (ds, dstats). split; [reflexivity|]. split; [reflexivity|].
  destruct (embed_both_projections 0%nat s' 7%nat sd' 3%nat ss' _ _ _ _ _ _ _ _ _ _ E0 E1 E2) as (_ & Hst & _).
  exact Hst.
Defined.

(** A request holding a text in the dangerous uncovered range never reaches
    the session: each pipeline returns the typed rejection and leaves the session
    as it was, so no [session.run()] was issued for any chunk. *)
Theorem dangerous_request_runs_nothing `{KeySort nat} {Session Output} `{Runtime Session Output}
    (s : Session) texts encs cm v g :
  encode_batch texts = Ok encs -> Exists (dangerous g) (seq_lengths_of encs) ->
  exists r, dangerous g (rej_seq r) /\
    embed_dense s texts cm v (Some g) = (s, Err (Fail (anyhow_new r))) /\
    embed_sparse s texts cm v (Some g) = (s, Err (Fail (anyhow_new r))) /\
    embed_both s texts cm v (Some g) = (s, Err (Fail (anyhow_new r))).
Proof. apply refuse_dangerous. Qed.

Lemma dangerous_request_runs_nothing_witness :
  exists r, embed_both 0%nat ["ok"; "too long"] (conservative (2 ^ 30)) Fp32 (Some (guard_new 5 4))
            = (0%nat, Err (Fail (anyhow_new r))).
Proof.
  destruct (dangerous_request_runs_nothing (Output := nat * nat) 0%nat ["ok"; "too long"]
              (map byte_encoding ["ok"; "too long"]) (conservative (2 ^ 30)) Fp32
              (guard_new 5 4)) as (r & _ & _ & _ & Hr).
  - reflexivity.
  - apply Exists_exists. exists 8. split; [by right; left|by split].
  - exists r. exact Hr.
Defined.

(** [build_chunk_arrays] pads correctly: when the padding covers every text
    of the chunk, both arrays have shape [(chunk, pad_to)]; row [p] holds the
    ids and the mask of the [p]-th text, followed by pad id 1 and mask 0. *)
Theorem build_chunk_arrays_padding {Session Output} `{Runtime Session Output} encs idxs pad_to :
  0 <= pad_to -> rows_fit encs idxs pad_to ->
  exists ids mask,
    build_chunk_arrays encs idxs pad_to = Ok (ids, mask) /\
    (nrows ids = Z.of_nat (length idxs) /\ ncols ids = pad_to) /\
    (nrows mask = Z.of_nat (length idxs) /\ ncols mask = pad_to) /\
    forall p i e (c : nat),
      idxs !! p = Some i -> encs !! i = Some e -> Z.of_nat c < pad_to ->
      elems ids !! (p * Z.to_nat pad_to + c)%nat = Some (nth c (get_ids e) 1) /\
      elems mask !! (p * Z.to_nat pad_to + c)%nat = Some (nth c (get_attention_mask e) 0).
Proof.
  intros Hpad Hfit. rewrite build_chunk_arrays_ok by done.
  eexists _, _. split; [done|]. split_and!; [done..|].
  intros p i e c Hp He Hc. simpl. split; by eapply row_elem.
Qed.

Lemma build_chunk_arrays_padding_witness :
  exists ids mask,
    build_chunk_arrays [byte_encoding "hello"; byte_encoding "hi"] [1; 0]%nat 5 = Ok (ids, mask) /\
    elems mask = [1; 1; 0; 0; 0; 1; 1; 1; 1; 1].
Proof.
  destruct (build_chunk_arrays_padding [byte_encoding "hello"; byte_encoding "hi"] [1; 0]%nat 5)
    as (ids & mask & Hb & _); [lia| |].
  - repeat (apply Forall_cons; split; [by eexists|]). by apply Forall_nil.
  - exists ids, mask. split; [exact Hb|]. vm_compute in Hb. by simplify_eq.
Defined.
