(* ===== verification/TrtWarmup.v ===== *)
(** * TensorRT engine pre-warming

    [src/embedder/trt_warmup.rs], [trt_warmup/runner.rs],
    [trt_warmup/postcondition.rs], [worker/probe.rs] and
    [worker/prewarm_strict.rs]: the shapes that check a cached profile, the
    sharding of the grid, the per-shape run and the sweep that aggregates it. *)

From S2P Require Import Prelude Float RustStr JitGuard TrtCache Types Pipeline.

(** What the workers see of the machine besides the session: the process RSS,
    the engine cache directory and the fsync of that directory, all of them read
    off the state the session is part of. *)
Class WorkerWorld (Session : Type) := {
  read_process_rss_bytes : Session -> option Z;
  engine_dir : Session -> Dir;
  (** the state after [fsync_cache_dir] and the milliseconds it took *)
  fsync_engine_dir : Session -> Session * Z;
  (** the state once the directory has been rewritten, and which deletions succeed *)
  set_engine_dir : Session -> Dir -> Session;
  can_remove_file : Session -> string -> bool;
  can_reread_dir : Session -> bool;
  (** [nvidia-smi --query-gpu=compute_cap] for a device *)
  nvidia_smi : Z -> option (bool * option string);
}.

(** A [(batch, seq)] pair. *)
Abbreviation shape := (Z * Z)%type.

Definition CACHE_HIT_THRESHOLD_MS : Z := 5000.

(** ** Shapes *)

Definition coverage_check_shapes (shapes : list shape) : list shape :=
  match min_of (map fst shapes), max_of (map fst shapes),
        min_of (map snd shapes), max_of (map snd shapes) with
  | Some min_batch, Some max_batch, Some min_seq, Some max_seq =>
      let rep_min_batch := List.find (fun '(b, _) => b =? min_batch) shapes in
      let rep_max_batch := List.find (fun '(b, _) => b =? max_batch) shapes in
      let rep_min_seq := List.find (fun '(_, s) => s =? min_seq) shapes in
      let rep_max_seq := List.find (fun '(_, s) => s =? max_seq) shapes in
      foldl (fun result s => if bool_decide (s ∈ result) then result else result ++ [s]) []
        (omap id [rep_min_batch; rep_max_batch; rep_min_seq; rep_max_seq])
  | _, _, _, _ => []
  end.

(** The elements at positions [worker_index] modulo [worker_count]; [i] is the
    position of the head. *)
Fixpoint stride (i worker_index worker_count : nat) (shapes : list shape) : list shape :=
  match shapes with
  | [] => []
  | s :: rest =>
      if Nat.eqb (Nat.modulo i worker_count) worker_index
      then s :: stride (S i) worker_index worker_count rest
      else stride (S i) worker_index worker_count rest
  end.

Definition shard_shapes (shapes : list shape) (worker_index worker_count : nat) : list shape :=
  if Nat.leb worker_count 1 then shapes else stride 0 worker_index worker_count shapes.

(** ** Postconditions *)

Definition prewarm_persistence_postcondition_failed (fresh_compiles engine_count_after : Z) : bool :=
  (0 <? fresh_compiles) && (engine_count_after =? 0).

Definition SUSPICIOUS_UNDERCOUNT_MIN_FRESH : Z := 2.

Definition prewarm_persistence_suspicious_undercount (fresh_compiles engine_count_after : Z) : bool :=
  if 0 <? engine_count_after then false
  else if prewarm_persistence_postcondition_failed fresh_compiles engine_count_after then false
  else if fresh_compiles <? SUSPICIOUS_UNDERCOUNT_MIN_FRESH then false
  else false.

Definition should_fail_readiness (fresh_compiles engine_count_after : Z) (strict : bool) : bool :=
  if negb strict then false
  else prewarm_persistence_postcondition_failed fresh_compiles engine_count_after
       || prewarm_persistence_suspicious_undercount fresh_compiles engine_count_after.

(** ** Runs *)

Section runs.
Context {Session Output : Type} `{Runtime Session Output} `{WorkerWorld Session}.

Definition filled (v : Z) (sh : shape) : Array2 :=
  {| nrows := fst sh; ncols := snd sh; elems := replicate (Z.to_nat (fst sh * snd sh)) v |}.

Definition probe_run_dense (s : Session) (ids mask : Array2) : Session * result anyhow ProbeResult :=
  let rss_before := unwrap_or (read_process_rss_bytes s) 0 in
  let '(s', outputs) := session_run s ids mask in
  match outputs with
  | Err e => (s', Err (ort_err e))
  | Ok _ => (s', Ok {| rss_before := rss_before;
                       rss_after := unwrap_or (read_process_rss_bytes s') rss_before |})
  end.

(** [run_probe_batch]: one flat batch at the natural maximum length. *)
Definition run_probe_batch (s : Session) (texts : list string) : Session * M ProbeResult :=
  match encode_batch texts with
  | Err e => (s, Err (Fail (anyhow_msg ("Tokenization failed: " +:+ e))))
  | Ok encodings =>
      let pad_to := Z.max (unwrap_or (max_of (seq_lengths_of encodings)) 1) 1 in
      match build_chunk_arrays encodings (seq 0 (length texts)) pad_to with
      | Err e => (s, Err e)
      | Ok (ids_array, mask_array) =>
          let '(s', r) := probe_run_dense s ids_array mask_array in (s', lift r)
      end
  end.

Record ShapeRunResult := {
  compile_ms : Z;
  fsync_ms : Z;
  cache_hit : bool;
  succeeded : bool;
}.

Definition run_warmup_shape (s : Session) (sh : shape) : Session * ShapeRunResult :=
  let '(s1, result) := probe_run_dense s (filled 0 sh) (filled 1 sh) in
  let compile_ms := u64_of_u128 (run_elapsed_ms s1) in
  let cache_hit := compile_ms <? CACHE_HIT_THRESHOLD_MS in
  match result with
  | Ok _ =>
      let '(s2, fsync) := fsync_engine_dir s1 in
      (s2, {| compile_ms := compile_ms; fsync_ms := u64_of_u128 fsync;
              cache_hit := cache_hit; succeeded := true |})
  | Err _ =>
      (s1, {| compile_ms := compile_ms; fsync_ms := 0; cache_hit := cache_hit;
              succeeded := false |})
  end.

(** ** The sweep *)

Record PrewarmStats := {
  warmed : Z;
  total_compile_ms : Z;
  total_fsync_ms : Z;
  fully_cached : bool;
  skipped : Z;
  fresh_compiles : Z;
  engine_count_delta : Z;
  engine_count_before : Z;
  engine_count_after : Z;
  max_warmed_seq : Z;
}.

(** The mutable locals of [trt_prewarm]. *)
Record Sweep := {
  sw_warmed : Z;
  sw_fresh : Z;
  sw_compile_ms : Z;
  sw_fsync_ms : Z;
  sw_max_seq : Z;
  sw_fast : bool;
}.

(** The body of both loops; the second one ignores [sw_fast]. *)
Definition sweep_step (acc : Session * Sweep) (sh : shape) : Session * Sweep :=
  let '(s, w) := acc in
  let '(s', r) := run_warmup_shape s sh in
  let fast := if negb (cache_hit r) || negb (succeeded r) then false else sw_fast w in
  (s', if succeeded r then
         {| sw_warmed := sw_warmed w + 1;
            sw_fresh := if negb (cache_hit r) then sw_fresh w + 1 else sw_fresh w;
            sw_compile_ms := sat_add64 (sw_compile_ms w) (compile_ms r);
            sw_fsync_ms := sat_add64 (sw_fsync_ms w) (fsync_ms r);
            sw_max_seq := Z.max (sw_max_seq w) (snd sh);
            sw_fast := fast |}
       else {| sw_warmed := sw_warmed w; sw_fresh := sw_fresh w;
               sw_compile_ms := sw_compile_ms w; sw_fsync_ms := sw_fsync_ms w;
               sw_max_seq := sw_max_seq w; sw_fast := fast |}).

(** [i64::try_from(x).unwrap_or(i64::MAX)] *)
Definition i64_of (x : Z) : Z := if x <=? I64_MAX then x else I64_MAX.

Definition sweep_stats (w : Sweep) (fully_cached : bool) (skipped before after : Z) : PrewarmStats :=
  {| warmed := sw_warmed w; total_compile_ms := sw_compile_ms w; total_fsync_ms := sw_fsync_ms w;
     fully_cached := fully_cached; skipped := skipped; fresh_compiles := sw_fresh w;
     engine_count_delta := i64_of after - i64_of before;
     engine_count_before := before; engine_count_after := after; max_warmed_seq := sw_max_seq w |}.

Definition trt_prewarm (s : Session) (warmup_shapes : list shape) (sm : option string)
  : Session * PrewarmStats :=
  let shape_total := Z.of_nat (length warmup_shapes) in
  let before := count_engine_files_for_sm (engine_dir s) sm in
  if bool_decide (warmup_shapes = []) then
    (s, {| warmed := 0; total_compile_ms := 0; total_fsync_ms := 0; fully_cached := false;
           skipped := 0; fresh_compiles := 0; engine_count_delta := 0;
           engine_count_before := before; engine_count_after := before; max_warmed_seq := 0 |})
  else
    let check_shapes := if 0 <? before then coverage_check_shapes warmup_shapes else [] in
    let '(s1, w) :=
      foldl sweep_step
        (s, {| sw_warmed := 0; sw_fresh := 0; sw_compile_ms := 0; sw_fsync_ms := 0;
               sw_max_seq := 0; sw_fast := negb (bool_decide (check_shapes = [])) |})
        check_shapes in
    if sw_fast w then
      let skipped := sat_sub shape_total (Z.of_nat (length check_shapes)) in
      let '(s2, _) := fsync_engine_dir s1 in
      (s2, sweep_stats w true skipped before (count_engine_files_for_sm (engine_dir s2) sm))
    else
      let rest := List.filter (fun sh => negb (bool_decide (sh ∈ check_shapes))) warmup_shapes in
      let '(s2, w2) := foldl sweep_step (s1, w) rest in
      let '(s3, _) := fsync_engine_dir s2 in
      (s3, sweep_stats w2 false 0 before (count_engine_files_for_sm (engine_dir s3) sm)).
End runs.

(** ** Coverage checks: lemmas *)

(** A cached engine profile: inclusive ranges per dimension. *)
Record Profile := { p_min_batch : Z; p_max_batch : Z; p_min_seq : Z; p_max_seq : Z }.

Definition covers (p : Profile) (sh : shape) : Prop :=
  p_min_batch p <= fst sh <= p_max_batch p /\ p_min_seq p <= snd sh <= p_max_seq p.

Lemma find_eq {A} (f : A -> Z) v (l : list A) :
  v ∈ map f l -> exists x, List.find (fun x => f x =? v) l = Some x /\ x ∈ l /\ f x = v.
Proof.
  intros (x & -> & Hx)%list_elem_of_fmap.
  destruct (List.find (fun y => f y =? f x) l) as [y|] eqn:Hf.
  - apply find_some in Hf as [Hy Heq]. apply Z.eqb_eq in Heq. apply list_elem_of_In in Hy. eauto.
  - apply list_elem_of_In in Hx. pose proof (find_none _ _ Hf x Hx) as Hn. simpl in Hn.
    by rewrite Z.eqb_refl in Hn.
Qed.

Lemma dedup_spec (l acc : list shape) :
  NoDup acc ->
  let r := foldl (fun result s => if bool_decide (s ∈ result) then result else result ++ [s]) acc l in
  NoDup r /\ (forall x, x ∈ r <-> x ∈ acc \/ x ∈ l) /\ (length r <= length acc + length l)%nat.
Proof.
  revert acc. induction l as [|s l IH]; intros acc Hnd; simpl.
  - split_and!; [done| |lia]. intros x. split; [by left|]. intros [H|H]; [done|inversion H].
  - case_bool_decide as Hin.
    + destruct (IH acc Hnd) as (? & Hr & ?). split_and!; [done| |lia].
      intros x. rewrite Hr, elem_of_cons. naive_solver.
    + destruct (IH (acc ++ [s])) as (? & Hr & Hl).
      { apply NoDup_app. split; [done|]. split; [|by apply NoDup_singleton].
        intros x Hx. rewrite list_elem_of_singleton. by intros ->. }
      rewrite length_app in Hl. simpl in Hl. split_and!; [done| |lia].
      intros x. rewrite Hr, elem_of_app, list_elem_of_singleton, elem_of_cons. naive_solver.
Qed.

(** The four representatives and what they are extremes of. *)
Lemma coverage_check_spec shapes :
  shapes <> [] ->
  exists r1 r2 r3 r4 lo_b hi_b lo_s hi_s,
    (r1 ∈ shapes /\ r2 ∈ shapes /\ r3 ∈ shapes /\ r4 ∈ shapes) /\
    (fst r1 = lo_b /\ fst r2 = hi_b /\ snd r3 = lo_s /\ snd r4 = hi_s) /\
    Forall (fun sh => lo_b <= fst sh <= hi_b /\ lo_s <= snd sh <= hi_s) shapes /\
    NoDup (coverage_check_shapes shapes) /\
    (forall x, x ∈ coverage_check_shapes shapes <-> x ∈ [r1; r2; r3; r4]) /\
    (length (coverage_check_shapes shapes) <= 4)%nat.
Proof.
  intros Hne. unfold coverage_check_shapes.
  destruct (min_of (map fst shapes)) as [lo_b|] eqn:H1; [|by destruct shapes].
  destruct (max_of (map fst shapes)) as [hi_b|] eqn:H2; [|by destruct shapes].
  destruct (min_of (map snd shapes)) as [lo_s|] eqn:H3; [|by destruct shapes].
  destruct (max_of (map snd shapes)) as [hi_s|] eqn:H4; [|by destruct shapes].
  apply min_of_Some in H1 as [I1 F1], H3 as [I3 F3]. apply max_of_Some in H2 as [I2 F2], H4 as [I4 F4].
  destruct (find_eq fst _ _ I1) as (r1 & E1 & Hr1 & ?), (find_eq fst _ _ I2) as (r2 & E2 & Hr2 & ?),
    (find_eq snd _ _ I3) as (r3 & E3 & Hr3 & ?), (find_eq snd _ _ I4) as (r4 & E4 & Hr4 & ?).
  exists r1, r2, r3, r4, lo_b, hi_b, lo_s, hi_s.
  split; [done|]. split; [done|]. split.
  { rewrite Forall_map in F1, F2, F3, F4. rewrite Forall_forall in F1, F2, F3, F4 |- *.
    intros x Hx. specialize (F1 x Hx). specialize (F2 x Hx). specialize (F3 x Hx).
    specialize (F4 x Hx). simpl in *. lia. }
  assert (G1 : forall v r, List.find (fun x : shape => fst x =? v) shapes = Some r ->
    List.find (fun '(b, _) => b =? v) shapes = Some r).
  { intros v r <-. clear. induction shapes as [|[b s] l IH]; [done|]. simpl. by case_if. }
  assert (G2 : forall v r, List.find (fun x : shape => snd x =? v) shapes = Some r ->
    List.find (fun '(_, s) => s =? v) shapes = Some r).
  { intros v r <-. clear. induction shapes as [|[b s] l IH]; [done|]. simpl. by case_if. }
  rewrite (G1 _ _ E1), (G1 _ _ E2), (G2 _ _ E3), (G2 _ _ E4).
  change (omap id [Some r1; Some r2; Some r3; Some r4]) with [r1; r2; r3; r4].
  destruct (dedup_spec [r1; r2; r3; r4] [] (NoDup_nil_2)) as (Hnd & Hin & Hlen).
  split; [done|]. split; [|done]. intros x. rewrite Hin. split; [|by right].
  intros [Hx|Hx]; [inversion Hx|done].
Qed.

Lemma coverage_check_covers shapes p :
  Forall (covers p) (coverage_check_shapes shapes) -> Forall (covers p) shapes.
Proof.
  destruct (decide (shapes = [])) as [->|Hne]; [done|].
  destruct (coverage_check_spec shapes Hne)
    as (r1 & r2 & r3 & r4 & lb & hb & ls & hs & _ & (<- & <- & <- & <-) & Hb & _ & Hin & _).
  intros Hc. rewrite Forall_forall in Hc.
  assert (H1 : covers p r1) by (apply Hc, Hin; set_solver).
  assert (H2 : covers p r2) by (apply Hc, Hin; set_solver).
  assert (H3 : covers p r3) by (apply Hc, Hin; set_solver).
  assert (H4 : covers p r4) by (apply Hc, Hin; set_solver).
  eapply Forall_impl; [exact Hb|]. unfold covers in *. intros sh. simpl. lia.
Qed.

(** ** Shards: lemmas *)

Lemma stride_none i w n shapes : (n <= w)%nat -> (0 < n)%nat -> stride i w n shapes = [].
Proof.
  intros Hw Hn. revert i. induction shapes as [|s l IH]; intros i; simpl; [done|].
  destruct (Nat.eqb_spec (i mod n) w) as [<-|]; [|done].
  pose proof (Nat.mod_upper_bound i n ltac:(lia)). lia.
Qed.

(** The shards of one more shape differ in one worker only. *)
Lemma stride_cons_perm i n s l (ws : list nat) :
  NoDup ws -> Nat.modulo i n ∈ ws ->
  concat (map (fun w => stride i w n (s :: l)) ws)
  ≡ₚ s :: concat (map (fun w => stride (S i) w n l) ws).
Proof.
  intros Hnd Hin. induction Hnd as [|w ws Hnin Hnd IH]; [inversion Hin|]. cbn [map concat].
  cbn [stride]. destruct (Nat.eqb_spec (i mod n) w) as [Heq|Hne].
  - simpl. f_equiv. f_equiv. apply reflexive_eq. f_equal. apply map_ext_in.
    intros w' Hw'%list_elem_of_In.
    destruct (Nat.eqb_spec (i mod n) w') as [Heq'|]; [|done]. exfalso. apply Hnin. congruence.
  - apply elem_of_cons in Hin as [|Hin]; [done|]. rewrite (IH Hin). by rewrite Permutation_middle.
Qed.

Lemma shards_perm shapes i n :
  (0 < n)%nat -> concat (map (fun w => stride i w n shapes) (seq 0 n)) ≡ₚ shapes.
Proof.
  intros Hn. revert i. induction shapes as [|s l IH]; intros i.
  - assert (forall ws : list nat, concat (map (fun w => stride i w n []) ws) = []) as H.
    { induction ws; done. } by rewrite H.
  - rewrite stride_cons_perm; [by rewrite IH|apply NoDup_seq|].
    apply elem_of_seq. pose proof (Nat.mod_upper_bound i n ltac:(lia)). lia.
Qed.

Lemma stride_length shapes i w n :
  (w < n)%nat ->
  (length (stride i w n shapes) * n < length shapes + n)%nat.
Proof.
  intros Hw. revert i.
  assert (Hgen : forall l i, (length (stride i w n l) * n + (w + n - i mod n) mod n < length l + n)%nat).
  { induction l as [|s l IH]; intros i; simpl.
    - apply Nat.mod_upper_bound. lia.
    - pose proof (Nat.mod_upper_bound i n ltac:(lia)) as Hi. specialize (IH (S i)).
      assert (HS : (S i mod n = if decide (S (i mod n) = n) then 0 else S (i mod n))%nat).
      { replace (S i) with (i + 1)%nat by lia. rewrite <- Nat.Div0.add_mod_idemp_l.
        case_decide as Hd.
        - replace (i mod n + 1)%nat with n by lia. apply Nat.Div0.mod_same.
        - rewrite Nat.mod_small by lia. lia. }
      rewrite HS in IH. clear HS. set (r := (i mod n)%nat) in *.
      assert (Hm : forall x, (x < 2 * n)%nat -> (x mod n = if decide (x < n) then x else x - n)%nat).
      { intros x Hx. destruct (decide (x < n)%nat); [by apply Nat.mod_small|].
        replace x with (x - n + 1 * n)%nat at 1 by lia. rewrite Nat.Div0.mod_add.
        apply Nat.mod_small. lia. }
      rewrite Hm by lia. rewrite Hm in IH by (case_decide; lia).
      destruct (Nat.eqb_spec r w); simpl; repeat case_decide; lia. }
  intros i. specialize (Hgen shapes i). lia.
Qed.

(** ** The sweep: lemmas *)

Section sweep.
Context {Session Output : Type} `{Runtime Session Output} `{WorkerWorld Session}.

Definition max_seq_of (shapes : list shape) : Z := foldr Z.max 0 (map snd shapes).

Lemma sweep_step_spec s w sh s' w' :
  sweep_step (s, w) sh = (s', w') ->
  exists r, run_warmup_shape s sh = (s', r) /\
    (sw_fast w' = true <-> sw_fast w = true /\ cache_hit r = true /\ succeeded r = true) /\
    sw_warmed w' = sw_warmed w + (if succeeded r then 1 else 0) /\
    sw_fresh w' = sw_fresh w + (if succeeded r && negb (cache_hit r) then 1 else 0) /\
    sw_max_seq w' = (if succeeded r then Z.max (sw_max_seq w) (snd sh) else sw_max_seq w).
Proof.
  unfold sweep_step. destruct (run_warmup_shape s sh) as [s1 r].
  intros Hstep. exists r. split; [by destruct (succeeded r); simplify_eq|].
  destruct (succeeded r) eqn:Hs, (cache_hit r) eqn:Hc; simplify_eq/=;
    (split; [naive_solver|lia]).
Qed.

Lemma sweep_counts shapes s w s' w' :
  foldl sweep_step (s, w) shapes = (s', w') ->
  (0 <= sw_fresh w' - sw_fresh w <= sw_warmed w' - sw_warmed w) /\
  sw_warmed w' - sw_warmed w <= Z.of_nat (length shapes) /\
  (sw_max_seq w' = sw_max_seq w \/ sw_max_seq w' ∈ map snd shapes).
Proof.
  revert s w. induction shapes as [|sh shapes IH]; intros s w; cbn [foldl].
  - intros [= <- <-]. simpl. split; [lia|]. split; [lia|by left].
  - destruct (sweep_step (s, w) sh) as [s1 w1] eqn:Hstep. intros Hrest.
    apply sweep_step_spec in Hstep as (r & _ & _ & Hw & Hf & Hm).
    destruct (IH _ _ Hrest) as (H1 & H2 & H3).
    cbn [length map]. split; [destruct (succeeded r), (cache_hit r); simpl in *; lia|].
    split.
    + destruct (succeeded r); lia.
    + destruct H3 as [->|H3]; [|right; by right]. rewrite Hm. destruct (succeeded r); [|by left].
      destruct (Z.max_spec (sw_max_seq w) (snd sh)) as [[_ ->]|[_ ->]]; [right; by left|by left].
Qed.

Lemma sweep_fast shapes s w s' w' :
  foldl sweep_step (s, w) shapes = (s', w') -> sw_fast w' = true ->
  sw_fast w = true /\ sw_warmed w' = sw_warmed w + Z.of_nat (length shapes) /\
  sw_fresh w' = sw_fresh w /\ sw_max_seq w' = Z.max (sw_max_seq w) (foldr Z.max (sw_max_seq w) (map snd shapes)).
Proof.
  revert s w. induction shapes as [|sh shapes IH]; intros s w; cbn [foldl].
  - intros [= <- <-] Hfast. simpl. split_and!; try done; lia.
  - destruct (sweep_step (s, w) sh) as [s1 w1] eqn:Hstep. intros Hrest Hfast.
    apply sweep_step_spec in Hstep as (r & _ & Hf1 & Hw & Hfr & Hm).
    destruct (IH _ _ Hrest Hfast) as (Hf & H1 & H2 & H3). apply Hf1 in Hf as (Hf & Hc & Hs).
    rewrite Hs in Hw, Hm. rewrite Hs, Hc in Hfr. simpl in Hfr.
    cbn [length map foldr]. split_and!; [done|lia|lia|].
    rewrite H3, Hm. clear. generalize (map snd shapes). intros l.
    assert (Hl : forall a b, foldr Z.max (Z.max a b) l = Z.max a (foldr Z.max b l)).
    { intros a b. induction l; simpl; lia. }
    rewrite Z.max_comm, Hl. rewrite Z.max_comm. rewrite <- Hl.
    rewrite (Z.max_comm (sw_max_seq w) (snd sh)), Hl. lia.
Qed.

(** A range-profile cache: a fast successful run is inside the profile, and runs
    and syncs never shrink it. *)
Class RangeCache (profile : Session -> Profile) : Prop := {
  fast_run_covered s sh s' r :
    run_warmup_shape s sh = (s', r) -> cache_hit r = true -> succeeded r = true ->
    covers (profile s') sh;
  run_keeps s sh s' r x :
    run_warmup_shape s sh = (s', r) -> covers (profile s) x -> covers (profile s') x;
  fsync_keeps s x : covers (profile s) x -> covers (profile (fst (fsync_engine_dir s))) x;
}.

Lemma sweep_keeps profile `{!RangeCache profile} shapes s w s' w' x :
  foldl sweep_step (s, w) shapes = (s', w') -> covers (profile s) x -> covers (profile s') x.
Proof.
  revert s w. induction shapes as [|sh shapes IH]; intros s w; cbn [foldl].
  - by intros [= <- <-].
  - destruct (sweep_step (s, w) sh) as [s1 w1] eqn:Hstep. intros Hrest Hx.
    apply sweep_step_spec in Hstep as (r & Hr & _). eapply IH; [exact Hrest|].
    by eapply run_keeps.
Qed.

Lemma sweep_fast_covers profile `{!RangeCache profile} shapes s w s' w' :
  foldl sweep_step (s, w) shapes = (s', w') -> sw_fast w' = true ->
  Forall (covers (profile s')) shapes.
Proof.
  revert s w. induction shapes as [|sh shapes IH]; intros s w; cbn [foldl]; [done|].
  destruct (sweep_step (s, w) sh) as [s1 w1] eqn:Hstep. intros Hrest Hfast.
  destruct (sweep_fast _ _ _ _ _ Hrest Hfast) as [Hf1 _].
  apply sweep_step_spec in Hstep as (r & Hr & Hf & _). apply Hf in Hf1 as (_ & Hc & Hs).
  constructor; [|by eapply IH]. eapply sweep_keeps; [done..|]. by eapply fast_run_covered.
Qed.

Lemma coverage_check_length shapes :
  (length (coverage_check_shapes shapes) <= length shapes)%nat.
Proof.
  destruct (decide (shapes = [])) as [->|Hne]; [done|].
  destruct (coverage_check_spec shapes Hne)
    as (r1 & r2 & r3 & r4 & _ & _ & _ & _ & (I1 & I2 & I3 & I4) & _ & _ & Hnd & Hin & _).
  apply submseteq_length, NoDup_submseteq; [done|]. intros x Hx%Hin. set_solver.
Qed.

Lemma coverage_check_max_seq shapes :
  shapes <> [] -> Forall (fun sh => 0 <= snd sh) shapes ->
  Z.max 0 (foldr Z.max 0 (map snd (coverage_check_shapes shapes))) = max_seq_of shapes.
Proof.
  intros Hne Hnn. unfold max_seq_of.
  destruct (coverage_check_spec shapes Hne)
    as (r1 & r2 & r3 & r4 & lb & hb & ls & hs & (I1 & I2 & I3 & I4) & (_ & _ & _ & <-) & Hb & _ & Hin & _).
  assert (Hub : forall l, (forall x, x ∈ l -> snd x <= snd r4) -> 0 <= snd r4 -> r4 ∈ l ->
    foldr Z.max 0 (map snd l) = snd r4).
  { intros l Hl Hp Hr4. pose proof (foldr_max_ge 0 (map snd l)) as [_ Hge].
    rewrite Forall_forall in Hge. specialize (Hge (snd r4) ltac:(by apply list_elem_of_fmap_2)).
    destruct (foldr_max_in 0 (map snd l)) as [Hz|Hm]; [lia|].
    apply list_elem_of_fmap in Hm as (x & Heq & Hx). rewrite Heq. specialize (Hl x Hx).
    rewrite <- Heq in *. lia. }
  rewrite Forall_forall in Hb, Hnn. pose proof (Hnn _ I4) as H4. simpl in H4.
  rewrite (Hub (coverage_check_shapes shapes)), (Hub shapes); [lia| |done|done| |done|].
  - intros x Hx. apply Hb in Hx. lia.
  - intros x Hx%Hin. apply Hb. set_solver.
  - apply Hin. set_solver.
Qed.
End sweep.

(** ** A concrete engine cache

    A session that holds one range profile: a shape inside runs in 5 ms, another
    one extends the profile and takes a minute. *)

Definition coversb (p : Profile) (sh : shape) : bool :=
  (p_min_batch p <=? fst sh) && (fst sh <=? p_max_batch p) &&
  (p_min_seq p <=? snd sh) && (snd sh <=? p_max_seq p).

Definition extend (p : Profile) (sh : shape) : Profile :=
  {| p_min_batch := Z.min (p_min_batch p) (fst sh); p_max_batch := Z.max (p_max_batch p) (fst sh);
     p_min_seq := Z.min (p_min_seq p) (snd sh); p_max_seq := Z.max (p_max_seq p) (snd sh) |}.

Definition profile_runtime : Runtime (Profile * Z) unit := {|
  encode_batch texts := Ok (map byte_encoding texts);
  session_run s ids _ :=
    let sh := (nrows ids, ncols ids) in
    if coversb (fst s) sh then ((fst s, 5), Ok tt) else ((extend (fst s) sh, 60000), Ok tt);
  run_elapsed_ms s := snd s;
  tokenize_elapsed_ms := 1;
  extract2 _ _ := Some (Err "no output");
  extract3 _ _ := Some (Err "no output");
  copy_strides _ strides := strides;
  dot _ _ := f_zero;
  sparse_weight := [];
  sparse_bias := f_zero;
  shape_error := "ShapeError"
|}.

Definition profile_world : WorkerWorld (Profile * Z) := {|
  read_process_rss_bytes _ := None;
  engine_dir _ := Some example_cache;
  fsync_engine_dir s := (s, 3);
  set_engine_dir s _ := s;
  can_remove_file _ _ := false;
  can_reread_dir _ := true;
  nvidia_smi _ := Some (true, Some "12.0")
|}.

#[local] Existing Instances profile_runtime profile_world.

Lemma coversb_covers p sh : coversb p sh = true <-> covers p sh.
Proof. unfold coversb, covers. rewrite !andb_true_iff, !Z.leb_le. tauto. Qed.

Lemma extend_covers p sh x : x = sh \/ covers p x -> covers (extend p sh) x.
Proof. unfold covers, extend. simpl. intros [->|?]; lia. Qed.

#[local] Instance profile_range_cache : RangeCache fst.
Proof.
  split.
  - intros [p t] sh s' r Hrun Hhit _. unfold run_warmup_shape, probe_run_dense in Hrun.
    cbn in Hrun. rewrite <- surjective_pairing in Hrun.
    destruct (coversb p sh) eqn:Hc; cbn in Hrun; simplify_eq/=.
    by apply coversb_covers.
  - intros [p t] sh s' r x Hrun Hx. unfold run_warmup_shape, probe_run_dense in Hrun.
    cbn in Hrun. rewrite <- surjective_pairing in Hrun.
    destruct (coversb p sh) eqn:Hc; cbn in Hrun; simplify_eq/=; [done|].
    apply extend_covers. by right.
  - by intros [p t] x.
Qed.

(** ** Properties *)

(** The stride sharding is a partition of the warmup grid: whatever the
    number of workers, the shards together hold every shape exactly as often as
    the grid does, and no shard is longer than the rounded-up average. *)
Theorem shard_shapes_partition shapes n :
  (0 < n)%nat ->
  concat (map (fun w => shard_shapes shapes w n) (seq 0 n)) ≡ₚ shapes /\
  forall w, (w < n)%nat -> (length (shard_shapes shapes w n) * n < length shapes + n)%nat.
Proof.
  intros Hn. unfold shard_shapes. destruct (Nat.leb_spec n 1) as [Hle|Hgt].
  - replace n with 1%nat by lia. simpl. rewrite app_nil_r. split; [done|]. lia.
  - split; [by apply shards_perm|]. intros w Hw. by apply stride_length.
Qed.

Lemma shard_shapes_partition_witness :
  concat (map (fun w => shard_shapes [(1, 128); (1, 8192); (2, 128); (2, 8192); (4, 128)] w 2)
            (seq 0 2))
  ≡ₚ [(1, 128); (1, 8192); (2, 128); (2, 8192); (4, 128)].
Proof. apply shard_shapes_partition. lia. Defined.

(** At most four distinct shapes of the shard decide its coverage: an engine
    profile, being a range per dimension, that covers them covers the whole
    shard. *)
Theorem coverage_check_sound shapes :
  (length (coverage_check_shapes shapes) <= 4)%nat /\
  NoDup (coverage_check_shapes shapes) /\
  (forall sh, sh ∈ coverage_check_shapes shapes -> sh ∈ shapes) /\
  forall p, Forall (covers p) (coverage_check_shapes shapes) <-> Forall (covers p) shapes.
Proof.
  assert (Hsub : forall sh, sh ∈ coverage_check_shapes shapes -> sh ∈ shapes).
  { destruct (decide (shapes = [])) as [->|Hne]; [done|].
    destruct (coverage_check_spec shapes Hne)
      as (r1 & r2 & r3 & r4 & _ & _ & _ & _ & (I1 & I2 & I3 & I4) & _ & _ & _ & Hin & _).
    intros sh Hsh%Hin. set_solver. }
  split_and!; [| |done|].
  - destruct (decide (shapes = [])) as [->|Hne]; [simpl; lia|].
    by destruct (coverage_check_spec shapes Hne) as (? & ? & ? & ? & ? & ? & ? & ? & ? & ? & ? & ? & ? & ?).
  - destruct (decide (shapes = [])) as [->|Hne]; [apply NoDup_nil_2|].
    by destruct (coverage_check_spec shapes Hne) as (? & ? & ? & ? & ? & ? & ? & ? & ? & ? & ? & ? & ? & ?).
  - intros p. split; [apply coverage_check_covers|]. rewrite !Forall_forall. auto.
Qed.

(** C23: the warm-cache fast path has no false positives: on a cache whose
    engines are range profiles, a sweep that reports [fully_cached] leaves a
    profile that covers every shape of the shard, the skipped ones included; it
    compiled nothing, accounts for every shape and reports the shard's largest
    sequence length. *)
Theorem prewarm_fast_path_sound {Session Output} `{Runtime Session Output} `{WorkerWorld Session}
    profile `{!RangeCache profile} s shapes sm s' st :
  Forall (fun sh => 0 <= snd sh) shapes ->
  trt_prewarm s shapes sm = (s', st) -> fully_cached st = true ->
  Forall (covers (profile s')) shapes /\ fresh_compiles st = 0 /\
  warmed st + skipped st = Z.of_nat (length shapes) /\ max_warmed_seq st = max_seq_of shapes.
Proof.
  intros Hnn. unfold trt_prewarm. case_bool_decide as Hnil; [by intros [= <- <-]|].
  set (checks := if 0 <? _ then _ else _).
  destruct (foldl sweep_step _ checks) as [s1 w] eqn:Hsweep.
  destruct (sw_fast w) eqn:Hfast.
  2: { destruct (foldl sweep_step (s1, w) _) as [s2 w2].
       destruct (fsync_engine_dir s2) as [s3 t3]. by intros [= <- <-]. }
  destruct (fsync_engine_dir s1) as [s2 t2] eqn:Hsync. intros [= <- <-] _.
  pose proof (sweep_fast _ _ _ _ _ Hsweep Hfast) as (Hne & Hw & Hfr & Hmax). simpl in *.
  pose proof (sweep_fast_covers profile _ _ _ _ _ Hsweep Hfast) as Hcov.
  apply negb_true_iff, bool_decide_eq_false in Hne.
  assert (Hchecks : checks = coverage_check_shapes shapes).
  { unfold checks in *. by destruct (0 <? _). }
  clearbody checks. subst checks. pose proof (coverage_check_length shapes) as Hlen.
  split_and!.
  - apply coverage_check_covers. eapply Forall_impl; [exact Hcov|]. intros sh Hsh.
    change s2 with (fst (s2, t2)). rewrite <- Hsync. by apply fsync_keeps.
  - done.
  - cbn [warmed skipped sweep_stats]. unfold sat_sub. lia.
  - rewrite Hmax. by apply coverage_check_max_seq.
Qed.

Lemma prewarm_fast_path_sound_witness :
  let p := {| p_min_batch := 1; p_max_batch := 4; p_min_seq := 8; p_max_seq := 64 |} in
  exists s' st,
    trt_prewarm (p, 0) [(1, 8); (1, 64); (2, 8); (2, 64); (4, 8); (4, 64)] (Some "sm120") = (s', st)
    /\ skipped st = 3 /\ max_warmed_seq st = 64.
Proof.
  intros p.
  assert (Hr : let st := snd (trt_prewarm (p, 0) [(1, 8); (1, 64); (2, 8); (2, 64); (4, 8); (4, 64)]
                                (Some "sm120")) in
               fully_cached st = true /\ skipped st = 3) by (vm_compute; by split).
  destruct (trt_prewarm (p, 0) _ _) as [s' st] eqn:E0. destruct Hr as [Hf Hs].
  exists s', st. split; [done|]. split; [done|].
  destruct (prewarm_fast_path_sound fst (p, 0)
    [(1, 8); (1, 64); (2, 8); (2, 64); (4, 8); (4, 64)] (Some "sm120") s' st) as (_ & _ & _ & ->);
    [|done|done|done].
  repeat (apply Forall_cons; split; [simpl; lia|]). by apply Forall_nil.
Defined.

(** Readiness is refused exactly when strict mode is on and fresh compiles
    left no engine on disk: the undercount predicate can never fire, so a partial
    undercount never blocks readiness. *)
Theorem should_fail_readiness_iff fresh after strict :
  0 <= fresh -> 0 <= after ->
  (should_fail_readiness fresh after strict = true <-> strict = true /\ 0 < fresh /\ after = 0) /\
  prewarm_persistence_suspicious_undercount fresh after = false.
Proof.
  intros Hf Ha.
  assert (Hu : prewarm_persistence_suspicious_undercount fresh after = false).
  { unfold prewarm_persistence_suspicious_undercount. by repeat case_if. }
  split; [|done]. unfold should_fail_readiness. rewrite Hu, orb_false_r.
  unfold prewarm_persistence_postcondition_failed. destruct strict; simpl; [|naive_solver].
  rewrite andb_true_iff, Z.ltb_lt, Z.eqb_eq. naive_solver.
Qed.

Lemma should_fail_readiness_iff_witness : should_fail_readiness 24 0 true = true.
Proof. by apply should_fail_readiness_iff. Defined.
