(* ===== verification/Config.v ===== *)
(** * Configuration ([src/config.rs])

    The configuration read from the environment: parsing of decimal numbers, the
    TRT warmup shapes, the cost-model override, [Config::from_lookup] with every
    default and clamp, [Config::from_env] with its validation, and the warnings for
    the operator as the values they carry. *)

From Stdlib Require Import SpecFloat.
From S2P Require Import Prelude RustStr Float BinPack JitGuard Types SysInfo TrtWarmup.

(** [Display for ModelVariant] *)
Definition fmt_variant (v : ModelVariant) : string :=
  match v with Fp32 => "fp32" | Fp16 => "fp16" | Int8 => "int8" end.

Definition DEFAULT_GPU_VRAM_BUDGET_BYTES : Z := 10 * 1024 * 1024 * 1024.
Definition MODEL_MAX_SEQ : Z := 8192.

(** ** [str::parse::<f64>]

    An optional sign, then [inf], [infinity] or [nan] in any case, or decimal
    digits with an optional point and an optional exponent; the value is the
    nearest double. *)

(** The value of the leading digits from [acc], how many there are, and the
    rest. *)
Fixpoint scan_digits (acc n : Z) (s : string) : Z * Z * string :=
  match s with
  | String c s' =>
      if is_ascii_digit c then scan_digits (acc * 10 + (byte_of c - 48)) (n + 1) s' else (acc, n, s)
  | EmptyString => (acc, n, s)
  end.

(** An optional sign: whether it is a minus, and the rest. *)
Definition scan_sign (s : string) : bool * string :=
  match s with
  | String c s' =>
      if Ascii.eqb c "-" then (true, s') else if Ascii.eqb c "+" then (false, s') else (false, s)
  | EmptyString => (false, s)
  end.

(** The double nearest to [(-1)^sign * m * 10^e]. *)
Definition f64_of_decimal (sign : bool) (m e : Z) : f64 :=
  match m with
  | Zpos p =>
      if 0 <=? e then binary_normalize 53 1024 (cond_Zopp sign (m * 10 ^ e)) 0 sign
      else let '(q, e', l) := SFdiv_core_binary 53 1024 m 0 (10 ^ (- e)) 0 in
           binary_round_aux 53 1024 sign q e' l
  | _ => S754_zero sign
  end.

(** The exponent part: [e] or [E], a sign and digits up to the end. *)
Definition scan_exponent (s : string) : option Z :=
  match s with
  | EmptyString => Some 0
  | String c s' =>
      if Ascii.eqb c "e" || Ascii.eqb c "E" then
        let (neg, s'') := scan_sign s' in
        let '(v, n, rest) := scan_digits 0 0 s'' in
        if (0 <? n) && str_is_empty rest then Some (if neg then - v else v) else None
      else None
  end.

Fixpoint ascii_lowercase (s : string) : string :=
  match s with EmptyString => EmptyString | String c s => String (lower_ascii c) (ascii_lowercase s) end.

Definition parse_f64 (s : string) : option f64 :=
  let (neg, s) := scan_sign s in
  let low := ascii_lowercase s in
  if String.eqb low "inf" || String.eqb low "infinity" then Some (S754_infinity neg)
  else if String.eqb low "nan" then Some S754_nan
  else
    let '(ip, ni, rest) := scan_digits 0 0 s in
    let '(m, nf, rest) :=
      match rest with
      | String c rest' =>
          if Ascii.eqb c "." then let '(v, n, r) := scan_digits ip 0 rest' in (v, n, r) else (ip, 0, rest)
      | EmptyString => (ip, 0, rest)
      end in
    if 0 <? ni + nf then
      e ← scan_exponent rest; Some (f64_of_decimal neg m (e - nf))
    else None.

(** ** TRT warmup shapes *)

Definition DEFAULT_TRT_WARMUP_SHAPES : list shape :=
  [(1, 128); (1, 512); (1, 2048); (1, 8192);
   (2, 128); (2, 512); (2, 2048); (2, 8192);
   (4, 128); (4, 512); (4, 2048); (4, 8192);
   (8, 128); (8, 512); (8, 2048); (8, 8192);
   (16, 128); (16, 512); (16, 2048); (16, 8192);
   (32, 128); (32, 512); (32, 2048); (32, 8192)].

(** One [BxL] token. *)
Definition parse_shape_token (token : string) : option shape :=
  let (b, rest) := splitn2 "x" (trim token) in
  batch ← parse_usize b;
  rest ← rest;
  seq ← parse_usize rest;
  Some (batch, seq).

Definition parse_trt_warmup_shapes (raw : option string) : list shape :=
  match raw with
  | None => DEFAULT_TRT_WARMUP_SHAPES
  | Some val =>
      if str_is_empty (trim val) then DEFAULT_TRT_WARMUP_SHAPES
      else match omap parse_shape_token (split_char "," val) with
           | [] => DEFAULT_TRT_WARMUP_SHAPES
           | parsed => parsed
           end
  end.

(** [warn_if_small_batch_coverage_missing]: the flags and the batches of the
    warning, in increasing order without duplicates; [None]: no warning. *)
Definition small_batch_coverage_warning (shapes : list shape) : option (bool * bool * list Z) :=
  let covers_batch_1 := existsb (fun s => s.1 =? 1) shapes in
  let covers_batch_2 := existsb (fun s => s.1 =? 2) shapes in
  if negb covers_batch_1 || negb covers_batch_2
  then Some (covers_batch_1, covers_batch_2, sort_z (remove_dups (fst <$> shapes)))
  else None.

(** ** Resolution of the settings *)

Section lookup.
Variable lookup : string -> option string.

(** [lookup(k).and_then(|v| v.parse().ok()).unwrap_or(d)] *)
Definition env_uint (max : Z) (k : string) (d : Z) : Z := unwrap_or (lookup k ≫= parse_uint max) d.
Definition env_usize (k : string) (d : Z) : Z := env_uint U64_MAX k d.
Definition env_f64 (k : string) (d : f64) : f64 := unwrap_or (lookup k ≫= parse_f64) d.

Definition is_token (tokens : list string) (o : option string) : bool :=
  is_some_and o (fun v => bool_decide (v ∈ tokens)).
Definition env_enabled (k : string) : bool := is_token ["1"; "true"; "yes"] (lookup k).
Definition env_disabled (k : string) : bool := is_token ["0"; "false"; "no"] (lookup k).

Definition resolve_max_seq_length : Z :=
  let raw := env_usize "BGE_M3_MAX_SEQ_LENGTH" MODEL_MAX_SEQ in
  if (raw =? 0) || (MODEL_MAX_SEQ <? raw) then MODEL_MAX_SEQ else raw.

Definition resolve_cost_model_override (max_seq_length : Z) : option CostModel :=
  if env_enabled "BGE_M3_DISABLE_AUTO_BUDGET" then
    Some (conservative (env_usize "BGE_M3_AVAILABLE_MEMORY_BYTES" DEFAULT_MAX_WORKSPACE))
  else match lookup "BGE_M3_TOKEN_BUDGET" ≫= parse_usize with
  | Some token_budget =>
      let cost_per_position :=
        f64_add CONSERVATIVE_A (f64_mul CONSERVATIVE_B (f64_of_Z max_seq_length)) in
      let max_workspace := f64_to_usize (f64_mul (f64_of_Z token_budget) cost_per_position) in
      Some {| cm_a := CONSERVATIVE_A; cm_b := CONSERVATIVE_B; max_workspace_bytes := max_workspace |}
  | None =>
      a_str ← lookup "BGE_M3_COST_MODEL_A";
      b_str ← lookup "BGE_M3_COST_MODEL_B";
      a ← parse_f64 a_str;
      b ← parse_f64 b_str;
      Some {| cm_a := a; cm_b := b;
              max_workspace_bytes := env_usize "BGE_M3_AVAILABLE_MEMORY_BYTES" DEFAULT_MAX_WORKSPACE |}
  end.

Definition resolve_model_variant : ModelVariant :=
  match lookup "BGE_M3_MODEL" with
  | Some v => if String.eqb v "fp32" then Fp32 else if String.eqb v "int8" then Int8 else Fp16
  | None => Fp16
  end.

Definition resolve_ep : EpSelection :=
  match lookup "BGE_M3_EP" with
  | Some v => if String.eqb v "cuda" then Cuda else if String.eqb v "tensorrt" then TensorRt else Cpu
  | None => Cpu
  end.

Definition resolve_engine_propagation (adaptive_warmup_enabled : bool) : bool :=
  unwrap_or (v ← lookup "BGE_M3_ENGINE_PROPAGATION_ENABLED";
             if String.eqb v "0" then Some false else if String.eqb v "1" then Some true else None)
            adaptive_warmup_enabled.
End lookup.

(** ** Warnings

    What [from_lookup] tells the operator at the level WARN, in order. *)

Definition VRAM_WARN_THRESHOLD_BYTES : Z := 128 * 1024 * 1024 * 1024.

Inductive Warning :=
| MaxSeqClamped (requested : Z)
| OnnxBatchSizeDeprecated
| LimitUnparsed (var raw : string)
| LimitHuge (var : string) (bytes : Z)
| PropagationUnrecognized (value : string) (default : bool)
| NoValidShapes (raw : string)
| CoverageGap (covers_batch_1 covers_batch_2 : bool) (configured_batches : list Z) (shape_count : Z)
| WarmupOnlyNoop (ep : EpSelection).

Section warnings.
Variable lookup : string -> option string.

(** [BGE_M3_TRT_MAX_WORKSPACE_BYTES] and [BGE_M3_GPU_MEM_LIMIT_BYTES] *)
Definition limit_warnings (var : string) : list Warning :=
  match lookup var with
  | None => []
  | Some v =>
      match parse_usize v with
      | None => [LimitUnparsed var v]
      | Some bytes => if VRAM_WARN_THRESHOLD_BYTES <? bytes then [LimitHuge var bytes] else []
      end
  end.

Definition propagation_warnings : list Warning :=
  match lookup "BGE_M3_ENGINE_PROPAGATION_ENABLED" with
  | None => []
  | Some v =>
      if String.eqb v "0" || String.eqb v "1" then []
      else [PropagationUnrecognized v (env_enabled lookup "BGE_M3_ADAPTIVE_WARMUP_ENABLED")]
  end.

(** The warning of [parse_trt_warmup_shapes]. *)
Definition shapes_warnings (raw : option string) : list Warning :=
  match raw with
  | None => []
  | Some val =>
      if str_is_empty (trim val) then []
      else match omap parse_shape_token (split_char "," val) with
           | [] => [NoValidShapes val]
           | _ => []
           end
  end.

Definition coverage_warnings (shapes : list shape) : list Warning :=
  match small_batch_coverage_warning shapes with
  | Some (b1, b2, batches) => [CoverageGap b1 b2 batches (Z.of_nat (length shapes))]
  | None => []
  end.

Definition from_lookup_warnings : list Warning :=
  let raw := env_usize lookup "BGE_M3_MAX_SEQ_LENGTH" MODEL_MAX_SEQ in
  (if (raw =? 0) || (MODEL_MAX_SEQ <? raw) then [MaxSeqClamped raw] else [])
  ++ (if is_some_and (lookup "BGE_M3_ONNX_BATCH_SIZE") (fun _ => true) then [OnnxBatchSizeDeprecated] else [])
  ++ limit_warnings "BGE_M3_TRT_MAX_WORKSPACE_BYTES"
  ++ limit_warnings "BGE_M3_GPU_MEM_LIMIT_BYTES"
  ++ propagation_warnings
  ++ shapes_warnings (lookup "BGE_M3_TRT_WARMUP_SHAPES")
  ++ (if bool_decide (resolve_ep lookup = TensorRt)
      then coverage_warnings (parse_trt_warmup_shapes (lookup "BGE_M3_TRT_WARMUP_SHAPES")) else [])
  ++ (if env_enabled lookup "BGE_M3_WARMUP_ONLY" && negb (bool_decide (resolve_ep lookup = TensorRt))
      then [WarmupOnlyNoop (resolve_ep lookup)] else []).
End warnings.

(** ** [Config] *)

Module Cfg.

(** The [cache-gc] build, whose extra field is [trt_cache_gc_enabled]. *)
Record Config := {
  cache_dir : string;
  bind_addr : string;
  tls_cert_path : option string;
  tls_key_path : option string;
  workers : Z;
  intra_threads : Z;
  max_batch : Z;
  max_seq_length : Z;
  idle_timeout : option Z;
  model_variant : ModelVariant;
  memory_safety_factor : f64;
  cost_model_override : option CostModel;
  heartbeat_secs : Z;
  ep : EpSelection;
  gpu_count : Z;
  gpu_vram_budget_bytes : option Z;
  trt_max_workspace_bytes : option Z;
  gpu_mem_limit_bytes : option Z;
  adaptive_warmup_enabled : bool;
  engine_propagation_enabled : bool;
  adaptive_warmup_quiet_secs : Z;
  adaptive_warmup_max_shapes_per_hour : Z;
  trt_warmup_shapes : list shape;
  warmup_only : bool;
  prewarm_strict : bool;
  max_body_bytes : Z;
  circuit_breaker_threshold : Z;
  trt_inband_jit_guard_enabled : bool;
  trt_inband_jit_guard_seq : Z;
  trt_cache_gc_enabled : bool;
}.

Section from_lookup.
Variable lookup : string -> option string.
(** The driver directory [detect_gpu_count] reads. *)
Variable gpu_entries : option (list bool).

Definition resolve_idle_timeout : option Z :=
  let secs := env_usize lookup "BGE_M3_IDLE_TIMEOUT_SECS" 300 in
  if 0 <? secs then Some secs else None.

(** A GPU provider replaces the cost model by the VRAM budget. *)
Definition final_cost_model_override : option CostModel :=
  match resolve_ep lookup with
  | Cpu => resolve_cost_model_override lookup (resolve_max_seq_length lookup)
  | _ => Some (conservative (unwrap_or (lookup "BGE_M3_GPU_VRAM_BUDGET_BYTES" ≫= parse_usize)
                               DEFAULT_GPU_VRAM_BUDGET_BYTES))
  end.

Definition from_lookup : Config :=
  let adaptive := env_enabled lookup "BGE_M3_ADAPTIVE_WARMUP_ENABLED" in
  {| cache_dir := unwrap_or (lookup "BGE_M3_CACHE_DIR") "/cache";
     bind_addr := unwrap_or (lookup "BGE_M3_BIND") "0.0.0.0:8081";
     tls_cert_path := lookup "BGE_M3_TLS_CERT_PATH";
     tls_key_path := lookup "BGE_M3_TLS_KEY_PATH";
     workers := Z.max (env_usize lookup "BGE_M3_WORKERS" 2) 1;
     intra_threads := Z.max (env_usize lookup "BGE_M3_INTRA_THREADS" 1) 1;
     max_batch := Z.max (env_usize lookup "BGE_M3_MAX_BATCH" 256) 1;
     max_seq_length := resolve_max_seq_length lookup;
     idle_timeout := resolve_idle_timeout;
     model_variant := resolve_model_variant lookup;
     memory_safety_factor :=
       f_clamp (env_f64 lookup "BGE_M3_MEMORY_SAFETY_FACTOR" (f64_lit 7 10)) (f64_lit 1 10) (f64_lit 1 1);
     cost_model_override := final_cost_model_override;
     heartbeat_secs := env_usize lookup "BGE_M3_HEARTBEAT_SECS" 60;
     ep := resolve_ep lookup;
     gpu_count := detect_gpu_count gpu_entries (lookup "BGE_M3_GPU_COUNT" ≫= parse_usize);
     gpu_vram_budget_bytes := lookup "BGE_M3_GPU_VRAM_BUDGET_BYTES" ≫= parse_usize;
     trt_max_workspace_bytes := lookup "BGE_M3_TRT_MAX_WORKSPACE_BYTES" ≫= parse_usize;
     gpu_mem_limit_bytes := lookup "BGE_M3_GPU_MEM_LIMIT_BYTES" ≫= parse_usize;
     adaptive_warmup_enabled := adaptive;
     engine_propagation_enabled := resolve_engine_propagation lookup adaptive;
     adaptive_warmup_quiet_secs := env_usize lookup "BGE_M3_ADAPTIVE_WARMUP_QUIET_SECS" 3;
     adaptive_warmup_max_shapes_per_hour :=
       env_uint lookup U32_MAX "BGE_M3_ADAPTIVE_WARMUP_MAX_SHAPES_PER_HOUR" 12;
     trt_warmup_shapes := parse_trt_warmup_shapes (lookup "BGE_M3_TRT_WARMUP_SHAPES");
     warmup_only := env_enabled lookup "BGE_M3_WARMUP_ONLY";
     prewarm_strict := negb (env_disabled lookup "BGE_M3_PREWARM_STRICT");
     max_body_bytes := env_usize lookup "BGE_M3_MAX_BODY_BYTES" 33554432;
     circuit_breaker_threshold := Z.max (env_usize lookup "BGE_M3_CIRCUIT_BREAKER_THRESHOLD" 5) 1;
     trt_inband_jit_guard_enabled := negb (env_disabled lookup "BGE_M3_TRT_INBAND_JIT_GUARD");
     trt_inband_jit_guard_seq := Z.max (env_usize lookup "BGE_M3_TRT_INBAND_JIT_GUARD_SEQ" 4096) 1;
     trt_cache_gc_enabled := env_enabled lookup "BGE_M3_TRT_CACHE_GC_ENABLED" |}.

(** [validate]: both TLS paths or none. *)
Definition validate (c : Config) : result anyhow () :=
  match tls_cert_path c, tls_key_path c with
  | Some _, None | None, Some _ =>
      Err (anyhow_msg "TLS misconfiguration: BGE_M3_TLS_CERT_PATH and BGE_M3_TLS_KEY_PATH must both be set or both be absent")
  | _, _ => Ok ()
  end.

Definition from_env : result anyhow Config := _ ← validate from_lookup; Ok from_lookup.
End from_lookup.
End Cfg.

Example parse_f64_examples :
  parse_f64 "0.7" = Some (f64_lit 7 10) /\ parse_f64 "1e-1" = Some (f64_lit 1 10)
  /\ parse_f64 "-.5E1" = Some (SFopp (f64_of_Z 5)) /\ parse_f64 "16384" = Some CONSERVATIVE_A
  /\ parse_f64 "." = None /\ parse_f64 "1e" = None /\ parse_f64 "NaN" = Some S754_nan
  /\ parse_f64 "" = None /\ parse_f64 "12a" = None /\ parse_f64 "-inf" = Some (S754_infinity true).
Proof. vm_compute. tauto. Qed.

(** ** Lemmas: numbers *)

Lemma env_uint_range lookup max k d : 0 <= d <= max -> 0 <= env_uint lookup max k d <= max.
Proof.
  intros Hd. unfold env_uint. destruct (lookup k) as [s|]; simpl; [|done].
  destruct (parse_uint max s) as [n|] eqn:E; simpl; [|done]. apply parse_uint_range in E; lia.
Qed.

Lemma env_usize_range lookup k d : usize d -> usize (env_usize lookup k d).
Proof. apply env_uint_range. Qed.

Lemma max_seq_range lookup : 1 <= resolve_max_seq_length lookup <= MODEL_MAX_SEQ.
Proof.
  unfold resolve_max_seq_length.
  pose proof (env_usize_range lookup "BGE_M3_MAX_SEQ_LENGTH" MODEL_MAX_SEQ ltac:(done)) as [Hr _].
  destruct (_ || _) eqn:E; [done|]. bool_to_prop. lia.
Qed.

(** The token budget translated to bytes without rounding. *)
Lemma token_budget_workspace lookup t :
  env_enabled lookup "BGE_M3_DISABLE_AUTO_BUDGET" = false ->
  lookup "BGE_M3_TOKEN_BUDGET" ≫= parse_usize = Some t -> t <= 10 ^ 11 ->
  forall s, 1 <= s <= MODEL_MAX_SEQ ->
  resolve_cost_model_override lookup s = Some (conservative (t * (16384 + 8 * s))).
Proof.
  intros He Ht Hmax s Hs. unfold resolve_cost_model_override. rewrite He, Ht. unfold conservative.
  assert (Hr : 0 <= t) by (destruct (lookup "BGE_M3_TOKEN_BUDGET") as [v|]; [|done]; by apply parse_usize_range in Ht as [? _]).
  do 2 f_equal. unfold MODEL_MAX_SEQ in *.
  assert (Ha : is_int CONSERVATIVE_A 16384) by (by apply f64_of_Z_exact).
  assert (Hb : is_int CONSERVATIVE_B 8) by (by apply f64_of_Z_exact).
  assert (t * (16384 + 8 * s) < 2 ^ 53) by nia.
  apply f_to_uint_exact; [|unfold U64_MAX; nia].
  auto 7 with rust.
Qed.

(** ** Lemmas: warmup shapes *)

Definition render_shape (s : shape) : string := show s.1 +:+ String "x" (show s.2).

Fixpoint join (c : ascii) (l : list string) : string :=
  match l with
  | [] => ""
  | [s] => s
  | s :: l => s +:+ String c (join c l)
  end.

Definition no_char (c : ascii) (s : string) : Prop := str_forall (fun a => negb (Ascii.eqb a c)) s = true.

Lemma split_char_single c s : no_char c s -> split_char c s = [s].
Proof.
  unfold no_char. induction s as [|a s IH]; simpl; [done|]. intros H. bool_to_prop.
  rewrite IH by done. by destruct (Ascii.eqb a c).
Qed.

Lemma split_char_app c s r : no_char c s -> split_char c (s +:+ String c r) = s :: split_char c r.
Proof.
  unfold no_char. induction s as [|a s IH]; intros Hs.
  - change ("" +:+ ?x) with x. cbn [split_char]. by rewrite Ascii.eqb_refl.
  - simpl in Hs. bool_to_prop. change (String a s +:+ ?x) with (String a (s +:+ x)).
    cbn [split_char]. rewrite IH by done. by destruct (Ascii.eqb a c).
Qed.

Lemma split_char_join c l : l <> [] -> Forall (no_char c) l -> split_char c (join c l) = l.
Proof.
  intros Hne Hl. induction Hl as [|s l Hs Hl IH]; [done|]. destruct l as [|s' l].
  - by apply split_char_single.
  - change (join c (s :: s' :: l)) with (s +:+ String c (join c (s' :: l))).
    rewrite split_char_app by done. by rewrite IH.
Qed.

Lemma digits_no_char' c s : is_ascii_digit c = false -> digits s -> no_char c s.
Proof.
  intros Hc [_ Hs]. unfold no_char. induction s as [|a s IH]; simpl in *; [done|]. bool_to_prop.
  rewrite IH by done. destruct (Ascii.eqb_spec a c); [congruence|done].
Qed.

Lemma split_once_app c a b : no_char c a -> split_once c (a +:+ String c b) = Some (a, b).
Proof.
  unfold no_char. induction a as [|x a IH]; intros Ha.
  - change ("" +:+ ?x) with x. cbn [split_once]. by rewrite Ascii.eqb_refl.
  - simpl in Ha. bool_to_prop. change (String x a +:+ ?y) with (String x (a +:+ y)).
    cbn [split_once]. rewrite IH by done. by destruct (Ascii.eqb x c).
Qed.

(** A digit is no byte of a white-space character. *)
Lemma digit_ws a s : is_ascii_digit a = true -> ws_len (String a s) = 0%nat.
Proof.
  unfold is_ascii_digit. intros Ha. cbn [ws_len].
  repeat (case_if; [lia|]). destruct s as [|b s]; [done|].
  case_if; [lia|]. destruct s as [|c s]; [done|]. by case_if; [lia|].
Qed.

Lemma digit_ws_2 a b : is_ascii_digit a = true -> ws_len (String b (String a "")) <> 2%nat.
Proof. unfold is_ascii_digit. intros Ha. cbn [ws_len]. repeat case_if; try done; lia. Qed.

Lemma digit_ws_3 a b c :
  is_ascii_digit a = true -> ws_len (String c (String b (String a ""))) <> 3%nat.
Proof. unfold is_ascii_digit. intros Ha. cbn [ws_len]. repeat case_if; try done; lia. Qed.

Lemma digit_ws_rev a s : is_ascii_digit a = true -> ws_len_rev (String a s) = 0%nat.
Proof.
  intros Ha. unfold ws_len_rev.
  assert (H2 : ws_len (srev (str_take 2 (String a s))) <> 2%nat).
  { destruct s as [|b s]; [|by apply digit_ws_2].
    change (srev (str_take 2 (String a ""))) with (String a ""). by rewrite digit_ws. }
  assert (H3 : ws_len (srev (str_take 3 (String a s))) <> 3%nat).
  { destruct s as [|b [|c s]]; [| |by apply digit_ws_3].
    { change (srev (str_take 3 (String a ""))) with (String a ""). by rewrite digit_ws. }
    unfold srev. simpl. pose proof (digit_ws_2 a b Ha). cbn [ws_len]. repeat case_if; done. }
  change (str_take 1 (String a s)) with (String a ""). rewrite (digit_ws a "") by done.
  change ((0 =? 1)%nat) with false. cbv iota.
  apply Nat.eqb_neq in H2, H3. by rewrite H2, H3.
Qed.

(** [trim] keeps a text that starts and ends with a digit. *)
Lemma trim_digits a b s t :
  is_ascii_digit a = true -> is_ascii_digit b = true -> String a s = t +:+ String b "" ->
  trim (String a s) = String a s.
Proof.
  intros Ha Hb Hst. unfold trim, trim_start, trim_end. cbn [strip_ws]. rewrite digit_ws by done.
  rewrite Hst, srev_app. change (srev (String b "") +:+ srev t) with (String b (srev t)).
  cbn [strip_ws]. rewrite digit_ws_rev by done.
  change (String b (srev t)) with (srev (String b "") +:+ srev t).
  by rewrite <- srev_app, srev_involutive.
Qed.

Lemma digits_snoc s : digits s -> exists t b, s = t +:+ String b "" /\ is_ascii_digit b = true.
Proof.
  intros [Hne Hs]. induction s as [|a s IH]; [done|]. simpl in Hs. bool_to_prop.
  destruct s as [|a' s]; [by exists "", a|].
  destruct IH as (t & b & -> & Hb); [done|done|]. by exists (String a t), b.
Qed.

Lemma digits_cons s : digits s -> exists a t, s = String a t /\ is_ascii_digit a = true.
Proof.
  intros [Hne Hs]. destruct s as [|a t]; [done|]. simpl in Hs. bool_to_prop. eauto.
Qed.

Lemma trim_render s : trim (render_shape s) = render_shape s.
Proof.
  unfold render_shape.
  destruct (digits_cons _ (show_digits s.1)) as (a & t & Ha & Hda).
  destruct (digits_snoc _ (show_digits s.2)) as (u & b & -> & Hdb).
  rewrite Ha. change (String a t +:+ ?x) with (String a (t +:+ x)).
  apply (trim_digits a b _ (String a (t +:+ String "x" u))); [done..|].
  change (String a (t +:+ String "x" u) +:+ ?x) with (String a ((t +:+ String "x" u) +:+ x)).
  by rewrite <- string_app_assoc.
Qed.

Lemma parse_render s : usize s.1 -> usize s.2 -> parse_shape_token (render_shape s) = Some s.
Proof.
  intros H1 H2. unfold parse_shape_token. rewrite trim_render. unfold render_shape, splitn2.
  rewrite split_once_app by (apply digits_no_char'; [done|apply show_digits]).
  unfold parse_usize. rewrite parse_show by done. simpl. rewrite parse_show by done. simpl.
  by destruct s.
Qed.

Lemma render_no_comma s : no_char "," (render_shape s).
Proof.
  unfold render_shape, no_char. rewrite str_forall_app. cbn [str_forall].
  rewrite !digits_no_char' by (done || apply show_digits). done.
Qed.

(** A rendered list starts and ends with a digit. *)
Lemma join_render_ends s l : exists a t u b, is_ascii_digit a = true /\ is_ascii_digit b = true
  /\ join "," (render_shape <$> (s :: l)) = String a t
  /\ join "," (render_shape <$> (s :: l)) = u +:+ String b "".
Proof.
  revert s. induction l as [|s' l IH]; intros s;
    destruct (digits_cons _ (show_digits s.1)) as (a & t & Ha & Hda);
    destruct (digits_snoc _ (show_digits s.2)) as (v & b & Hb & Hdb).
  - exists a, (t +:+ String "x" (show s.2)), (show s.1 +:+ String "x" v), b. simpl. unfold render_shape.
    split_and!; [done|done|by rewrite Ha|rewrite Hb]. by rewrite <- string_app_assoc.
  - destruct (IH s') as (a' & t' & u & b' & _ & Hb' & _ & Hu). clear IH.
    set (rest := join "," (render_shape <$> (s' :: l))) in *.
    assert (Hj : join "," (render_shape <$> (s :: s' :: l)) = render_shape s +:+ String "," rest) by done.
    rewrite Hj. exists a, ((t +:+ String "x" (show s.2)) +:+ String "," rest).
    exists (render_shape s +:+ String "," u), b'. split_and!; [done|done| |].
    + unfold render_shape. by rewrite Ha.
    + rewrite Hu. by rewrite <- string_app_assoc.
Qed.

Lemma trim_join s l :
  trim (join "," (render_shape <$> (s :: l))) = join "," (render_shape <$> (s :: l))
  /\ str_is_empty (join "," (render_shape <$> (s :: l))) = false.
Proof.
  destruct (join_render_ends s l) as (a & t & u & b & Ha & Hb & Hj & Hj').
  rewrite Hj in *. split; [|done]. by eapply trim_digits.
Qed.

Lemma omap_parse_render l :
  Forall (fun s => usize s.1 /\ usize s.2) l -> omap parse_shape_token (render_shape <$> l) = l.
Proof.
  induction 1 as [|s l [H1 H2] _ IH]; [done|]. simpl. rewrite parse_render by done. by f_equal.
Qed.

Lemma parse_shapes_nonempty raw : parse_trt_warmup_shapes raw <> [].
Proof.
  unfold parse_trt_warmup_shapes. destruct raw as [v|]; [|done]. case_if; [done|].
  by destruct (omap _ _).
Qed.

(** ** Properties *)

(** What the rest of the server relies on. *)
Definition well_formed (c : Cfg.Config) : Prop :=
  1 <= Cfg.workers c /\ 1 <= Cfg.intra_threads c /\ 1 <= Cfg.max_batch c
  /\ 1 <= Cfg.max_seq_length c <= MODEL_MAX_SEQ
  /\ Cfg.idle_timeout c <> Some 0
  /\ (is_nan (Cfg.memory_safety_factor c) = true
      \/ f_le (f64_lit 1 10) (Cfg.memory_safety_factor c) = true
         /\ f_le (Cfg.memory_safety_factor c) (f64_lit 1 1) = true)
  /\ (Cfg.ep c <> Cpu -> exists w, Cfg.cost_model_override c = Some (conservative w))
  /\ 1 <= Cfg.gpu_count c
  /\ Cfg.trt_warmup_shapes c <> []
  /\ 1 <= Cfg.circuit_breaker_threshold c
  /\ 1 <= Cfg.trt_inband_jit_guard_seq c
  /\ 0 <= Cfg.adaptive_warmup_max_shapes_per_hour c <= U32_MAX.

(** The clamp of the safety factor is NaN only on NaN. *)
Lemma safety_clamp_nan x : is_nan (f_clamp x (f64_lit 1 10) (f64_lit 1 1)) = true <-> x = S754_nan.
Proof.
  split; [|by intros ->]. intros H. destruct (is_nan x) eqn:E; [by destruct x|].
  destruct (f_clamp_range x (f64_lit 1 10) (f64_lit 1 1)) as [H1 _]; [done|done|].
  by destruct (f_clamp x _ _) as [|[]| |].
Qed.

Lemma safety_clamp_range x :
  is_nan (f_clamp x (f64_lit 1 10) (f64_lit 1 1)) = true
  \/ f_le (f64_lit 1 10) (f_clamp x (f64_lit 1 10) (f64_lit 1 1)) = true
     /\ f_le (f_clamp x (f64_lit 1 10) (f64_lit 1 1)) (f64_lit 1 1) = true.
Proof.
  destruct (is_nan x) eqn:E; [left; apply safety_clamp_nan; by destruct x|].
  right. by apply f_clamp_range.
Qed.

Lemma idle_timeout_positive lookup : Cfg.resolve_idle_timeout lookup <> Some 0.
Proof.
  unfold Cfg.resolve_idle_timeout. cbv zeta. case_if; [|done]. bool_to_prop. intros [= H]. lia.
Qed.

Lemma from_lookup_well_formed lookup entries : well_formed (Cfg.from_lookup lookup entries).
Proof.
  pose proof (max_seq_range lookup). pose proof (detect_gpu_count_pos entries).
  unfold well_formed, Cfg.from_lookup.
  cbn [Cfg.workers Cfg.intra_threads Cfg.max_batch Cfg.max_seq_length Cfg.idle_timeout
       Cfg.memory_safety_factor Cfg.ep Cfg.cost_model_override Cfg.gpu_count Cfg.trt_warmup_shapes
       Cfg.circuit_breaker_threshold Cfg.trt_inband_jit_guard_seq Cfg.adaptive_warmup_max_shapes_per_hour].
  pose proof (env_uint_range lookup U32_MAX "BGE_M3_ADAPTIVE_WARMUP_MAX_SHAPES_PER_HOUR" 12 ltac:(done)).
  split_and!; try lia; auto using idle_timeout_positive, safety_clamp_range, parse_shapes_nonempty.
  unfold Cfg.final_cost_model_override. destruct (resolve_ep lookup); [done|eauto..].
Qed.

(** C25: Whatever the environment, [from_env] either refuses a half-configured TLS
    pair or returns a configuration within its documented ranges: at least one
    worker, thread, text and GPU, a sequence length of at most 8192, a breaker
    threshold and a guard threshold of at least 1, a non-empty warmup grid, and
    the conservative cost model over the VRAM budget on a GPU provider.  The
    memory safety factor lies in [[0.1, 1.0]], except that it is NaN exactly when
    the environment says so. *)
Theorem from_env_sound (lookup : string -> option string) (entries : option (list bool)) :
  match Cfg.from_env lookup entries with
  | Ok c => c = Cfg.from_lookup lookup entries /\ well_formed c
      /\ (is_Some (lookup "BGE_M3_TLS_CERT_PATH") <-> is_Some (lookup "BGE_M3_TLS_KEY_PATH"))
      /\ (is_nan (Cfg.memory_safety_factor c) = true
          <-> lookup "BGE_M3_MEMORY_SAFETY_FACTOR" ≫= parse_f64 = Some S754_nan)
  | Err _ => ~ (is_Some (lookup "BGE_M3_TLS_CERT_PATH") <-> is_Some (lookup "BGE_M3_TLS_KEY_PATH"))
  end.
Proof.
  assert (Hnone : ~ is_Some (@None string)) by (intros [? ?]; done).
  assert (Hnan : is_nan (Cfg.memory_safety_factor (Cfg.from_lookup lookup entries)) = true
          <-> lookup "BGE_M3_MEMORY_SAFETY_FACTOR" ≫= parse_f64 = Some S754_nan).
  { cbn [Cfg.memory_safety_factor Cfg.from_lookup]. rewrite safety_clamp_nan. unfold env_f64.
    destruct (_ ≫= parse_f64) as [x|]; cbn [unwrap_or]; [|done]. split; congruence. }
  pose proof (from_lookup_well_formed lookup entries) as Hwf.
  unfold Cfg.from_env, Cfg.validate. cbn [Cfg.tls_cert_path Cfg.tls_key_path Cfg.from_lookup].
  destruct (lookup "BGE_M3_TLS_CERT_PATH"), (lookup "BGE_M3_TLS_KEY_PATH"); cbn [mbind result_bind];
    try (split_and!; [done..|split; eauto; done|done]).
  - intros [H _]. apply Hnone, H. eauto.
  - intros [_ H]. apply Hnone, H. eauto.
Qed.

(** The [BxL,...] syntax of [BGE_M3_TRT_WARMUP_SHAPES] round-trips: every
    non-empty list of shapes is read back from its rendering, in order. *)
Theorem trt_warmup_shapes_roundtrip (shapes : list shape)
    (Hne : shapes <> []) (Hr : Forall (fun s => usize s.1 /\ usize s.2) shapes) :
  parse_trt_warmup_shapes (Some (join "," (render_shape <$> shapes))) = shapes.
Proof.
  destruct shapes as [|s l]; [done|]. unfold parse_trt_warmup_shapes.
  destruct (trim_join s l) as [-> ->].
  rewrite split_char_join; [|done|].
  - by rewrite omap_parse_render.
  - apply Forall_fmap, Forall_true. intros x. apply render_no_comma.
Qed.

Lemma trt_warmup_shapes_roundtrip_witness :
  parse_trt_warmup_shapes (Some "1x128,32x8192") = [(1, 128); (32, 8192)]
  /\ parse_trt_warmup_shapes (Some " 1x128 ,nope, 2X4,3x4x5") = [(1, 128)].
Proof.
  split; [|vm_compute; reflexivity].
  apply (trt_warmup_shapes_roundtrip [(1, 128); (32, 8192)]); [discriminate|].
  repeat constructor; vm_compute; discriminate.
Defined.

(** The legacy token budget keeps its meaning: on the CPU a chunk of texts
    padded to the configured sequence length fits iff it has at most
    [BGE_M3_TOKEN_BUDGET] token positions, exactly (no rounding of the [f64]
    translation moves the bound). *)
Theorem token_budget_exact (lookup : string -> option string) (entries : option (list bool)) (t count : Z)
    (Hep : resolve_ep lookup = Cpu)
    (Hauto : env_enabled lookup "BGE_M3_DISABLE_AUTO_BUDGET" = false)
    (Ht : lookup "BGE_M3_TOKEN_BUDGET" ≫= parse_usize = Some t) (Hmax : t <= 10 ^ 11)
    (Hcount : 0 <= count <= 65536) :
  let c := Cfg.from_lookup lookup entries in
  exists cm, Cfg.cost_model_override c = Some cm
    /\ fits cm count (Cfg.max_seq_length c) = (count * Cfg.max_seq_length c <=? t).
Proof.
  intros c. unfold c. cbn [Cfg.cost_model_override Cfg.max_seq_length Cfg.from_lookup].
  unfold Cfg.final_cost_model_override. rewrite Hep.
  pose proof (max_seq_range lookup) as Hs. set (s := resolve_max_seq_length lookup) in *.
  rewrite (token_budget_workspace _ t) by done. eexists. split; [done|].
  unfold fits, MODEL_MAX_SEQ in *. rewrite conservative_cost_exact by lia.
  cbn [conservative max_workspace_bytes]. apply eq_bool_prop_intro. rewrite !Is_true_true, !Z.leb_le. nia.
Qed.

Definition example_env : string -> option string := fun k =>
  if String.eqb k "BGE_M3_TOKEN_BUDGET" then Some "32768"
  else if String.eqb k "BGE_M3_MAX_SEQ_LENGTH" then Some "512" else None.

Lemma token_budget_exact_witness : exists cm,
  Cfg.cost_model_override (Cfg.from_lookup example_env None) = Some cm
  /\ fits cm 64 512 = true /\ fits cm 65 512 = false.
Proof.
  destruct (token_budget_exact example_env None 32768 64) as (cm & Hcm & Hf);
    [reflexivity | vm_compute; reflexivity | vm_compute; reflexivity | lia | lia |].
  destruct (token_budget_exact example_env None 32768 65) as (cm' & Hcm' & Hf');
    [reflexivity | vm_compute; reflexivity | vm_compute; reflexivity | lia | lia |].
  exists cm. rewrite Hcm in Hcm'. injection Hcm' as <-. split; [exact Hcm|].
  split; [exact Hf|exact Hf'].
Defined.

(** ** Warnings: lemmas *)

Lemma limit_silent lookup var raw :
  limit_warnings lookup var = [] -> lookup var = Some raw ->
  exists bytes, parse_usize raw = Some bytes /\ bytes <= VRAM_WARN_THRESHOLD_BYTES.
Proof.
  unfold limit_warnings. intros Hw Hl. rewrite Hl in Hw. destruct (parse_usize raw) as [bytes|]; [|done].
  destruct (VRAM_WARN_THRESHOLD_BYTES <? bytes) eqn:E; [done|]. bool_to_prop. eauto.
Qed.

Lemma coverage_silent shapes :
  coverage_warnings shapes = [] -> forall b, b = 1 \/ b = 2 -> exists s, s ∈ shapes /\ s.1 = b.
Proof.
  unfold coverage_warnings, small_batch_coverage_warning.
  assert (Hcov : forall b, existsb (fun s : shape => s.1 =? b) shapes = true -> exists s, s ∈ shapes /\ s.1 = b).
  { intros b (s & Hs & Hb)%existsb_exists. apply Z.eqb_eq in Hb. exists s. by rewrite list_elem_of_In. }
  destruct (existsb _ _) eqn:E1; [|done]. destruct (existsb (fun s => s.1 =? 2) _) eqn:E2; [|done].
  intros _ b [-> | ->]; by apply Hcov.
Qed.

Lemma propagation_silent lookup v adaptive :
  propagation_warnings lookup = [] -> lookup "BGE_M3_ENGINE_PROPAGATION_ENABLED" = Some v ->
  v = "0" /\ resolve_engine_propagation lookup adaptive = false \/
  v = "1" /\ resolve_engine_propagation lookup adaptive = true.
Proof.
  unfold propagation_warnings, resolve_engine_propagation. intros Hw Hl. rewrite Hl in Hw |- *. simpl.
  destruct (String.eqb_spec v "0") as [->|]; [by left|]. destruct (String.eqb_spec v "1") as [->|]; [by right|done].
Qed.

(** The tokens that are dropped without a word. *)
Lemma shapes_warned raw w :
  w ∈ shapes_warnings raw <-> exists val, raw = Some val /\ w = NoValidShapes val /\
    str_is_empty (trim val) = false /\ omap parse_shape_token (split_char "," val) = [].
Proof.
  unfold shapes_warnings. destruct raw as [val|]; [|split; [by intros Hx%elem_of_nil|by intros (? & [=] & _)]].
  destruct (str_is_empty (trim val)) eqn:He;
    [split; [by intros Hx%elem_of_nil|intros (v & [= <-] & _ & ? & _); congruence]|].
  destruct (omap _ _) as [|x l] eqn:Ho; [rewrite list_elem_of_singleton|];
    (split; [|intros (v & [= <-] & -> & _ & ?); congruence || by left]); [|by intros Hx%elem_of_nil].
  intros ->. by exists val.
Qed.

(** No other part reports a shape list. *)
Lemma limit_other lookup var val : NoValidShapes val ∉ limit_warnings lookup var.
Proof. unfold limit_warnings. destruct (lookup var) as [v|]; [|set_solver]. destruct (parse_usize v); [case_if|]; set_solver. Qed.

Lemma propagation_other lookup val : NoValidShapes val ∉ propagation_warnings lookup.
Proof. unfold propagation_warnings. destruct (lookup _) as [v|]; [case_if|]; set_solver. Qed.

Lemma coverage_other shapes val : NoValidShapes val ∉ coverage_warnings shapes.
Proof. unfold coverage_warnings. destruct (small_batch_coverage_warning _) as [[[b1 b2] bs]|]; set_solver. Qed.

Lemma if_other (b : bool) (l : list Warning) w : w ∉ l -> w ∉ (if b then l else []).
Proof. destruct b; set_solver. Qed.

(** C40: a start without a warning dropped no setting the warnings are about: both
    memory limits are the numbers that were set and at most 128 GiB, a sequence
    length that was given as a number is the one in force, the propagation switch
    is what was asked for, a TensorRT grid covers batches 1 and 2, and a
    warmup-only run has something to compile; nothing at all is said about an
    empty environment.  The invalid tokens of a shape list are reported only when
    every token is invalid. *)
Theorem silent_start_keeps_settings (lookup : string -> option string) entries :
  let c := Cfg.from_lookup lookup entries in
  let w := from_lookup_warnings lookup in
  (w = [] ->
     (forall raw, lookup "BGE_M3_TRT_MAX_WORKSPACE_BYTES" = Some raw -> exists bytes,
        parse_usize raw = Some bytes /\ Cfg.trt_max_workspace_bytes c = Some bytes /\ bytes <= 128 * 2 ^ 30) /\
     (forall raw, lookup "BGE_M3_GPU_MEM_LIMIT_BYTES" = Some raw -> exists bytes,
        parse_usize raw = Some bytes /\ Cfg.gpu_mem_limit_bytes c = Some bytes /\ bytes <= 128 * 2 ^ 30) /\
     (forall raw k, lookup "BGE_M3_MAX_SEQ_LENGTH" = Some raw -> parse_usize raw = Some k ->
        Cfg.max_seq_length c = k) /\
     (forall v, lookup "BGE_M3_ENGINE_PROPAGATION_ENABLED" = Some v ->
        v = "0" /\ Cfg.engine_propagation_enabled c = false \/
        v = "1" /\ Cfg.engine_propagation_enabled c = true) /\
     (Cfg.ep c = TensorRt -> forall b, b = 1 \/ b = 2 -> exists s, s ∈ Cfg.trt_warmup_shapes c /\ s.1 = b) /\
     (Cfg.warmup_only c = true -> Cfg.ep c = TensorRt)) /\
  ((forall k, lookup k = None) -> w = []) /\
  (forall val, NoValidShapes val ∈ w <->
     lookup "BGE_M3_TRT_WARMUP_SHAPES" = Some val /\ str_is_empty (trim val) = false /\
     omap parse_shape_token (split_char "," val) = []).
Proof.
  intros c w. subst c w. cbn [Cfg.from_lookup Cfg.trt_max_workspace_bytes Cfg.gpu_mem_limit_bytes
    Cfg.max_seq_length Cfg.engine_propagation_enabled Cfg.ep Cfg.trt_warmup_shapes Cfg.warmup_only].
  unfold from_lookup_warnings. split_and!.
  - rewrite !app_nil. intros (Hseq & _ & Htrt & Hgpu & Hprop & _ & Hcov & Honly). split_and!.
    + intros raw Hl. destruct (limit_silent _ _ _ Htrt Hl) as (b & Hb & Hle). exists b. by rewrite Hl.
    + intros raw Hl. destruct (limit_silent _ _ _ Hgpu Hl) as (b & Hb & Hle). exists b. by rewrite Hl.
    + intros raw k Hl Hk. unfold resolve_max_seq_length, env_usize, env_uint in *. rewrite Hl in *.
      cbn [mbind option_bind] in *. fold (parse_usize raw) in *. rewrite Hk in *. simpl in *.
      by destruct (_ || _).
    + intros v Hl. by apply propagation_silent.
    + intros He. rewrite bool_decide_true in Hcov by done. by apply coverage_silent.
    + intros Ho. rewrite Ho in Honly. by case_bool_decide.
  - intros Hn. unfold limit_warnings, propagation_warnings, shapes_warnings, env_enabled, is_token, resolve_ep,
      env_usize, env_uint. by rewrite !Hn.
  - intros val. rewrite !elem_of_app, shapes_warned. split.
    + pose proof (limit_other lookup "BGE_M3_TRT_MAX_WORKSPACE_BYTES" val).
      pose proof (limit_other lookup "BGE_M3_GPU_MEM_LIMIT_BYTES" val).
      pose proof (propagation_other lookup val).
      intros [Hx|[Hx|[?|[?|[?|[(v & Hv & [= <-] & ?)|[Hx|Hx]]]]]]]; try done; exfalso; revert Hx;
        apply if_other; try apply coverage_other; set_solver.
    + intros (? & ? & ?). do 5 right. left. eauto.
Qed.

Definition dropped_env : string -> option string := fun k =>
  if String.eqb k "BGE_M3_TRT_WARMUP_SHAPES" then Some "1x128,2by128,2x512"
  else if String.eqb k "BGE_M3_EP" then Some "tensorrt" else None.

Lemma silent_start_keeps_settings_witness :
  from_lookup_warnings dropped_env = [] /\
  Cfg.trt_warmup_shapes (Cfg.from_lookup dropped_env None) = [(1, 128); (2, 512)] /\
  Cfg.ep (Cfg.from_lookup dropped_env None) = TensorRt /\
  exists s, s ∈ Cfg.trt_warmup_shapes (Cfg.from_lookup dropped_env None) /\ s.1 = 2.
Proof.
  split; [vm_compute; reflexivity|]. split; [vm_compute; reflexivity|]. split; [reflexivity|].
  destruct (silent_start_keeps_settings dropped_env None) as [Hw _].
  destruct (Hw ltac:(vm_compute; reflexivity)) as (_ & _ & _ & _ & Hcov & _).
  apply Hcov; [reflexivity|by right].
Defined.
