(* ===== verification/Probe.v ===== *)
(** * The startup probe ([src/probe/corpus.rs], [src/probe/runner.rs])

    Synthesis of the probe texts, the arena warm-up and the sweep over the [(batch, seq)]
    shapes, with its two guards, on the answers of the leader worker and the resident
    set sizes read before each shape. *)

From Stdlib Require Import SpecFloat.
From S2P Require Import Prelude RustStr Float BinPack JitGuard Types Fit FitFinite TrtWarmup Config.

(** ** Texts *)

(** [str::repeat]; it panics when the length overflows an [isize]. *)
Fixpoint str_repeat (n : nat) (s : string) : string :=
  match n with O => "" | S n => s +:+ str_repeat n s end.

Definition str_len (s : string) : Z := Z.of_nat (String.length s).

(** What the corpus reader uses of a JSON document: indexing by a key, which gives
    null where there is none, and the views of a value. *)
Class JsonView (V : Type) := {
  json_index : V -> string -> V;
  as_object_values : V -> option (list V);
  as_array : V -> option (list V);
  as_str : V -> option string;
}.

Definition FALLBACK_TEXT : string :=
  "The embedding server startup probe synthesizes texts to measure workspace cost.".

(** The texts of one scenario. *)
Definition scenario_texts `{JsonView V} (scenario : V) : list string :=
  match as_array (json_index scenario "texts") with
  | Some arr => omap as_str arr
  | None => []
  end.

(** [load_probe_texts] on the content of the corpus file; [from_str] is the parser. *)
Definition load_probe_texts `{JsonView V} (from_str : string -> option V) (file : option string) : list string :=
  match
    raw ← file;
    json ← from_str raw;
    scenarios ← as_object_values (json_index json "scenarios");
    let texts := scenarios ≫= scenario_texts in
    if bool_decide (texts = []) then None else Some texts
  with
  | Some texts => texts
  | None => [FALLBACK_TEXT]
  end.

(** One text from its base.  The slice panics off a character boundary. *)
Definition synthesize_text (target_chars : Z) (base : string) : M string :=
  let count := Z.max (target_chars / Z.max (str_len base) 1) 2 + 1 in
  if I64_MAX <? str_len base * count then Err Panic
  else
    let repeated := str_repeat (Z.to_nat count) base in
    if target_chars <? str_len repeated then
      if is_char_boundary (Z.to_nat target_chars) repeated
      then Ok (str_take (Z.to_nat target_chars) repeated) else Err Panic
    else Ok repeated.

Definition target_chars (target_seq : Z) : Z := Z.max (sat_mul64 target_seq 4) 16.

(** [synthesize_texts]: indexing an empty corpus divides by zero. *)
Definition synthesize_texts (corpus : list string) (batch target_seq : Z) : M (list string) :=
  result_mapM
    (fun i => base ← expect (corpus !! (i mod length corpus)%nat);
              synthesize_text (target_chars target_seq) base)
    (seq 0 (Z.to_nat batch)).

(** ** Shapes *)

Definition PROBE_SHAPES : list shape :=
  [(1, 64); (4, 64); (1, 256); (1, 1024); (1, 2048); (1, 4096)].

(** [slice::sort_by_key] is stable. *)
Fixpoint stable_insert {A} (key : A -> Z) (x : A) (l : list A) : list A :=
  match l with
  | [] => [x]
  | y :: l' => if key x <=? key y then x :: l else y :: stable_insert key x l'
  end.
Definition stable_sort_by_key {A} (key : A -> Z) (l : list A) : list A :=
  foldr (stable_insert key) [] l.

Definition positions (s : shape) : Z := wrap64 (s.1 * s.2).

Definition probe_shapes (max_seq : Z) : list shape :=
  let shapes := PROBE_SHAPES in
  let shapes := if existsb (fun s => s.2 =? max_seq) shapes then shapes else shapes ++ [(1, max_seq)] in
  let shapes := filter (fun s => s.2 <= max_seq) shapes in
  stable_sort_by_key positions shapes.

(** ** The sweep *)

(** What the world answers at the [i]-th shape: the RSS read by the guard and the
    result of [pool.probe]. *)
Record ProbeWorld := {
  pw_rss : nat -> option Z;
  pw_answer : nat -> result anyhow ProbeResult;
}.

Record ProbeSweep := {
  ps_data : list DataPoint;
  ps_skipped : Z;
  ps_errored : Z;
  (** the shapes of the sweep given to the worker, with the RSS read before *)
  ps_probed : list (shape * Z);
  (** every shape run on the worker, the warm-up included, in order *)
  ps_runs : list shape;
}.

(** The absolute-RSS guard. *)
Definition rss_limit (cgroup_limit_bytes : Z) : Z := sat_sub cgroup_limit_bytes (cgroup_limit_bytes / 8).
Definition projected (cm : CostModel) (current_rss : Z) (s : shape) : Z :=
  sat_add64 current_rss (sat_mul64 (wrap64 (chunk_cost cm s.1 s.2)) 4).

Section sweep.
Variable corpus : list string.
Variables (conservative' : CostModel) (cgroup_limit_bytes : Z) (w : ProbeWorld).

Definition breaches (current_rss : Z) (s : shape) : bool :=
  (0 <? cgroup_limit_bytes) && (rss_limit cgroup_limit_bytes <? projected conservative' current_rss s).

Definition skip (st : ProbeSweep) : ProbeSweep :=
  {| ps_data := ps_data st; ps_skipped := ps_skipped st + 1; ps_errored := ps_errored st;
     ps_probed := ps_probed st; ps_runs := ps_runs st |}.

(** One iteration of the loop over the shapes. *)
Definition probe_step (st : ProbeSweep) (x : nat * shape) : M ProbeSweep :=
  let (i, s) := x in
  if negb (fits conservative' s.1 s.2) then Ok (skip st)
  else
    let current_rss := unwrap_or (pw_rss w i) 0 in
    if breaches current_rss s then Ok (skip st)
    else
      _ ← synthesize_texts corpus s.1 s.2;
      let probed := ps_probed st ++ [(s, current_rss)] in
      let runs := ps_runs st ++ [s] in
      match pw_answer w i with
      | Ok r =>
          Ok {| ps_data := ps_data st ++ [{| dp_batch := s.1; dp_seq := s.2;
                                             rss_delta := sat_sub (rss_after r) (rss_before r) |}];
                ps_skipped := ps_skipped st; ps_errored := ps_errored st; ps_probed := probed;
                ps_runs := runs |}
      | Err _ =>
          Ok {| ps_data := ps_data st; ps_skipped := ps_skipped st;
                ps_errored := ps_errored st + 1; ps_probed := probed; ps_runs := runs |}
      end.

Definition probe_sweep (st : ProbeSweep) (shapes : list shape) : M ProbeSweep :=
  result_foldM probe_step st (imap pair shapes).

(** The arena warm-up: its run is behind neither guard, and its result is discarded. *)
Definition WARMUP_SHAPE : shape := (1, 64).
Definition arena_warm_up : M ProbeSweep :=
  _ ← synthesize_texts corpus WARMUP_SHAPE.1 WARMUP_SHAPE.2;
  Ok {| ps_data := []; ps_skipped := 0; ps_errored := 0; ps_probed := []; ps_runs := [WARMUP_SHAPE] |}.
End sweep.

(** Why a sweep gave no data. *)
Inductive NoData := AllSkipped | AllErrored | Mixed.
Definition diagnose (st : ProbeSweep) (total : Z) : NoData :=
  if ps_skipped st =? total then AllSkipped else if ps_errored st =? total then AllErrored else Mixed.

(** The coefficients of a sweep: the defaults without data, with zero deltas only
    (no RSS measurement on the platform), or when the fit refuses. *)
Definition probe_coefficients (powi2 : f64 -> f64) (data : list DataPoint) : f64 * f64 :=
  let defaults := (CONSERVATIVE_A, CONSERVATIVE_B) in
  if bool_decide (data = []) then defaults
  else if forallb (fun dp => rss_delta dp =? 0) data then defaults
  else match fit_f64 powi2 data with Some ab => ab | None => defaults end.

(** [run_probe] *)
Definition run_probe (powi2 : f64 -> f64) (corpus : list string)
    (max_seq rss_ceiling cgroup_limit_bytes : Z) (w : ProbeWorld) : M (f64 * f64 * ProbeSweep) :=
  st ← arena_warm_up corpus;
  st ← probe_sweep corpus (conservative rss_ceiling) cgroup_limit_bytes w st (probe_shapes max_seq);
  Ok (probe_coefficients powi2 (ps_data st), st).

(** ** Lemmas: texts *)

#[local] Arguments String.append !_ _ / : simpl nomatch.

Definition is_ascii (s : string) : Prop := str_forall (fun c => byte_of c <? 128) s = true.

Lemma length_append (a b : string) : String.length (a +:+ b) = (String.length a + String.length b)%nat.
Proof. induction a as [|c a IH]; simpl; [done|]. by rewrite IH. Qed.

Lemma repeat_length n s : String.length (str_repeat n s) = (n * String.length s)%nat.
Proof. induction n as [|n IH]; simpl; [done|]. rewrite length_append, IH. done. Qed.

Lemma repeat_ascii n s : is_ascii s -> is_ascii (str_repeat n s).
Proof.
  unfold is_ascii. intros Hs. induction n as [|n IH]; simpl; [done|].
  by rewrite str_forall_app, Hs, IH.
Qed.

Lemma ascii_boundary s i : is_ascii s -> (i <= String.length s)%nat -> is_char_boundary i s = true.
Proof.
  intros Hs Hi. destruct i as [|i]; [done|]. unfold is_char_boundary.
  revert i Hi. unfold is_ascii in Hs.
  assert (Hget : forall s i, str_forall (fun c => byte_of c <? 128) s = true -> (i <= String.length s)%nat ->
    match String.get i s with Some c => is_char_start c | None => Nat.eqb i (String.length s) end = true).
  { clear. induction s as [|c s IH]; intros i Hs Hi; simpl in *; [by replace i with 0%nat by lia|].
    bool_to_prop. destruct i as [|i]; [|apply IH; [done|lia]]. unfold is_char_start.
    apply negb_true_iff, andb_false_iff. left. apply Z.leb_gt. lia. }
  intros i. by apply Hget.
Qed.

Lemma take_length i s : (i <= String.length s)%nat -> String.length (str_take i s) = i.
Proof.
  revert i. induction s as [|c s IH]; intros [|i] Hi; simpl in *; try lia. by rewrite IH by lia.
Qed.

(** A base the probe can cut anywhere. *)
Definition good_base (s : string) : Prop := is_ascii s /\ s <> "" /\ str_len s <= 2 ^ 32.

(** Whatever the corpus file holds, the probe has a text to start from, and its own
    text is one it can cut. *)
Lemma load_probe_texts_nonempty `{JsonView V} (from_str : string -> option V) file :
  load_probe_texts from_str file <> [] /\ good_base FALLBACK_TEXT.
Proof.
  split; [|split_and!; [by vm_compute|done|by vm_compute]].
  unfold load_probe_texts. destruct file as [raw|]; [|done]. simpl.
  destruct (from_str raw) as [json|]; [|done]. simpl.
  destruct (as_object_values _) as [l|]; [|done]. simpl. by case_bool_decide.
Qed.

Lemma synthesize_text_exact t base :
  good_base base -> 16 <= t <= 2 ^ 40 ->
  exists s, synthesize_text t base = Ok s /\ str_len s = t.
Proof.
  intros (Ha & Hne & Hl) Ht. unfold synthesize_text.
  assert (H1 : 1 <= str_len base) by (destruct base; [done|]; unfold str_len; simpl; lia).
  rewrite (Z.max_l (str_len base) 1) by lia.
  set (q := t / str_len base). set (count := Z.max q 2 + 1).
  assert (Hq0 : 0 <= q) by (apply Z.div_pos; lia).
  assert (Hq : str_len base * q <= t < str_len base * (q + 1)).
  { pose proof (Z.mul_div_le t (str_len base) ltac:(lia)). pose proof (Z.mul_succ_div_gt t (str_len base) ltac:(lia)).
    unfold q. lia. }
  assert (Hc : t < str_len base * count) by nia.
  assert (Hu : str_len base * count <= I64_MAX).
  { assert (0 <= q) by (apply Z.div_pos; lia). assert (q <= t) by nia. assert (count <= 2 ^ 40 + 3) by lia. unfold I64_MAX.
    assert (str_len base * count <= t + 3 * str_len base) by nia. lia. }
  destruct (I64_MAX <? str_len base * count) eqn:E; bool_to_prop; [lia|].
  set (rep := str_repeat (Z.to_nat count) base).
  assert (Hrep : str_len rep = str_len base * count).
  { unfold str_len, rep. rewrite repeat_length, Nat2Z.inj_mul, Z2Nat.id by lia. unfold str_len. lia. }
  assert (Hlen : (Z.to_nat t <= String.length rep)%nat) by (assert (Hlt : t < str_len rep) by lia; unfold str_len in Hlt; lia).
  destruct (t <? str_len rep) eqn:E2; bool_to_prop; [|lia].
  rewrite ascii_boundary by (done || by apply repeat_ascii). eexists. split; [done|].
  unfold str_len. rewrite take_length by done. lia.
Qed.

Lemma synthesize_texts_good corpus batch t :
  corpus <> [] -> Forall good_base (take (Z.to_nat batch) corpus) -> 0 <= t <= 2 ^ 32 ->
  exists texts, synthesize_texts corpus batch t = Ok texts
    /\ Z.of_nat (length texts) = Z.max 0 batch /\ Forall (fun s => str_len s = Z.max (4 * t) 16) texts.
Proof.
  intros Hne Hg Ht. unfold synthesize_texts.
  assert (Htc : target_chars t = Z.max (4 * t) 16) by (unfold target_chars, sat_mul64, U64_MAX; lia).
  set (f := fun i : nat => _).
  assert (Hf : forall i, (i < Z.to_nat batch)%nat -> exists s, f i = Ok s /\ str_len s = target_chars t).
  { intros i Hi. unfold f. assert (Hl : (i mod length corpus < length corpus)%nat)
      by (apply Nat.mod_upper_bound; destruct corpus; simpl; [done|lia]).
    assert (Hmod : (i mod length corpus <= i)%nat) by apply Nat.Div0.mod_le.
    apply lookup_lt_is_Some_2 in Hl as [b Hb]. rewrite Hb. simpl.
    apply synthesize_text_exact; [|unfold target_chars, sat_mul64, U64_MAX; lia].
    rewrite Forall_forall in Hg. apply Hg. apply (list_elem_of_lookup_2 _ (i mod length corpus)).
    by rewrite lookup_take_lt by lia. }
  destruct (result_mapM_ok f (seq 0 (Z.to_nat batch))) as [r Hr].
  { intros i Hi%elem_of_seq. by destruct (Hf i) as (s & -> & _); [lia|]. }
  exists r. split; [done|]. rewrite (result_mapM_length _ _ _ Hr), length_seq. split; [lia|].
  apply Forall_lookup. intros i s Hi.
  assert (Hl : (i < Z.to_nat batch)%nat).
  { apply lookup_lt_Some in Hi. rewrite (result_mapM_length _ _ _ Hr), length_seq in Hi. done. }
  destruct (result_mapM_lookup f _ r i i Hr) as (s' & Hs' & Hfs); [by rewrite lookup_seq_lt|].
  simplify_eq. destruct (Hf i Hl) as (s'' & Hs'' & Hlen). rewrite Hfs in Hs''. simplify_eq. by rewrite Hlen.
Qed.

(** Whatever the corpus, the synthesis only fails by a panic. *)
Lemma synthesize_texts_panic corpus batch t f : synthesize_texts corpus batch t = Err f -> f = Panic.
Proof.
  unfold synthesize_texts. generalize (seq 0 (Z.to_nat batch)). intros l.
  induction l as [|i l IH]; cbn [result_mapM]; [done|].
  destruct (corpus !! (i mod length corpus)%nat) as [b|]; simpl; [|by intros [= <-]].
  unfold synthesize_text at 1. case_if; [by intros [= <-]|].
  case_if; [case_if|]; simpl; [|by intros [= <-]|]; intros He;
    (destruct (result_mapM _ l); [done|]; apply IH; exact He).
Qed.

(** ** Lemmas: shapes *)

Lemma stable_insert_perm {A} (key : A -> Z) x l : stable_insert key x l ≡ₚ x :: l.
Proof. induction l as [|y l IH]; simpl; [done|]. case_if; [done|]. rewrite IH. constructor. Qed.

Lemma stable_sort_perm {A} (key : A -> Z) l : stable_sort_by_key key l ≡ₚ l.
Proof. induction l as [|x l IH]; simpl; [done|]. by rewrite stable_insert_perm, IH. Qed.

Lemma stable_insert_sorted {A} (key : A -> Z) x l :
  StronglySorted (fun a b => key a <= key b) l ->
  StronglySorted (fun a b => key a <= key b) (stable_insert key x l).
Proof.
  induction 1 as [|y l Hl IH Hy]; simpl; [by repeat constructor|].
  destruct (key x <=? key y) eqn:E; bool_to_prop.
  - constructor; [by constructor|]. constructor; [done|].
    eapply Forall_impl; [exact Hy|]. simpl. lia.
  - constructor; [done|]. rewrite stable_insert_perm. constructor; [lia|done].
Qed.

Lemma stable_sort_sorted {A} (key : A -> Z) l :
  StronglySorted (fun a b => key a <= key b) (stable_sort_by_key key l).
Proof. induction l as [|x l IH]; simpl; [constructor|]. by apply stable_insert_sorted. Qed.

Lemma StronglySorted_sublist {A} (R : relation A) (l1 l2 : list A) :
  StronglySorted R l2 -> l1 `sublist_of` l2 -> StronglySorted R l1.
Proof.
  intros Hl Hs. revert Hl. induction Hs as [|x l1 l2 Hs IH|x l1 l2 Hs IH]; intros Hl; [constructor| |].
  - inversion Hl as [|? ? Hl2 Hx]; subst. constructor; [auto|]. rewrite Forall_forall in *.
    intros y Hy. apply Hx. by eapply elem_of_sublist.
  - inversion Hl; subst. auto.
Qed.

(** The shapes of a sweep: the configured length is one of them, none exceeds it. *)
Lemma probe_shapes_spec max_seq :
  1 <= max_seq ->
  (exists b, (b, max_seq) ∈ probe_shapes max_seq)
  /\ Forall (fun s => 1 <= s.1 <= 4 /\ 1 <= s.2 <= max_seq) (probe_shapes max_seq)
  /\ StronglySorted (fun a b => positions a <= positions b) (probe_shapes max_seq).
Proof.
  intros Hm. unfold probe_shapes. set (l := if existsb _ _ then _ else _).
  assert (Hl : Forall (fun s => 1 <= s.1 <= 4 /\ 1 <= s.2) l).
  { unfold l. destruct (existsb _ _); [|apply Forall_app; split]; repeat constructor; simpl; lia. }
  split_and!.
  - assert (exists b, (b, max_seq) ∈ l) as [b Hb].
    { unfold l. destruct (existsb _ _) eqn:E.
      - apply existsb_exists in E as ([b s] & Hin & Hs). simpl in Hs. bool_to_prop. subst s.
        exists b. by apply list_elem_of_In.
      - exists 1. apply elem_of_app. right. by left. }
    exists b. rewrite stable_sort_perm. apply list_elem_of_filter. simpl. split; [lia|done].
  - rewrite stable_sort_perm. rewrite Forall_forall in *. intros s [Hs Hin]%list_elem_of_filter.
    apply Hl in Hin. simpl in Hs. lia.
  - apply stable_sort_sorted.
Qed.

(** ** Lemmas: the sweep *)

(** The answers of the worker are machine integers. *)
Definition probe_world_ok (w : ProbeWorld) : Prop :=
  forall i r, pw_answer w i = Ok r -> usize (rss_before r) /\ usize (rss_after r).

Section sweep_spec.
Variable corpus : list string.
Variables (cm : CostModel) (cgroup : Z) (w : ProbeWorld).
Hypothesis world_ok : probe_world_ok w.

(** A shape given to the worker passed both guards. *)
Definition admitted (p : shape * Z) : Prop :=
  fits cm p.1.1 p.1.2 = true /\ (0 < cgroup -> projected cm p.2 p.1 <= rss_limit cgroup).

(** The state of a sweep after the shapes [done_]. *)
Record SweepSpec (done_ : list shape) (st : ProbeSweep) : Prop := {
  sp_admitted : Forall admitted (ps_probed st);
  sp_sublist : (fst <$> ps_probed st) `sublist_of` done_;
  sp_count : ps_skipped st + Z.of_nat (length (ps_probed st)) = Z.of_nat (length done_);
  sp_data : Z.of_nat (length (ps_data st)) + ps_errored st = Z.of_nat (length (ps_probed st));
  sp_errored : 0 <= ps_errored st;
  sp_deltas : Forall (fun dp => 0 <= rss_delta dp <= U64_MAX) (ps_data st);
  sp_runs : ps_runs st = WARMUP_SHAPE :: (fst <$> ps_probed st);
}.

(** The texts of a shape cannot be cut. *)
Definition uncut (s : shape) : Prop := is_err (synthesize_texts corpus s.1 s.2) = true.

Lemma probe_step_spec done_ st i s :
  SweepSpec done_ st ->
  match probe_step corpus cm cgroup w st (i, s) with
  | Ok st' => SweepSpec (done_ ++ [s]) st'
  | Err f => f = Panic /\ uncut s
  end.
Proof.
  intros [Ha Hs Hc Hd He Hr Hruns]. unfold probe_step.
  assert (Hskip : SweepSpec (done_ ++ [s]) (skip st)).
  { split; cbn [skip ps_probed ps_skipped ps_data ps_errored ps_runs]; try done; [by apply sublist_inserts_r|].
    rewrite length_app. simpl. lia. }
  destruct (fits cm s.1 s.2) eqn:Ef; cbn [negb]; [|done].
  set (rss := unwrap_or (pw_rss w i) 0).
  destruct (breaches cm cgroup rss s) eqn:Eb; [done|].
  destruct (synthesize_texts corpus s.1 s.2) as [texts|f] eqn:Et; cbn [mbind result_bind].
  2: { apply synthesize_texts_panic in Et as Hf. split; [done|]. unfold uncut. by rewrite Et. }
  assert (Hprobed : forall st', ps_probed st' = ps_probed st ++ [(s, rss)] -> ps_skipped st' = ps_skipped st ->
    Z.of_nat (length (ps_data st')) + ps_errored st' = Z.of_nat (length (ps_data st)) + ps_errored st + 1 ->
    0 <= ps_errored st' -> Forall (fun dp => 0 <= rss_delta dp <= U64_MAX) (ps_data st') ->
    ps_runs st' = ps_runs st ++ [s] -> SweepSpec (done_ ++ [s]) st').
  { intros st' Hp Hsk Hda He' Hr' Hruns'. split; rewrite ?Hp, ?Hsk, ?Hda, ?Hruns', ?length_app; simpl; try done.
    - apply Forall_app. split; [done|]. constructor; [|done]. split; [done|]. simpl. intros Hcg.
      unfold breaches in Eb. apply andb_false_iff in Eb as [Eb|Eb]; bool_to_prop; lia.
    - rewrite fmap_app. apply sublist_app; [done|]. simpl. by apply sublist_skip.
    - lia.
    - lia.
    - by rewrite Hruns, fmap_app. }
  destruct (pw_answer w i) as [r|e] eqn:Ew; apply Hprobed; try done; simpl.
  - rewrite length_app. simpl. lia.
  - apply Forall_app. split; [done|]. constructor; [|done]. simpl.
    destruct (world_ok i r Ew) as [Hb Hf]. unfold usize, sat_sub in *. lia.
  - lia.
  - lia.
Qed.

Lemma probe_sweep_spec shapes st0 :
  SweepSpec [] st0 ->
  match probe_sweep corpus cm cgroup w st0 shapes with
  | Ok st => SweepSpec shapes st
  | Err f => f = Panic /\ Exists uncut shapes
  end.
Proof.
  intros H0. unfold probe_sweep.
  assert (Hg : forall l done_ st (f : nat -> nat), SweepSpec done_ st ->
    match result_foldM (probe_step corpus cm cgroup w) st (imap (fun i s => (f i, s)) l) with
    | Ok st' => SweepSpec (done_ ++ l) st'
    | Err f => f = Panic /\ Exists uncut l
    end).
  { induction l as [|s l IH]; intros done_ st f Hst; cbn [imap result_foldM].
    - by rewrite app_nil_r.
    - pose proof (probe_step_spec done_ st (f 0%nat) s Hst) as Hs.
      destruct (probe_step _ _ _ _ _ _) as [st1|e]; [|destruct Hs; split; [done|by left]].
      specialize (IH (done_ ++ [s]) st1 (f ∘ S) Hs). rewrite <- app_assoc in IH.
      destruct (result_foldM _ _ _); [exact IH|]. destruct IH. split; [done|by right]. }
  exact (Hg shapes [] st0 (fun i => i) H0).
Qed.

(** Texts that can be cut anywhere give every shape of at most four texts. *)
Lemma good_corpus_cut s :
  corpus <> [] -> Forall good_base (take 4 corpus) -> s.1 <= 4 -> 0 <= s.2 <= 2 ^ 32 -> ~ uncut s.
Proof.
  intros Hne Hg H1 H2 Hu. unfold uncut in Hu.
  destruct (synthesize_texts_good corpus s.1 s.2 Hne) as (texts & Ht & _); [|done|by rewrite Ht in Hu].
  replace (take (Z.to_nat s.1) corpus) with (take (Z.to_nat s.1) (take 4 corpus)); [by apply Forall_take|].
  rewrite take_take. f_equal. lia.
Qed.
End sweep_spec.

Lemma probe_coefficients_range powi2 data :
  powi2_law powi2 -> measurable data ->
  let '(a, b) := probe_coefficients powi2 data in
  f_le (f64_of_Z 4096) a = true /\ f_le a (f64_of_Z 262144) = true
  /\ f_le (f64_lit 1 100) b = true /\ f_le b (f64_of_Z 50000) = true.
Proof.
  intros Hp Hm. unfold probe_coefficients. destruct (fit_f64 powi2 data) as [[a b]|] eqn:E.
  - repeat case_if; try (by apply (fit_f64_finite powi2 Hp data)); split_and!; reflexivity.
  - repeat case_if; split_and!; reflexivity.
Qed.

(** ** Properties *)

(** Probe texts: over a corpus whose first texts, as many as are asked for, are non-empty ASCII (and not above 4 GiB)
    the synthesis never panics and yields exactly the requested number of texts,
    each of exactly [max(4 * seq, 16)] bytes. *)
Theorem synthesize_texts_exact (corpus : list string) (batch t : Z)
    (Hne : corpus <> []) (Hgood : Forall good_base (take (Z.to_nat batch) corpus)) (Ht : 0 <= t <= 2 ^ 32) :
  exists texts, synthesize_texts corpus batch t = Ok texts
    /\ Z.of_nat (length texts) = Z.max 0 batch /\ Forall (fun s => str_len s = Z.max (4 * t) 16) texts.
Proof. by apply synthesize_texts_good. Qed.

Lemma synthesize_texts_exact_witness :
  synthesize_texts ["ab"; "c d"] 3 6 = Ok ["abababababababababababab"; "c dc dc dc dc dc dc dc d"; "abababababababababababab"]
  /\ exists texts, synthesize_texts ["ab"; "c d"] 3 6 = Ok texts /\ Forall (fun s => str_len s = 24) texts.
Proof.
  split; [vm_compute; reflexivity|].
  destruct (synthesize_texts_exact ["ab"; "c d"] 3 6) as (texts & Ht & _ & Hl); [discriminate| |lia|].
  - repeat constructor; try discriminate; vm_compute; discriminate.
  - exists texts. split; [exact Ht|]. exact Hl.
Defined.

(** The slice of the repeated text may fall inside a character: a two-byte
    character first and the synthesis of a [(1, 64)] text panics. *)
Lemma synthesize_texts_can_panic :
  synthesize_texts [String (chr 195) (String (chr 169) "a")] 1 64 = Err Panic.
Proof. vm_compute. reflexivity. Qed.

(** C30: A probe over any non-empty corpus either panics, and then only because one of
    the first four texts, the only ones it uses, is not ASCII, empty or above 4 GiB, or it returns,
    whatever the worker and the host answer,
    with two numbers in the operating ranges (the conservative defaults or the
    fit of the measurements, which is never NaN).  Every shape its sweep runs on the
    worker is within the
    configured length, fits the workspace ceiling under the conservative model,
    and, when a memory limit is known, leaves an eighth of it free after four
    times its estimated cost; the shapes run in order of growing size, and every
    shape is accounted for as run or skipped.  The one run outside the sweep is the
    warm-up at [(1, 64)], which comes first and which neither guard checks. *)
Theorem run_probe_safe (powi2 : f64 -> f64) (corpus : list string) (max_seq ceiling cgroup : Z) (w : ProbeWorld)
    (Hne : corpus <> []) (Hseq : 1 <= max_seq <= MODEL_MAX_SEQ)
    (Hw : probe_world_ok w) (Hpow : powi2_law powi2) :
  match run_probe powi2 corpus max_seq ceiling cgroup w with
  | Err f => f = Panic /\ ~ Forall good_base (take 4 corpus)
  | Ok (a, b, st) =>
      f_le (f64_of_Z 4096) a = true /\ f_le a (f64_of_Z 262144) = true
      /\ f_le (f64_lit 1 100) b = true /\ f_le b (f64_of_Z 50000) = true
      /\ Forall (fun p => 1 <= p.1.2 <= max_seq /\ fits (conservative ceiling) p.1.1 p.1.2 = true
           /\ (0 < cgroup -> projected (conservative ceiling) p.2 p.1 <= rss_limit cgroup)) (ps_probed st)
      /\ (fst <$> ps_probed st) `sublist_of` probe_shapes max_seq
      /\ StronglySorted (fun s s' => positions s <= positions s') (fst <$> ps_probed st)
      /\ ps_skipped st + Z.of_nat (length (ps_probed st)) = Z.of_nat (length (probe_shapes max_seq))
      /\ ps_runs st = (1, 64) :: (fst <$> ps_probed st)
  end.
Proof.
  destruct (probe_shapes_spec max_seq ltac:(lia)) as (_ & Hsh & Hsorted). unfold MODEL_MAX_SEQ in Hseq.
  unfold run_probe, arena_warm_up.
  destruct (synthesize_texts corpus WARMUP_SHAPE.1 WARMUP_SHAPE.2) as [wt|f] eqn:Ewt; cbn [mbind result_bind].
  2: { split; [by eapply synthesize_texts_panic|]. intros Hg.
       apply (good_corpus_cut corpus WARMUP_SHAPE Hne Hg); [done|done|]. unfold uncut. by rewrite Ewt. }
  set (st0 := {| ps_data := _ |}).
  assert (H0 : SweepSpec (conservative ceiling) cgroup [] st0) by (split; simpl; try done; constructor).
  pose proof (probe_sweep_spec corpus (conservative ceiling) cgroup w Hw (probe_shapes max_seq) st0 H0) as Hst.
  destruct (probe_sweep _ _ _ _ _ _) as [st|f]; cbn [mbind result_bind].
  2: { destruct Hst as [-> Hu]. split; [done|]. intros Hg. apply Exists_exists in Hu as (s & Hin & Hu).
       rewrite Forall_forall in Hsh. specialize (Hsh s Hin).
       apply (good_corpus_cut corpus s Hne Hg); [lia|lia|done]. }
  destruct Hst as [Ha Hs Hc Hd He Hr Hruns].
  assert (Hlen : (length (probe_shapes max_seq) <= 7)%nat).
  { unfold probe_shapes. rewrite (Permutation_length (stable_sort_perm _ _)).
    etrans; [apply length_filter_le|]. destruct (existsb _ _); [|rewrite length_app]; simpl; lia. }
  pose proof (sublist_length _ _ Hs) as Hsub. rewrite length_fmap in Hsub.
  assert (Hm : measurable (ps_data st)) by (split; [lia|done]).
  pose proof (probe_coefficients_range powi2 (ps_data st) Hpow Hm) as Hcoef.
  destruct (probe_coefficients powi2 (ps_data st)) as [a b]. destruct Hcoef as (? & ? & ? & ?).
  split_and!; try done; [|by eapply StronglySorted_sublist].
  rewrite Forall_forall in *. intros p Hp. destruct (Ha p Hp) as [Hf Hl]. split; [|done].
  rewrite Forall_forall in Hsh. apply (Hsh p.1). eapply elem_of_sublist; [|exact Hs]. by apply list_elem_of_fmap_2.
Qed.

(** A ceiling of 8 MiB: the longest shape is skipped
    by it. *)
Definition example_world : ProbeWorld :=
  {| pw_rss := fun i => Some (1000000000 + 1000000 * Z.of_nat i);
     pw_answer := fun i => Ok {| rss_before := 1000; rss_after := 1000 + 3000000 * (Z.of_nat i mod 8) |} |}.

(** The first texts of the shipped corpus, and one the probe could not cut, which it
    does not reach. *)
Definition example_corpus : list string :=
  ["hello"; "AI"; "the"; "machine learning"; String (chr 195) (String (chr 169) "a")].

Lemma run_probe_safe_witness : exists a b st,
  run_probe (fun x => f64_mul x x) example_corpus 512 (8 * 1024 * 1024) 1200000000 example_world = Ok (a, b, st)
  /\ ps_runs st = [(1, 64); (1, 64); (4, 64); (1, 256)] /\ f_le (f64_lit 1 100) b = true.
Proof.
  assert (Hw : probe_world_ok example_world).
  { intros i r [= <-]. pose proof (Z.mod_pos_bound (Z.of_nat i) 8). unfold usize, U64_MAX. simpl. lia. }
  pose proof (run_probe_safe (fun x => f64_mul x x) example_corpus 512 (8 * 1024 * 1024) 1200000000 example_world
    ltac:(discriminate) ltac:(unfold MODEL_MAX_SEQ; lia) Hw powi2_mul) as H.
  destruct (run_probe _ _ _ _ _ _) as [[[a b] st]|f] eqn:E; [|vm_compute in E; discriminate].
  destruct H as (_ & _ & Hb & _). exists a, b, st. split; [reflexivity|]. split; [|exact Hb].
  vm_compute in E. injection E as _ _ <-. reflexivity.
Defined.

(** A memory limit too small for any shape stops every shape of the sweep, and not the
    warm-up. *)
Lemma warm_up_is_unguarded : exists a b st,
  run_probe (fun x => f64_mul x x) example_corpus 512 (8 * 1024 * 1024) 1000000 example_world = Ok (a, b, st)
  /\ breaches (conservative (8 * 1024 * 1024)) 1000000 1000000000 WARMUP_SHAPE = true
  /\ ps_probed st = [] /\ ps_runs st = [WARMUP_SHAPE].
Proof. eexists _, _, _. split; [vm_compute; reflexivity|]. by vm_compute. Qed.
