(* ===== verification/Bootstrap.v ===== *)
(** * Start-up: budget, probe task and readiness ([src/bootstrap/], [src/state.rs])

    The workspace budget, the shared application state, and the readiness
    sequence with the background probe task it may spawn.  The sequence is the
    list of updates it makes on the state, in program order, so that a property
    can speak of every intermediate state. *)

From Stdlib Require Import SpecFloat QArith Lqa Lia.
From S2P Require Import Prelude RustStr Float FloatErr BinPack JitGuard Types SysInfo Fit ProbeCache TrtWarmup Config Probe.

#[local] Open Scope Z_scope.

(** ** Workspace budget *)

Definition total_workspace (available n rss : Z) : Z :=
  sat_sub (sat_sub available (sat_mul64 n rss)) OS_HEADROOM_BYTES.

(** [(per_worker_workspace, worst_case_peak, utilization_pct)] *)
Definition compute_workspace_budget (available n rss : Z) (safety : f64) : Z * Z * f64 :=
  let per_worker :=
    f64_to_usize (f64_div (f64_mul (f64_of_Z (total_workspace available n rss)) safety) (f64_of_Z n)) in
  let peak := sat_add64 (sat_add64 (sat_mul64 n per_worker) (sat_mul64 n rss)) OS_HEADROOM_BYTES in
  let pct :=
    if 0 <? available
    then f64_mul (f64_div (f64_of_Z peak) (f64_of_Z available)) (f64_lit 100 1) else f_zero in
  (per_worker, peak, pct).

(** ** Application state *)

Inductive ProbeStatus := Disabled | Running | Complete | Failed | CacheHit.
#[export] Instance ProbeStatus_eq_dec : EqDecision ProbeStatus.
Proof. solve_decision. Defined.

Definition status_str (s : ProbeStatus) : string :=
  match s with
  | Disabled => "disabled" | Running => "running" | Complete => "complete"
  | Failed => "failed" | CacheHit => "cache_hit"
  end.

(** [as u8] and [from_u8] *)
Definition status_u8 (s : ProbeStatus) : Z :=
  match s with Disabled => 0 | Running => 1 | Complete => 2 | Failed => 3 | CacheHit => 4 end.
Definition status_from_u8 (v : Z) : ProbeStatus :=
  if v =? 0 then Disabled else if v =? 1 then Running else if v =? 2 then Complete
  else if v =? 4 then CacheHit else Failed.

Record TuningInfo := {
  memory_source : string;
  ti_available_bytes : Z;
  model_rss_bytes_per_worker : Z;
  worst_case_peak_bytes : Z;
  utilization_pct : f64;
}.

Definition tuning_new (mem : MemoryReading) (rss peak : Z) (pct : f64) : TuningInfo :=
  {| memory_source := fmt_source (source mem); ti_available_bytes := available_bytes mem;
     model_rss_bytes_per_worker := rss; worst_case_peak_bytes := peak; utilization_pct := pct |}.

(** The fields start-up writes; [as_permits] is the number of permits of the
    semaphore, held or not. *)
Record AppState := {
  as_ready : bool;
  as_tuning : option TuningInfo;
  as_cost_model : CostModel;
  as_status : ProbeStatus;
  as_permits : Z;
}.

(** One update.  [OnceLock::set] keeps the first value; [SaveCache] does not touch
    the state. *)
Inductive Update :=
| SetTuning (t : TuningInfo)
| StoreCostModel (cm : CostModel)
| StoreStatus (s : ProbeStatus)
| SetReady
| ForgetPermits (k : Z)
| AddPermits (k : Z)
| SaveCache (a b : f64).

Definition apply (u : Update) (st : AppState) : AppState :=
  {| as_ready := (match u with SetReady => true | _ => as_ready st end);
     as_tuning := (match u, as_tuning st with SetTuning t, None => Some t | _, o => o end);
     as_cost_model := (match u with StoreCostModel cm => cm | _ => as_cost_model st end);
     as_status := (match u with StoreStatus s => s | _ => as_status st end);
     as_permits := (match u with
                    | ForgetPermits k => as_permits st - k
                    | AddPermits k => as_permits st + k
                    | _ => as_permits st end) |}.

Definition apply_all (us : list Update) (st : AppState) : AppState := foldl (fun st u => apply u st) st us.

(** ** Readiness *)

(** The answers of the pool to the two readiness calls. *)
Record Checks := { ck_dense : result anyhow (); ck_sparse : result anyhow () }.

(** [run_readiness_checks_and_open] *)
Definition run_readiness_checks_and_open (ck : Checks) : result anyhow (list Update) :=
  match ck_dense ck with
  | Err e => Err (anyhow_msg ("Dense readiness probe failed: " +:+ display e))
  | Ok _ =>
      match ck_sparse ck with
      | Err e => Err (anyhow_msg ("Sparse readiness probe failed: " +:+ display e))
      | Ok _ => Ok [SetReady]
      end
  end.

(** What the probe task meets: the semaphore is open, and the run of the probe. *)
Record ProbeTask := {
  pt_acquired : bool;
  pt_corpus : list string;
  pt_world : ProbeWorld;
  pt_powi2 : f64 -> f64;
  pt_checks : Checks;
}.

(** The fitted coefficients equal the conservative ones up to [f64::EPSILON]. *)
Definition F64_EPSILON : f64 := f64_lit 1 (2 ^ 52).
Definition is_conservative_fit (a b : f64) : bool :=
  f_lt (f_abs (f64_sub a CONSERVATIVE_A)) F64_EPSILON && f_lt (f_abs (f64_sub b CONSERVATIVE_B)) F64_EPSILON.

(** [spawn_probe_task] and the task it spawns. *)
Definition spawn_probe_task (t : ProbeTask) (cfg_workers cfg_max_seq per_worker_workspace cgroup_limit : Z)
    (save_cache : bool) : M (list Update) :=
  let drained := u32_try_from_or (sat_sub cfg_workers 1) U32_MAX in
  '(a, b, _) ← run_probe (pt_powi2 t) (pt_corpus t) cfg_max_seq per_worker_workspace cgroup_limit (pt_world t);
  let failed := is_conservative_fit a b in
  Ok ([StoreStatus Running]
      ++ (if pt_acquired t then [ForgetPermits drained] else [])
      ++ [StoreCostModel {| cm_a := a; cm_b := b; max_workspace_bytes := per_worker_workspace |}]
      ++ (if negb failed && save_cache then [SaveCache a b] else [])
      ++ [StoreStatus (if failed then Failed else Complete)]
      ++ (match run_readiness_checks_and_open (pt_checks t) with Ok us => us | Err _ => [] end)
      ++ [AddPermits cfg_workers]).

(** How the init handle of the pool resolves. *)
Inductive InitResult := InitPanicked (msg : string) | InitDone (r : result anyhow ()).

Section readiness.
(** [{}] of an [f64] *)
Variable fmt_f64 : f64 -> string.

Definition mib (x : Z) : string := show (x / (1024 * 1024)).

Definition budget_error (per_worker floor max_seq rss n available : Z) (safety : f64) : anyhow :=
  anyhow_msg ("Computed per_worker_workspace (" +:+ show per_worker +:+ " B = " +:+ mib per_worker
    +:+ " MiB) is below the physics-based minimum (" +:+ show floor +:+ " B = " +:+ mib floor
    +:+ " MiB) needed to run one text at max_seq_length=" +:+ show max_seq
    +:+ ". Likely causes: model_rss_per_worker (" +:+ mib rss
    +:+ " MiB) is over-estimated (parallel-load contamination), BGE_M3_MEMORY_SAFETY_FACTOR too low ("
    +:+ fmt_f64 safety +:+ "), BGE_M3_WORKERS too high (" +:+ show n
    +:+ ") for available memory (" +:+ mib available
    +:+ " MiB), or BGE_M3_AVAILABLE_MEMORY_BYTES override too small.").

(** The memory needed for one text of the configured length. *)
Definition physics_floor (max_seq : Z) : Z := wrap64 (chunk_cost (conservative 0) 1 max_seq).

(** The override and cache-hit paths: the updates [us], then the checks inline. *)
Definition run_inline (us : list Update) (checks : Checks) : M (result anyhow () * list Update) :=
  match run_readiness_checks_and_open checks with
  | Ok us' => Ok (Ok (), us ++ us')
  | Err e => Ok (Err e, us)
  end.

(** [run_readiness_probe]: the result of the call and the updates made by it and
    by the task it spawned.  [cached] is what [try_load_probe_cache] finds. *)
Definition run_readiness_probe (init : InitResult) (mem : MemoryReading) (rss n max_seq : Z) (safety : f64)
    (cost_model_override : option CostModel) (cached : option (f64 * f64)) (disable_probe_cache : bool)
    (checks : Checks) (task : ProbeTask) : M (result anyhow () * list Update) :=
  match init with
  | InitPanicked msg => Ok (Err (anyhow_msg ("Worker pool task panicked: " +:+ msg)), [])
  | InitDone (Err e) => Ok (Err (anyhow_msg ("Worker pool initialization failed: " +:+ display e)), [])
  | InitDone (Ok _) =>
      let '(per_worker, peak, pct) := compute_workspace_budget (available_bytes mem) n rss safety in
      if per_worker <? physics_floor max_seq then
        Ok (Err (budget_error per_worker (physics_floor max_seq) max_seq rss n (available_bytes mem) safety), [])
      else
        let tuning := SetTuning (tuning_new mem rss peak pct) in
        let probe save :=
          us ← spawn_probe_task task n max_seq per_worker (available_bytes mem) save;
          Ok (Ok (), tuning :: us) in
        match cost_model_override with
        | Some cm => run_inline [tuning; StoreCostModel cm; StoreStatus Disabled] checks
        | None =>
            if negb disable_probe_cache then
              match cached with
              | Some (a, b) =>
                  run_inline [tuning;
                              StoreCostModel {| cm_a := a; cm_b := b; max_workspace_bytes := per_worker |};
                              StoreStatus CacheHit] checks
              | None => probe true
              end
            else probe false
        end
  end.
End readiness.

(** The state [run] builds before the pool is ready: one permit is reserved for
    the probe. *)
Definition initial_state (cfg_workers : Z) (cm : CostModel) : AppState :=
  {| as_ready := false; as_tuning := None; as_cost_model := cm; as_status := Running;
     as_permits := Z.max (sat_sub cfg_workers 1) 1 |}.

(** ** Lemmas: the budget *)

(** A factor in [[0, 1]]. *)
Definition valid_factor (s : f64) : Prop := f_nonneg s /\ (fval s <= 1)%Q.

Lemma rounded_bound x X (T : Q) :
  rounded_le x X -> (0 <= X)%Q -> (X <= T)%Q -> (T <= pow2 50)%Q ->
  (0 <= fval x)%Q /\ (fval x <= X + (3 # 8))%Q.
Proof.
  intros [Hn Hx] HX HT H50. split; [apply fval_nonneg|].
  assert (He : (pow2 (-1074) <= 1 # 8)%Q) by (apply (pow2_le (-1074) (-3)); lia).
  assert (Hr : (X * pow2 (-52) <= pow2 50 * pow2 (-52))%Q).
  { pose proof (pow2_pos (-52)). apply Qmult_le_compat_r; lra. }
  rewrite <- pow2_plus in Hr. change (pow2 (50 + -52)) with (1 # 4)%Q in Hr. lra.
Qed.

(** The workers' shares of the workspace do not exceed it. *)
Lemma per_worker_total total n s :
  0 <= total < 2 ^ 50 -> 1 <= n < 2 ^ 32 -> valid_factor s ->
  n * f64_to_usize (f64_div (f64_mul (f64_of_Z total) s) (f64_of_Z n)) <= total.
Proof.
  intros Ht Hn [Hs Hs1].
  destruct (fval_of_Z total ltac:(lia)) as [Htn Htv]. destruct (fval_of_Z n ltac:(lia)) as [Hnn Hnv].
  set (T := f64_of_Z total) in *. set (N := f64_of_Z n) in *.
  assert (HT0 : (0 <= inject_Z total)%Q) by (change 0%Q with (inject_Z 0); rewrite <- Zle_Qle; lia).
  assert (HT50 : (inject_Z total <= pow2 50)%Q) by (rewrite (pow2_Z 50), <- Zle_Qle by lia; lia).
  assert (HN1 : (1 <= inject_Z n)%Q) by (change 1%Q with (inject_Z 1); rewrite <- Zle_Qle; lia).
  assert (HN32 : (inject_Z n <= pow2 32)%Q) by (rewrite (pow2_Z 32), <- Zle_Qle by lia; lia).
  assert (H900 : (pow2 51 <= pow2 900)%Q) by (apply pow2_le; lia).
  assert (H51 : (pow2 51 == pow2 50 + pow2 50)%Q) by reflexivity.
  assert (H50 : (1 <= pow2 50)%Q) by (apply (pow2_le 0 50); lia).
  pose proof (fval_nonneg s) as Hs0.
  assert (HX : (fval T * fval s <= inject_Z total)%Q) by (rewrite Htv; nra).
  assert (HX0 : (0 <= fval T * fval s)%Q) by (apply Qmult_le_0_compat; [apply fval_nonneg|done]).
  assert (Hmul := f64_mul_le T s Htn Hs ltac:(lra)).
  destruct (rounded_bound _ _ _ Hmul HX0 HX HT50) as [Hv0 Hv]. destruct Hmul as [Hvn _].
  set (v := f64_mul T s) in *.
  assert (HNp : (0 < fval N)%Q) by (rewrite Hnv; lra).
  assert (Hvle : (fval v <= inject_Z total + (3 # 8))%Q) by lra.
  assert (Hquo : (fval v / fval N <= fval v)%Q) by (apply Qle_shift_div_r; [done|]; rewrite Hnv; nra).
  assert (Hdiv := f64_div_le v N Hvn Hnn HNp ltac:(lra)). destruct Hdiv as [Hdn Hd].
  set (d := f64_div v N) in *. set (p := f64_to_usize d).
  assert (Hp : (inject_Z p <= fval d)%Q) by (apply f_to_uint_le; done).
  assert (Hnp : (inject_Z n * inject_Z p <= inject_Z total + (7 # 8))%Q).
  { set (X := (fval v / fval N)%Q) in *.
    assert (HnX : (inject_Z n * X == fval v)%Q) by (unfold X; rewrite Hnv; field; lra).
    pose proof (pow2_pos (-52)) as H52. pose proof (pow2_pos (-1074)) as Hmin.
    assert (Hvs : (fval v * pow2 (-52) <= (pow2 50 + 1) * pow2 (-52))%Q) by (apply Qmult_le_compat_r; lra).
    assert (Hc : ((pow2 50 + 1) * pow2 (-52) <= 3 # 8)%Q) by (vm_compute; discriminate).
    assert (Hns : (inject_Z n * pow2 (-1074) <= pow2 32 * pow2 (-1074))%Q) by (apply Qmult_le_compat_r; lra).
    rewrite <- pow2_plus in Hns. assert (Hnm : (pow2 (32 + -1074) <= 1 # 8)%Q) by (apply (pow2_le _ (-3)); lia).
    assert (Hmul' : (inject_Z n * inject_Z p <= inject_Z n * (X + X * pow2 (-52) + pow2 (-1074)))%Q).
    { rewrite !(Qmult_comm (inject_Z n)). apply Qmult_le_compat_r; lra. }
    assert (Hexp : (inject_Z n * (X + X * pow2 (-52) + pow2 (-1074))
      == fval v + fval v * pow2 (-52) + inject_Z n * pow2 (-1074))%Q) by (rewrite <- HnX; ring).
    rewrite Hexp in Hmul'. lra. }
  rewrite <- inject_Z_mult in Hnp.
  assert (n * p < total + 1); [|lia].
  rewrite Zlt_Qlt, inject_Z_plus. change (inject_Z 1) with 1%Q. lra.
Qed.

Lemma budget_bounds available n rss s :
  0 <= available < 2 ^ 50 -> 1 <= n < 2 ^ 32 -> 0 <= rss -> valid_factor s ->
  let per_worker := (compute_workspace_budget available n rss s).1.1 in
  0 <= per_worker /\ n * per_worker <= total_workspace available n rss
  /\ 0 <= total_workspace available n rss < 2 ^ 50.
Proof.
  intros Ha Hn Hr Hs. cbn [compute_workspace_budget fst].
  assert (Ht : 0 <= total_workspace available n rss < 2 ^ 50).
  { unfold total_workspace, sat_sub, OS_HEADROOM_BYTES. assert (0 <= sat_mul64 n rss) by (unfold sat_mul64, U64_MAX; nia).
    lia. }
  split; [by apply f_to_uint_range|]. split; [|done]. by apply per_worker_total.
Qed.

(** ** Lemmas: the update sequences *)

Definition prefix_states (us : list Update) (st : AppState) : list AppState :=
  map (fun k => apply_all (take k us) st) (seq 0 (S (length us))).

(** A state that may be observed: traffic is open only after the cost model and
    the memory information are resolved. *)
Definition resolved (st : AppState) : Prop :=
  as_ready st = true -> as_status st <> Running /\ is_Some (as_tuning st).

Lemma checks_updates ck us : run_readiness_checks_and_open ck = Ok us -> us = [SetReady].
Proof. unfold run_readiness_checks_and_open. by destruct (ck_dense ck), (ck_sparse ck); intros; simplify_eq. Qed.

Lemma prefix_states_app us vs st :
  Forall resolved (prefix_states us st) -> Forall resolved (prefix_states vs (apply_all us st)) ->
  Forall resolved (prefix_states (us ++ vs) st).
Proof.
  unfold prefix_states. rewrite !Forall_forall. intros H1 H2 x Hx.
  apply list_elem_of_fmap in Hx as (k & -> & Hk). rewrite elem_of_seq, length_app in Hk.
  destruct (decide (k <= length us)%nat).
  - rewrite take_app_le by done. apply H1, list_elem_of_fmap. exists k. rewrite elem_of_seq. split; [done|lia].
  - rewrite take_app_ge by lia. unfold apply_all. rewrite foldl_app.
    apply H2, list_elem_of_fmap. exists (k - length us)%nat. rewrite elem_of_seq. split; [done|lia].
Qed.

(** Updates that do not open the traffic keep every state resolved. *)
Lemma prefix_states_closed us st :
  as_ready st = false -> SetReady ∉ us -> Forall resolved (prefix_states us st) /\ as_ready (apply_all us st) = false.
Proof.
  intros Hr Hin.
  assert (Hk : forall vs, vs `prefix_of` us -> as_ready (apply_all vs st) = false).
  { intros vs. induction vs as [|u vs IH] using rev_ind; [done|]. intros Hp.
    assert (Hu : u <> SetReady).
    { intros ->. apply Hin. destruct Hp as [w ->]. rewrite !elem_of_app. left. right. by left. }
    unfold apply_all. rewrite foldl_app. cbn [foldl]. fold (apply_all vs st).
    specialize (IH (prefix_app_l _ _ _ Hp)). destruct u; cbn [apply as_ready]; done. }
  split; [|by apply Hk]. unfold prefix_states. rewrite Forall_forall. intros x Hx.
  apply list_elem_of_fmap in Hx as (k & -> & _). intros Hr'. rewrite Hk in Hr'; [done|]. apply prefix_take.
Qed.

(** Opening the traffic in a resolved state, and adding permits, keep it so. *)
Lemma prefix_states_open us st :
  Forall (fun u => u = SetReady \/ exists k, u = AddPermits k) us ->
  as_status st <> Running -> is_Some (as_tuning st) -> Forall resolved (prefix_states us st).
Proof.
  intros Hus Hs Ht. unfold prefix_states. rewrite Forall_forall. intros x Hx.
  apply list_elem_of_fmap in Hx as (k & -> & _).
  assert (Hk : forall vs, Forall (fun u => u = SetReady \/ exists k, u = AddPermits k) vs ->
    as_status (apply_all vs st) = as_status st /\ as_tuning (apply_all vs st) = as_tuning st).
  { intros vs. induction vs as [|u vs IH] using rev_ind; [done|].
    intros [Hvs Hu]%Forall_app. rewrite Forall_singleton in Hu. destruct (IH Hvs) as [H1 H2].
    unfold apply_all. rewrite foldl_app. cbn [foldl]. fold (apply_all vs st).
    destruct Hu as [->|[? ->]]; cbn [apply as_status as_tuning]; rewrite H1, H2; by destruct (as_tuning st). }
  intros _. destruct (Hk (take k us)) as [-> ->]; [by apply Forall_take|done].
Qed.

(** A sequence made of a closed part that resolves the state and an opening part. *)
Lemma staged pre post st :
  as_ready st = false -> SetReady ∉ pre ->
  as_status (apply_all pre st) <> Running -> is_Some (as_tuning (apply_all pre st)) ->
  Forall (fun u => u = SetReady \/ exists k, u = AddPermits k) post ->
  Forall resolved (prefix_states (pre ++ post) st).
Proof.
  intros Hr Hin Hs Ht Hpost. apply prefix_states_app; [by apply prefix_states_closed|].
  by apply prefix_states_open.
Qed.

(** The readiness checks of a path as opening updates. *)
Definition opening (ck : Checks) : list Update :=
  match run_readiness_checks_and_open ck with Ok us => us | Err _ => [] end.

Lemma opening_open ck : Forall (fun u => u = SetReady \/ exists k, u = AddPermits k) (opening ck).
Proof.
  unfold opening. destruct (run_readiness_checks_and_open ck) as [us|e] eqn:E; [|constructor].
  apply checks_updates in E as ->. repeat constructor.
Qed.

(** The updates of the probe task. *)
Definition probe_updates (acquired : bool) (drained : Z) (cm : CostModel) (saved : list Update)
    (failed : bool) (ck : Checks) (n : Z) : list Update :=
  ([StoreStatus Running] ++ (if acquired then [ForgetPermits drained] else []) ++ [StoreCostModel cm]
   ++ saved ++ [StoreStatus (if failed then Failed else Complete)]) ++ opening ck ++ [AddPermits n].

Lemma spawn_probe_updates t n max_seq pw cg save us :
  spawn_probe_task t n max_seq pw cg save = Ok us ->
  exists a b sw, run_probe (pt_powi2 t) (pt_corpus t) max_seq pw cg (pt_world t) = Ok (a, b, sw)
    /\ us = probe_updates (pt_acquired t) (u32_try_from_or (sat_sub n 1) U32_MAX)
              {| cm_a := a; cm_b := b; max_workspace_bytes := pw |}
              (if negb (is_conservative_fit a b) && save then [SaveCache a b] else [])
              (is_conservative_fit a b) (pt_checks t) n.
Proof.
  unfold spawn_probe_task. destruct (run_probe _ _ _ _ _ _) as [[[a b] sw]|f]; [|done].
  cbn [mbind result_bind]. intros Hus. exists a, b, sw. split; [done|]. simplify_eq.
  unfold probe_updates, opening. by rewrite <- !app_assoc.
Qed.

(** The three outcomes of the readiness sequence. *)
Lemma readiness_cases fmt init mem rss n max_seq s o cached dis ck t r us :
  run_readiness_probe fmt init mem rss n max_seq s o cached dis ck t = Ok (r, us) ->
  (is_err r = true /\ us = [])
  \/ (exists tun cm st, us = [SetTuning tun; StoreCostModel cm; StoreStatus st] ++ opening ck
      /\ (st <> Running) /\ is_ok r = is_ok (run_readiness_checks_and_open ck)
      /\ (is_Some o \/ (dis = false /\ is_Some cached)))
  \/ (exists tun acq dr cm saved failed, us = [SetTuning tun] ++ probe_updates acq dr cm saved failed (pt_checks t) n
      /\ r = Ok () /\ o = None /\ (dis = true \/ cached = None) /\ acq = pt_acquired t
      /\ dr = u32_try_from_or (sat_sub n 1) U32_MAX /\ (saved = [] \/ exists a b, saved = [SaveCache a b])).
Proof.
  unfold run_readiness_probe. destruct init as [msg|[[]|e]]; [by left; simplify_eq| |by left; simplify_eq].
  destruct (compute_workspace_budget _ _ _ _) as [[pw peak] pct]. case_if; [by left; simplify_eq|].
  intros Hr. right.
  assert (Hinl : forall cm st, st <> Running -> (is_Some o \/ (dis = false /\ is_Some cached)) ->
    run_inline [SetTuning (tuning_new mem rss peak pct); StoreCostModel cm; StoreStatus st] ck = Ok (r, us) ->
    exists tun cm st, us = [SetTuning tun; StoreCostModel cm; StoreStatus st] ++ opening ck
      /\ (st <> Running) /\ is_ok r = is_ok (run_readiness_checks_and_open ck)
      /\ (is_Some o \/ (dis = false /\ is_Some cached))).
  { intros cm st Hst Hp Hres. exists (tuning_new mem rss peak pct), cm, st. unfold run_inline in Hres. unfold opening.
    destruct (run_readiness_checks_and_open ck); by simplify_eq. }
  assert (Hprobe : forall save, o = None -> (dis = true \/ cached = None) ->
    (us ← spawn_probe_task t n max_seq pw (available_bytes mem) save;
     Ok (Ok (), SetTuning (tuning_new mem rss peak pct) :: us)) = Ok (r, us) ->
    exists tun acq dr cm saved failed, us = [SetTuning tun] ++ probe_updates acq dr cm saved failed (pt_checks t) n
      /\ r = Ok () /\ o = None /\ (dis = true \/ cached = None) /\ acq = pt_acquired t
      /\ dr = u32_try_from_or (sat_sub n 1) U32_MAX /\ (saved = [] \/ exists a b, saved = [SaveCache a b])).
  { intros save Ho Hp Hres. clear Hr Hinl. destruct (spawn_probe_task _ _ _ _ _ _) as [us'|f] eqn:Es; [|done].
    cbn [mbind result_bind] in Hres. apply spawn_probe_updates in Es as (a & b & sw & _ & ->). simplify_eq.
    eexists _, _, _, _, _, _. split; [reflexivity|]. split_and!; try done; case_if; eauto. }
  destruct o as [cm|]; [left; apply (Hinl cm Disabled); [done|by left; eauto|exact Hr]|].
  destruct dis; cbn [negb] in Hr; [right; apply (Hprobe false); auto|].
  destruct cached as [[a b]|]; [left|right; apply (Hprobe true); auto].
  eapply (Hinl _ CacheHit); [done|right; eauto|exact Hr].
Qed.

(** The change an update makes to the number of permits. *)
Definition permit_delta (u : Update) : Z :=
  match u with ForgetPermits k => - k | AddPermits k => k | _ => 0 end.

Lemma apply_all_permits us st : as_permits (apply_all us st) = as_permits st + sum_of (permit_delta <$> us).
Proof.
  unfold apply_all, sum_of. revert st. induction us as [|u us IH]; intros st; [simpl; lia|].
  cbn [foldl]. rewrite IH, fmap_cons. cbn [foldr]. destruct u; cbn [apply as_permits permit_delta]; lia.
Qed.

(** The sequence as the rest of the server sees it: before readiness is published
    no permit is added, after it only permits are, and permits are drained once,
    never more than the gate was created with. *)
Record staged_updates (n : Z) (us : list Update) : Prop := {
  su_split : exists pre post, us = pre ++ post /\ (SetReady ∉ pre) /\
    Forall (fun u => u = SetReady \/ exists k, u = AddPermits k) post;
  su_add k : AddPermits k ∈ us -> k = n;
  su_drain k sent rest : us = sent ++ ForgetPermits k :: rest ->
    (SetReady ∉ sent) /\ sum_of (permit_delta <$> sent) = 0 /\ 0 <= k <= sat_sub n 1;
  su_permits cm : 0 <= n -> 1 <= as_permits (apply_all us (initial_state n cm));
}.

Lemma opening_split ck : opening ck = [SetReady] \/ opening ck = [].
Proof.
  unfold opening. destruct (run_readiness_checks_and_open ck) as [us|e] eqn:E; [|by right].
  apply checks_updates in E as ->. by left.
Qed.

(** Without draining, the gate keeps at least the permits it was created with. *)
Lemma undrained_permits n us cm :
  (forall k, ForgetPermits k ∉ us) -> (forall k, AddPermits k ∈ us -> k = n) -> 0 <= n ->
  1 <= as_permits (apply_all us (initial_state n cm)).
Proof.
  intros Hf Ha Hn. rewrite apply_all_permits.
  assert (0 <= sum_of (permit_delta <$> us)); [|simpl; lia].
  unfold sum_of. induction us as [|u us IH]; [done|]. rewrite fmap_cons. cbn [foldr].
  assert (0 <= permit_delta u).
  { destruct u; simpl; try lia; [exfalso; apply (Hf k); by left|].
    rewrite (Ha k); [done|by left]. }
  assert (0 <= foldr Z.add 0 (permit_delta <$> us)); [|lia].
  apply IH; [intros k Hk; apply (Hf k)|intros k Hk; apply Ha]; by right.
Qed.

Lemma staged_inline n tun cm st ck :
  staged_updates n ([SetTuning tun; StoreCostModel cm; StoreStatus st] ++ opening ck).
Proof.
  assert (Hno : forall k, ForgetPermits k ∉ [SetTuning tun; StoreCostModel cm; StoreStatus st] ++ opening ck).
  { intros k. destruct (opening_split ck) as [->| ->]; set_solver. }
  assert (Hna : forall k, AddPermits k ∉ [SetTuning tun; StoreCostModel cm; StoreStatus st] ++ opening ck).
  { intros k. destruct (opening_split ck) as [->| ->]; set_solver. }
  split.
  - eexists _, _. split; [reflexivity|]. split; [set_solver|apply opening_open].
  - intros k Hk. by destruct (Hna k).
  - intros k sent rest Hus. destruct (Hno k). rewrite Hus, elem_of_app. right. by left.
  - intros cm' Hn. apply undrained_permits; [done| |done]. intros k Hk. by destruct (Hna k).
Qed.

Lemma one_drain pre k0 tail : forall sent k rest,
  pre ++ ForgetPermits k0 :: tail = sent ++ ForgetPermits k :: rest ->
  (forall j, ForgetPermits j ∉ pre) -> (forall j, ForgetPermits j ∉ tail) -> pre = sent /\ k0 = k.
Proof.
  induction pre as [|u pre IH]; intros [|v sent] k rest Heq Hpre Htail; simplify_list_eq; [done|..].
  - destruct (Htail k). rewrite elem_of_app. right. by left.
  - destruct (Hpre k). by left.
  - destruct (IH sent k rest) as [-> ->]; [done|set_solver|done|done].
Qed.

Lemma staged_probe n tun acq cm saved failed ck :
  (saved = [] \/ exists a b, saved = [SaveCache a b]) -> 0 <= n ->
  staged_updates n ([SetTuning tun]
    ++ probe_updates acq (u32_try_from_or (sat_sub n 1) U32_MAX) cm saved failed ck n).
Proof.
  intros Hs Hn. set (dr := u32_try_from_or (sat_sub n 1) U32_MAX).
  assert (Hdr : 0 <= dr <= sat_sub n 1) by (unfold dr, u32_try_from_or, sat_sub, U32_MAX; repeat case_match; lia).
  set (tail := [StoreCostModel cm] ++ saved ++ [StoreStatus (if failed then Failed else Complete)]
    ++ opening ck ++ [AddPermits n]).
  assert (Hus : [SetTuning tun] ++ probe_updates acq dr cm saved failed ck n
    = [SetTuning tun; StoreStatus Running] ++ (if acq then [ForgetPermits dr] else []) ++ tail).
  { unfold probe_updates, tail. by destruct acq; cbn; rewrite <- ?app_assoc. }
  assert (Hno : forall k, ForgetPermits k ∉ tail).
  { intros k. unfold tail. destruct (opening_split ck) as [->| ->]; destruct Hs as [->|(a & b & ->)]; set_solver. }
  assert (Hna : forall k, AddPermits k ∈ tail -> k = n).
  { intros k. unfold tail. destruct (opening_split ck) as [->| ->]; destruct Hs as [->|(a & b & ->)]; set_solver. }
  split.
  - unfold probe_updates. rewrite app_assoc. eexists _, _. split; [reflexivity|]. split.
    + destruct acq, Hs as [->|(a & b & ->)]; set_solver.
    + apply Forall_app. split; [apply opening_open|]. constructor; [eauto|constructor].
  - intros k Hk. rewrite Hus in Hk. destruct acq; apply Hna; set_solver.
  - intros k sent rest. rewrite Hus. intros Hd. destruct acq; [|exfalso].
    + destruct (one_drain [SetTuning tun; StoreStatus Running] dr tail sent k rest) as [<- ->]; [done|set_solver|done|].
      split_and!; [set_solver|done|lia..].
    + assert (Hin : ForgetPermits k ∈ [SetTuning tun; StoreStatus Running] ++ [] ++ tail) by (rewrite Hd; set_solver).
      pose proof (Hno k). set_solver.
  - intros cm' _. rewrite apply_all_permits, Hus. unfold tail.
    destruct (opening_split ck) as [->| ->]; destruct acq, Hs as [->|(a & b & ->)]; simpl; unfold sat_sub in *; lia.
Qed.

Lemma readiness_staged fmt init mem rss n max_seq s o cached dis ck t r us :
  run_readiness_probe fmt init mem rss n max_seq s o cached dis ck t = Ok (r, us) -> 0 <= n ->
  staged_updates n us.
Proof.
  intros Hr Hn. destruct (readiness_cases _ _ _ _ _ _ _ _ _ _ _ _ _ _ Hr)
    as [[_ ->]|[(tun & cm & st & -> & _)|(tun & acq & dr & cm & saved & failed & -> & _ & _ & _ & _ & -> & Hs)]].
  - split; [by exists [], []; split_and!; [|set_solver|]|set_solver| |intros cm _; simpl; lia].
    intros k sent rest. by destruct sent.
  - apply staged_inline.
  - by apply staged_probe.
Qed.

(** The cost model start-up ends with. *)
Lemma readiness_budget fmt init mem rss n max_seq s o cached dis ck t r us st :
  run_readiness_probe fmt init mem rss n max_seq s o cached dis ck t = Ok (r, us) -> us <> [] ->
  match o with
  | Some cm => as_cost_model (apply_all us st) = cm
  | None => max_workspace_bytes (as_cost_model (apply_all us st))
            = (compute_workspace_budget (available_bytes mem) n rss s).1.1
  end.
Proof.
  unfold run_readiness_probe. destruct init as [msg|[[]|e]]; [by intros ?; simplify_eq| |by intros ?; simplify_eq].
  destruct (compute_workspace_budget _ _ _ _) as [[pw peak] pct]. case_if; [by intros ?; simplify_eq|].
  assert (Hin : forall cm st', run_inline [SetTuning (tuning_new mem rss peak pct); StoreCostModel cm; StoreStatus st'] ck
    = Ok (r, us) -> as_cost_model (apply_all us st) = cm).
  { intros cm st'. unfold run_inline. destruct (run_readiness_checks_and_open ck) as [vs|e] eqn:E; intros ?; simplify_eq;
      [apply checks_updates in E as ->|]; done. }
  assert (Hprobe : forall save, (us ← spawn_probe_task t n max_seq pw (available_bytes mem) save;
     Ok (Ok (), SetTuning (tuning_new mem rss peak pct) :: us)) = Ok (r, us) ->
    max_workspace_bytes (as_cost_model (apply_all us st)) = pw).
  { intros save. destruct (spawn_probe_task _ _ _ _ _ _) as [us'|f] eqn:Es; [|done]. cbn [mbind result_bind].
    apply spawn_probe_updates in Es as (a & b & sw & _ & ->). intros ?; simplify_eq. unfold probe_updates.
    destruct (opening_split (pt_checks t)) as [->| ->]; by destruct (pt_acquired t), save, (is_conservative_fit a b). }
  intros Hr _. destruct o as [cm|]; [by eapply Hin|].
  destruct dis; simpl in Hr; [by eapply Hprobe|]. destruct cached as [[a b]|]; [|by eapply Hprobe].
  by rewrite (Hin _ _ Hr).
Qed.

(** ** Properties *)

(** C20: The workspace budget never overcommits the detected memory (below 1 PiB,
    fewer than 2^32 workers, a safety factor in [[0, 1]]), in spite of the
    rounding of the [f64] computation: the shares of the workers fit in what the
    models and the headroom leave; when those fit at all, the reported worst
    case is the exact sum and fits in the memory; otherwise the budget is 0. *)
Theorem budget_never_overcommits (available n rss : Z) (safety : f64)
    (Ha : 0 <= available < 2 ^ 50) (Hn : 1 <= n < 2 ^ 32) (Hr : 0 <= rss) (Hs : valid_factor safety) :
  let '(per_worker, peak, _) := compute_workspace_budget available n rss safety in
  0 <= per_worker
  /\ (n * rss + OS_HEADROOM_BYTES <= available ->
        n * (per_worker + rss) + OS_HEADROOM_BYTES <= available
        /\ peak = n * (per_worker + rss) + OS_HEADROOM_BYTES)
  /\ (available < n * rss + OS_HEADROOM_BYTES -> per_worker = 0).
Proof.
  pose proof (budget_bounds available n rss safety Ha Hn Hr Hs) as (Hp & Htot & Hrange).
  destruct (compute_workspace_budget available n rss safety) as [[pw peak] pct] eqn:Eb. cbn [fst] in *.
  assert (Hpeak : peak = sat_add64 (sat_add64 (sat_mul64 n pw) (sat_mul64 n rss)) OS_HEADROOM_BYTES).
  { unfold compute_workspace_budget in Eb. by simplify_eq. }
  unfold total_workspace, sat_sub, sat_mul64, sat_add64, OS_HEADROOM_BYTES, U64_MAX in *.
  split; [done|]. split.
  - intros Hfit. assert (n * pw <= available - n * rss - 256 * 1024 * 1024) by lia.
    split; [lia|]. rewrite Hpeak. lia.
  - intros Hno. assert (n * pw <= 0) by lia. nia.
Qed.

Lemma budget_never_overcommits_witness :
  let '(per_worker, peak, _) := compute_workspace_budget (8 * 2 ^ 30) 2 (12 * 10 ^ 8) (f64_lit 7 10) in
  per_worker = 2072524697 /\ peak <= 8 * 2 ^ 30.
Proof.
  pose proof (budget_never_overcommits (8 * 2 ^ 30) 2 (12 * 10 ^ 8) (f64_lit 7 10)) as H.
  assert (E : compute_workspace_budget (8 * 2 ^ 30) 2 (12 * 10 ^ 8) (f64_lit 7 10)
    = (2072524697, 6813484850, (compute_workspace_budget (8 * 2 ^ 30) 2 (12 * 10 ^ 8) (f64_lit 7 10)).2))
    by (vm_compute; reflexivity).
  rewrite E in H |- *.
  destruct H as (_ & H & _); [lia|lia|lia|split; [exact I|vm_compute; discriminate]|].
  destruct H as [H1 H2]; [vm_compute; discriminate|]. split; [reflexivity|]. rewrite H2. exact H1.
Defined.

Definition is_ready_update (u : Update) : bool := match u with SetReady => true | _ => false end.

Lemma apply_all_ready us st : as_ready (apply_all us st) = as_ready st || existsb is_ready_update us.
Proof.
  unfold apply_all. revert st. induction us as [|u us IH]; intros st; cbn [foldl existsb];
    [by rewrite orb_false_r|]. rewrite IH. destruct u; cbn [apply as_ready is_ready_update orb]; try done.
  by rewrite orb_true_r.
Qed.

Lemma opening_ready ck : existsb is_ready_update (opening ck) = is_ok (run_readiness_checks_and_open ck).
Proof.
  unfold opening. destruct (run_readiness_checks_and_open ck) as [us|e] eqn:E; [|done].
  by apply checks_updates in E as ->.
Qed.

(** The tuning information, once set, stays. *)
Lemma tuning_stays us st : is_Some (as_tuning st) -> is_Some (as_tuning (apply_all us st)).
Proof.
  revert st. induction us as [|u us IH]; intros st Hs; [done|]. apply IH. destruct Hs as [t Ht].
  cbn [apply as_tuning]. rewrite Ht. destruct u; eauto.
Qed.

Lemma probe_updates_resolved tun acq dr cm saved failed ck n st :
  as_ready st = false -> (saved = [] \/ exists a b, saved = [SaveCache a b]) ->
  Forall resolved (prefix_states ([SetTuning tun] ++ probe_updates acq dr cm saved failed ck n) st)
  /\ as_ready (apply_all ([SetTuning tun] ++ probe_updates acq dr cm saved failed ck n) st)
     = is_ok (run_readiness_checks_and_open ck).
Proof.
  intros Hr Hs. unfold probe_updates. split.
  - rewrite app_assoc. apply staged; [done| | | |].
    + destruct Hs as [->|(a & b & ->)]; destruct acq; set_solver.
    + rewrite !app_assoc. unfold apply_all. rewrite foldl_app. simpl. by destruct failed.
    + unfold apply_all. rewrite foldl_app. apply tuning_stays. cbn [foldl apply as_tuning].
      destruct (as_tuning st); eauto.
    + apply Forall_app. split; [apply opening_open|]. constructor; [right; eauto|constructor].
  - rewrite apply_all_ready, Hr, !existsb_app, opening_ready.
    destruct Hs as [->|(a & b & ->)]; destruct acq; simpl; by rewrite orb_false_r.
Qed.

(** C17: Readiness is published last: along the whole sequence (override, cache or
    background probe, whatever fails), no observable state accepts traffic while
    the probe is marked as running or before the memory information is set; a
    call that reports an error never opens the traffic; and on a call that
    succeeds the traffic ends up open iff both readiness checks of its path
    succeeded. *)
Theorem readiness_published_last fmt init mem rss n max_seq safety o cached dis ck t r us cm0
    (H : run_readiness_probe fmt init mem rss n max_seq safety o cached dis ck t = Ok (r, us)) :
  let st0 := initial_state n cm0 in
  Forall resolved (prefix_states us st0)
  /\ (is_err r = true -> as_ready (apply_all us st0) = false)
  /\ (is_ok r = true ->
        as_ready (apply_all us st0)
        = is_ok (run_readiness_checks_and_open
                   (if bool_decide (is_Some o) || (negb dis && bool_decide (is_Some cached)) then ck else pt_checks t))).
Proof.
  intros st0. destruct (readiness_cases _ _ _ _ _ _ _ _ _ _ _ _ _ _ H)
    as [[He ->]|[(tun & cm & st & -> & Hst & Hr & Hp)|(tun & acq & dr & cm & saved & failed & -> & -> & -> & Hp & _ & _ & Hs)]].
  - split; [|split; [done|]]; [|by unfold is_err in He; intros Hok; rewrite Hok in He].
    constructor; [done|constructor].
  - assert (Hready : as_ready (apply_all ([SetTuning tun; StoreCostModel cm; StoreStatus st] ++ opening ck) st0)
      = is_ok (run_readiness_checks_and_open ck))
      by (rewrite apply_all_ready, existsb_app, opening_ready; done).
    split_and!.
    + apply staged; [done|set_solver|done|by eexists|apply opening_open].
    + unfold is_err. rewrite Hready, Hr. apply negb_true_iff.
    + intros _. rewrite Hready. f_equal. f_equal.
      destruct Hp as [Ho|[-> Hc]]; [by rewrite (bool_decide_true (is_Some o))|].
      rewrite (bool_decide_true (is_Some cached)) by done. by rewrite orb_true_r.
  - destruct (probe_updates_resolved tun acq dr cm saved failed (pt_checks t) n st0 eq_refl Hs) as [Hres Hready].
    split_and!; [done|done|intros _]. rewrite Hready. f_equal. f_equal.
    rewrite bool_decide_false by (intros [? ?]; done).
    destruct Hp as [->| ->]; [done|]. rewrite bool_decide_false by (intros [? ?]; done).
    by rewrite andb_false_r.
Qed.

(** A start-up on 8 GiB with two workers: no override and no cache, so the probe
    runs. *)
Definition example_checks : Checks := {| ck_dense := Ok (); ck_sparse := Ok () |}.
Definition example_task : ProbeTask :=
  {| pt_acquired := true; pt_corpus := ["ab"; "c d"]; pt_world := example_world;
     pt_powi2 := fun x => f64_mul x x; pt_checks := example_checks |}.
Definition example_readiness : M (result anyhow () * list Update) :=
  run_readiness_probe (fun _ => "0.7") (InitDone (Ok ())) {| available_bytes := 8 * 2 ^ 30; source := CgroupV2 |}
    (12 * 10 ^ 8) 2 512 (f64_lit 7 10) None None false example_checks example_task.

Lemma readiness_published_last_witness :
  exists us, example_readiness = Ok (Ok (), us) /\ as_ready (apply_all us (initial_state 2 (conservative 0))) = true.
Proof.
  destruct example_readiness as [[r us]|f] eqn:E; [|exfalso; vm_compute in E; discriminate].
  assert (Hr : r = Ok ()) by (vm_compute in E; injection E as <- _; reflexivity). subst r.
  exists us. split; [reflexivity|].
  destruct (readiness_published_last _ _ _ _ _ _ _ _ _ _ _ _ _ _ (conservative 0) E) as (_ & _ & Hopen).
  apply (Hopen eq_refl).
Defined.

(** C36: The concurrency gate after start-up: with the probe run, [n] permits for
    [n >= 2] workers but two for a single one (its permit is never drained);
    without a probe (override, cache hit, or an early error) the gate keeps the
    [max(n - 1, 1)] permits it was created with.  At no moment of the sequence
    is the number of permits negative. *)
Theorem permits_after_startup fmt init mem rss n max_seq safety o cached dis ck t r us cm0
    (H : run_readiness_probe fmt init mem rss n max_seq safety o cached dis ck t = Ok (r, us))
    (Hn : 1 <= n <= U32_MAX) (Hacq : pt_acquired t = true) :
  let st0 := initial_state n cm0 in
  let probed := is_ok r && negb (bool_decide (is_Some o)) && (dis || negb (bool_decide (is_Some cached))) in
  as_permits (apply_all us st0) = (if probed then (if n =? 1 then 2 else n) else Z.max (n - 1) 1)
  /\ Forall (fun st => 0 <= as_permits st) (prefix_states us st0).
Proof.
  intros st0 probed. assert (H0 : as_permits st0 = Z.max (n - 1) 1) by (unfold st0, initial_state, sat_sub; simpl; lia).
  clearbody st0. assert (Hpre : (forall k, 0 <= as_permits st0 + sum_of (permit_delta <$> take k us)) ->
    Forall (fun st => 0 <= as_permits st) (prefix_states us st0)).
  { intros Hk. unfold prefix_states. rewrite Forall_forall. intros x Hx.
    apply list_elem_of_fmap in Hx as (k & -> & _). rewrite apply_all_permits. apply Hk. }
  assert (Hopen : forall k, sum_of (permit_delta <$> take k (opening ck)) = 0 /\ sum_of (permit_delta <$> opening ck) = 0).
  { intros k. unfold opening. destruct (run_readiness_checks_and_open ck) as [vs|e] eqn:E; [|by destruct k].
    apply checks_updates in E as ->. by destruct k as [|[|k]]. }
  destruct (readiness_cases _ _ _ _ _ _ _ _ _ _ _ _ _ _ H)
    as [[He ->]|[(tun & cm & st & -> & Hst & Hr & Hp)|(tun & acq & dr & cm & saved & failed & -> & -> & -> & Hp & -> & -> & Hs)]].
  - unfold probed, is_err in *. apply negb_true_iff in He. rewrite He. split; [done|].
    apply Hpre. intros k. rewrite take_nil. simpl. lia.
  - assert (probed = false) as ->.
    { unfold probed. destruct Hp as [Ho|[-> Hc]]; [by rewrite (bool_decide_true (is_Some o)), andb_false_r|].
      rewrite (bool_decide_true (is_Some cached)) by done. apply andb_false_r. }
    split.
    + rewrite apply_all_permits, fmap_app, sum_of_app. destruct (Hopen 0%nat) as [_ ->]. simpl. lia.
    + apply Hpre. intros k. rewrite take_app, fmap_app, sum_of_app. destruct (Hopen (k - 3)%nat) as [Hz _].
      cbn [length]. rewrite Hz. destruct k as [|[|[|k]]]; simpl; rewrite ?take_nil; simpl; lia.
  - assert (probed = true) as ->.
    { unfold probed. rewrite bool_decide_false by (intros [? ?]; done).
      destruct Hp as [->| ->]; [done|]. rewrite bool_decide_false by (intros [? ?]; done). by rewrite orb_true_r. }
    assert (Hdr : u32_try_from_or (sat_sub n 1) U32_MAX = n - 1).
    { unfold u32_try_from_or, sat_sub. crush. }
    split; [rewrite apply_all_permits|apply Hpre; intros k]; rewrite Hacq, Hdr; unfold probe_updates, opening;
      (destruct (run_readiness_checks_and_open (pt_checks t)) as [vs|e] eqn:E; [apply checks_updates in E as ->|]);
      destruct Hs as [->|(a & b & ->)]; try (simpl; crush);
      do 9 (destruct k as [|k]; [simpl; rewrite ?take_nil; simpl; lia|]); simpl; rewrite ?take_nil; simpl; lia.
Qed.

Lemma permits_after_startup_witness :
  exists us, example_readiness = Ok (Ok (), us) /\ as_permits (apply_all us (initial_state 2 (conservative 0))) = 2.
Proof.
  destruct example_readiness as [[r us]|f] eqn:E; [|exfalso; vm_compute in E; discriminate].
  assert (Hr : r = Ok ()) by (vm_compute in E; injection E as <- _; reflexivity). subst r.
  exists us. split; [reflexivity|].
  destruct (permits_after_startup _ _ _ _ _ _ _ _ _ _ _ _ _ _ (conservative 0) E) as [Hp _];
    [vm_compute; split; discriminate|reflexivity|].
  exact Hp.
Defined.
