(* ===== verification/Retry.v ===== *)
(** * Error classification and the workspace-halving retry
    ([src/embedder/worker/trt_retry.rs])

    The matchers work on the lower-cased text of an error; [embed_with_trt_retry]
    calls the embedding closure at most twice. *)

From S2P Require Import Prelude Float RustStr BinPack JitGuard Types.

Definition CHUNK_CACHE_HIT_THRESHOLD_MS : Z := 5000.

(** On the outermost message only ([{e}]). *)
Definition is_trt_jit_oom (e : anyhow) : bool :=
  let lowercase := to_lowercase (display e) in
  contains "user allocator error" lowercase
  || (contains "could not find any implementation" lowercase
      && (contains "workspace" lowercase || contains "alloc" lowercase))
  || (contains "failed to create engine" lowercase
      && (contains "workspace" lowercase || contains "alloc" lowercase
          || contains "memory" lowercase || contains "oom" lowercase
          || contains "tactic" lowercase)).

(** On the whole chain ([{e:#}]). *)
Definition is_trt_engine_build_fatal (e : anyhow) : bool :=
  let lowercase := to_lowercase (display_alt e) in
  contains "failed to build engine" lowercase
  || contains "failed to create engine from network" lowercase.

(** The budget of the second attempt, never below 1 MiB. *)
Definition halved (base_cm : CostModel) : CostModel :=
  {| cm_a := cm_a base_cm; cm_b := cm_b base_cm;
     max_workspace_bytes := Z.max (max_workspace_bytes base_cm / 2) (1024 * 1024) |}.

Section retry.
Context {S T : Type}.

(** [embed_fn] is an [FnMut]: it acts on the state it captures. *)
Definition embed_with_trt_retry (embed_fn : CostModel -> S -> S * M T) (base_cm : CostModel) (s : S)
  : S * M T :=
  let '(s', r) := embed_fn base_cm s in
  match r with
  | Ok v => (s', Ok v)
  | Err Panic => (s', Err Panic)
  | Err (Fail e) =>
      if is_trt_jit_oom e then embed_fn (halved base_cm) s' else (s', Err (Fail e))
  end.
End retry.

(** ** ASCII text *)

Definition is_ascii (s : string) : bool := str_forall (fun c => byte_of c <? 128) s.

Fixpoint smap (f : ascii -> ascii) (s : string) : string :=
  match s with EmptyString => EmptyString | String c s => String (f c) (smap f s) end.

#[local] Arguments String.append !_ _ / : simpl nomatch.

Lemma smap_app f a b : smap f (a +:+ b) = smap f a +:+ smap f b.
Proof. induction a; simpl; congruence. Qed.

Lemma to_lowercase_cons c s :
  byte_of c < 128 -> to_lowercase (String c s) = String (lower_ascii c) (to_lowercase s).
Proof.
  intros Hc. destruct s as [|b [|d s]]; [done| |]; cbn [to_lowercase].
  - by rewrite (proj2 (Z.eqb_neq (byte_of c) 196)) by lia.
  - rewrite (proj2 (Z.eqb_neq (byte_of c) 196)), (proj2 (Z.eqb_neq (byte_of c) 226)) by lia. done.
Qed.

(** Lower-casing distributes over an ASCII prefix. *)
Lemma to_lowercase_app a b :
  is_ascii a = true -> to_lowercase (a +:+ b) = smap lower_ascii a +:+ to_lowercase b.
Proof.
  unfold is_ascii. induction a as [|c a IH]; [done|]. cbn [str_forall].
  intros [Hc Ha]%andb_true_iff. apply Z.ltb_lt in Hc.
  change (String c a +:+ b) with (String c (a +:+ b)).
  rewrite to_lowercase_cons by done. by rewrite IH.
Qed.

Lemma to_lowercase_ascii a : is_ascii a = true -> to_lowercase a = smap lower_ascii a.
Proof.
  intros Ha. rewrite <- (string_app_nil_r a) at 1. rewrite to_lowercase_app by done.
  apply string_app_nil_r.
Qed.

Lemma contains_app_r p a b : contains p b = true -> contains p (a +:+ b) = true.
Proof.
  rewrite !contains_spec. intros (x & y & ->). exists (a +:+ x), y.
  by rewrite !string_app_assoc.
Qed.

(** An ASCII context never hides a fatal build error from the chain matcher. *)
Lemma fatal_context msg e :
  is_ascii msg = true -> is_trt_engine_build_fatal e = true ->
  is_trt_engine_build_fatal (context msg e) = true.
Proof.
  intros Hm. unfold is_trt_engine_build_fatal.
  assert (Hd : display_alt (context msg e) = (msg +:+ ": ") +:+ display_alt e).
  { unfold display_alt, context, chain. simpl.
    by rewrite <- !string_app_assoc. }
  rewrite Hd, to_lowercase_app.
  2: { unfold is_ascii in *. rewrite str_forall_app, Hm. done. }
  rewrite !orb_true_iff. intros [Hc|Hc]; [left|right]; by apply contains_app_r.
Qed.

(** ** Literals around a number

    A literal without digits occurs in a text with a number in the middle only if
    it occurs to the left or to the right of the number. *)

Lemma to_list_inj a b : list_ascii_of_string a = list_ascii_of_string b -> a = b.
Proof.
  intros H. rewrite <- (string_of_list_ascii_of_string a), H.
  apply string_of_list_ascii_of_string.
Qed.

Lemma app_eq_split (x p y a b : list ascii) d :
  x ++ p ++ y = a ++ d :: b -> p <> [] -> ~ In d p ->
  (exists y', a = x ++ p ++ y') \/ (exists x', b = x' ++ p ++ y).
Proof.
  intros Heq Hne Hp. revert x Heq. induction a as [|c a IH]; intros x Heq; simpl in Heq.
  - right. destruct x as [|c x]; simpl in Heq.
    + destruct p as [|c p]; [done|]. simpl in Heq.
      simplify_eq. exfalso. apply Hp. by left.
    + simplify_eq. by exists x.
  - destruct x as [|c' x]; simpl in Heq.
    + left. exists (drop (length p) (c :: a)).
      assert (Hlen : (length p <= length (c :: a))%nat).
      { destruct (Nat.le_gt_cases (length p) (length (c :: a))) as [|Hgt]; [done|exfalso].
        apply Hp. apply list_elem_of_In, list_elem_of_lookup. exists (length (c :: a)).
        assert (Hl : (p ++ y) !! length (c :: a) = Some d).
        { rewrite Heq. change (c :: a ++ d :: b) with ((c :: a) ++ d :: b).
          by rewrite lookup_app_r, Nat.sub_diag by lia. }
        by rewrite lookup_app_l in Hl by lia. }
      simpl. rewrite <- (take_drop (length p) (c :: a)) at 1. f_equal.
      change (c :: a ++ d :: b) with ((c :: a) ++ d :: b) in Heq.
      apply (f_equal (take (length p))) in Heq.
      rewrite take_app_length in Heq. rewrite take_app_le in Heq by done. done.
    + simplify_eq. destruct (IH x ltac:(done)) as [[y' ->]|[x' ->]]; [left|right]; eauto.
Qed.

Lemma contains_skip_digits p a n b :
  p <> "" -> (forall c, In c (list_ascii_of_string p) -> is_ascii_digit c = false) -> digits n ->
  contains p (a +:+ n +:+ b) = true -> contains p a = true \/ contains p b = true.
Proof.
  intros Hp Hnd [Hne Hn]. revert a Hne Hn. induction n as [|d n IH]; intros a Hne Hn; [done|].
  cbn [str_forall] in Hn. apply andb_true_iff in Hn as [Hd Hn].
  intros (x & y & Heq)%contains_spec.
  apply (f_equal list_ascii_of_string) in Heq. rewrite !to_list_app in Heq. simpl in Heq.
  rewrite ?to_list_app in Heq. symmetry in Heq.
  apply app_eq_split in Heq as [[y' Ha]|[x' Hb]].
  - left. apply contains_spec. exists x, (string_of_list_ascii y'). apply to_list_inj.
    by rewrite !to_list_app, list_ascii_of_string_of_list_ascii.
  - assert (Hc : contains p ("" +:+ n +:+ b) = true).
    { apply contains_spec. exists (string_of_list_ascii x'), y. apply to_list_inj.
      simpl. by rewrite !to_list_app, list_ascii_of_string_of_list_ascii. }
    destruct n as [|d' n']; [by right|].
    destruct (IH "" ltac:(done) Hn Hc) as [H|H]; [|by right]. exfalso.
    by destruct p.
  - by destruct p.
  - intros Hin%Hnd. congruence.
Qed.

Lemma smap_digits n : str_forall is_ascii_digit n = true -> smap lower_ascii n = n.
Proof.
  induction n as [|c n IH]; [done|]. cbn [str_forall smap].
  intros [Hc Hn]%andb_true_iff. rewrite IH by done. f_equal.
  unfold lower_ascii. unfold is_ascii_digit in Hc. bool_to_prop.
  by rewrite (proj2 (Z.leb_gt 65 _)) by lia.
Qed.

Lemma digits_ascii n : digits n -> is_ascii n = true.
Proof.
  intros [_ Hn]. unfold is_ascii. induction n as [|c n IH]; [done|]. cbn [str_forall] in *.
  apply andb_true_iff in Hn as [Hc Hn]. rewrite IH by done.
  unfold is_ascii_digit in Hc. bool_to_prop. by rewrite (proj2 (Z.ltb_lt _ 128)) by lia.
Qed.

(** The text of a rejection is ASCII, and a digit-free literal occurs in its
    lower case only within one of the fixed pieces. *)
Definition rejection_pieces (pre : string) : list string :=
  [pre +:+ "refusing in-band TensorRT JIT for chunk (batch="; ", seq=";
   "): seq is at/above the guard threshold (";
   ") and exceeds the pool's warmed engine coverage (max warmed seq=";
   "). Issuing this run risks a pathological autotuner allocation that can crash the worker. The request is retriable once warmup coverage extends."].

Lemma rejection_contains pre p r :
  is_ascii pre = true -> p <> "" ->
  (forall c, In c (list_ascii_of_string p) -> is_ascii_digit c = false) ->
  contains p (to_lowercase (pre +:+ fmt_rejection r)) = true ->
  existsb (fun q => contains p (smap lower_ascii q)) (rejection_pieces pre) = true.
Proof.
  intros Hpre Hp Hnd. unfold fmt_rejection.
  pose proof (show_digits (rej_batch r)) as D1. pose proof (show_digits (rej_seq r)) as D2.
  pose proof (show_digits (rej_guard_seq r)) as D3.
  pose proof (show_digits (rej_warmed_seq_ceiling r)) as D4.
  revert D1 D2 D3 D4. generalize (show (rej_batch r)) (show (rej_seq r)) (show (rej_guard_seq r))
    (show (rej_warmed_seq_ceiling r)). intros n1 n2 n3 n4 D1 D2 D3 D4.
  rewrite to_lowercase_ascii.
  2: { pose proof (digits_ascii _ D1) as A1. pose proof (digits_ascii _ D2) as A2.
       pose proof (digits_ascii _ D3) as A3. pose proof (digits_ascii _ D4) as A4.
       unfold is_ascii in *. by rewrite !str_forall_app, Hpre, A1, A2, A3, A4. }
  rewrite string_app_assoc. rewrite !smap_app.
  rewrite (smap_digits n1), (smap_digits n2), (smap_digits n3), (smap_digits n4)
    by (apply D1 || apply D2 || apply D3 || apply D4).
  intros Hc. unfold rejection_pieces. cbn [existsb]. rewrite !orb_true_iff, smap_app.
  apply contains_skip_digits in Hc as [Hc|Hc]; [by left|right|done..].
  apply contains_skip_digits in Hc as [Hc|Hc]; [by left|right|done..].
  apply contains_skip_digits in Hc as [Hc|Hc]; [by left|right|done..].
  apply contains_skip_digits in Hc as [Hc|Hc]; [by left|right|done..].
  by left.
Qed.

(** A refusal of the guard, in any of the contexts of the routes, is neither a
    retriable out-of-memory error nor a fatal build failure. *)
Definition route_contexts : list string :=
  ["Dense embed error"; "Sparse embed error"; "Dual embed error"].

Ltac no_digits := intros ? Hin; simpl in Hin; repeat destruct Hin as [<-|Hin]; done.

Lemma rejection_not_oom r : is_trt_jit_oom (anyhow_new r) = false.
Proof.
  unfold is_trt_jit_oom. change (display (anyhow_new r)) with ("" +:+ fmt_rejection r).
  assert (Hno : forall p, p <> "" ->
    (forall c, In c (list_ascii_of_string p) -> is_ascii_digit c = false) ->
    existsb (fun q => contains p (smap lower_ascii q)) (rejection_pieces "") = false ->
    contains p (to_lowercase ("" +:+ fmt_rejection r)) = false).
  { intros p Hp Hnd Hf. apply not_true_iff_false. intros Hc%rejection_contains; try done.
    congruence. }
  rewrite (Hno "user allocator error"), (Hno "could not find any implementation"),
    (Hno "failed to create engine"); try done; no_digits.
Qed.

Lemma rejection_not_fatal msg r :
  msg ∈ route_contexts -> is_trt_engine_build_fatal (context msg (anyhow_new r)) = false.
Proof.
  intros Hmsg. unfold is_trt_engine_build_fatal.
  assert (Hd : display_alt (context msg (anyhow_new r)) = (msg +:+ ": ") +:+ fmt_rejection r).
  { unfold display_alt, context, chain. simpl. by rewrite <- !string_app_assoc. }
  rewrite Hd.
  assert (Hno : forall p, p <> "" ->
    (forall c, In c (list_ascii_of_string p) -> is_ascii_digit c = false) ->
    forallb (fun m => is_ascii (m +:+ ": ") &&
      negb (existsb (fun q => contains p (smap lower_ascii q)) (rejection_pieces (m +:+ ": "))))
      route_contexts = true ->
    contains p (to_lowercase ((msg +:+ ": ") +:+ fmt_rejection r)) = false).
  { intros p Hp Hnd Hall. rewrite forallb_forall in Hall.
    specialize (Hall msg ltac:(by apply list_elem_of_In)). bool_to_prop.
    apply not_true_iff_false. intros Hc%rejection_contains; try done. congruence. }
  rewrite (Hno "failed to build engine"), (Hno "failed to create engine from network");
    try done; no_digits.
Qed.

(** ** Properties *)

(** The retry wrapper calls the closure at most twice, the second time only
    after an out-of-memory error of the first, on the state the first one left
    and with a budget of at least 1 MiB that is no more than half of the base
    whenever the base is at least 2 MiB; its result is that of the last call, and
    a refusal of the JIT guard is never retried. *)
Theorem retry_at_most_once {S T} (f : CostModel -> S -> S * M T) cm s :
  (exists e, snd (f cm s) = Err (Fail e) /\ is_trt_jit_oom e = true /\
     (forall r, e <> anyhow_new r) /\
     embed_with_trt_retry f cm s = f (halved cm) (fst (f cm s)) /\
     1048576 <= max_workspace_bytes (halved cm) /\
     (2097152 <= max_workspace_bytes cm ->
      2 * max_workspace_bytes (halved cm) <= max_workspace_bytes cm) /\
     cm_a (halved cm) = cm_a cm /\ cm_b (halved cm) = cm_b cm) \/
  ((forall e, snd (f cm s) = Err (Fail e) -> is_trt_jit_oom e = false) /\
   embed_with_trt_retry f cm s = f cm s).
Proof.
  unfold embed_with_trt_retry. destruct (f cm s) as [s' [v|[|e]]]; simpl.
  - right. done.
  - right. done.
  - destruct (is_trt_jit_oom e) eqn:Hoom.
    + left. exists e. split_and!; try done; simpl.
      * intros r ->. by rewrite rejection_not_oom in Hoom.
      * lia.
      * pose proof (Z.mul_div_le (max_workspace_bytes cm) 2 ltac:(lia)).
        intros Hb. assert (1048576 <= max_workspace_bytes cm / 2) by (apply Z.div_le_lower_bound; lia).
        lia.
    + right. split; [by intros ? [= <-]|done].
Qed.
