(* ===== verification/WorkerGuard.v ===== *)
(** * Inference outcomes of a worker

    [src/embedder/worker/config.rs], [guard.rs] and [propagation.rs]: the
    configuration the workers share, the per-request JIT guard, the
    classification of a result and the circuit-breaker counter, the post-inference
    path of the three routes, and the drain of the engine-propagation broadcast. *)

From S2P Require Import Prelude Float RustStr BinPack JitGuard TrtCache Types Pipeline TrtWarmup Retry.

(** ** Configuration *)

(** The atomics and channels are not part of it but of [Shared]; the two senders
    are represented by whether they are present. *)
Record WorkerConfig := {
  idle_timeout : option Z;
  model_variant : ModelVariant;
  max_seq_length : Z;
  intra_threads : Z;
  ep : EpSelection;
  trt_warmup_shapes : list shape;
  device_id : Z;
  gpu_count : Z;
  trt_max_workspace_bytes : option Z;
  gpu_mem_limit_bytes : option Z;
  jit_suspect_tx : bool;
  engine_propagation_tx : bool;
  prewarm_strict : bool;
  circuit_breaker_threshold : Z;
  trt_inband_jit_guard_enabled : bool;
  trt_inband_jit_guard_seq : Z;
  trt_cache_gc_enabled : bool;
}.

(** What the workers of a pool share: the counters, the [ArcSwap] of the cost
    model, the JIT-suspect queue of bounded capacity and the shapes broadcast so
    far. *)
Record Shared := {
  live_workers : Z;
  loaded_workers : Z;
  cost_model : CostModel;
  warmed_seq_ceiling : Z;
  suspects : list shape;
  suspect_capacity : nat;
  broadcasts : list shape;
}.

Definition set_live (v : Z) (sh : Shared) : Shared :=
  {| live_workers := v; loaded_workers := loaded_workers sh; cost_model := cost_model sh;
     warmed_seq_ceiling := warmed_seq_ceiling sh; suspects := suspects sh;
     suspect_capacity := suspect_capacity sh; broadcasts := broadcasts sh |}.
Definition set_loaded (v : Z) (sh : Shared) : Shared :=
  {| live_workers := live_workers sh; loaded_workers := v; cost_model := cost_model sh;
     warmed_seq_ceiling := warmed_seq_ceiling sh; suspects := suspects sh;
     suspect_capacity := suspect_capacity sh; broadcasts := broadcasts sh |}.

(** [loaded_workers.fetch_add(1)], [fetch_sub(1)]: they wrap. *)
Definition loaded_add (sh : Shared) : Shared := set_loaded (wrap64 (loaded_workers sh + 1)) sh.
Definition loaded_sub (sh : Shared) : Shared := set_loaded (wrap64 (loaded_workers sh - 1)) sh.

(** [warmed_seq_ceiling.fetch_max(v)] *)
Definition raise_ceiling (v : Z) (sh : Shared) : Shared :=
  {| live_workers := live_workers sh; loaded_workers := loaded_workers sh;
     cost_model := cost_model sh; warmed_seq_ceiling := Z.max (warmed_seq_ceiling sh) v;
     suspects := suspects sh; suspect_capacity := suspect_capacity sh;
     broadcasts := broadcasts sh |}.

(** [jit_suspect_tx.try_send(x)]: dropped when the queue is full. *)
Definition suspect_try_send (x : shape) (sh : Shared) : Shared :=
  if Nat.ltb (length (suspects sh)) (suspect_capacity sh) then
    {| live_workers := live_workers sh; loaded_workers := loaded_workers sh;
       cost_model := cost_model sh; warmed_seq_ceiling := warmed_seq_ceiling sh;
       suspects := suspects sh ++ [x]; suspect_capacity := suspect_capacity sh;
       broadcasts := broadcasts sh |}
  else sh.

(** [engine_propagation_tx.send(x)] *)
Definition broadcast_send (x : shape) (sh : Shared) : Shared :=
  {| live_workers := live_workers sh; loaded_workers := loaded_workers sh;
     cost_model := cost_model sh; warmed_seq_ceiling := warmed_seq_ceiling sh;
     suspects := suspects sh; suspect_capacity := suspect_capacity sh;
     broadcasts := broadcasts sh ++ [x] |}.

(** [Drop for WorkerGuard]: the new state and whether the pool is degraded. *)
Definition worker_guard_drop (sh : Shared) : Shared * bool :=
  let prev := live_workers sh in
  (set_live (wrap64 (prev - 1)) sh, sat_sub prev 1 =? 0).

Definition build_shape_guard (config : WorkerConfig) (sh : Shared) : option TrtJitGuard :=
  if bool_decide (ep config = TensorRt) && trt_inband_jit_guard_enabled config
  then Some (guard_new (trt_inband_jit_guard_seq config) (warmed_seq_ceiling sh))
  else None.

(** ** Outcomes *)

Inductive InferenceOutcome := IOk | IFailure | ITrtFatal | ICircuitBreak | IRejected.
#[export] Instance InferenceOutcome_eq_dec : EqDecision InferenceOutcome.
Proof. solve_decision. Defined.

Definition classify_inference_outcome (trt_fatal guard_rejected is_err : bool)
    (consecutive_failures circuit_breaker_threshold : Z) : InferenceOutcome :=
  if trt_fatal then ITrtFatal
  else if guard_rejected then IRejected
  else if is_err then
    let next_failures := wrap64 (consecutive_failures + 1) in
    if circuit_breaker_threshold <=? next_failures then ICircuitBreak else IFailure
  else IOk.

Definition next_consecutive_failures (outcome : InferenceOutcome) (consecutive_failures : Z) : Z :=
  match outcome with
  | IOk | ICircuitBreak => 0
  | IFailure => wrap64 (consecutive_failures + 1)
  | ITrtFatal | IRejected => consecutive_failures
  end.

Definition should_unload_on_outcome (outcome : InferenceOutcome) : bool :=
  match outcome with ICircuitBreak => true | _ => false end.

Definition adaptive_warmup_non_trt_compile_ms : Z := 0.

(** ** After an inference *)

(** [log_inference_complete]: the shape broadcast, if any. *)
Definition log_inference_complete (stats : EmbedStats) (config : WorkerConfig) (batch_len : Z)
    (sh : Shared) : option shape * Shared :=
  if inference_ms stats <? CHUNK_CACHE_HIT_THRESHOLD_MS then (None, sh)
  else
    let x := (batch_len, max_chunk_seq stats) in
    let sh1 := if jit_suspect_tx config then suspect_try_send x sh else sh in
    if engine_propagation_tx config then (Some x, broadcast_send x sh1) else (None, sh1).

Definition is_anyhow_err {T} (p : anyhow -> bool) (r : result anyhow T) : bool :=
  match r with Err e => p e | Ok _ => false end.

(** [finalize_embed_route]: the reply is the result itself. *)
Definition finalize_embed_route {T} (config : WorkerConfig) (consecutive_failures batch_len : Z)
    (r : result anyhow (list T * EmbedStats)) (warmed_local : gset shape) (sh : Shared)
  : InferenceOutcome * gset shape * Shared :=
  let guard_rejected := is_anyhow_err is_trt_shape_rejected r in
  let trt_fatal := is_anyhow_err is_trt_engine_build_fatal r in
  let '(warmed_local', sh') :=
    match r with
    | Ok (_, stats) =>
        let '(x, sh') := log_inference_complete stats config batch_len sh in
        (match x with Some x => {[ x ]} ∪ warmed_local | None => warmed_local end, sh')
    | Err _ => (warmed_local, sh)
    end in
  (classify_inference_outcome trt_fatal guard_rejected (is_err r)
     consecutive_failures (circuit_breaker_threshold config), warmed_local', sh').

(** ** Engine propagation *)

(** What [try_recv] yields before [Empty] or [Closed]. *)
Inductive recv := RShape (x : shape) | RLagged (n : Z).

Fixpoint drain_engine_propagation {S} (prewarm : S -> shape -> S) (rx : list recv)
    (warmed_local : gset shape) (s : S) : gset shape * S :=
  match rx with
  | [] => (warmed_local, s)
  | RLagged _ :: rest => drain_engine_propagation prewarm rest warmed_local s
  | RShape x :: rest =>
      if bool_decide (x ∈ warmed_local) then drain_engine_propagation prewarm rest warmed_local s
      else drain_engine_propagation prewarm rest ({[ x ]} ∪ warmed_local) (prewarm s x)
  end.

(** ** Lemmas *)

(** The counter stays below the threshold (below 1 for threshold 0). *)
Lemma failures_below o fatal rej err c t :
  0 <= t <= U64_MAX -> 0 <= c < Z.max 1 t ->
  o = classify_inference_outcome fatal rej err c t ->
  0 <= next_consecutive_failures o c < Z.max 1 t.
Proof.
  intros Ht Hc ->. assert (Hu : usize (c + 1)) by (unfold usize, U64_MAX in *; lia).
  unfold classify_inference_outcome.
  destruct fatal, rej, err; simpl; try lia.
  rewrite wrap64_small by done. case_if; bool_to_prop; simpl; [lia|].
  rewrite wrap64_small by done. lia.
Qed.

Lemma drain_spec {S} (prewarm : S -> shape -> S) rx warmed_local s :
  let shapes := omap (fun r => match r with RShape x => Some x | RLagged _ => None end) rx in
  exists fresh,
    drain_engine_propagation prewarm rx warmed_local s
    = (list_to_set shapes ∪ warmed_local, foldl prewarm s fresh) /\
    NoDup fresh /\ (forall x, x ∈ fresh <-> x ∈ shapes /\ x ∉ warmed_local).
Proof.
  revert warmed_local s. induction rx as [|[x|n] rx IH]; intros wl s; simpl.
  - exists []. split_and!; [f_equal; set_solver|apply NoDup_nil_2|set_solver].
  - case_bool_decide as Hin.
    + destruct (IH wl s) as (fresh & -> & Hnd & Hf). exists fresh.
      split_and!; [f_equal; set_solver|done|]. intros y. rewrite Hf. set_solver.
    + destruct (IH ({[x]} ∪ wl) (prewarm s x)) as (fresh & -> & Hnd & Hf). exists (x :: fresh).
      split_and!; [f_equal; set_solver| |].
      * apply NoDup_cons. split; [|done]. rewrite Hf. set_solver.
      * intros y. rewrite elem_of_cons, Hf. destruct (decide (y = x)); set_solver.
  - apply IH.
Qed.
