(* ===== verification/Worker.v ===== *)
(** * The worker thread

    [src/embedder/worker/startup.rs], [dispatch.rs] and [run.rs]: the start-up
    sequence, the dispatch of one request, and the request loop as a step function
    over what the loop receives (a request, a closed channel, an idle timeout). *)

From S2P Require Import Prelude Float RustStr BinPack JitGuard TrtCache Types Pipeline TrtWarmup Retry WorkerGuard.

(** ** Requests and replies *)

Inductive EmbedRequest :=
| ReqDense (texts : list string)
| ReqSparse (texts : list string)
| ReqBoth (texts : list string)
| ReqProbe (texts : list string)
| ReqAdaptiveWarmup (batch seq : Z).

(** What is sent on the reply channel of a request. *)
Inductive Reply :=
| RepDense (r : result anyhow (list (list f32) * EmbedStats))
| RepSparse (r : result anyhow (list SparseEmbedding * EmbedStats))
| RepBoth (r : result anyhow (list DualEmbedding * EmbedStats))
| RepProbe (r : result anyhow ProbeResult)
| RepAdaptiveWarmup (r : result anyhow Z).

(** The reply is of the kind the request waits for. *)
Definition answers (req : EmbedRequest) (rep : Reply) : Prop :=
  match req, rep with
  | ReqDense _, RepDense _ | ReqSparse _, RepSparse _ | ReqBoth _, RepBoth _
  | ReqProbe _, RepProbe _ | ReqAdaptiveWarmup _ _, RepAdaptiveWarmup _ => True
  | _, _ => False
  end.

Definition reply_request_load_error (req : EmbedRequest) (err : anyhow) : Reply :=
  match req with
  | ReqDense _ => RepDense (Err err)
  | ReqSparse _ => RepSparse (Err err)
  | ReqBoth _ => RepBoth (Err err)
  | ReqProbe _ => RepProbe (Err err)
  | ReqAdaptiveWarmup _ _ => RepAdaptiveWarmup (Err err)
  end.

Section worker.
Context `{KeySort nat} {Session Output : Type} `{Runtime Session Output} `{WorkerWorld Session}.

(** ** Dispatch *)

(** The outcome of a dispatch: [d_reply] is [None] when the reply channel was
    already closed and nothing was computed. *)
Record Dispatched := {
  d_session : Session;
  d_outcome : InferenceOutcome;
  d_skip : bool;
  d_warmed : gset shape;
  d_shared : Shared;
  d_reply : option Reply;
}.

(** One embedding route; [None] is a panic of the process. *)
Definition embed_route {T} (embed : CostModel -> Session -> Session * M (list T * EmbedStats))
    (msg : string) (mk : result anyhow (list T * EmbedStats) -> Reply) (closed : bool)
    (config : WorkerConfig) (batch_len : Z) (consecutive_failures : Z)
    (s : Session) (warmed_local : gset shape) (sh : Shared) : option Dispatched :=
  if closed then
    Some {| d_session := s; d_outcome := IOk; d_skip := true; d_warmed := warmed_local;
            d_shared := sh; d_reply := None |}
  else
    let '(s', r) := embed_with_trt_retry embed (cost_model sh) s in
    let finish (r : result anyhow (list T * EmbedStats)) :=
      let '(outcome, wl, sh') :=
        finalize_embed_route config consecutive_failures batch_len r warmed_local sh in
      Some {| d_session := s'; d_outcome := outcome; d_skip := false; d_warmed := wl;
              d_shared := sh'; d_reply := Some (mk r) |} in
    match r with
    | Ok v => finish (Ok v)
    | Err (Fail e) => finish (Err (context msg e))
    | Err Panic => None
    end.

Definition warmup_failed_msg (batch seq : Z) (id : nat) : string :=
  "adaptive warmup: no shapes warmed for (" +:+ show batch +:+ ", " +:+ show seq
  +:+ ") on worker " +:+ show (Z.of_nat id).

Definition dispatch_request (request : EmbedRequest) (closed : bool) (config : WorkerConfig)
    (id : nat) (detected_sm : option string) (consecutive_failures : Z)
    (shape_guard : option TrtJitGuard)
    (s : Session) (warmed_local : gset shape) (sh : Shared) : option Dispatched :=
  let v := model_variant config in
  match request with
  | ReqDense texts =>
      embed_route (fun cm s => embed_dense s texts cm v shape_guard) "Dense embed error" RepDense
        closed config (Z.of_nat (length texts)) consecutive_failures s warmed_local sh
  | ReqSparse texts =>
      embed_route (fun cm s => embed_sparse s texts cm v shape_guard) "Sparse embed error" RepSparse
        closed config (Z.of_nat (length texts)) consecutive_failures s warmed_local sh
  | ReqBoth texts =>
      embed_route (fun cm s => embed_both s texts cm v shape_guard) "Dual embed error" RepBoth
        closed config (Z.of_nat (length texts)) consecutive_failures s warmed_local sh
  | ReqProbe texts =>
      let '(s', r) := run_probe_batch s texts in
      let done_ (r : result anyhow ProbeResult) :=
        Some {| d_session := s'; d_outcome := IOk; d_skip := false; d_warmed := warmed_local;
                d_shared := sh; d_reply := Some (RepProbe r) |} in
      match r with
      | Ok p => done_ (Ok p)
      | Err (Fail e) => done_ (Err e)
      | Err Panic => None
      end
  | ReqAdaptiveWarmup batch seq =>
      if bool_decide (ep config = TensorRt) then
        let '(s', stats) := trt_prewarm s [(batch, seq)] detected_sm in
        if (0 <? warmed stats) || fully_cached stats then
          Some {| d_session := s'; d_outcome := IOk; d_skip := false; d_warmed := warmed_local;
                  d_shared := raise_ceiling (Z.max (max_warmed_seq stats) seq) sh;
                  d_reply := Some (RepAdaptiveWarmup (Ok (total_compile_ms stats))) |}
        else
          Some {| d_session := s'; d_outcome := IOk; d_skip := false; d_warmed := warmed_local;
                  d_shared := sh;
                  d_reply := Some (RepAdaptiveWarmup
                               (Err (anyhow_msg (warmup_failed_msg batch seq id)))) |}
      else
        Some {| d_session := s; d_outcome := IOk; d_skip := false; d_warmed := warmed_local;
                d_shared := sh;
                d_reply := Some (RepAdaptiveWarmup (Ok adaptive_warmup_non_trt_compile_ms)) |}
  end.

(** ** The request loop *)

Record Worker := {
  models : option Session;
  warmed_local : gset shape;
  consecutive_failures : Z;
  detected_sm : option string;
}.

(** What one iteration receives.  [EvRequest] carries whether the reply channel
    is closed at dispatch and the outcome a reload would have. *)
Inductive Event :=
| EvTimeout
| EvClosed
| EvRequest (req : EmbedRequest) (closed : bool) (load : result anyhow Session).

Inductive Status := Running | Exited (r : result anyhow unit) | Aborted.

Record Stepped := {
  s_worker : Worker;
  s_shared : Shared;
  s_reply : option Reply;
  s_status : Status;
}.

Definition with_models (m : option Session) (w : Worker) : Worker :=
  {| models := m; warmed_local := warmed_local w;
     consecutive_failures := consecutive_failures w; detected_sm := detected_sm w |}.

(** The prewarm closure of the drain. *)
Definition propagate (sm : option string) (acc : Session * Shared) (x : shape) : Session * Shared :=
  let '(s, sh) := acc in
  let '(s', stats) := trt_prewarm s [x] sm in
  (s', if (0 <? warmed stats) || fully_cached stats
       then raise_ceiling (Z.max (max_warmed_seq stats) (snd x)) sh else sh).

(** The head of an iteration: peers' engine notifications. *)
Definition drain_step (config : WorkerConfig) (rx : list recv) (w : Worker) (sh : Shared)
  : Worker * Shared :=
  match models w with
  | Some s =>
      if bool_decide (ep config = TensorRt) && engine_propagation_tx config then
        let '(wl, (s', sh')) :=
          drain_engine_propagation (propagate (detected_sm w)) rx (warmed_local w) (s, sh) in
        ({| models := Some s'; warmed_local := wl;
            consecutive_failures := consecutive_failures w; detected_sm := detected_sm w |}, sh')
      else (w, sh)
  | None => (w, sh)
  end.

(** The tiny run that primes the arena of a fresh session; its failure is only
    logged. *)
Definition prime (s : Session) : Session := fst (probe_run_dense s (filled 0 (1, 8)) (filled 1 (1, 8))).

(** Leaving [run_worker] drops the [WorkerGuard]. *)
Definition exit_worker (w : Worker) (sh : Shared) (reply : option Reply) (r : result anyhow unit)
  : Stepped :=
  {| s_worker := w; s_shared := fst (worker_guard_drop sh); s_reply := reply; s_status := Exited r |}.

Definition fatal_msg (id : nat) : string :=
  "Worker " +:+ show (Z.of_nat id) +:+ " hit fatal TRT engine build error; exiting".

(** The rest of a request once the models are there. *)
Definition serve_request (id : nat) (config : WorkerConfig) (req : EmbedRequest) (closed : bool)
    (s : Session) (w : Worker) (sh : Shared) : Stepped :=
  let shape_guard := build_shape_guard config sh in
  match dispatch_request req closed config id (detected_sm w) (consecutive_failures w)
          shape_guard s (warmed_local w) sh with
  | None => {| s_worker := w; s_shared := sh; s_reply := None; s_status := Aborted |}
  | Some d =>
      let w1 := {| models := Some (d_session d); warmed_local := d_warmed d;
                   consecutive_failures := consecutive_failures w;
                   detected_sm := detected_sm w |} in
      if d_skip d then
        {| s_worker := w1; s_shared := d_shared d; s_reply := d_reply d; s_status := Running |}
      else
        let w2 := {| models := Some (d_session d); warmed_local := d_warmed d;
                     consecutive_failures :=
                       next_consecutive_failures (d_outcome d) (consecutive_failures w);
                     detected_sm := detected_sm w |} in
        if bool_decide (d_outcome d = ITrtFatal) then
          exit_worker w2 (d_shared d) (d_reply d) (Err (anyhow_msg (fatal_msg id)))
        else if should_unload_on_outcome (d_outcome d) then
          {| s_worker := with_models None w2; s_shared := loaded_sub (d_shared d);
             s_reply := d_reply d; s_status := Running |}
        else {| s_worker := w2; s_shared := d_shared d; s_reply := d_reply d; s_status := Running |}
  end.

(** One iteration of the loop. *)
Definition worker_step (id : nat) (config : WorkerConfig) (rx : list recv) (ev : Event)
    (w0 : Worker) (sh0 : Shared) : Stepped :=
  let '(w, sh) := drain_step config rx w0 sh0 in
  match ev with
  | EvTimeout =>
      {| s_worker := with_models None w; s_shared := loaded_sub sh; s_reply := None;
         s_status := Running |}
  | EvClosed =>
      exit_worker w (if bool_decide (is_Some (models w)) then loaded_sub sh else sh) None (Ok tt)
  | EvRequest req closed load =>
      match models w with
      | Some s => serve_request id config req closed s w sh
      | None =>
          match load with
          | Ok m => serve_request id config req closed (prime m) (with_models (Some (prime m)) w)
                      (loaded_add sh)
          | Err e =>
              {| s_worker := w; s_shared := sh;
                 s_reply := Some (reply_request_load_error req
                              (anyhow_msg ("Model reload failed: " +:+ display e)));
                 s_status := Running |}
          end
      end
  end.

(** The timeout branch exists only while the models are loaded. *)
Definition event_enabled (config : WorkerConfig) (w : Worker) (ev : Event) : Prop :=
  match ev with
  | EvTimeout => is_Some (idle_timeout config) /\ is_Some (models w)
  | _ => True
  end.

(** ** Start-up *)

Definition detected_sm_for_ep (ep : EpSelection) (device_id : Z) : option string :=
  match ep with TensorRt => detect_sm_for_device nvidia_smi device_id | _ => None end.

Record Startup := {
  (** what was sent on [ready_tx] *)
  su_ready : option (result anyhow Z);
  su_result : result anyhow (Session * option string);
  su_shared : Shared;
}.

(** The stale-plan collection of the leader worker. *)
Definition startup_gc (id : nat) (config : WorkerConfig) (s : Session) : Session :=
  if Nat.eqb id 0 && trt_cache_gc_enabled config && negb (bool_decide (ep config = Cpu)) then
    match detect_sm_for_device nvidia_smi (device_id config) with
    | Some current_sm =>
        set_engine_dir s (snd (gc_stale_sm_plans (can_remove_file s) current_sm (can_reread_dir s)
                                 (engine_dir s)))
    | None => s
    end
  else s.

Definition prewarm_failed_msg (id : nat) (fresh after : Z) : string :=
  "Worker " +:+ show (Z.of_nat id) +:+ " prewarm postcondition failed (fresh_compiles="
  +:+ show fresh +:+ ", engine_count_after=" +:+ show after
  +:+ "); prewarm_strict=1: refusing to signal ready".

(** The outcome of the prewarm of a shard: the session with its plans, the ceiling
    raised, and the refusal to signal ready of the strict mode. *)
Definition startup_prewarm (id : nat) (config : WorkerConfig) (s : Session) (sm : option string)
    (sh : Shared) : Session * Shared * result anyhow () :=
  if bool_decide (ep config = TensorRt) && negb (bool_decide (trt_warmup_shapes config = [])) then
    let '(s2, stats) := trt_prewarm s (trt_warmup_shapes config) sm in
    (s2, raise_ceiling (max_warmed_seq stats) sh,
     if should_fail_readiness (fresh_compiles stats) (engine_count_after stats) (prewarm_strict config)
     then Err (anyhow_msg (prewarm_failed_msg id (fresh_compiles stats) (engine_count_after stats)))
     else Ok tt)
  else (s, sh, Ok tt).

(** [load] is the outcome of [load_models]; [rss0] the RSS read before it. *)
Definition startup_worker (id : nat) (config : WorkerConfig) (rss0 : option Z)
    (load : result anyhow Session) (sh : Shared) : Startup :=
  let pre_load_rss := unwrap_or rss0 0 in
  match load with
  | Err e =>
      {| su_ready := Some (Err (anyhow_msg ("Worker " +:+ show (Z.of_nat id)
                                            +:+ " failed to load: " +:+ display e)));
         su_result := Err e; su_shared := sh |}
  | Ok loaded =>
      let s1 := startup_gc id config (prime loaded) in
      let sm := detected_sm_for_ep (ep config) (device_id config) in
      let '(s2, sh', prewarmed) := startup_prewarm id config s1 sm sh in
      match prewarmed with
      | Err e => {| su_ready := None; su_result := Err e; su_shared := sh' |}
      | Ok _ =>
          let post_load_rss := unwrap_or (read_process_rss_bytes s2) pre_load_rss in
          {| su_ready := Some (Ok (sat_sub post_load_rss pre_load_rss));
             su_result := Ok (s2, sm); su_shared := sh' |}
      end
  end.

(** The worker that enters the loop. *)
Definition fresh_worker (s : Session) (sm : option string) : Worker :=
  {| models := Some s; warmed_local := ∅; consecutive_failures := 0; detected_sm := sm |}.
End worker.
Arguments Worker : clear implicits.
Arguments Stepped : clear implicits.
Arguments Event : clear implicits.

(** ** What a step does to the shared state *)

(** Everything but the queues is kept, and the ceiling only rises. *)
Record shared_le (a b : Shared) : Prop := {
  le_live : live_workers b = live_workers a;
  le_loaded : loaded_workers b = loaded_workers a;
  le_cost : cost_model b = cost_model a;
  le_ceiling : WorkerGuard.warmed_seq_ceiling a <= WorkerGuard.warmed_seq_ceiling b;
  le_capacity : suspect_capacity b = suspect_capacity a;
}.

#[export] Instance shared_le_preorder : PreOrder shared_le.
Proof.
  split; [by split|]. intros a b c [] []. split; congruence || lia.
Qed.

Lemma raise_ceiling_le v sh : shared_le sh (raise_ceiling v sh).
Proof. split; simpl; done || lia. Qed.

Lemma suspect_le x sh : shared_le sh (suspect_try_send x sh).
Proof. unfold suspect_try_send. case_if; by split. Qed.

Lemma broadcast_le x sh : shared_le sh (broadcast_send x sh).
Proof. by split. Qed.

Lemma log_complete_le stats config n sh : shared_le sh (snd (log_inference_complete stats config n sh)).
Proof.
  unfold log_inference_complete. case_if; [done|].
  destruct (jit_suspect_tx config), (engine_propagation_tx config); simpl;
    first [apply suspect_le | done | apply broadcast_le |
           etrans; [apply suspect_le|apply broadcast_le]].
Qed.

Lemma finalize_spec {T} config cf n (r : result anyhow (list T * EmbedStats)) wl sh :
  let '(o, wl', sh') := finalize_embed_route config cf n r wl sh in
  shared_le sh sh' /\ wl ⊆ wl' /\
  o = classify_inference_outcome (is_anyhow_err is_trt_engine_build_fatal r)
        (is_anyhow_err is_trt_shape_rejected r) (is_err r) cf (circuit_breaker_threshold config).
Proof.
  unfold finalize_embed_route. destruct r as [[v stats]|e]; [|done].
  pose proof (log_complete_le stats config n sh) as Hle.
  destruct (log_inference_complete stats config n sh) as [[x|] sh'] eqn:Hl; simpl in *;
    split_and!; try done; set_solver.
Qed.

Section worker_lemmas.
Context `{KeySort nat} {Session Output : Type} `{Runtime Session Output} `{WorkerWorld Session}.

Lemma embed_route_spec {T} embed msg (mk : result anyhow (list T * EmbedStats) -> Reply) closed
    config n cf (s : Session) wl sh d :
  embed_route embed msg mk closed config n cf s wl sh = Some d ->
  shared_le sh (d_shared d) /\
  (if closed then d_skip d = true /\ d_reply d = None
   else d_skip d = false /\ exists r, d_reply d = Some (mk r) /\
     d_outcome d = classify_inference_outcome (is_anyhow_err is_trt_engine_build_fatal r)
        (is_anyhow_err is_trt_shape_rejected r) (is_err r) cf (circuit_breaker_threshold config)).
Proof.
  unfold embed_route. destruct closed; [by intros [= <-]|].
  destruct (embed_with_trt_retry _ _ _) as [s' [v|[|e]]]; [| done|].
  - pose proof (finalize_spec config cf n (Ok v : result anyhow (list T * EmbedStats)) wl sh) as Hf.
    destruct (finalize_embed_route _ _ _ _ _ _) as [[o wl'] sh'].
    intros [= <-]. destruct Hf as (Hle & _ & ->). simpl. split_and!; [done..|]. by exists (Ok v).
  - pose proof (finalize_spec config cf n (Err (context msg e) : result anyhow (list T * EmbedStats))
      wl sh) as Hf.
    destruct (finalize_embed_route _ _ _ _ _ _) as [[o wl'] sh'].
    intros [= <-]. destruct Hf as (Hle & _ & ->). simpl. split_and!; [done..|]. by exists (Err (context msg e)).
Qed.

Definition is_embed (req : EmbedRequest) : bool :=
  match req with ReqDense _ | ReqSparse _ | ReqBoth _ => true | _ => false end.

Lemma dispatch_spec req closed config id sm cf guard (s : Session) wl sh d :
  dispatch_request req closed config id sm cf guard s wl sh = Some d ->
  shared_le sh (d_shared d) /\
  (if is_embed req && closed then d_skip d = true /\ d_reply d = None
   else d_skip d = false /\ (exists rep, d_reply d = Some rep /\ answers req rep) /\
     exists fatal rej err,
       d_outcome d = classify_inference_outcome fatal rej err cf (circuit_breaker_threshold config)).
Proof.
  destruct req as [t|t|t|t|b q]; cbn [dispatch_request is_embed andb].
  1-3: intros Hd%embed_route_spec; destruct Hd as [Hle Hd]; split; [done|]; destruct closed;
    [done|]; destruct Hd as (Hs & r & Hr & Ho); split_and!; [done|by eexists|by do 3 eexists].
  - destruct (run_probe_batch s t) as [s' [p|[|e]]]; [|done|]; intros [= <-]; simpl;
      (split; [done|]; split; [done|]; split; [by eexists|]; by exists false, false, false).
  - case_bool_decide; [destruct (trt_prewarm s [(b, q)] sm) as [s' stats]; case_if|];
      intros [= <-]; simpl; (split; [apply raise_ceiling_le || done|]; split; [done|];
        split; [by eexists|]; by exists false, false, false).
Qed.

Lemma propagate_le sm x acc : shared_le (snd acc) (snd (propagate sm acc x)).
Proof.
  destruct acc as [s sh]. unfold propagate. destruct (trt_prewarm s [x] sm) as [s' stats]. simpl.
  case_if; [apply raise_ceiling_le|done].
Qed.

Lemma foldl_propagate_le sm l acc : shared_le (snd acc) (snd (foldl (propagate sm) acc l)).
Proof.
  revert acc. induction l as [|x l IH]; intros acc; simpl; [done|].
  etrans; [apply (propagate_le sm x)|apply IH].
Qed.

Lemma drain_step_spec config rx (w : Worker Session) sh w' sh' :
  drain_step config rx w sh = (w', sh') ->
  shared_le sh sh' /\ (is_Some (models w') <-> is_Some (models w)) /\
  consecutive_failures w' = consecutive_failures w /\ detected_sm w' = detected_sm w.
Proof.
  unfold drain_step. destruct (models w) as [s|] eqn:Hm; [|intros [= <- <-]; by rewrite Hm].
  case_if; [|intros [= <- <-]; by rewrite Hm].
  destruct (drain_spec (propagate (detected_sm w)) rx (warmed_local w) (s, sh))
    as (fresh & -> & _). destruct (foldl _ _ _) as [s1 sh1] eqn:Hf.
  intros [= <- <-]. simpl. split; [|by split_and!].
  pose proof (foldl_propagate_le (detected_sm w) fresh (s, sh)) as Hle. by rewrite Hf in Hle.
Qed.

(** Whether a worker counts as loaded. *)
Definition loadedz (w : Worker Session) : Z :=
  match models w with Some _ => 1 | None => 0 end.

(** The step seen from outside: the counters, the replies, the breaker. *)
Record step_ok (config : WorkerConfig) (ev : Event Session) (w : Worker Session) (sh : Shared)
    (st : Stepped Session) : Prop := {
  ok_ceiling : WorkerGuard.warmed_seq_ceiling sh <= WorkerGuard.warmed_seq_ceiling (s_shared st);
  ok_running : s_status st = Running ->
    live_workers (s_shared st) = live_workers sh /\
    counter_moves (loaded_workers sh) (loaded_workers (s_shared st))
      (loadedz (s_worker st) - loadedz w);
  ok_exit r : s_status st = Exited r ->
    live_workers (s_shared st) = wrap64 (live_workers sh - 1) /\
    counter_moves (loaded_workers sh) (loaded_workers (s_shared st))
      ((if is_err r then 1 else 0) - loadedz w);
  ok_failures :
    0 <= circuit_breaker_threshold config <= U64_MAX ->
    0 <= consecutive_failures w < Z.max 1 (circuit_breaker_threshold config) ->
    0 <= consecutive_failures (s_worker st) < Z.max 1 (circuit_breaker_threshold config);
  ok_reply : s_status st <> Aborted ->
    match ev with
    | EvRequest req closed _ =>
        (exists rep, s_reply st = Some rep /\ answers req rep) \/
        (s_reply st = None /\ closed = true /\ is_embed req = true)
    | _ => s_reply st = None
    end;
}.

Lemma loaded_add_le sh : live_workers (loaded_add sh) = live_workers sh.
Proof. done. Qed.

Lemma serve_request_ok id config req closed load (s : Session) w sh :
  is_Some (models w) -> 
  step_ok config (EvRequest req closed load) w sh (serve_request id config req closed s w sh).
Proof.
  intros [s0 Hm]. unfold serve_request.
  destruct (dispatch_request _ _ _ _ _ _ _ _ _ _) as [d|] eqn:Hd.
  2: { split; simpl; done || lia. }
  apply dispatch_spec in Hd as [[Hlive Hload _ Hceil _] Hd].
  assert (Hw : loadedz w = 1) by (unfold loadedz; by rewrite Hm).
  destruct (d_skip d) eqn:Hskip.
  - split; simpl; try done.
    + intros _. rewrite Hlive, Hload, Hw. split; [done|]. apply moves_refl.
    + intros _. destruct (is_embed req && closed) eqn:Hc; [|naive_solver].
      apply andb_true_iff in Hc as [? ?]. right. naive_solver.
  - destruct (is_embed req && closed) eqn:Hc; [naive_solver|].
    destruct Hd as (_ & Hrep & fatal & rej & err & Ho).
    assert (Hcf : 0 <= circuit_breaker_threshold config <= U64_MAX ->
      0 <= consecutive_failures w < Z.max 1 (circuit_breaker_threshold config) ->
      0 <= next_consecutive_failures (d_outcome d) (consecutive_failures w)
        < Z.max 1 (circuit_breaker_threshold config)).
    { intros Ht Hcf. by eapply failures_below. }
    case_bool_decide as Hfat; [|destruct (should_unload_on_outcome _)]; split; simpl; try done.
    + intros r [= <-]. rewrite Hlive, Hload, Hw. split; [done|]. apply moves_refl.
    + intros _. by left.
    + intros _. rewrite Hlive, Hload, Hw. split; [done|]. apply (moves_by _ (-1)).
    + intros _. by left.
    + intros _. rewrite Hlive, Hload, Hw. split; [done|]. apply moves_refl.
    + intros _. by left.
Qed.

Lemma step_ok_from config ev (w w1 : Worker Session) sh sh1 st :
  shared_le sh sh1 -> loadedz w1 = loadedz w ->
  consecutive_failures w1 = consecutive_failures w ->
  step_ok config ev w1 sh1 st -> step_ok config ev w sh st.
Proof.
  intros [Hlive Hload _ Hceil _] Hlz Hcf [Hc Hr He Hf Hrep]. rewrite Hcf in Hf.
  split; try done; [lia|..].
  - intros Hs. specialize (Hr Hs). by rewrite Hlive, Hload, Hlz in Hr.
  - intros r Hs. specialize (He r Hs). by rewrite Hlive, Hload, Hlz in He.
Qed.

Lemma worker_step_ok id config rx ev (w : Worker Session) sh :
  event_enabled config w ev -> step_ok config ev w sh (worker_step id config rx ev w sh).
Proof.
  intros Hen. unfold worker_step. destruct (drain_step config rx w sh) as [w1 sh1] eqn:Hd.
  apply drain_step_spec in Hd as (Hle & Hmod & Hcf & _).
  assert (Hlz : loadedz w1 = loadedz w).
  { unfold loadedz. destruct (models w1), (models w); try done; exfalso;
      [destruct (proj1 Hmod) as [? ?]|destruct (proj2 Hmod) as [? ?]]; eauto; done. }
  apply (step_ok_from _ _ _ w1 _ sh1); [done..|]. destruct ev as [| |req closed load].
  - destruct Hen as [_ Hm%Hmod]. split; simpl; try done.
    intros _. split; [done|]. unfold loadedz. simpl. destruct Hm as [s ->]. apply (moves_by _ (-1)).
  - split; simpl; try done; case_bool_decide as Hm; try done.
    + intros r [= <-]. split; [done|]. unfold loadedz. destruct Hm as [s ->]. apply (moves_by _ (-1)).
    + intros r [= <-]. split; [done|]. unfold loadedz.
      destruct (models w1); [exfalso; apply Hm; eauto|]. apply moves_refl.
  - destruct (models w1) as [s|] eqn:Hm; [apply serve_request_ok; eauto|].
    destruct load as [m|e].
    + destruct (serve_request_ok id config req closed (Ok m) (prime m)
        (with_models (Some (prime m)) w1) (loaded_add sh1) ltac:(by eexists)) as [Hc Hr He Hf Hrep].
      assert (Hadd : forall b k, counter_moves (loaded_workers (loaded_add sh1)) b (k - 1) ->
        counter_moves (loaded_workers sh1) b (k - loadedz w1)).
      { intros b k Hk. unfold loadedz. rewrite Hm. replace (k - 0) with (1 + (k - 1)) by lia.
        eapply moves_trans; [|exact Hk]. apply moves_by. }
      split; try done.
      * intros Hs. destruct (Hr Hs) as [? Hn]. split; [done|]. by apply Hadd.
      * intros r Hs. destruct (He r Hs) as [? Hn]. split; [done|]. by apply Hadd.
    + split; simpl; try done.
      * intros _. split; [done|]. rewrite Z.sub_diag. apply moves_refl.
      * intros _. left. eexists. split; [done|]. by destruct req.
Qed.

(** Nothing a worker does changes the cost model. *)
Lemma serve_request_cost id config req closed (s : Session) w sh :
  cost_model (s_shared (serve_request id config req closed s w sh)) = cost_model sh.
Proof.
  unfold serve_request. destruct (dispatch_request _ _ _ _ _ _ _ _ _ _) as [d|] eqn:Hd; [|done].
  apply dispatch_spec in Hd as [Hle _]. apply le_cost in Hle.
  by repeat (case_match; simpl).
Qed.

Lemma worker_step_cost id config rx ev (w : Worker Session) sh :
  cost_model (s_shared (worker_step id config rx ev w sh)) = cost_model sh.
Proof.
  unfold worker_step. destruct (drain_step config rx w sh) as [w1 sh1] eqn:Hd.
  apply drain_step_spec in Hd as (Hle & _). rewrite <- (le_cost _ _ Hle).
  repeat case_match; simpl; by rewrite ?serve_request_cost.
Qed.
End worker_lemmas.

(** ** No step panics on a lawful runtime *)

Section lawful_worker.
Context `{KeySort nat} {Session Output : Type} `{RuntimeLaws Session Output} `{WorkerWorld Session}.

Lemma retry_no_panic {T} (f : CostModel -> Session -> Session * M T) cm s :
  (forall cm s, snd (f cm s) <> Err Panic) -> snd (embed_with_trt_retry f cm s) <> Err Panic.
Proof.
  intros Hf. unfold embed_with_trt_retry. pose proof (Hf cm s) as Hf0.
  destruct (f cm s) as [s' [v|[|e]]]; simpl in *; [done..|]. case_if; [apply Hf|done].
Qed.

Lemma embed_route_total {T} embed msg (mk : result anyhow (list T * EmbedStats) -> Reply) closed
    config n cf (s : Session) wl sh :
  (forall cm s, snd (embed cm s) <> Err Panic) ->
  is_Some (embed_route embed msg mk closed config n cf s wl sh).
Proof.
  intros Hf. unfold embed_route. destruct closed; [eauto|].
  pose proof (retry_no_panic embed (cost_model sh) s Hf) as Hr.
  destruct (embed_with_trt_retry _ _ _) as [s' [v|[|e]]]; simpl in *; [|done|];
    repeat case_match; eauto.
Qed.

Lemma probe_batch_no_panic (s : Session) texts : snd (run_probe_batch s texts) <> Err Panic.
Proof.
  unfold run_probe_batch. destruct (encode_batch texts) as [encs|e] eqn:He; [|done].
  set (pad := Z.max _ 1).
  assert (Hfit : rows_fit encs (seq 0 (length texts)) pad).
  { apply Forall_forall. intros i Hi%elem_of_seq. rewrite <- (encode_length _ _ He) in Hi.
    destruct (lookup_lt_is_Some_2 encs i ltac:(lia)) as [e Hei]. exists e. split; [done|]. split.
    - rewrite <- (len_at_seq_lengths _ _ _ Hei).
      assert (Hin : i ∈ seq 0 (length encs)) by (apply elem_of_seq; lia).
      assert (Hle : len_at (seq_lengths_of encs) i ∈ seq_lengths_of encs).
      { rewrite (len_at_seq_lengths _ _ _ Hei). unfold seq_lengths_of.
        apply list_elem_of_fmap. exists e. split; [done|]. by eapply list_elem_of_lookup_2. }
      unfold pad. destruct (max_of (seq_lengths_of encs)) as [m|] eqn:Hm.
      + apply max_of_Some in Hm as [_ Hm]. rewrite Forall_forall in Hm. specialize (Hm _ Hle).
        simpl. lia.
      + destruct (seq_lengths_of encs); [inversion Hle|done].
    - pose proof (encode_mask _ _ He) as Hmask. rewrite Forall_lookup in Hmask. by eapply Hmask. }
  rewrite build_chunk_arrays_ok by (done || unfold pad; lia).
  destruct (probe_run_dense s _ _) as [s' r]. simpl. by destruct r.
Qed.

Lemma dispatch_total req closed config `{!ModelExport Session Output (model_variant config)} id sm cf guard (s : Session) wl sh :
  is_Some (dispatch_request req closed config id sm cf guard s wl sh).
Proof.
  destruct req as [t|t|t|t|b q]; cbn [dispatch_request].
  - apply embed_route_total. intros cm s0. apply embed_with_no_panic; [apply (dense_safe (model_variant config)), export_copies|done].
  - apply embed_route_total. intros cm s0.
    apply embed_with_no_panic; [apply (token_safe (model_variant config))|apply finish_slots_safe].
  - apply embed_route_total. intros cm s0.
    apply embed_with_no_panic; [apply (both_safe (model_variant config)), export_copies|apply finish_slots_safe].
  - pose proof (probe_batch_no_panic s t) as Hp.
    destruct (run_probe_batch s t) as [s' [p|[|e]]]; simpl in *; eauto. done.
  - case_bool_decide; [|eauto]. destruct (trt_prewarm _ _ _) as [s' st]. case_if; eauto.
Qed.

Lemma serve_not_aborted id config `{!ModelExport Session Output (model_variant config)} req closed (s : Session) w sh :
  s_status (serve_request id config req closed s w sh) <> Aborted.
Proof.
  unfold serve_request.
  destruct (dispatch_total req closed config id (detected_sm w) (consecutive_failures w)
    (build_shape_guard config sh) s (warmed_local w) sh) as [d ->].
  destruct (d_skip d); [done|]. case_bool_decide; [done|]. by destruct (should_unload_on_outcome _).
Qed.

Lemma worker_not_aborted id config `{!ModelExport Session Output (model_variant config)} rx ev (w : Worker Session) sh :
  s_status (worker_step id config rx ev w sh) <> Aborted.
Proof.
  unfold worker_step. destruct (drain_step config rx w sh) as [w1 sh1].
  destruct ev as [| |req closed load]; [done|done|].
  destruct (models w1); [by apply serve_not_aborted|].
  destruct load; [by apply serve_not_aborted|done].
Qed.

(** The text of an embedding request. *)
Definition embed_texts (req : EmbedRequest) : option (list string) :=
  match req with ReqDense t | ReqSparse t | ReqBoth t => Some t | _ => None end.

Definition reply_error (rep : Reply) : option anyhow :=
  match rep with
  | RepDense (Err e) | RepSparse (Err e) | RepBoth (Err e)
  | RepProbe (Err e) | RepAdaptiveWarmup (Err e) => Some e
  | _ => None
  end.

Lemma refused_route {T} embed msg (mk : result anyhow (list T * EmbedStats) -> Reply)
    config n cf (s : Session) wl sh r :
  msg ∈ route_contexts -> embed (cost_model sh) s = (s, Err (Fail (anyhow_new r))) ->
  embed_route embed msg mk false config n cf s wl sh
  = Some {| d_session := s; d_outcome := IRejected; d_skip := false; d_warmed := wl;
            d_shared := sh; d_reply := Some (mk (Err (context msg (anyhow_new r)))) |}.
Proof.
  intros Hmsg He. unfold embed_route, embed_with_trt_retry. rewrite He, rejection_not_oom.
  unfold finalize_embed_route, is_anyhow_err. by rewrite (rejection_not_fatal _ _ Hmsg).
Qed.

(** A request with a dangerous text leaves worker and counters as they were. *)
Lemma serve_refuses id config req texts encs (s : Session) w sh :
  embed_texts req = Some texts -> ep config = TensorRt ->
  trt_inband_jit_guard_enabled config = true -> encode_batch texts = Ok encs ->
  Exists (dangerous (guard_new (trt_inband_jit_guard_seq config) (WorkerGuard.warmed_seq_ceiling sh)))
    (seq_lengths_of encs) ->
  exists rep e,
    serve_request id config req false s w sh
    = {| s_worker := with_models (Some s) w; s_shared := sh; s_reply := Some rep;
         s_status := Running |} /\
    answers req rep /\ reply_error rep = Some e /\ is_trt_shape_rejected e = true.
Proof.
  intros Htexts Hep Hg He Hd.
  assert (Hguard : build_shape_guard config sh
    = Some (guard_new (trt_inband_jit_guard_seq config) (WorkerGuard.warmed_seq_ceiling sh))).
  { unfold build_shape_guard. by rewrite Hep, Hg. }
  set (g := guard_new _ _) in *.
  destruct (refuse_dangerous s texts encs (cost_model sh) (model_variant config) g He Hd)
    as (r & _ & Hde & Hsp & Hbo).
  unfold serve_request. rewrite Hguard.
  destruct req as [t|t|t|t|b q]; simpl in Htexts; simplify_eq; cbn [dispatch_request];
    (rewrite (refused_route _ _ _ _ _ _ _ _ _ r);
      [|by repeat (left || right)|done]); simpl;
    eexists _, _; (split; [by destruct w|done]).
Qed.
End lawful_worker.

(** ** A concrete world for the byte runtime *)

#[export] Instance byte_world : WorkerWorld nat := {|
  read_process_rss_bytes s := Some (Z.of_nat s * 1048576);
  engine_dir _ := Some [];
  fsync_engine_dir s := (s, 0);
  set_engine_dir s _ := s;
  can_remove_file _ _ := true;
  can_reread_dir _ := true;
  nvidia_smi _ := Some (true, Some "8.9")
|}.

Definition example_config (ep : EpSelection) : WorkerConfig := {|
  idle_timeout := Some 60000; model_variant := Fp16; max_seq_length := 8192; intra_threads := 4;
  ep := ep; trt_warmup_shapes := []; device_id := 0; gpu_count := 1;
  trt_max_workspace_bytes := None; gpu_mem_limit_bytes := None; jit_suspect_tx := true;
  engine_propagation_tx := true; prewarm_strict := true; circuit_breaker_threshold := 5;
  trt_inband_jit_guard_enabled := true; trt_inband_jit_guard_seq := 5;
  trt_cache_gc_enabled := false |}.

Definition example_shared : Shared := {|
  live_workers := 1; loaded_workers := 1; cost_model := conservative (2 ^ 30);
  WorkerGuard.warmed_seq_ceiling := 4; suspects := []; suspect_capacity := 64; broadcasts := [] |}.

(** A probe or an adaptive warmup resets the failure count of the breaker, whether
    it succeeded or not. *)
Lemma internal_requests_reset `{KeySort nat} {Session Output} `{Runtime Session Output}
    `{WorkerWorld Session} id config req closed (s : Session) (w : Worker Session) sh :
  is_embed req = false ->
  let st := serve_request id config req closed s w sh in
  s_status st = Running -> consecutive_failures (s_worker st) = 0.
Proof.
  intros Hreq. unfold serve_request.
  destruct (dispatch_request _ _ _ _ _ _ _ _ _ _) as [d|] eqn:Hd; [|done].
  assert (Ho : d_outcome d = IOk /\ d_skip d = false).
  { destruct req as [t|t|t|t|b q]; try discriminate Hreq; cbn [dispatch_request] in Hd.
    - destruct (run_probe_batch s t) as [s' [p|[|e]]]; by simplify_eq/=.
    - case_bool_decide; [destruct (trt_prewarm s [(b, q)] (detected_sm w)) as [s' stats]; case_if|];
        by simplify_eq/=. }
  destruct Ho as [Ho Hs]. rewrite Hs, Ho. by rewrite bool_decide_false by done.
Qed.

(** ** Properties *)



(** C21: a refusal of the JIT guard is neutral for the worker: a request with a
    dangerous, uncovered text is answered with an error whose chain carries the
    rejection, the worker keeps running with the same session and the same
    failure count, and no counter of the pool moves, so refusals can neither
    trip the circuit breaker nor be taken for a fatal engine build. *)
Theorem guard_refusal_neutral `{KeySort nat} {Session Output} `{RuntimeLaws Session Output}
    `{WorkerWorld Session} id config req texts encs load (s : Session) (w : Worker Session) sh :
  embed_texts req = Some texts -> models w = Some s ->
  ep config = TensorRt -> trt_inband_jit_guard_enabled config = true ->
  encode_batch texts = Ok encs ->
  Exists (dangerous (guard_new (trt_inband_jit_guard_seq config) (WorkerGuard.warmed_seq_ceiling sh)))
    (seq_lengths_of encs) ->
  exists rep e,
    worker_step id config [] (EvRequest req false load) w sh
    = {| s_worker := w; s_shared := sh; s_reply := Some rep; s_status := Running |} /\
    answers req rep /\ reply_error rep = Some e /\ is_trt_shape_rejected e = true.
Proof.
  intros Htexts Hm Hep Hg He Hd.
  assert (Hdrain : drain_step config [] w sh = (w, sh)).
  { unfold drain_step. rewrite Hm. case_if; [|done]. simpl. rewrite <- Hm. by destruct w. }
  unfold worker_step. rewrite Hdrain, Hm.
  assert (Hw : with_models (Some s) w = w) by (by destruct w; simplify_eq/=).
  destruct (serve_refuses id config req texts encs s w sh) as (rep & e & Hs & Hrep); [done..|].
  rewrite Hw in Hs. by exists rep, e.
Qed.

Lemma guard_refusal_neutral_witness :
  exists rep e,
    worker_step 0 (example_config TensorRt) [] (EvRequest (ReqBoth ["ok"; "too long"]) false (Ok 0%nat))
      (fresh_worker 3%nat (Some "sm89")) example_shared
    = {| s_worker := fresh_worker 3%nat (Some "sm89"); s_shared := example_shared;
         s_reply := Some rep; s_status := Running |} /\
    answers (ReqBoth ["ok"; "too long"]) rep /\
    reply_error rep = Some e /\ is_trt_shape_rejected e = true.
Proof.
  apply (guard_refusal_neutral 0 (example_config TensorRt) (ReqBoth ["ok"; "too long"])
    ["ok"; "too long"] (map byte_encoding ["ok"; "too long"]) (Ok 0%nat) 3%nat); try reflexivity.
  apply Exists_exists. exists 8. split; [by right; left|by split].
Defined.
