(* ===== verification/Pool.v ===== *)
(** * The worker pool ([src/embedder/pool.rs])

    Sizing and per-worker configuration, the initialisation that starts the
    workers one after the other, the client calls, and the running pool as a
    transition system: any worker takes the next event and acts on the shared
    counters, in any interleaving. *)

From S2P Require Import Prelude Float RustStr BinPack JitGuard EmbedMath TrtCache Types Pipeline TrtWarmup Retry WorkerGuard Worker.

(** ** Spawn *)

Definition effective_gpu_count (config : WorkerConfig) : Z := Z.max (gpu_count config) 1.

(** The number of workers: clamped to the GPUs for a GPU execution provider. *)
Definition clamp_workers (config : WorkerConfig) (n : Z) : Z :=
  if negb (bool_decide (ep config = Cpu)) && (effective_gpu_count config <? n)
  then effective_gpu_count config else n.

Definition queue_capacity (n : Z) : Z := wrap64 (n * 4).

(** [make_worker_config]: the device and the shard of worker [id] of [n]. *)
Definition make_worker_config (config : WorkerConfig) (n : Z) (id : nat) : WorkerConfig :=
  let gpu_count' := effective_gpu_count config in
  {| idle_timeout := idle_timeout config;
     model_variant := model_variant config;
     max_seq_length := max_seq_length config;
     intra_threads := intra_threads config;
     ep := ep config;
     trt_warmup_shapes :=
       if bool_decide (ep config = TensorRt) && (1 <? n)
          && negb (bool_decide (trt_warmup_shapes config = []))
       then shard_shapes (trt_warmup_shapes config) id (Z.to_nat n)
       else trt_warmup_shapes config;
     device_id := u32_try_from_or (Z.of_nat id) 0 mod u32_try_from_or gpu_count' 1;
     gpu_count := gpu_count config;
     trt_max_workspace_bytes := trt_max_workspace_bytes config;
     gpu_mem_limit_bytes := gpu_mem_limit_bytes config;
     jit_suspect_tx := jit_suspect_tx config;
     engine_propagation_tx := engine_propagation_tx config;
     prewarm_strict := prewarm_strict config;
     circuit_breaker_threshold := circuit_breaker_threshold config;
     trt_inband_jit_guard_enabled := trt_inband_jit_guard_enabled config;
     trt_inband_jit_guard_seq := trt_inband_jit_guard_seq config;
     trt_cache_gc_enabled := trt_cache_gc_enabled config |}.

(** ** Initialisation *)

(** How the task of a worker that has not signalled ends. *)
Inductive Join := JoinOk | JoinErr (e : anyhow) | JoinPanic (msg : string).

(** [await_worker_signal]: [signal] is what [ready_rx] yields when it is ready
    ([Some None] for a closed channel); it is preferred over the join result. *)
Definition await_worker_signal (id : nat) (signal : option (option (result anyhow Z))) (join : Join)
  : result anyhow Z :=
  let w := "Worker " +:+ show (Z.of_nat id) in
  match signal with
  | Some (Some (Ok delta)) => Ok delta
  | Some (Some (Err e)) => Err (anyhow_msg (w +:+ " failed to load models: " +:+ display e))
  | Some None => Err (anyhow_msg (w +:+ " exited before signaling readiness"))
  | None =>
      match join with
      | JoinOk => Err (anyhow_msg (w +:+ " exited cleanly without signaling readiness"))
      | JoinErr e =>
          Err (anyhow_msg (w +:+ " exited with error before signaling ready: " +:+ display e))
      | JoinPanic p => Err (anyhow_msg (w +:+ " panicked before signaling ready: " +:+ p))
      end
  end.

(** What the init task observes of one worker: its start-up. *)
Definition worker_signal {Session} (id : nat) (su : Startup (Session := Session)) : result anyhow Z :=
  match su_ready su with
  | Some r => await_worker_signal id (Some (Some r)) JoinOk
  | None => await_worker_signal id None
              (match su_result su with Ok _ => JoinOk | Err e => JoinErr e end)
  end.

(** One slot of the pool: a running worker, or one that has left its loop, with
    whether it left by the fatal exit. *)
Inductive Slot (Session : Type) := Active (w : Worker Session) | Gone (fatal : bool).
Arguments Active {Session} w.
Arguments Gone {Session} fatal.

Section pool.
Context `{KeySort nat} {Session Output : Type} `{Runtime Session Output} `{WorkerWorld Session}.

(** What the init task holds: the workers that signalled and their RSS deltas. *)
Record Init := {
  in_slots : list (Slot Session);
  in_deltas : list Z;
  in_shared : Shared;
}.

(** Start one worker and wait for it.  A start-up that fails leaves [run_worker]
    and so drops the live count. *)
Definition init_step (config : WorkerConfig) (n : Z) (loads : nat -> option Z * result anyhow Session)
    (st : Init) (id : nat) : result (anyhow * Shared) Init :=
  let wc := make_worker_config config n id in
  let su := startup_worker id wc (fst (loads id)) (snd (loads id)) (in_shared st) in
  match worker_signal id su, su_result su with
  | Ok delta, Ok (s, sm) =>
      Ok {| in_slots := in_slots st ++ [Active (fresh_worker s sm)];
            in_deltas := in_deltas st ++ [delta];
            in_shared := loaded_add (su_shared su) |}
  | Err e, _ => Err (e, fst (worker_guard_drop (su_shared su)))
  | Ok _, Err e => Err (e, fst (worker_guard_drop (su_shared su)))
  end.

Definition init_shared (n : Z) (cm : CostModel) (ceiling : Z) (cap : nat) : Shared :=
  {| live_workers := n; loaded_workers := 0; cost_model := cm; warmed_seq_ceiling := ceiling;
     suspects := []; suspect_capacity := cap; broadcasts := [] |}.

(** The init task: the leader, then the followers, in order; the median RSS delta
    is published at the end. *)
Definition init_pool (config : WorkerConfig) (n : Z) (cm : CostModel) (cap : nat)
    (loads : nat -> option Z * result anyhow Session) : result (anyhow * Shared) (Init * Z) :=
  st ← result_foldM (init_step config n loads)
         {| in_slots := []; in_deltas := []; in_shared := init_shared n cm 0 cap |}
         (seq 0 (Z.to_nat n));
  Ok (st, median_usize (in_deltas st)).

(** ** Client calls *)

(** [queue_depth] *)
Definition queue_depth (max_capacity capacity : Z) : Z := sat_sub max_capacity capacity.

(** [dense], [sparse], [both], [probe]: the queue may be closed and the reply
    sender dropped. *)
Definition pool_call {A} (queue_open : bool) (reply : option (result anyhow A)) : result anyhow A :=
  if negb queue_open then Err (anyhow_msg "EmbedPool channel closed")
  else match reply with
       | None => Err (anyhow_msg "Worker dropped reply sender")
       | Some r => r
       end.

(** [broadcast_engine_ready] *)
Definition broadcast_engine_ready (config : WorkerConfig) (sh : Shared) (x : shape) : Shared :=
  if engine_propagation_tx config then broadcast_send x sh else sh.

(** ** The running pool *)

Record Sys := { sys_slots : list (Slot Session); sys_shared : Shared }.

(** The event [ev] at worker [i], which drains [rx] first and replies [rep].  An
    aborted process takes no step. *)
Inductive sys_event (config : WorkerConfig) (n : Z) (i : nat) (rx : list recv) (ev : Event Session)
    (rep : option Reply) : Sys -> Sys -> Prop :=
| SysRun w slots sh w' sh' :
    slots !! i = Some (Active w) ->
    event_enabled (make_worker_config config n i) w ev ->
    worker_step i (make_worker_config config n i) rx ev w sh
    = {| s_worker := w'; s_shared := sh'; s_reply := rep; s_status := Running |} ->
    sys_event config n i rx ev rep {| sys_slots := slots; sys_shared := sh |}
      {| sys_slots := <[i := Active w']> slots; sys_shared := sh' |}
| SysExit w slots sh w' sh' r :
    slots !! i = Some (Active w) ->
    event_enabled (make_worker_config config n i) w ev ->
    worker_step i (make_worker_config config n i) rx ev w sh
    = {| s_worker := w'; s_shared := sh'; s_reply := rep; s_status := Exited r |} ->
    sys_event config n i rx ev rep {| sys_slots := slots; sys_shared := sh |}
      {| sys_slots := <[i := Gone (is_err r)]> slots; sys_shared := sh' |}.

(** Any worker takes any event. *)
Definition sys_step (config : WorkerConfig) (n : Z) (x y : Sys) : Prop :=
  exists i rx ev rep, sys_event config n i rx ev rep x y.

Definition slot_live (s : Slot Session) : Z := match s with Active _ => 1 | Gone _ => 0 end.

(** A worker counts as loaded while its models are; a fatal exit leaves its count
    behind. *)
Definition slot_loaded (s : Slot Session) : Z :=
  match s with Active w => loadedz w | Gone fatal => if fatal then 1 else 0 end.

Definition slot_breaker (t : Z) (s : Slot Session) : Prop :=
  match s with Active w => 0 <= consecutive_failures w < Z.max 1 t | Gone _ => True end.

(** The counters the health endpoint reads are exact. *)
Record sys_inv (config : WorkerConfig) (x : Sys) : Prop := {
  inv_live : live_workers (sys_shared x) = sum_of (map slot_live (sys_slots x));
  inv_loaded : loaded_workers (sys_shared x) = sum_of (map slot_loaded (sys_slots x));
  inv_breaker : Forall (slot_breaker (circuit_breaker_threshold config)) (sys_slots x);
}.

(** ** Lemmas *)

Lemma sys_event_cost config n i rx ev rep (x y : Sys) :
  sys_event config n i rx ev rep x y -> cost_model (sys_shared y) = cost_model (sys_shared x).
Proof.
  intros [w slots sh w' sh' _ _ Hs|w slots sh w' sh' r _ _ Hs]; simpl;
    by rewrite <- (worker_step_cost i (make_worker_config config n i) rx ev w sh), Hs.
Qed.

Lemma sum_of_insert (f : Slot Session -> Z) l i x y :
  l !! i = Some x -> sum_of (map f (<[i := y]> l)) = sum_of (map f l) - f x + f y.
Proof.
  unfold sum_of. revert i.
  induction l as [|a l IH]; intros [|i] Hi; simpl in Hi; simplify_eq.
  - change (<[0%nat := y]> (x :: l)) with (y :: l). cbn [map foldr]. lia.
  - change (<[S i := y]> (a :: l)) with (a :: <[i := y]> l). cbn [map foldr].
    rewrite (IH i Hi). lia.
Qed.

Lemma sum_of_rest (f : Slot Session -> Z) l i x :
  (forall s, 0 <= f s <= 1) -> l !! i = Some x ->
  0 <= sum_of (map f l) - f x < Z.of_nat (length l).
Proof.
  intros Hf. revert i. induction l as [|a l IH]; intros [|i] Hi; simpl in Hi; simplify_eq;
    unfold sum_of in *; cbn [map foldr length].
  - assert (Hb : 0 <= foldr Z.add 0 (map f l) <= Z.of_nat (length l)).
    { clear -Hf. induction l as [|b l IH]; cbn [map foldr length]; [lia|].
      pose proof (Hf b). lia. }
    lia.
  - specialize (IH i Hi). pose proof (Hf a). lia.
Qed.

Lemma slot_live_range s : 0 <= slot_live s <= 1.
Proof. destruct s; simpl; lia. Qed.
Lemma slot_loaded_range s : 0 <= slot_loaded s <= 1.
Proof. destruct s as [w|[]]; simpl; unfold loadedz; try destruct (models w); lia. Qed.

(** A running worker moves on to what its step computes. *)
Lemma run_event config n i rx ev w slots sh :
  slots !! i = Some (Active w) -> event_enabled (make_worker_config config n i) w ev ->
  let r := worker_step i (make_worker_config config n i) rx ev w sh in
  s_status r = Running ->
  sys_event config n i rx ev (s_reply r) {| sys_slots := slots; sys_shared := sh |}
    {| sys_slots := <[i := Active (s_worker r)]> slots; sys_shared := s_shared r |}.
Proof.
  intros Hi Hen r Hr. apply (SysRun _ _ _ _ _ _ w); [done..|].
  rewrite <- Hr. subst r. by destruct (worker_step _ _ _ _ _ _).
Qed.

Lemma sys_step_inv config n x y :
  0 <= circuit_breaker_threshold config <= U64_MAX ->
  Z.of_nat (length (sys_slots x)) <= U64_MAX ->
  sys_step config n x y -> sys_inv config x -> sys_inv config y.
Proof.
  intros Ht Hlen Hstep [Hlive Hload Hbr].
  destruct Hstep as (i & rx & ev & rep & Hstep).
  destruct Hstep as [w slots sh w' sh' Hi Hen Hs|w slots sh w' sh' r Hi Hen Hs]; simpl in *;
    pose proof (worker_step_ok i (make_worker_config config n i) rx ev w sh Hen) as Hok;
    rewrite Hs in Hok; destruct Hok as [_ Hrun Hexit Hcf _]; simpl in *;
    pose proof (sum_of_rest slot_loaded _ _ _ slot_loaded_range Hi) as Hrest; simpl in Hrest;
    pose proof (sum_of_rest slot_live _ _ _ slot_live_range Hi) as Hrestl; simpl in Hrestl;
    pose proof (proj1 (Forall_lookup _ _) Hbr _ _ Hi) as Hw;
    pose proof (slot_loaded_range (Active w)) as Hlw; simpl in Hw, Hlw.
  - destruct (Hrun eq_refl) as [Hl Hn]. split; simpl.
    + rewrite (sum_of_insert _ _ _ _ _ Hi). simpl. lia.
    + rewrite (sum_of_insert _ _ _ _ _ Hi). simpl. rewrite Hload in Hn.
      pose proof (slot_loaded_range (Active w')) as Hw'. simpl in Hw'.
      rewrite (moves_exact _ _ _ Hn); unfold usize; lia.
    + apply Forall_insert; [done|]. simpl. by apply Hcf.
  - destruct (Hexit r eq_refl) as [Hl Hn]. split; simpl.
    + rewrite (sum_of_insert _ _ _ _ _ Hi), Hl, Hlive. simpl.
      rewrite wrap64_small; [lia|]. unfold usize. lia.
    + rewrite (sum_of_insert _ _ _ _ _ Hi).
      pose proof (slot_loaded_range (Gone (is_err r))) as Hg. simpl in Hg |- *. rewrite Hload in Hn.
      rewrite (moves_exact _ _ _ Hn); unfold usize; lia.
    + by apply Forall_insert.
Qed.

Lemma sys_step_length config n x y : sys_step config n x y -> length (sys_slots y) = length (sys_slots x).
Proof. intros (i & rx & ev & rep & []); simpl; by rewrite length_insert. Qed.

Lemma sys_reachable_inv config n x y :
  0 <= circuit_breaker_threshold config <= U64_MAX ->
  Z.of_nat (length (sys_slots x)) <= U64_MAX ->
  rtc (sys_step config n) x y -> sys_inv config x -> sys_inv config y.
Proof.
  intros Ht Hlen Hr. induction Hr as [|x z y Hstep _ IH]; [done|]. intros Hinv.
  apply IH; [by rewrite (sys_step_length _ _ _ _ Hstep)|]. by eapply sys_step_inv.
Qed.
End pool.
Arguments Init : clear implicits.
Arguments Sys : clear implicits.

(** The typed calls ([dense] and the others are also field names): [answer] is what the worker that takes the request puts
    on its reply channel. *)
Module EmbedPool.
Definition dense (queue_open : bool) (answer : EmbedRequest -> option Reply) (texts : list string) :=
  pool_call queue_open (r ← answer (ReqDense texts); match r with RepDense v => Some v | _ => None end).
Definition sparse (queue_open : bool) (answer : EmbedRequest -> option Reply) (texts : list string) :=
  pool_call queue_open (r ← answer (ReqSparse texts); match r with RepSparse v => Some v | _ => None end).
Definition both (queue_open : bool) (answer : EmbedRequest -> option Reply) (texts : list string) :=
  pool_call queue_open (r ← answer (ReqBoth texts); match r with RepBoth v => Some v | _ => None end).
Definition probe (queue_open : bool) (answer : EmbedRequest -> option Reply) (texts : list string) :=
  pool_call queue_open (r ← answer (ReqProbe texts); match r with RepProbe v => Some v | _ => None end).
End EmbedPool.

(** ** Initialisation: lemmas *)

Section init.
Context `{KeySort nat} {Session Output : Type} `{Runtime Session Output} `{WorkerWorld Session}.

Lemma startup_shared_le id config rss0 (load : result anyhow Session) sh :
  shared_le sh (su_shared (startup_worker id config rss0 load sh)).
Proof.
  unfold startup_worker, startup_prewarm. destruct load as [s|e]; [|done].
  case_if; [|done]. destruct (trt_prewarm _ _ _) as [s2 stats].
  case_if; apply raise_ceiling_le.
Qed.

(** After [k] workers: all running with their models, counted exactly. *)
Record init_inv (n : Z) (st : Init Session) : Prop := {
  ii_live : live_workers (in_shared st) = n;
  ii_loaded : loaded_workers (in_shared st) = Z.of_nat (length (in_slots st));
  ii_deltas : length (in_deltas st) = length (in_slots st);
  ii_slots : Forall (fun s => exists m sm, s = Active (fresh_worker m sm)) (in_slots st);
}.

Lemma init_step_inv config n loads (st st' : Init Session) id :
  Z.of_nat (length (in_slots st)) < U64_MAX ->
  init_step config n loads st id = Ok st' -> init_inv n st ->
  init_inv n st' /\ length (in_slots st') = S (length (in_slots st)).
Proof.
  intros Hlen. unfold init_step.
  set (wc := make_worker_config config n id). set (su := startup_worker _ _ _ _ _).
  pose proof (startup_shared_le id wc (fst (loads id)) (snd (loads id)) (in_shared st))
    as [Hl Hd _ _ _]. fold su in Hl, Hd.
  destruct (worker_signal id su) as [delta|e]; [|done].
  destruct (su_result su) as [[s sm]|e]; [|done]. intros [= <-] [Hlive Hload Hdel Hsl].
  split; [|simpl; rewrite length_app; simpl; lia]. split; simpl.
  - by rewrite Hl.
  - rewrite Hd, Hload, length_app. simpl. rewrite wrap64_small; [lia|]. unfold usize. lia.
  - rewrite !length_app. simpl. lia.
  - apply Forall_app. split; [done|]. constructor; [by eexists _, _|done].
Qed.

Lemma init_fold_inv config n loads ids (st st' : Init Session) :
  Z.of_nat (length (in_slots st) + length ids) <= U64_MAX ->
  result_foldM (init_step config n loads) st ids = Ok st' -> init_inv n st ->
  init_inv n st' /\ length (in_slots st') = (length (in_slots st) + length ids)%nat.
Proof.
  revert st. induction ids as [|id ids IH]; intros st Hlen; cbn [result_foldM].
  - intros [= <-] Hi. split; [done|]. simpl. lia.
  - destruct (init_step _ _ _ _ _) as [st1|e] eqn:Hs; [|done]. intros Hrest Hi. cbn [length] in Hlen.
    assert (Hlt : Z.of_nat (length (in_slots st)) < U64_MAX) by lia.
    destruct (init_step_inv _ _ _ _ _ _ Hlt Hs Hi) as [Hi1 Hl1].
    destruct (IH st1 ltac:(lia) Hrest Hi1) as [Hi' Hl']. split; [done|]. simpl. lia.
Qed.

Lemma init_pool_inv config n cm cap loads (st : Init Session) med :
  0 <= n <= U64_MAX -> init_pool config n cm cap loads = Ok (st, med) ->
  init_inv n st /\ length (in_slots st) = Z.to_nat n.
Proof.
  intros Hn. unfold init_pool.
  destruct (result_foldM _ _ _) as [st0|e] eqn:Hf; simpl; [|done]. intros [= -> _].
  apply init_fold_inv in Hf.
  - rewrite length_seq in Hf. by destruct Hf.
  - rewrite length_seq. cbn [in_slots length]. lia.
  - by split.
Qed.

Lemma sum_fresh (f : Slot Session -> Z) l :
  Forall (fun s => exists m sm, s = Active (fresh_worker m sm)) l ->
  (forall m sm, f (Active (fresh_worker m sm)) = 1) ->
  sum_of (map f l) = Z.of_nat (length l).
Proof.
  intros Hl Hf. unfold sum_of. induction Hl as [|s l (m & sm & ->) _ IH]; [done|].
  cbn [map foldr length]. rewrite Hf, IH. lia.
Qed.

(** The pool the init task leaves behind satisfies the invariant. *)
Lemma init_sys_inv config n (st : Init Session) :
  init_inv n st -> length (in_slots st) = Z.to_nat n -> 0 <= n ->
  sys_inv config {| sys_slots := in_slots st; sys_shared := in_shared st |}.
Proof.
  intros [Hlive Hload _ Hsl] Hlen Hn. split; simpl.
  - rewrite (sum_fresh _ _ Hsl) by done. lia.
  - by rewrite (sum_fresh _ _ Hsl).
  - eapply Forall_impl; [exact Hsl|]. intros s (m & sm & ->). simpl. lia.
Qed.
End init.

(** ** Properties *)

(** The counters behind [/health] are exact in every reachable state of a
    pool that initialised, whatever the interleaving of the workers: [live] is
    the number of running workers, [loaded] the number of running workers that
    hold their models plus the number of workers that left by the fatal exit
    (which never gives its count back), and no running worker has reached the
    circuit-breaker threshold. *)
Theorem pool_counters_exact `{KeySort nat} {Session Output} `{Runtime Session Output}
    `{WorkerWorld Session} config n cm cap loads (st : Init Session) med (y : Sys Session) :
  0 <= n <= U64_MAX -> 0 <= circuit_breaker_threshold config <= U64_MAX ->
  init_pool config n cm cap loads = Ok (st, med) ->
  rtc (sys_step config n) {| sys_slots := in_slots st; sys_shared := in_shared st |} y ->
  live_workers (sys_shared y) = sum_of (map slot_live (sys_slots y)) /\
  loaded_workers (sys_shared y) = sum_of (map slot_loaded (sys_slots y)) /\
  Forall (slot_breaker (circuit_breaker_threshold config)) (sys_slots y) /\
  length (sys_slots y) = Z.to_nat n.
Proof.
  intros Hn Ht Hinit Hr. destruct (init_pool_inv _ _ _ _ _ _ _ Hn Hinit) as [Hi Hlen].
  assert (Hly : length (sys_slots y) = length (in_slots st)).
  { change (in_slots st) with
      (sys_slots {| sys_slots := in_slots st; sys_shared := in_shared st |}).
    clear -Hr. induction Hr as [|x z y' Hs _ IH]; [done|]. rewrite IH.
    by eapply sys_step_length. }
  assert (Hb : Z.of_nat (length (in_slots st)) <= U64_MAX) by lia.
  destruct (sys_reachable_inv config n
    {| sys_slots := in_slots st; sys_shared := in_shared st |} y Ht Hb Hr) as [H1' H2' H3'].
  - apply (init_sys_inv config n); [done|done|lia].
  - split_and!; try done. by rewrite Hly.
Qed.

Lemma pool_counters_exact_witness :
  exists st med,
    init_pool (example_config Cpu) 2 (conservative (2 ^ 30)) 64 (fun _ => (None, Ok 0%nat))
      = Ok (st, med) /\
    loaded_workers (in_shared st) = 2.
Proof.
  assert (Hok : is_ok (init_pool (example_config Cpu) 2 (conservative (2 ^ 30)) 64
                         (fun _ => (None, Ok 0%nat))) = true) by (vm_compute; reflexivity).
  destruct (init_pool (example_config Cpu) 2 (conservative (2 ^ 30)) 64
              (fun _ => (None, Ok 0%nat))) as [[st med]|] eqn:E0; [|discriminate Hok].
  exists st, med. split; [reflexivity|].
  destruct (pool_counters_exact (example_config Cpu) 2 (conservative (2 ^ 30)) 64
    (fun _ => (None, Ok 0%nat)) st med {| sys_slots := in_slots st; sys_shared := in_shared st |})
    as (_ & Hl & _); [by vm_compute|by vm_compute|exact E0|apply rtc_refl|].
  simpl in Hl. rewrite Hl. vm_compute in E0. by simplify_eq.
Defined.

(** On a lawful runtime a client of an open queue that waits for its answer
    gets exactly what its worker computed, by each of the four calls: the
    failures of the reply channel itself never show, and the reply is of the kind
    the call unwraps. *)
Theorem client_calls_answered `{KeySort nat} {Session Output} `{RuntimeLaws Session Output}
    `{WorkerWorld Session} id config `{!ModelExport Session Output (model_variant config)} rx load
    (w : Worker Session) sh texts :
  let answer req := s_reply (worker_step id config rx (EvRequest req false load) w sh) in
  (exists r, answer (ReqDense texts) = Some (RepDense r) /\ EmbedPool.dense true answer texts = r) /\
  (exists r, answer (ReqSparse texts) = Some (RepSparse r) /\ EmbedPool.sparse true answer texts = r) /\
  (exists r, answer (ReqBoth texts) = Some (RepBoth r) /\ EmbedPool.both true answer texts = r) /\
  (exists r, answer (ReqProbe texts) = Some (RepProbe r) /\ EmbedPool.probe true answer texts = r).
Proof.
  intros answer.
  assert (Ha : forall req, exists rep, answer req = Some rep /\ answers req rep).
  { intros req. pose proof (worker_not_aborted id config rx (EvRequest req false load) w sh) as Hna.
    destruct (ok_reply _ _ _ _ _ (worker_step_ok id config rx (EvRequest req false load) w sh I) Hna)
      as [Hr|(_ & [=] & _)]. exact Hr. }
  unfold EmbedPool.dense, EmbedPool.sparse, EmbedPool.both, EmbedPool.probe.
  split_and!;
    [destruct (Ha (ReqDense texts)) as (rep & -> & Hk)|destruct (Ha (ReqSparse texts)) as (rep & -> & Hk)
    |destruct (Ha (ReqBoth texts)) as (rep & -> & Hk)|destruct (Ha (ReqProbe texts)) as (rep & -> & Hk)];
    destruct rep; try done; by eexists.
Qed.

(** the configuration the pool hands out pins and shards: for a GPU provider
    the workers are clamped to the devices, worker [id] gets device [id], so no
    two share one; with TensorRT the shards of the workers partition the warmup
    grid, whatever the clamp; nothing else of the configuration changes. *)
Theorem make_worker_config_pins config requested :
  1 <= requested -> ep config <> Cpu -> 0 <= gpu_count config <= U32_MAX ->
  let n := clamp_workers config requested in
  (1 <= n <= effective_gpu_count config /\ n <= requested) /\
  (forall id, (id < Z.to_nat n)%nat -> device_id (make_worker_config config n id) = Z.of_nat id) /\
  (ep config = TensorRt ->
   concat (map (fun id => trt_warmup_shapes (make_worker_config config n id)) (seq 0 (Z.to_nat n)))
   ≡ₚ trt_warmup_shapes config).
Proof.
  intros Hreq Hep Hgpu n.
  assert (Hn : 1 <= n <= effective_gpu_count config /\ n <= requested).
  { unfold n, clamp_workers. rewrite bool_decide_false by done. simpl.
    unfold effective_gpu_count. case_if; bool_to_prop; lia. }
  split; [done|]. split.
  - intros id Hid. simpl. unfold u32_try_from_or, effective_gpu_count, U32_MAX in *.
    rewrite !(proj2 (Z.leb_le _ _)) by lia. apply Z.mod_small. lia.
  - intros Htrt. cbn [trt_warmup_shapes make_worker_config]. rewrite bool_decide_true by done.
    case_bool_decide as Hnil; cbn [andb negb].
    + rewrite Hnil. rewrite andb_false_r. clear. induction (seq 0 (Z.to_nat n)); done.
    + rewrite andb_true_r. destruct (1 <? n) eqn:Hgt; bool_to_prop.
      * unfold shard_shapes. rewrite (proj2 (Nat.leb_gt _ _)) by lia.
        apply shards_perm. lia.
      * replace n with 1 by lia. simpl. by rewrite app_nil_r.
Qed.

Lemma make_worker_config_pins_witness :
  device_id (make_worker_config (example_config Cuda) (clamp_workers (example_config Cuda) 4) 0) = 0.
Proof.
  apply (make_worker_config_pins (example_config Cuda) 4); [lia|done|by vm_compute|].
  vm_compute. lia.
Defined.
