(* ===== verification/PoolInit.v ===== *)
(** * Interleaved initialisation of the pool ([src/embedder/pool.rs], [spawn])

    The init task starts one worker after the other; a worker that has signalled
    enters its loop at once, while the init task has yet to count it and to start
    its successors.  The initialisation is a transition system whose steps are
    those of the init task and of the workers that already run. *)

From S2P Require Import Prelude Float RustStr BinPack JitGuard EmbedMath TrtCache Types Pipeline TrtWarmup Retry WorkerGuard Worker Pool.

(** ** The init task *)

(** Where the init task is: about to start worker [id], with the signal of worker
    [id] received and not yet counted, done, or given up. *)
Inductive InitPhase :=
| Starting (id : nat)
| Signalled (id : nat) (delta : Z)
| Ready (median : Z)
| Failed (e : anyhow).

Section boot.
Context `{KeySort nat} {Session Output : Type} `{Runtime Session Output} `{WorkerWorld Session}.

Record Boot := {
  bt_phase : InitPhase;
  bt_deltas : list Z;
  bt_sys : Sys Session;
}.

(** [EmbedPool::spawn] before the init task first runs. *)
Definition boot_start (n : Z) (cm : CostModel) (ceiling : Z) (cap : nat) : Boot :=
  {| bt_phase := Starting 0; bt_deltas := [];
     bt_sys := {| sys_slots := []; sys_shared := init_shared n cm ceiling cap |} |}.

Inductive boot_step (config : WorkerConfig) (n : Z) : Boot -> Boot -> Prop :=
| BootUp id deltas slots sh rss0 load su delta s sm :
    Z.of_nat id < n ->
    su = startup_worker id (make_worker_config config n id) rss0 load sh ->
    worker_signal id su = Ok delta -> su_result su = Ok (s, sm) ->
    boot_step config n
      {| bt_phase := Starting id; bt_deltas := deltas;
         bt_sys := {| sys_slots := slots; sys_shared := sh |} |}
      {| bt_phase := Signalled id delta; bt_deltas := deltas;
         bt_sys := {| sys_slots := slots ++ [Active (fresh_worker s sm)];
                      sys_shared := su_shared su |} |}
| BootDown id deltas slots sh rss0 load su e :
    Z.of_nat id < n ->
    su = startup_worker id (make_worker_config config n id) rss0 load sh ->
    worker_signal id su = Err e ->
    boot_step config n
      {| bt_phase := Starting id; bt_deltas := deltas;
         bt_sys := {| sys_slots := slots; sys_shared := sh |} |}
      {| bt_phase := Failed e; bt_deltas := deltas;
         bt_sys := {| sys_slots := slots ++ [Gone false];
                      sys_shared := fst (worker_guard_drop (su_shared su)) |} |}
| BootCount id delta deltas slots sh :
    boot_step config n
      {| bt_phase := Signalled id delta; bt_deltas := deltas;
         bt_sys := {| sys_slots := slots; sys_shared := sh |} |}
      {| bt_phase := Starting (S id); bt_deltas := deltas ++ [delta];
         bt_sys := {| sys_slots := slots; sys_shared := loaded_add sh |} |}
| BootDone id deltas x :
    n <= Z.of_nat id ->
    boot_step config n
      {| bt_phase := Starting id; bt_deltas := deltas; bt_sys := x |}
      {| bt_phase := Ready (median_usize deltas); bt_deltas := deltas; bt_sys := x |}
| BootWork ph deltas x y :
    sys_step config n x y ->
    boot_step config n {| bt_phase := ph; bt_deltas := deltas; bt_sys := x |}
      {| bt_phase := ph; bt_deltas := deltas; bt_sys := y |}.

(** The worker whose signal is in but not counted. *)
Definition uncounted (ph : InitPhase) : Z := match ph with Signalled _ _ => 1 | _ => 0 end.

(** How many workers have been started, [len] of them having a slot. *)
Definition started (n : Z) (ph : InitPhase) (len : nat) : Prop :=
  match ph with
  | Starting id => len = id /\ Z.of_nat id <= n
  | Signalled id _ => len = S id /\ Z.of_nat id < n
  | Ready _ => Z.of_nat len = n
  | Failed _ => Z.of_nat len <= n
  end.

(** Median input: one delta per counted worker. *)
Definition counted (ph : InitPhase) (len deltas : nat) : Prop :=
  match ph with
  | Starting _ | Ready _ => deltas = len
  | Signalled _ _ | Failed _ => S deltas = len
  end.

(** The counters during the initialisation. *)
Record boot_inv (config : WorkerConfig) (n : Z) (b : Boot) : Prop := {
  bi_live : live_workers (sys_shared (bt_sys b))
    = sum_of (map slot_live (sys_slots (bt_sys b))) + (n - Z.of_nat (length (sys_slots (bt_sys b))));
  bi_loaded : loaded_workers (sys_shared (bt_sys b))
    = wrap64 (sum_of (map slot_loaded (sys_slots (bt_sys b))) - uncounted (bt_phase b));
  bi_breaker : Forall (slot_breaker (circuit_breaker_threshold config)) (sys_slots (bt_sys b));
  bi_started : started n (bt_phase b) (length (sys_slots (bt_sys b)));
  bi_counted : counted (bt_phase b) (length (sys_slots (bt_sys b))) (length (bt_deltas b));
}.

(** ** Lemmas *)

Lemma started_le n ph len : started n ph len -> Z.of_nat len <= n.
Proof. destruct ph; simpl; lia. Qed.

(** What an event of a worker does to the counters, whatever they are. *)
Lemma sys_step_moves config n (x y : Sys Session) :
  0 <= circuit_breaker_threshold config <= U64_MAX ->
  sys_step config n x y ->
  length (sys_slots y) = length (sys_slots x) /\
  (exists d, sum_of (map slot_live (sys_slots y)) = sum_of (map slot_live (sys_slots x)) - d /\
     (d = 0 /\ live_workers (sys_shared y) = live_workers (sys_shared x) \/
      d = 1 /\ 1 <= sum_of (map slot_live (sys_slots x)) /\
      live_workers (sys_shared y) = wrap64 (live_workers (sys_shared x) - 1))) /\
  counter_moves (loaded_workers (sys_shared x)) (loaded_workers (sys_shared y))
    (sum_of (map slot_loaded (sys_slots y)) - sum_of (map slot_loaded (sys_slots x))) /\
  (Forall (slot_breaker (circuit_breaker_threshold config)) (sys_slots x) ->
   Forall (slot_breaker (circuit_breaker_threshold config)) (sys_slots y)).
Proof.
  intros Ht (i & rx & ev & rep & Hs).
  destruct Hs as [w slots sh w' sh' Hi Hen Hs|w slots sh w' sh' r Hi Hen Hs]; simpl;
    pose proof (worker_step_ok i (make_worker_config config n i) rx ev w sh Hen) as Hok;
    rewrite Hs in Hok; destruct Hok as [_ Hrun Hexit Hcf _]; simpl in *;
    pose proof (sum_of_rest slot_live _ _ _ slot_live_range Hi) as Hrest; simpl in Hrest;
    rewrite length_insert, !(sum_of_insert _ _ _ _ _ Hi); simpl; (split; [done|]).
  - destruct (Hrun eq_refl) as [Hl Hm]. split; [exists 0; lia|]. split.
    + eapply moves_eq; [exact Hm|lia].
    + intros Hbr. apply Forall_insert; [done|]. simpl. apply Hcf; [done|].
      by apply (proj1 (Forall_lookup _ _) Hbr _ _ Hi).
  - destruct (Hexit r eq_refl) as [Hl Hm]. split; [exists 1; lia|]. split.
    + eapply moves_eq; [exact Hm|lia].
    + intros Hbr. by apply Forall_insert.
Qed.

Lemma sum_of_snoc (f : Slot Session -> Z) l x : sum_of (map f (l ++ [x])) = sum_of (map f l) + f x.
Proof.
  unfold sum_of. rewrite map_app, foldr_app. simpl. replace (f x + 0) with (0 + f x) by lia.
  generalize 0. induction l as [|y l IH]; intros a; simpl; [lia|]. rewrite IH. lia.
Qed.

Lemma sum_live_length (l : list (Slot Session)) : 0 <= sum_of (map slot_live l) <= Z.of_nat (length l).
Proof.
  unfold sum_of. induction l as [|x l IH]; cbn [map foldr length]; [lia|].
  pose proof (slot_live_range x). lia.
Qed.

Lemma boot_start_inv config n cm ceiling cap : 1 <= n -> boot_inv config n (boot_start n cm ceiling cap).
Proof. intros Hn. split; simpl; try done; lia. Qed.

Lemma boot_work_inv config n ph deltas x y :
  0 <= circuit_breaker_threshold config <= U64_MAX -> n <= U64_MAX -> sys_step config n x y ->
  boot_inv config n {| bt_phase := ph; bt_deltas := deltas; bt_sys := x |} ->
  boot_inv config n {| bt_phase := ph; bt_deltas := deltas; bt_sys := y |}.
Proof.
  intros Ht Hn Hs [Hl Hlo Hbr Hst Hc]. simpl in *.
  destruct (sys_step_moves config n x y Ht Hs) as (Hlen & (d & Hd & Hlive) & Hm & Hbr').
  pose proof (started_le _ _ _ Hst) as Hle.
  pose proof (sum_live_length (sys_slots x)) as Hb. rewrite <- Hlen in Hst, Hc.
  split; simpl; [|..|auto|done|done].
  - rewrite Hlen, Hd. destruct Hlive as [[-> ->]|(-> & Hpos & ->)]; [lia|].
    rewrite Hl, wrap64_small; [lia|]. unfold usize. lia.
  - rewrite (Hm _ Hlo). f_equal. lia.
Qed.

Lemma boot_step_inv config n (b b' : Boot) :
  0 <= circuit_breaker_threshold config <= U64_MAX -> n <= U64_MAX -> boot_step config n b b' ->
  boot_inv config n b -> boot_inv config n b'.
Proof.
  intros Ht Hn Hstep Hinv.
  destruct Hstep as [id deltas slots sh rss0 load su delta s sm Hid -> Hsig Hres
    |id deltas slots sh rss0 load su e Hid -> Hsig|id delta deltas slots sh|id deltas x Hid
    |ph deltas x y Hs]; [..|by eapply boot_work_inv];
    destruct Hinv as [Hl Hlo Hbr Hst Hc]; simpl in *.
  - destruct (startup_shared_le id (make_worker_config config n id) rss0 load sh) as [Hsl Hsd _ _ _].
    split; simpl; rewrite ?sum_of_snoc, ?length_app; simpl; [lia| |..|lia|lia].
    + rewrite Hsd, Hlo. unfold loadedz. simpl. f_equal. lia.
    + apply Forall_app. split; [done|]. constructor; [|done]. simpl. lia.
  - destruct (startup_shared_le id (make_worker_config config n id) rss0 load sh) as [Hsl Hsd _ _ _].
    pose proof (sum_live_length slots) as Hb.
    split; simpl; rewrite ?sum_of_snoc, ?length_app; simpl; [|..|lia|lia].
    + rewrite Hsl, Hl, wrap64_small; [lia|]. unfold usize. lia.
    + rewrite Hsd, Hlo. f_equal. lia.
    + apply Forall_app. split; [done|]. by constructor.
  - split; simpl; rewrite ?length_app; simpl; [lia| |done|lia|lia].
    rewrite Hlo, wrap64_shift. f_equal. lia.
  - split; simpl; [lia|done|done|lia|lia].
Qed.

Lemma boot_reachable_inv config n (b b' : Boot) :
  0 <= circuit_breaker_threshold config <= U64_MAX -> n <= U64_MAX ->
  rtc (boot_step config n) b b' -> boot_inv config n b -> boot_inv config n b'.
Proof.
  intros Ht Hn Hr. induction Hr as [|b b1 b' Hs _ IH]; [done|]. intros Hi. by eapply IH, boot_step_inv.
Qed.

Lemma sum_loaded_length (l : list (Slot Session)) : 0 <= sum_of (map slot_loaded l) <= Z.of_nat (length l).
Proof.
  unfold sum_of. induction l as [|x l IH]; cbn [map foldr length]; [lia|].
  pose proof (slot_loaded_range x). lia.
Qed.

(** The states of a pool whose init task is done, whatever its workers did before
    and after that moment. *)
Definition pool_running (config : WorkerConfig) (n : Z) (cm : CostModel) (cap : nat) (x : Sys Session)
  : Prop :=
  exists b med, rtc (boot_step config n) (boot_start n cm 0 cap) b /\
    bt_phase b = Ready med /\ bt_sys b = x.

Lemma running_inv config n cm cap x :
  1 <= n <= U64_MAX -> 0 <= circuit_breaker_threshold config <= U64_MAX ->
  pool_running config n cm cap x -> sys_inv config x /\ length (sys_slots x) = Z.to_nat n.
Proof.
  intros Hn Ht (b & med & Hr & Hph & <-).
  destruct (boot_reachable_inv config n _ b Ht (proj2 Hn) Hr) as [Hl Hlo Hbr Hst _];
    [apply boot_start_inv; lia|].
  rewrite Hph in Hlo, Hst. simpl in Hlo, Hst. pose proof (sum_loaded_length (sys_slots (bt_sys b))) as Hb.
  split; [|lia]. split; [lia| |done]. rewrite Hlo, wrap64_small; [lia|]. unfold usize. lia.
Qed.

Lemma running_steps config n cm cap x y :
  pool_running config n cm cap x -> rtc (sys_step config n) x y -> pool_running config n cm cap y.
Proof.
  intros Hx Hr. induction Hr as [|x z y Hs _ IH]; [done|]. apply IH.
  destruct Hx as ([ph deltas x0] & med & Hb & Hph & Heq). simpl in Hph, Heq. subst.
  exists {| bt_phase := Ready med; bt_deltas := deltas; bt_sys := z |}, med. split; [|done].
  eapply rtc_r; [exact Hb|]. by apply BootWork.
Qed.

(** ** The undisturbed initialisation *)

(** [init_step] is the start and the count of one worker. *)
Lemma init_step_boot config n loads (st st' : Init Session) id :
  Z.of_nat id < n -> init_step config n loads st id = Ok st' ->
  rtc (boot_step config n)
    {| bt_phase := Starting id; bt_deltas := in_deltas st;
       bt_sys := {| sys_slots := in_slots st; sys_shared := in_shared st |} |}
    {| bt_phase := Starting (S id); bt_deltas := in_deltas st';
       bt_sys := {| sys_slots := in_slots st'; sys_shared := in_shared st' |} |}.
Proof.
  intros Hid. unfold init_step. set (su := startup_worker _ _ _ _ _).
  destruct (worker_signal id su) as [delta|e] eqn:Hsig; [|done].
  destruct (su_result su) as [[s sm]|e] eqn:Hres; [|done]. intros [= <-]. simpl.
  eapply rtc_l; [by eapply (BootUp config n id _ _ _ (fst (loads id)) (snd (loads id)))|].
  apply rtc_once, BootCount.
Qed.

Lemma init_fold_boot config n loads k : forall id (st st' : Init Session),
  Z.of_nat (id + k) <= n ->
  result_foldM (init_step config n loads) st (seq id k) = Ok st' ->
  rtc (boot_step config n)
    {| bt_phase := Starting id; bt_deltas := in_deltas st;
       bt_sys := {| sys_slots := in_slots st; sys_shared := in_shared st |} |}
    {| bt_phase := Starting (id + k); bt_deltas := in_deltas st';
       bt_sys := {| sys_slots := in_slots st'; sys_shared := in_shared st' |} |}.
Proof.
  induction k as [|k IH]; intros id st st' Hn; cbn [seq result_foldM].
  - intros [= <-]. by rewrite Nat.add_0_r.
  - destruct (init_step config n loads st id) as [st1|e] eqn:Hs; [|done]. intros Hrest.
    assert (Hid : Z.of_nat id < n) by lia.
    etrans; [exact (init_step_boot config n loads _ _ id Hid Hs)|].
    rewrite Nat.add_succ_r. apply (IH (S id)); [lia|done].
Qed.

(** The sequential [init_pool] is the run on which no worker acts before the init
    task is done. *)
Lemma init_running config n cm cap loads (st : Init Session) med :
  0 <= n -> init_pool config n cm cap loads = Ok (st, med) ->
  pool_running config n cm cap {| sys_slots := in_slots st; sys_shared := in_shared st |}.
Proof.
  intros Hn. unfold init_pool.
  destruct (result_foldM _ _ _) as [st0|e] eqn:Hf; simpl; [|done]. intros [= -> <-].
  apply (init_fold_boot config n loads (Z.to_nat n) 0) in Hf; [|lia].
  exists {| bt_phase := Ready (median_usize (in_deltas st)); bt_deltas := in_deltas st;
            bt_sys := {| sys_slots := in_slots st; sys_shared := in_shared st |} |},
    (median_usize (in_deltas st)).
  split; [|done]. eapply rtc_r; [exact Hf|]. apply BootDone. lia.
Qed.
End boot.
Arguments Boot : clear implicits.

(** ** Properties *)

(** C6: the counters are right from the first moment of the initialisation on, in
    every interleaving of the init task with the workers it has already started:
    [live] is the number of workers in their loops plus those still to be started;
    [loaded] is, in wrapping arithmetic, the number of workers that hold their
    models (or left by the fatal exit) less the one whose signal the init task
    has not counted yet; no worker is at the circuit-breaker threshold; and once
    the init task is done, one footprint per worker has gone into the median and
    both counters are exact. *)
Theorem boot_counters_exact `{KeySort nat} {Session Output} `{Runtime Session Output}
    `{WorkerWorld Session} config n cm cap (b : Boot Session) :
  1 <= n <= U64_MAX -> 0 <= circuit_breaker_threshold config <= U64_MAX ->
  rtc (boot_step config n) (boot_start n cm 0 cap) b ->
  let slots := sys_slots (bt_sys b) in
  live_workers (sys_shared (bt_sys b))
    = sum_of (map slot_live slots) + (n - Z.of_nat (length slots)) /\
  loaded_workers (sys_shared (bt_sys b))
    = wrap64 (sum_of (map slot_loaded slots) - uncounted (bt_phase b)) /\
  Forall (slot_breaker (circuit_breaker_threshold config)) slots /\
  (forall med, bt_phase b = Ready med ->
     Z.of_nat (length slots) = n /\ length (bt_deltas b) = length slots /\
     live_workers (sys_shared (bt_sys b)) = sum_of (map slot_live slots) /\
     loaded_workers (sys_shared (bt_sys b)) = sum_of (map slot_loaded slots)).
Proof.
  intros Hn Ht Hr slots.
  destruct (boot_reachable_inv config n _ b Ht (proj2 Hn) Hr) as [Hl Hlo Hbr Hst Hc];
    [apply boot_start_inv; lia|]. fold slots in Hl, Hlo, Hbr, Hst, Hc.
  split; [done|]. split; [done|]. split; [done|]. intros med Hph.
  rewrite Hph in Hlo, Hst, Hc. simpl in Hlo, Hst, Hc.
  pose proof (sum_loaded_length slots) as Hb. split; [done|]. split; [done|]. split; [lia|].
  rewrite Hlo, wrap64_small; [lia|]. unfold usize. lia.
Qed.

(** The leader loses its models to the idle timeout before it is counted: the
    count wraps below zero until the init task runs. *)
Lemma boot_counters_exact_witness :
  exists b : Boot nat, bt_phase b = Signalled 0 1048576 /\
    loaded_workers (sys_shared (bt_sys b)) = U64_MAX.
Proof.
  set (config := example_config Cpu). set (cm := conservative (2 ^ 30)).
  set (w := fresh_worker 1%nat None).
  set (slots := [Active w]). set (sh := init_shared 2 cm 0 64).
  set (r := worker_step 0 (make_worker_config config 2 0) [] EvTimeout w sh).
  set (b1 := {| bt_phase := Signalled 0 1048576; bt_deltas := [];
                bt_sys := {| sys_slots := slots; sys_shared := sh |} |}).
  set (b := {| bt_phase := Signalled 0 1048576; bt_deltas := [];
               bt_sys := {| sys_slots := <[0%nat := Active (s_worker r)]> slots;
                            sys_shared := s_shared r |} |}).
  assert (Hr : rtc (boot_step config 2) (boot_start 2 cm 0 64) b).
  { apply rtc_l with b1.
    - exact (BootUp config 2 0 [] [] sh None (Ok 0%nat) _ 1048576 1%nat None
               ltac:(lia) eq_refl ltac:(vm_compute; reflexivity) ltac:(vm_compute; reflexivity)).
    - apply rtc_once, BootWork. exists 0%nat, [], EvTimeout, (s_reply r).
      apply (run_event config 2 0 [] EvTimeout w slots sh eq_refl); [|reflexivity].
      split; by eexists. }
  destruct (boot_counters_exact config 2 cm 64 b) as (_ & Hl & _);
    [vm_compute; split; discriminate|vm_compute; split; discriminate|exact Hr|].
  exists b. split; [reflexivity|]. rewrite Hl. vm_compute. reflexivity.
Defined.
