(* ===== verification/AdaptiveWarmup.v ===== *)
(** * Adaptive background warmup ([src/embedder/adaptive_warmup.rs])

    The background loop that compiles suspected engine misses in idle windows:
    the draining of the suspect channel, the quiet window, and one iteration of
    the loop as a function of what the channels and the clock answer.  The run
    of the loop yields the trace of what it did. *)

From S2P Require Import Prelude Float RustStr BinPack JitGuard EmbedMath TrtCache Types Pipeline TrtWarmup Retry WorkerGuard Worker Pool.

(** ** State *)

Record AdaptiveWarmupConfig := {
  aw_enabled : bool;
  quiet_secs : Z;
  max_shapes_per_hour : Z;
}.

(** The [IndexSet] of the indexmap crate the loop keeps its suspects in: the
    operations it calls and their documented effect on the elements in insertion
    order. *)
Class IndexSet (S : Type) := {
  ix_new : S;
  elems : S -> list shape;
  ix_contains : S -> shape -> bool;
  ix_insert : S -> shape -> S;
  ix_is_empty : S -> bool;
  ix_first : S -> option shape;
  shift_remove : S -> shape -> S;
}.

Class IndexSetLaws (S : Type) `{IndexSet S} := {
  elems_new : elems ix_new = [];
  elems_nodup : forall s, NoDup (elems s);
  ix_contains_elems : forall s x, ix_contains s x = bool_decide (x ∈ elems s);
  elems_insert : forall s x, x ∉ elems s -> elems (ix_insert s x) = elems s ++ [x];
  ix_is_empty_elems : forall s, ix_is_empty s = bool_decide (elems s = []);
  ix_first_elems : forall s, ix_first s = head (elems s);
  elems_shift_remove : forall s x, elems (shift_remove s x) = filter (fun y => y <> x) (elems s);
}.

Section model.
Context `{IndexSet PSet}.

(** Times are in nanoseconds. *)
Record Aw := {
  pending : PSet;
  warmed : gset shape;
  shapes_this_hour : Z;
  hour_start : Z;
}.

Definition set_pending (p : PSet) (st : Aw) : Aw :=
  {| pending := p; warmed := warmed st; shapes_this_hour := shapes_this_hour st;
     hour_start := hour_start st |}.

Definition HOUR : Z := 3600 * 10 ^ 9.

(** ** Draining *)

(** One received shape: skipped when already warmed or pending. *)
Definition suspect_insert (warmed : gset shape) (pending : PSet) (x : shape) : PSet :=
  if negb (bool_decide (x ∈ warmed)) && negb (ix_contains pending x)
  then ix_insert pending x else pending.

(** [drain_rx]: [queued] is what [try_recv] yields before it fails. *)
Definition drain_rx (queued : list shape) (pending : PSet) (warmed : gset shape) : PSet :=
  foldl (suspect_insert warmed) pending queued.

(** ** The quiet window *)

(** One second of waiting: the suspects received and the queue depth read after
    it. *)
Record Tick := { tk_queued : list shape; tk_depth : Z }.

(** The waiting loop.  [None]: the ticks ran out before the loop ended. *)
Fixpoint quiet_loop (quiet_secs : Z) (ticks : list Tick) (consecutive_idle : Z)
    (pending : PSet) (warmed : gset shape) : option (bool * PSet) :=
  match ticks with
  | [] => None
  | tk :: ticks =>
      let pending := drain_rx (tk_queued tk) pending warmed in
      if tk_depth tk =? 0 then
        let consecutive_idle := wrap64 (consecutive_idle + 1) in
        if quiet_secs <=? consecutive_idle then Some (true, pending)
        else quiet_loop quiet_secs ticks consecutive_idle pending warmed
      else Some (false, pending)
  end.

Definition wait_for_quiet_window (quiet_secs : Z) (ticks : list Tick)
    (pending : PSet) (warmed : gset shape) : option (bool * PSet) :=
  if quiet_secs =? 0 then Some (true, pending)
  else quiet_loop quiet_secs ticks 0 pending warmed.

(** ** The loop *)

(** What ends the [select!]: a suspect, the closed channel, or the 5 s sleep. *)
Inductive Wake := WakeSuspect (x : shape) | WakeClosed | WakeTimeout.

(** What becomes of a dispatched shape: the pool channel is closed, the worker
    acknowledged, or its acknowledgement was dropped. *)
Inductive Ack := PoolClosed | Acked (r : result anyhow Z) | AckDropped.

(** The answers of the outside world during one iteration. *)
Record Iter := {
  it_queued : list shape;
  it_check : Z;
  it_reset : Z;
  it_wake : Wake;
  it_depth : Z;
  it_ticks : list Tick;
  it_ack : Ack;
}.

(** What an iteration does: the hourly reset, the dispatch of a shape to the
    pool, its successful compilation, and the engine-ready broadcast. *)
Inductive AwEvent :=
| HourReset (now : Z)
| Fired (x : shape)
| Compiled (x : shape) (compile_ms : Z)
| Broadcast (x : shape).

(** Pop and fire the first pending shape. *)
Definition fire (ack : Ack) (st : Aw) : list AwEvent * option Aw :=
  match ix_first (pending st) with
  | None => ([], Some st)
  | Some x =>
      let removed := set_pending (shift_remove (pending st) x) st in
      match ack with
      | PoolClosed => ([], None)
      | Acked (Ok compile_ms) =>
          (Fired x :: Compiled x compile_ms :: (if 0 <? compile_ms then [Broadcast x] else []),
           Some {| pending := pending removed; warmed := {[ x ]} ∪ warmed st;
                   shapes_this_hour := wrap32 (shapes_this_hour st + 1);
                   hour_start := hour_start st |})
      | Acked (Err _) => ([Fired x], Some removed)
      | AckDropped => ([Fired x], Some removed)
      end
  end.

(** The hourly reset: [elapsed] saturates at 0. *)
Definition hourly (it : Iter) (st : Aw) : list AwEvent * Aw :=
  if HOUR <=? sat_sub (it_check it) (hour_start st)
  then ([HourReset (it_reset it)],
        {| pending := pending st; warmed := warmed st; shapes_this_hour := 0;
           hour_start := it_reset it |})
  else ([], st).

(** One iteration of [run_adaptive_warmup_loop] after the reset; [None]: the
    loop has returned, or is still waiting when the observation ends. *)
Definition iter_body (cfg : AdaptiveWarmupConfig) (it : Iter) (st : Aw) : list AwEvent * option Aw :=
  if ix_is_empty (pending st) || (max_shapes_per_hour cfg <=? shapes_this_hour st) then
    match it_wake it with
    | WakeSuspect x => ([], Some (set_pending (suspect_insert (warmed st) (pending st) x) st))
    | WakeClosed => ([], None)
    | WakeTimeout => ([], Some st)
    end
  else if 0 <? it_depth it then ([], Some st)
  else
    match wait_for_quiet_window (quiet_secs cfg) (it_ticks it) (pending st) (warmed st) with
    | Some (true, pending) => fire (it_ack it) (set_pending pending st)
    | Some (false, pending) => ([], Some (set_pending pending st))
    | None => ([], None)
    end.

Definition run_iter (cfg : AdaptiveWarmupConfig) (it : Iter) (st : Aw) : list AwEvent * option Aw :=
  let st := set_pending (drain_rx (it_queued it) (pending st) (warmed st)) st in
  let (evs, st) := hourly it st in
  let (evs', r) := iter_body cfg it st in
  (evs ++ evs', r).

(** [run_adaptive_warmup_loop] over the iterations observed. *)
Fixpoint run_loop (cfg : AdaptiveWarmupConfig) (its : list Iter) (st : Aw) : list AwEvent * option Aw :=
  match its with
  | [] => ([], Some st)
  | it :: its =>
      let (evs, r) := run_iter cfg it st in
      match r with
      | None => (evs, None)
      | Some st => let (evs', r) := run_loop cfg its st in (evs ++ evs', r)
      end
  end.

Definition init_aw (now : Z) : Aw :=
  {| pending := ix_new; warmed := ∅; shapes_this_hour := 0; hour_start := now |}.

(** [spawn_adaptive_warmup]: nothing runs when it is disabled. *)
Definition spawn_adaptive_warmup (cfg : AdaptiveWarmupConfig) (now : Z) (its : list Iter) : list AwEvent :=
  if aw_enabled cfg then fst (run_loop cfg its (init_aw now)) else [].

(** ** What a trace shows *)

Definition received (it : Iter) : list shape :=
  it_queued it ++ (match it_wake it with WakeSuspect x => [x] | _ => [] end)
  ++ concat (tk_queued <$> it_ticks it).

Definition fired (evs : list AwEvent) : list shape :=
  omap (fun e => match e with Fired x => Some x | _ => None end) evs.
Definition compiled (evs : list AwEvent) : list (shape * Z) :=
  omap (fun e => match e with Compiled x ms => Some (x, ms) | _ => None end) evs.
Definition broadcast (evs : list AwEvent) : list shape :=
  omap (fun e => match e with Broadcast x => Some x | _ => None end) evs.
Definition resets (evs : list AwEvent) : list Z :=
  omap (fun e => match e with HourReset t => Some t | _ => None end) evs.

(** The compilations since the last reset of a trace, [c] before it. *)
Fixpoint count_after (c : Z) (evs : list AwEvent) : Z :=
  match evs with
  | [] => c
  | HourReset _ :: evs => count_after 0 evs
  | Compiled _ _ :: evs => count_after (c + 1) evs
  | _ :: evs => count_after c evs
  end.

(** ** Lemmas: draining *)

Definition wf (st : Aw) : Prop := forall x, x ∈ elems (pending st) -> x ∉ warmed st.

Context `{!IndexSetLaws PSet}.

Lemma suspect_insert_elems w p x :
  elems (suspect_insert w p x)
  = elems p ++ (if bool_decide (x ∈ w) || bool_decide (x ∈ elems p) then [] else [x]).
Proof.
  unfold suspect_insert. rewrite ix_contains_elems.
  repeat case_bool_decide; simpl; rewrite ?app_nil_r; try done. by apply elems_insert.
Qed.

Lemma suspect_insert_elem w p x y :
  y ∈ elems (suspect_insert w p x) <-> y ∈ elems p \/ (y = x /\ x ∉ w).
Proof.
  rewrite suspect_insert_elems, elem_of_app. repeat case_bool_decide; simpl;
    rewrite ?elem_of_nil, ?list_elem_of_singleton; intuition (subst; done).
Qed.

Lemma drain_rx_elem q p w y : y ∈ elems (drain_rx q p w) <-> y ∈ elems p \/ (y ∈ q /\ y ∉ w).
Proof.
  unfold drain_rx. revert p. induction q as [|x q IH]; intros p; simpl; [set_solver|].
  rewrite IH, suspect_insert_elem, elem_of_cons. intuition (subst; auto).
Qed.

(** Draining appends: the pending order is kept. *)
Lemma drain_rx_prefix q p w : elems p `prefix_of` elems (drain_rx q p w).
Proof.
  unfold drain_rx. revert p. induction q as [|x q IH]; intros p; simpl; [done|].
  etrans; [|apply IH]. rewrite suspect_insert_elems. by apply prefix_app_r.
Qed.

Lemma drain_rx_app q1 q2 p w : drain_rx (q1 ++ q2) p w = drain_rx q2 (drain_rx q1 p w) w.
Proof. apply foldl_app. Qed.

Lemma drain_wf q st : wf st -> wf (set_pending (drain_rx q (pending st) (warmed st)) st).
Proof. intros Hd x [Hx|[_ Hx]]%drain_rx_elem; auto. Qed.

(** ** Lemmas: the quiet window *)

(** The loop from [c] idle seconds: it needs at most [quiet_secs - c] ticks and
    answers whether they were all idle. *)
Lemma quiet_loop_spec q ticks c p w :
  0 <= c < q -> q <= U64_MAX -> q - c <= Z.of_nat (length ticks) ->
  exists k, (k <= Z.to_nat (q - c))%nat /\
    quiet_loop q ticks c p w
    = Some (forallb (fun tk => tk_depth tk =? 0) (take (Z.to_nat (q - c)) ticks),
            drain_rx (concat (tk_queued <$> take k ticks)) p w).
Proof.
  intros Hc Hq. revert c p Hc. induction ticks as [|tk ticks IH]; intros c p Hc Hl;
    [simpl in Hl; lia|]. cbn [quiet_loop].
  replace (Z.to_nat (q - c)) with (S (Z.to_nat (q - (c + 1)))) by lia. cbn [take forallb].
  rewrite wrap64_small by (unfold usize, U64_MAX in *; lia).
  destruct (tk_depth tk =? 0) eqn:Ed; simpl.
  - destruct (q <=? c + 1) eqn:Eq; bool_to_prop.
    + exists 1%nat. split; [lia|]. replace (Z.to_nat (q - (c + 1))) with 0%nat by lia.
      simpl. by rewrite ?take_0, ?app_nil_r.
    + destruct (IH (c + 1) (drain_rx (tk_queued tk) p w)) as (k & Hk & ->); [lia| |].
      { cbn [length] in Hl. lia. }
      exists (S k). split; [lia|]. simpl. by rewrite drain_rx_app.
  - exists 1%nat. split; [lia|]. simpl. by rewrite app_nil_r.
Qed.

Lemma quiet_loop_elem q ticks c p w b p' :
  quiet_loop q ticks c p w = Some (b, p') ->
  exists k, p' = drain_rx (concat (tk_queued <$> take k ticks)) p w.
Proof.
  revert c p. induction ticks as [|tk ticks IH]; intros c p; cbn [quiet_loop]; [done|].
  assert (Hstop : forall r, Some (r, drain_rx (tk_queued tk) p w) = Some (b, p') ->
    exists k, p' = drain_rx (concat (tk_queued <$> take k (tk :: ticks))) p w).
  { intros r [= _ <-]. exists 1%nat. simpl. by rewrite app_nil_r. }
  case_if; [|by apply Hstop]. case_if; [by apply Hstop|].
  intros [k ->]%IH. exists (S k). simpl. by rewrite drain_rx_app.
Qed.

Lemma wait_elem q ticks p w b p' :
  wait_for_quiet_window q ticks p w = Some (b, p') ->
  exists k, p' = drain_rx (concat (tk_queued <$> take k ticks)) p w.
Proof.
  unfold wait_for_quiet_window. case_if; [|apply quiet_loop_elem].
  intros [= _ <-]. exists 0%nat. done.
Qed.

(** ** Lemmas: traces *)

Lemma count_after_app c e1 e2 : count_after c (e1 ++ e2) = count_after (count_after c e1) e2.
Proof. revert c. induction e1 as [|[] e1 IH]; intros c; simpl; auto. Qed.

(** The counters of a trace never exceed [max]. *)
Definition within_budget (max c : Z) (evs : list AwEvent) : Prop :=
  forall p, p `prefix_of` evs -> count_after c p <= max.

Lemma within_budget_nil max c : c <= max -> within_budget max c [].
Proof. intros Hc p Hp. by apply prefix_nil_inv in Hp as ->. Qed.

Lemma within_budget_cons max c e evs :
  c <= max -> within_budget max (count_after c [e]) evs -> within_budget max c (e :: evs).
Proof.
  intros Hc Hh [|e' p] Hp; [done|]. apply prefix_cons_inv_1 in Hp as Hx. subst e'.
  apply prefix_cons_inv_2, Hh in Hp. by rewrite <- count_after_app in Hp.
Qed.

Lemma prefix_app_cases {A} (p e1 e2 : list A) :
  p `prefix_of` e1 ++ e2 -> p `prefix_of` e1 \/ exists q, p = e1 ++ q /\ q `prefix_of` e2.
Proof.
  revert p. induction e1 as [|x e1 IH]; intros p Hp; simpl in *; [right; by exists p|].
  destruct p as [|y p]; [left; apply prefix_nil|].
  pose proof (prefix_cons_inv_1 _ _ _ _ Hp) as ->. apply prefix_cons_inv_2 in Hp.
  destruct (IH p Hp) as [Hh|(q & -> & Hh)]; [left; by apply prefix_cons | right; eauto].
Qed.

Lemma within_budget_app max c e1 e2 :
  within_budget max c e1 -> within_budget max (count_after c e1) e2 -> within_budget max c (e1 ++ e2).
Proof.
  intros Hh1 Hh2 p Hp. destruct (prefix_app_cases p e1 e2 Hp) as [Hh|(q & -> & Hh)].
  - by apply Hh1.
  - rewrite count_after_app. by apply Hh2.
Qed.

Definition hour_apart (a b : Z) : Prop := a + HOUR <= b.

Lemma chained_glue {A} (R : A -> A -> Prop) a l1 l2 :
  chained R (a :: l1) -> chained R (default a (last l1) :: l2) -> chained R (a :: l1 ++ l2).
Proof.
  revert a. induction l1 as [|b l1 IH]; intros a; [done|]. intros [Hab Hh1] Hh2.
  split; [done|]. apply IH; [done|]. rewrite last_cons in Hh2. by destruct (last l1).
Qed.

Lemma omap_last_glue (l1 l2 : list Z) a :
  default a (last (l1 ++ l2)) = default (default a (last l1)) (last l2).
Proof. rewrite last_app. by destruct (last l2). Qed.

(** What a stretch of the run does from [st], the suspects [src] received during
    it, [r] the state after it when the loop goes on. *)
Record TraceSpec (max : Z) (src : list shape) (st : Aw) (evs : list AwEvent) (r : option Aw) : Prop := {
  ts_fired : forall x, x ∈ fired evs -> x ∈ elems (pending st) \/ x ∈ src;
  ts_nodup : NoDup (fst <$> compiled evs);
  ts_fresh : forall x, x ∈ (fst <$> compiled evs) -> (x ∉ warmed st) /\ x ∈ fired evs;
  ts_bcast : broadcast evs = fst <$> filter (fun c => 0 < snd c) (compiled evs);
  ts_budget : within_budget max (shapes_this_hour st) evs;
  ts_hours : chained hour_apart (hour_start st :: resets evs);
  ts_next : forall st', r = Some st' ->
    wf st' /\ (forall x, x ∈ warmed st' <-> x ∈ warmed st \/ x ∈ (fst <$> compiled evs))
    /\ shapes_this_hour st' = count_after (shapes_this_hour st) evs
    /\ hour_start st' = default (hour_start st) (last (resets evs))
    /\ (forall x, x ∈ elems (pending st') -> x ∈ elems (pending st) \/ x ∈ src);
}.

Lemma ts_trans max src1 src2 st e1 st1 e2 r :
  TraceSpec max src1 st e1 (Some st1) -> TraceSpec max src2 st1 e2 r ->
  TraceSpec max (src1 ++ src2) st (e1 ++ e2) r.
Proof.
  intros [F1 N1 D1 B1 W1 Hh1 X1] [F2 N2 D2 B2 W2 Hh2 X2].
  destruct (X1 st1 eq_refl) as (Hwf & Hw & Hs & Hh & Hp).
  unfold fired, compiled, broadcast, resets in *.
  split; unfold fired, compiled, broadcast, resets.
  - intros x. rewrite omap_app, !elem_of_app. intros [Hx|Hx].
    + apply F1 in Hx. naive_solver.
    + apply F2 in Hx as [Hx|Hx]; [apply Hp in Hx|]; naive_solver.
  - rewrite omap_app, fmap_app, NoDup_app. split; [done|]. split; [|done].
    intros x Hx Hx2. apply D2 in Hx2 as [Hx2 _]. apply Hx2, Hw. by right.
  - intros x. rewrite !omap_app, fmap_app, !elem_of_app. intros [Hx|Hx].
    + apply D1 in Hx as [??]. auto.
    + apply D2 in Hx as [Hx ?]. split; [|auto]. contradict Hx. apply Hw. by left.
  - by rewrite !omap_app, filter_app, fmap_app, B1, B2.
  - apply within_budget_app; [done|]. by rewrite <- Hs.
  - rewrite omap_app. apply chained_glue; [done|]. by rewrite <- Hh.
  - intros st' ->. destruct (X2 st' eq_refl) as (Hwf' & Hw' & Hs' & Hh' & Hp').
    rewrite !omap_app. split_and!; [done| | | |].
    + intros x. rewrite Hw', Hw, fmap_app, elem_of_app. naive_solver.
    + by rewrite count_after_app, <- Hs.
    + by rewrite omap_last_glue, <- Hh.
    + intros x Hx. rewrite elem_of_app. apply Hp' in Hx as [Hx|Hx]; [apply Hp in Hx|]; naive_solver.
Qed.

(** A stretch without events that only receives suspects. *)
Lemma ts_quiet max src st p r :
  shapes_this_hour st <= max -> wf (set_pending p st) ->
  (forall x, x ∈ elems p -> x ∈ elems (pending st) \/ x ∈ src) ->
  r = Some (set_pending p st) \/ r = None -> TraceSpec max src st [] r.
Proof.
  intros Hs Hwf Hp Hr. split; simpl; try done.
  - by intros x Hx%elem_of_nil.
  - by apply NoDup_nil_2.
  - by intros x Hx%elem_of_nil.
  - by apply within_budget_nil.
  - intros st' Hst. destruct Hr as [Hr|Hr]; [|by simplify_eq].
    simplify_eq. split_and!; simpl; try done. set_solver.
Qed.

Lemma ts_hourly max it st st' evs :
  wf st -> 0 <= max -> shapes_this_hour st <= max -> it_check it <= it_reset it ->
  hourly it st = (evs, st') -> TraceSpec max [] st evs (Some st').
Proof.
  intros Hwf Hmax Hs Hc. unfold hourly. case_if; intros [= <- <-]; bool_to_prop.
  - unfold sat_sub, HOUR in *. split; simpl; try done.
    + by intros x Hx%elem_of_nil.
    + by apply NoDup_nil_2.
    + by intros x Hx%elem_of_nil.
    + apply within_budget_cons; [done|]. by apply within_budget_nil.
    + unfold hour_apart, HOUR. lia.
    + intros st' [= <-]. split_and!; simpl; try done; set_solver.
  - apply (ts_quiet max [] st (pending st)); [done|by destruct st|auto|left; by destruct st].
Qed.

Lemma shift_remove_elem x y p : y ∈ elems (shift_remove p x) <-> y <> x /\ y ∈ elems p.
Proof. rewrite elems_shift_remove. by rewrite list_elem_of_filter. Qed.

Lemma ts_fire max ack st evs r :
  wf st -> 0 <= shapes_this_hour st < max -> max <= U32_MAX ->
  fire ack st = (evs, r) -> TraceSpec max [] st evs r.
Proof.
  intros Hd Hs Hm. unfold fire. rewrite ix_first_elems.
  assert (Hsame : forall r', r' = Some st \/ r' = None -> TraceSpec max [] st [] r').
  { intros r' Hr. apply (ts_quiet max [] st (pending st)); [lia|by destruct st|auto|by destruct st]. }
  destruct (head (elems (pending st))) as [x|] eqn:Ep; [|intros [= <- <-]; apply Hsame; auto].
  assert (Hx : x ∈ elems (pending st)) by (by apply head_Some_elem_of).
  assert (Hd' : wf (set_pending (shift_remove (pending st) x) st)).
  { intros y [_ Hy]%shift_remove_elem. by apply Hd. }
  assert (Hfired : forall e, e = [Fired x] ->
    TraceSpec max [] st e (Some (set_pending (shift_remove (pending st) x) st))).
  { intros e ->. split; simpl; try done; try by intros y Hy%elem_of_nil.
    - intros y ->%list_elem_of_singleton. by left.
    - by apply NoDup_nil_2.
    - apply within_budget_cons; [lia|]. apply within_budget_nil. simpl. lia.
    - intros st' [= <-]. split_and!; simpl; try done; [set_solver|].
      intros y [_ Hy]%shift_remove_elem. auto. }
  destruct ack as [|[ms|e]|]; intros [= <- <-]; try by apply Hfired.
  { apply Hsame. auto. }
  clear Hfired Hsame. split; simpl; try done.
  - case_if; simpl; intros y ->%list_elem_of_singleton; by left.
  - case_if; simpl; by apply NoDup_singleton.
  - case_if; simpl; intros y ->%list_elem_of_singleton; (split; [by apply Hd|by left]).
  - destruct (0 <? ms) eqn:E; bool_to_prop; simpl.
    + by rewrite filter_cons_True by done.
    + rewrite filter_cons_False by (simpl; lia). done.
  - apply within_budget_cons; [lia|]. apply within_budget_cons; [simpl; lia|]. simpl.
    case_if; [apply within_budget_cons; simpl; [lia|]|]; apply within_budget_nil; simpl; lia.
  - by case_if.
  - intros st' [= <-]. simpl. unfold wrap32. rewrite Z.mod_small by (unfold U32_MAX in *; lia).
    split_and!.
    + intros y [Hy1 Hy2]%shift_remove_elem. simpl.
      rewrite elem_of_union, elem_of_singleton. apply Hd in Hy2. naive_solver.
    + intros y. rewrite elem_of_union, elem_of_singleton. case_if; simpl;
        rewrite list_elem_of_singleton; naive_solver.
    + by case_if.
    + by case_if.
    + intros y [_ Hy]%shift_remove_elem. auto.
Qed.

Lemma drain_take_elem k (ticks : list Tick) p w x :
  x ∈ elems (drain_rx (concat (tk_queued <$> take k ticks)) p w) ->
  x ∈ elems p \/ x ∈ concat (tk_queued <$> ticks).
Proof.
  intros [Hx|[Hx _]]%drain_rx_elem; [by left|]. right.
  apply elem_of_concat in Hx as (l & Hl & Hx). apply elem_of_concat. exists l. split; [|done].
  apply list_elem_of_fmap in Hl as (tk & -> & Htk). apply list_elem_of_fmap_2.
  apply list_elem_of_lookup in Htk as [i Hi]. apply lookup_take_Some in Hi as [Hi _].
  by eapply list_elem_of_lookup_2.
Qed.

Lemma ts_body cfg it st evs r :
  wf st -> 0 <= shapes_this_hour st <= max_shapes_per_hour cfg ->
  max_shapes_per_hour cfg <= U32_MAX -> iter_body cfg it st = (evs, r) ->
  TraceSpec (max_shapes_per_hour cfg)
    ((match it_wake it with WakeSuspect x => [x] | _ => [] end) ++ concat (tk_queued <$> it_ticks it))
    st evs r.
Proof.
  intros Hwf Hs Hm. unfold iter_body.
  set (src := _ ++ _).
  assert (Hq : forall r', r' = Some st \/ r' = None ->
    TraceSpec (max_shapes_per_hour cfg) src st [] r').
  { intros r' Hr. apply (ts_quiet _ src st (pending st)); [lia|by destruct st|auto|by destruct st]. }
  case_if.
  { destruct (it_wake it) as [x| |] eqn:Ew; intros [= <- <-]; [|apply Hq; auto..].
    eapply ts_quiet; [lia| | |by left].
    - apply (drain_wf [x] st Hwf).
    - intros y [Hy|[-> _]]%suspect_insert_elem; [by left|]. right. unfold src.
      rewrite elem_of_app. left. by left. }
  apply orb_false_iff in Heqb as [_ Hlt]. bool_to_prop.
  case_if; [intros [= <- <-]; apply Hq; auto|].
  destruct (wait_for_quiet_window _ _ _ _) as [[b p]|] eqn:Ewait;
    [|intros [= <- <-]; apply Hq; auto].
  apply wait_elem in Ewait as [k ->]. set (p := drain_rx _ _ _).
  assert (Hp : wf (set_pending p st)) by apply (drain_wf _ st Hwf).
  assert (Hw : TraceSpec (max_shapes_per_hour cfg) src st [] (Some (set_pending p st))).
  { apply (ts_quiet _ src st p); [lia|done| |by left].
    intros x Hx. apply drain_take_elem in Hx as [Hx|Hx]; [by left|].
    right. unfold src. rewrite elem_of_app. by right. }
  destruct b; [|by intros [= <- <-]]. intros Hf.
  rewrite <- (app_nil_r src). change evs with ([] ++ evs).
  eapply ts_trans; [exact Hw|]. eapply ts_fire; [done|simpl; lia|done|exact Hf].
Qed.

Lemma count_after_nonneg c evs : 0 <= c -> 0 <= count_after c evs.
Proof. revert c. induction evs as [|[] evs IH]; intros c Hc; simpl; auto with lia. Qed.

(** The counter of a state reached within budget is within budget. *)
Lemma ts_count max src st evs st' :
  0 <= shapes_this_hour st -> TraceSpec max src st evs (Some st') ->
  wf st' /\ 0 <= shapes_this_hour st' <= max.
Proof.
  intros Hc [_ _ _ _ Hb _ Hx]. destruct (Hx st' eq_refl) as (Hwf & _ & -> & _).
  split; [done|]. split; [by apply count_after_nonneg|]. by apply Hb.
Qed.

Lemma ts_iter cfg it st evs r :
  wf st -> 0 <= shapes_this_hour st <= max_shapes_per_hour cfg ->
  max_shapes_per_hour cfg <= U32_MAX -> it_check it <= it_reset it ->
  run_iter cfg it st = (evs, r) -> TraceSpec (max_shapes_per_hour cfg) (received it) st evs r.
Proof.
  intros Hwf Hs Hm Hc. unfold run_iter, received.
  set (st1 := set_pending _ st).
  assert (Hh1 : TraceSpec (max_shapes_per_hour cfg) (it_queued it) st [] (Some st1)).
  { eapply ts_quiet; [lia| | |by left]; [by apply drain_wf|].
    intros x [Hx|[Hx _]]%drain_rx_elem; auto. }
  destruct (hourly it st1) as [e1 st2] eqn:E1.
  apply (ts_hourly (max_shapes_per_hour cfg)) in E1; [|by apply drain_wf|lia|simpl; lia|done].
  destruct (ts_count _ _ _ _ _ (proj1 Hs : 0 <= shapes_this_hour st1) E1) as [Hwf2 Hs2].
  destruct (iter_body cfg it st2) as [e2 r2] eqn:E2. intros [= <- <-].
  apply ts_body in E2; [|done..].
  change (e1 ++ e2) with ([] ++ e1 ++ e2). eapply ts_trans; [exact Hh1|].
  change (?a ++ ?b) with ([] ++ (a ++ b)) at 1. eapply ts_trans; [exact E1|exact E2].
Qed.

Lemma ts_loop cfg its st evs r :
  wf st -> 0 <= shapes_this_hour st <= max_shapes_per_hour cfg ->
  max_shapes_per_hour cfg <= U32_MAX -> Forall (fun it => it_check it <= it_reset it) its ->
  run_loop cfg its st = (evs, r) ->
  TraceSpec (max_shapes_per_hour cfg) (concat (received <$> its)) st evs r.
Proof.
  intros Hwf Hs Hm Hc. revert st evs r Hwf Hs. induction Hc as [|it its Hit _ IH];
    intros st evs r Hwf Hs; cbn [run_loop].
  - intros [= <- <-]. apply (ts_quiet _ _ st (pending st)); [lia|by destruct st|auto|].
    left. by destruct st.
  - destruct (run_iter cfg it st) as [e1 [st1|]] eqn:E1; apply ts_iter in E1; try done.
    + destruct (run_loop cfg its st1) as [e2 r2] eqn:E2. intros [= <- <-].
      destruct (ts_count _ _ _ _ _ (proj1 Hs) E1) as [Hwf1 Hs1].
      apply IH in E2; [|done..]. eapply ts_trans; [exact E1|exact E2].
    + intros [= <- <-]. destruct E1 as [F N D B W Hr X]. split; try done.
      intros x Hx. apply F in Hx. simpl. rewrite elem_of_app. naive_solver.
Qed.

Lemma wait_spec q ticks p w :
  0 <= q <= U64_MAX -> q <= Z.of_nat (length ticks) ->
  exists k, wait_for_quiet_window q ticks p w
    = Some (forallb (fun tk => tk_depth tk =? 0) (take (Z.to_nat q) ticks),
            drain_rx (concat (tk_queued <$> take k ticks)) p w).
Proof.
  intros Hq Hl. unfold wait_for_quiet_window. destruct (q =? 0) eqn:E; bool_to_prop.
  - exists 0%nat. subst q. done.
  - destruct (quiet_loop_spec q ticks 0 p w) as (k & _ & ->); [lia..|].
    exists k. by rewrite Z.sub_0_r.
Qed.

(** ** Properties *)

(** C18: Whatever the suspects, the traffic, the clock and the workers do, the
    adaptive warmup loop only dispatches shapes that a worker reported; no shape
    is compiled twice; an engine-ready broadcast is sent exactly for the
    compilations of positive duration, in their order; between two hourly resets
    at most [max_shapes_per_hour] shapes are compiled (at every moment of the
    run), and two resets are at least one hour apart.  A disabled loop does
    nothing. *)
Theorem adaptive_warmup_safe (cfg : AdaptiveWarmupConfig) (now : Z) (its : list Iter)
    (Hmax : 0 <= max_shapes_per_hour cfg <= U32_MAX)
    (Hclock : Forall (fun it => it_check it <= it_reset it) its) :
  let evs := spawn_adaptive_warmup cfg now its in
  (forall x, x ∈ fired evs -> x ∈ concat (received <$> its))
  /\ NoDup (fst <$> compiled evs)
  /\ (forall x, x ∈ (fst <$> compiled evs) -> x ∈ fired evs)
  /\ broadcast evs = (fst <$> filter (fun c => 0 < snd c) (compiled evs))
  /\ (forall p, p `prefix_of` evs -> count_after 0 p <= max_shapes_per_hour cfg)
  /\ chained (fun a b => a + HOUR <= b) (now :: resets evs)
  /\ (aw_enabled cfg = false -> evs = []).
Proof.
  unfold spawn_adaptive_warmup. destruct (aw_enabled cfg).
  - destruct (run_loop cfg its (init_aw now)) as [evs r] eqn:E. cbn [fst].
    apply ts_loop in E; [|intros x Hx; simpl in Hx; rewrite elems_new in Hx; by apply elem_of_nil in Hx|simpl; lia|lia|done].
    destruct E as [F N D B W Hr X]. split_and!; [|done| |done|done|done|done].
    + intros x Hx. apply F in Hx as [Hx|Hx]; [|done]. simpl in Hx. rewrite elems_new in Hx.
      by apply elem_of_nil in Hx.
    + intros x Hx. by apply D.
  - split_and!; try done; [by intros x Hx%elem_of_nil|by apply NoDup_nil_2|].
    intros p Hp. apply prefix_nil_inv in Hp as ->. simpl. lia.
Qed.

(** The background loop does not interfere with traffic, and serves the
    suspects first come first served: with budget left and an empty queue it
    waits (for a bounded number of seconds) and dispatches the oldest pending
    shape iff the queue was observed empty for [quiet_secs] consecutive seconds;
    a dispatched shape leaves the pending set whatever the worker answers, and
    the others keep their order.  Otherwise it dispatches nothing and keeps
    every shape. *)
Theorem quiet_window_fires_oldest (cfg : AdaptiveWarmupConfig) (it : Iter) (st : Aw) (x : shape)
    (p : list shape)
    (Hwf : wf st) (Hquiet : 0 <= quiet_secs cfg <= U64_MAX)
    (Hticks : quiet_secs cfg <= Z.of_nat (length (it_ticks it)))
    (Hpending : elems (drain_rx (it_queued it) (pending st) (warmed st)) = x :: p)
    (Hbudget : shapes_this_hour (snd (hourly it st)) < max_shapes_per_hour cfg)
    (Hdepth : it_depth it = 0) :
  let '(evs, r) := run_iter cfg it st in
  if forallb (fun tk => tk_depth tk =? 0) (take (Z.to_nat (quiet_secs cfg)) (it_ticks it)) then
    fired evs = (match it_ack it with PoolClosed => [] | _ => [x] end)
    /\ (r = None <-> it_ack it = PoolClosed)
    /\ forall st', r = Some st' -> (x ∉ elems (pending st')) /\ p `prefix_of` elems (pending st')
  else fired evs = [] /\ exists st', r = Some st' /\ (x :: p) `prefix_of` elems (pending st').
Proof.
  unfold run_iter. set (st1 := set_pending _ st) in *.
  assert (Hh : exists e0 st2, hourly it st1 = (e0, st2) /\ fired e0 = []
    /\ pending st2 = pending st1 /\ warmed st2 = warmed st
    /\ shapes_this_hour st2 < max_shapes_per_hour cfg).
  { unfold hourly in *. cbn [hour_start st1 set_pending] in *.
    case_if; cbn [snd shapes_this_hour] in *; eexists _, _; split_and!; eauto. }
  destruct Hh as (e0 & st2 & -> & He0 & Hp2 & Hw2 & Hs2).
  unfold iter_body. rewrite ix_is_empty_elems, Hp2, Hdepth. cbn [st1 pending set_pending].
  set (ps := drain_rx _ _ _) in *. rewrite Hpending, bool_decide_false by done. cbn [orb].
  replace (max_shapes_per_hour cfg <=? shapes_this_hour st2) with false by (symmetry; lia).
  rewrite Z.ltb_irrefl, Hw2.
  destruct (wait_spec (quiet_secs cfg) (it_ticks it) ps (warmed st)) as [k ->]; [done..|].
  set (q := concat _).
  destruct (drain_rx_prefix q ps (warmed st)) as [more Hmore]. rewrite Hpending in Hmore. simpl in Hmore.
  case_if; [|unfold fired; rewrite omap_app; fold (fired e0); rewrite He0; split; [done|];
              eexists; split; [done|]; simpl; rewrite Hmore; exists more; done].
  unfold fire. cbn [pending set_pending]. rewrite ix_first_elems, Hmore. cbn [head].
  pose proof (elems_nodup (drain_rx q ps (warmed st))) as Hn. rewrite Hmore in Hn.
  apply NoDup_cons in Hn as [Hx _].
  assert (Hrm : elems (shift_remove (drain_rx q ps (warmed st)) x) = p ++ more).
  { rewrite elems_shift_remove, Hmore, filter_cons_False by (intros Hne; by apply Hne).
    apply filter_id. rewrite Forall_forall. intros y Hy ->. done. }
  unfold fired. destruct (it_ack it) as [|[ms|e]|]; rewrite omap_app; fold (fired e0); rewrite He0;
    (split_and!; [by try case_if|done|]); try done;
    intros st' [= <-]; cbn [pending set_pending]; rewrite Hrm;
    (split; [done|by apply prefix_app_r]).
Qed.
End model.

(** ** An implementation of the set interface *)

Definition IndexList : Type := { l : list shape | NoDup l }.

Lemma nodup_snoc (l : list shape) x : NoDup l -> x ∉ l -> NoDup (l ++ [x]).
Proof.
  intros Hl Hx. apply NoDup_app. split; [done|]. split; [|by apply NoDup_singleton].
  by intros y Hy ->%list_elem_of_singleton.
Qed.

#[export] Instance index_list : IndexSet IndexList := {|
  ix_new := exist _ [] (NoDup_nil_2);
  elems := @proj1_sig _ _;
  ix_contains s x := bool_decide (x ∈ `s);
  ix_insert s x := match decide (x ∈ `s) with
                   | left _ => s
                   | right Hx => exist _ (`s ++ [x]) (nodup_snoc _ _ (proj2_sig s) Hx)
                   end;
  ix_is_empty s := bool_decide (`s = []);
  ix_first s := head (`s);
  shift_remove s x := exist _ (filter (fun y => y <> x) (`s)) (NoDup_filter _ _ (proj2_sig s));
|}.

#[export] Instance index_list_laws : IndexSetLaws IndexList.
Proof.
  split; try done.
  - by intros [l Hl].
  - intros s x Hx. simpl. by destruct (decide (x ∈ `s)).
Qed.

Definition example_iter : Iter :=
  {| it_queued := [(8, 128); (1, 64)]; it_check := HOUR + 5; it_reset := HOUR + 6; it_wake := WakeTimeout;
     it_depth := 0; it_ticks := [{| tk_queued := [(8, 128)]; tk_depth := 0 |}]; it_ack := Acked (Ok 41) |}.
Definition example_aw_config : AdaptiveWarmupConfig :=
  {| aw_enabled := true; quiet_secs := 1; max_shapes_per_hour := 12 |}.

Lemma adaptive_warmup_safe_witness :
  spawn_adaptive_warmup (PSet := IndexList) example_aw_config 3 [example_iter]
    = [HourReset (HOUR + 6); Fired (8, 128); Compiled (8, 128) 41; Broadcast (8, 128)]
  /\ NoDup (fst <$> compiled (spawn_adaptive_warmup (PSet := IndexList) example_aw_config 3 [example_iter])).
Proof.
  split; [vm_compute; reflexivity|].
  destruct (adaptive_warmup_safe (PSet := IndexList) example_aw_config 3 [example_iter]) as (_ & Hn & _).
  - vm_compute. split; discriminate.
  - constructor; [vm_compute; discriminate | constructor].
  - exact Hn.
Defined.

Lemma quiet_window_fires_oldest_witness :
  let st : Aw (PSet := IndexList) := init_aw 3 in
  elems (drain_rx (it_queued example_iter) (pending st) (warmed st)) = [(8, 128); (1, 64)]
  /\ (let '(evs, r) := run_iter example_aw_config example_iter st in
      fired evs = [(8, 128)]
      /\ (r = None <-> it_ack example_iter = PoolClosed)
      /\ forall st', r = Some st' ->
           ((8, 128) ∉ elems (pending st')) /\ [(1, 64)] `prefix_of` elems (pending st')).
Proof.
  split; [vm_compute; reflexivity|].
  apply (quiet_window_fires_oldest example_aw_config example_iter (init_aw 3) (8, 128) [(1, 64)]).
  - intros x Hx. inversion Hx.
  - vm_compute. split; discriminate.
  - vm_compute. discriminate.
  - vm_compute. reflexivity.
  - vm_compute. reflexivity.
  - reflexivity.
Defined.
