(* ===== verification/Coverage.v ===== *)
(** * Engine coverage of the running pool

    [src/embedder/pool.rs], [worker/run.rs], [jit_guard.rs] and
    [adaptive_warmup.rs] together: the workers of the pool, the suspects they
    report, the adaptive-warmup task that compiles them and the engine-ready
    broadcasts that raise the pool-wide ceiling, as one transition system.  The
    theorems bound the ceiling the in-band guard reads. *)

From S2P Require Import Prelude Float RustStr BinPack JitGuard EmbedMath TrtCache Types Pipeline TrtWarmup Retry WorkerGuard Worker Pool AdaptiveWarmup.

(** ** Shapes within a bound *)

Definition within (B : Z) (x : shape) : Prop := snd x <= B.

(** The ceiling and every shape in flight are within [B]. *)
Record cov_ok (B : Z) (sh : Shared) : Prop := {
  co_ceiling : WorkerGuard.warmed_seq_ceiling sh <= B;
  co_suspects : Forall (within B) (suspects sh);
  co_broadcasts : Forall (within B) (broadcasts sh);
}.

Lemma cov_raise B v sh : v <= B -> cov_ok B sh -> cov_ok B (raise_ceiling v sh).
Proof. intros Hv [Hc Hs Hb]. split; simpl; [lia|done..]. Qed.

Lemma cov_suspect B x sh : within B x -> cov_ok B sh -> cov_ok B (suspect_try_send x sh).
Proof.
  intros Hx [Hc Hs Hb]. unfold suspect_try_send. case_if; [|by split].
  split; simpl; [done| |done]. apply Forall_app. split; [done|]. by constructor.
Qed.

Lemma cov_broadcast B x sh : within B x -> cov_ok B sh -> cov_ok B (broadcast_send x sh).
Proof.
  intros Hx [Hc Hs Hb]. split; simpl; [done..|]. apply Forall_app. split; [done|]. by constructor.
Qed.

Create HintDb cov.
#[export] Hint Resolve cov_raise cov_suspect cov_broadcast : cov.

Lemma cov_loaded B v sh : cov_ok B sh -> cov_ok B (set_loaded v sh).
Proof. by intros []. Qed.
Lemma cov_live B v sh : cov_ok B sh -> cov_ok B (set_live v sh).
Proof. by intros []. Qed.
#[export] Hint Resolve cov_loaded cov_live : cov.

Lemma cov_log B stats config n sh :
  max_chunk_seq stats <= B -> cov_ok B sh ->
  cov_ok B (snd (log_inference_complete stats config n sh)).
Proof.
  intros Hm Hok. unfold log_inference_complete. case_if; [done|].
  assert (Hx : within B (n, max_chunk_seq stats)) by done.
  destruct (jit_suspect_tx config), (engine_propagation_tx config); simpl; auto with cov.
Qed.

Section worker.
Context `{KeySort nat} {Session Output : Type} `{Runtime Session Output} `{WorkerWorld Session}.

Lemma prewarm_max_seq B (s : Session) shapes sm :
  0 <= B -> Forall (within B) shapes -> max_warmed_seq (snd (trt_prewarm s shapes sm)) <= B.
Proof.
  intros HB Hf. rewrite Forall_forall in Hf. unfold trt_prewarm. case_bool_decide as Hne; [done|].
  set (cs := if 0 <? _ then coverage_check_shapes shapes else []).
  assert (Hcs : forall x, x ∈ cs -> x ∈ shapes).
  { unfold cs. case_if; [|by intros x Hx%elem_of_nil].
    destruct (coverage_check_spec shapes Hne)
      as (r1 & r2 & r3 & r4 & _ & _ & _ & _ & (I1 & I2 & I3 & I4) & _ & _ & _ & Hin & _).
    intros x Hx%Hin. set_solver. }
  destruct (foldl sweep_step _ cs) as [s1 w] eqn:Hs1.
  apply sweep_counts in Hs1 as (_ & _ & Hm1). cbn [sw_max_seq] in Hm1.
  assert (Hw : sw_max_seq w <= B).
  { destruct Hm1 as [->|(x & -> & Hx%Hcs%Hf)%list_elem_of_fmap]; done. }
  destruct (sw_fast w); [by destruct (fsync_engine_dir s1)|].
  destruct (foldl sweep_step (s1, w) _) as [s2 w2] eqn:Hs2.
  apply sweep_counts in Hs2 as (_ & _ & Hm2). destruct (fsync_engine_dir s2). cbn.
  destruct Hm2 as [->|(x & -> & Hx)%list_elem_of_fmap]; [done|].
  apply list_elem_of_In, List.filter_In in Hx as [Hx%list_elem_of_In _]. by apply Hf.
Qed.

Lemma cov_propagate B sm (s : Session) sh x :
  0 <= B -> within B x -> cov_ok B sh -> cov_ok B (snd (propagate sm (s, sh) x)).
Proof.
  intros HB Hx Hok. unfold propagate.
  pose proof (prewarm_max_seq B s [x] sm HB ltac:(by constructor)) as Hm.
  destruct (trt_prewarm s [x] sm) as [s' stats]. simpl in *. case_if; [|done].
  apply cov_raise; [|done]. unfold within in Hx. lia.
Qed.

Lemma cov_fold_propagate B sm l (s : Session) sh :
  0 <= B -> Forall (within B) l -> cov_ok B sh -> cov_ok B (snd (foldl (propagate sm) (s, sh) l)).
Proof.
  intros HB Hl. revert s sh. induction Hl as [|x l Hx _ IH]; intros s sh Hok; [done|]. cbn [foldl].
  pose proof (cov_propagate B sm s sh x HB Hx Hok) as Hp.
  destruct (propagate sm (s, sh) x) as [s' sh']. by apply IH.
Qed.

(** The shapes of what a subscriber receives. *)
Definition rx_shapes (rx : list recv) : list shape :=
  omap (fun r => match r with RShape x => Some x | RLagged _ => None end) rx.

Lemma cov_drain B config rx (w : Worker Session) sh :
  0 <= B -> Forall (within B) (rx_shapes rx) -> cov_ok B sh ->
  cov_ok B (snd (drain_step config rx w sh)).
Proof.
  intros HB Hrx Hok. unfold drain_step. destruct (models w) as [s|]; [|done]. case_if; [|done].
  destruct (drain_spec (propagate (detected_sm w)) rx (warmed_local w) (s, sh))
    as (fresh & -> & _ & Hf).
  assert (Hfr : Forall (within B) fresh).
  { rewrite Forall_forall in Hrx |- *. intros x [Hx _]%Hf. by apply Hrx. }
  pose proof (cov_fold_propagate B (detected_sm w) fresh s sh HB Hfr Hok) as Hc.
  destruct (foldl _ _ fresh) as [s' sh']. done.
Qed.

(** ** What a guarded request reports *)

(** The longest sequence the guard lets through a run. *)
Definition guard_bound (g : TrtJitGuard) : Z :=
  Z.max 1 (Z.max (g_warmed_seq_ceiling g) (g_guard_seq g - 1)).

Lemma run_chunks_max {X T} (extract : Output -> M X) (row : X -> nat -> nat -> M T) encs lens B
    chunks (s : Session) st s' st' :
  Forall (fun c => chunk_pad lens c <= B) chunks -> ls_max_chunk_seq st <= B ->
  run_chunks extract row encs lens chunks s st = (s', Ok st') -> ls_max_chunk_seq st' <= B.
Proof.
  intros Hc. revert s st. induction Hc as [|c chunks Hc _ IH]; intros s st Hst; simpl.
  - by intros [= _ <-].
  - destruct (build_chunk_arrays _ _ _) as [[ids mask]|e]; [|done].
    destruct (session_run s ids mask) as [s1 [out|e]]; simpl; [|done].
    destruct (extract out) as [x|e]; simpl; [|done].
    destruct (scatter _ _ _ _) as [sl|e]; [|done].
    apply IH. cbn [ls_max_chunk_seq]. lia.
Qed.

Lemma run_chunks_max_ge {X T} (extract : Output -> M X) (row : X -> nat -> nat -> M T) encs lens
    chunks (s : Session) st s' st' :
  run_chunks extract row encs lens chunks s st = (s', Ok st') ->
  ls_max_chunk_seq st <= ls_max_chunk_seq st' /\
  Forall (fun c => chunk_pad lens c <= ls_max_chunk_seq st') chunks.
Proof.
  revert s st. induction chunks as [|c chunks IH]; intros s st; simpl.
  - by intros [= _ <-].
  - destruct (build_chunk_arrays _ _ _) as [[ids mask]|e]; [|done].
    destruct (session_run s ids mask) as [s1 [out|e]]; simpl; [|done].
    destruct (extract out) as [x|e]; simpl; [|done].
    destruct (scatter _ _ _ _) as [sl|e]; [|done].
    intros [Hle Hall]%IH. cbn [ls_max_chunk_seq] in Hle. split; [lia|]. constructor; [lia|done].
Qed.

Lemma chunk_pad_seq lens c : chunk_pad lens c = Z.max 1 (chunk_seq lens c).
Proof. unfold chunk_pad, chunk_seq. destruct (max_of _); simpl; lia. Qed.

(** A request reports the padded length of its longest text. *)
Lemma embed_with_chunks {X T} (extract : Output -> M X) row (finish : list (option T) -> M (list T))
    (s : Session) texts cm guard s' out stats :
  embed_with extract row finish s texts cm guard = (s', Ok (out, stats)) ->
  exists encs, encode_batch texts = Ok encs /\
    let lens := seq_lengths_of encs in
    st_chunks stats = Z.of_nat (length (bin_pack lens cm)) /\
    Forall (fun c => chunk_pad lens c <= max_chunk_seq stats) (bin_pack lens cm) /\
    forall B, 0 <= B -> Forall (fun c => chunk_pad lens c <= B) (bin_pack lens cm) ->
      max_chunk_seq stats <= B.
Proof.
  unfold embed_with. destruct (encode_batch texts) as [encs|e]; [|done].
  destruct (guard_chunks _ _ _) as [[]|r]; [|done].
  destruct (run_chunks _ _ _ _ _ _ _) as [s1 [st|e]] eqn:Hrun; simpl; [|done].
  destruct (finish (slots st)) as [o|e]; simpl; [|done]. intros [= _ _ <-].
  exists encs. split; [done|]. simpl. split; [done|].
  split; [by apply run_chunks_max_ge in Hrun as [_ ?]|].
  intros B HB Hc. by eapply run_chunks_max; [exact Hc| |exact Hrun].
Qed.

(** A request the guard lets through reports no longer sequence. *)
Lemma embed_with_max {X T} (extract : Output -> M X) row (finish : list (option T) -> M (list T))
    (s : Session) texts cm g s' out stats :
  embed_with extract row finish s texts cm (Some g) = (s', Ok (out, stats)) ->
  max_chunk_seq stats <= guard_bound g.
Proof.
  unfold embed_with. destruct (encode_batch texts) as [encs|e]; [|done]. cbn [guard_chunks].
  destruct (guard_each _ _ _) as [[]|r] eqn:Hg; [|done].
  destruct (run_chunks _ _ _ _ _ _ _) as [s1 [st|e]] eqn:Hrun; simpl; [|done].
  destruct (finish (slots st)) as [o|e]; simpl; [|done]. intros [= _ _ <-]. simpl.
  eapply run_chunks_max; [|..|exact Hrun]; [|unfold guard_bound; simpl; lia].
  apply guard_each_ok in Hg. eapply Forall_impl; [exact Hg|]. intros c Hc. simpl in Hc.
  rewrite chunk_pad_seq. unfold dangerous in Hc. unfold guard_bound. lia.
Qed.

Lemma retry_max {T} (f : CostModel -> Session -> Session * M (list T * EmbedStats)) cm s B s' v stats :
  (forall cm s s' v stats, f cm s = (s', Ok (v, stats)) -> max_chunk_seq stats <= B) ->
  embed_with_trt_retry f cm s = (s', Ok (v, stats)) -> max_chunk_seq stats <= B.
Proof.
  intros Hf. unfold embed_with_trt_retry. destruct (f cm s) as [s1 [[v1 st1]|[|e]]] eqn:Hr.
  - intros [= <- <- <-]. by eapply Hf.
  - done.
  - case_if; [apply Hf|done].
Qed.

Lemma cov_route {T} embed msg (mk : result anyhow (list T * EmbedStats) -> Reply) closed config n cf
    (s : Session) wl sh d B :
  (forall cm s s' v stats, embed cm s = (s', Ok (v, stats)) -> max_chunk_seq stats <= B) ->
  cov_ok B sh -> embed_route embed msg mk closed config n cf s wl sh = Some d ->
  cov_ok B (d_shared d).
Proof.
  intros Hf Hok. unfold embed_route. destruct closed; [by intros [= <-]|].
  destruct (embed_with_trt_retry _ _ _) as [s1 [[v stats]|[|e]]] eqn:Hr; [|done|].
  - pose proof (retry_max _ _ _ B _ _ _ Hf Hr) as Hm. unfold finalize_embed_route.
    pose proof (cov_log B stats config n sh Hm Hok) as Hl.
    destruct (log_inference_complete stats config n sh) as [x sh']. by intros [= <-].
  - unfold finalize_embed_route. by intros [= <-].
Qed.

(** An internal request for a shape beyond [B] is the only one excluded. *)
Definition req_within (B : Z) (req : EmbedRequest) : Prop :=
  match req with ReqAdaptiveWarmup b q => within B (b, q) | _ => True end.

Lemma cov_dispatch req closed config id sm cf g (s : Session) wl sh d B :
  guard_bound g <= B -> req_within B req -> cov_ok B sh ->
  dispatch_request req closed config id sm cf (Some g) s wl sh = Some d -> cov_ok B (d_shared d).
Proof.
  intros HB Hreq Hok. destruct req as [t|t|t|t|b q]; cbn [dispatch_request].
  1-3: apply cov_route; [|done]; intros cm s0 s' v stats Hv; apply embed_with_max in Hv; etrans; [exact Hv|done].
  - destruct (run_probe_batch s t) as [s' [p|[|e]]]; [|done|]; by intros [= <-].
  - case_bool_decide; [|by intros [= <-]].
    assert (HB0 : 0 <= B) by (unfold guard_bound in HB; lia).
    pose proof (prewarm_max_seq B s [(b, q)] sm HB0 ltac:(by constructor)) as Hm.
    destruct (trt_prewarm s [(b, q)] sm) as [s' stats]. simpl in Hm.
    case_if; intros [= <-]; simpl; [|done]. apply cov_raise; [|done].
    cbn [req_within] in Hreq. unfold within in Hreq. cbn [snd] in Hreq. by apply Z.max_lub.
Qed.

Definition ev_within (B : Z) (ev : Event Session) : Prop :=
  match ev with EvRequest req _ _ => req_within B req | _ => True end.

Lemma cov_exit B (w : Worker Session) sh rep r :
  cov_ok B sh -> cov_ok B (s_shared (exit_worker w sh rep r)).
Proof. by apply cov_live. Qed.

Lemma cov_serve B id config req closed (s : Session) w sh :
  ep config = TensorRt -> trt_inband_jit_guard_enabled config = true ->
  1 <= B -> trt_inband_jit_guard_seq config - 1 <= B -> req_within B req -> cov_ok B sh ->
  cov_ok B (s_shared (serve_request id config req closed s w sh)).
Proof.
  intros Hep Hg HB HB' Hreq Hok. unfold serve_request, build_shape_guard. rewrite Hep, Hg.
  cbn [andb bool_decide]. rewrite bool_decide_true by done. cbn [andb].
  destruct (dispatch_request _ _ _ _ _ _ _ _ _ _) as [d|] eqn:Hd; [|done].
  assert (Hok' : cov_ok B (d_shared d)).
  { eapply cov_dispatch; [|done|done|exact Hd]. pose proof (co_ceiling _ _ Hok).
    unfold guard_bound, guard_new. cbn [g_warmed_seq_ceiling g_guard_seq]. lia. }
  destruct (d_skip d); [done|]. case_bool_decide; [by apply cov_exit|].
  destruct (should_unload_on_outcome _); [by apply cov_loaded|done].
Qed.

(** No step of a guarded worker leaves a bound that covers the ceiling, the
    undangerous lengths and what the worker is told. *)
Lemma cov_worker_step B id config rx ev (w : Worker Session) sh :
  ep config = TensorRt -> trt_inband_jit_guard_enabled config = true ->
  1 <= B -> trt_inband_jit_guard_seq config - 1 <= B ->
  Forall (within B) (rx_shapes rx) -> ev_within B ev -> cov_ok B sh ->
  cov_ok B (s_shared (worker_step id config rx ev w sh)).
Proof.
  intros Hep Hg HB HB' Hrx Hev Hok. unfold worker_step.
  pose proof (cov_drain B config rx w sh ltac:(lia) Hrx Hok) as Hd.
  destruct (drain_step config rx w sh) as [w1 sh1]. simpl in Hd. destruct ev as [| |req closed load].
  - by apply cov_loaded.
  - apply cov_exit. case_bool_decide; [by apply cov_loaded|done].
  - destruct (models w1) as [s|]; [by apply cov_serve|]. destruct load as [m|e]; [|done].
    apply cov_serve; try done. by apply cov_loaded.
Qed.
End worker.

(** ** The pool and the adaptive-warmup task *)

Section system.
Context `{KeySort nat} {Session Output : Type} `{Runtime Session Output} `{WorkerWorld Session}.
Context `{IndexSet PSet}.

(** The pool; the suspects the task has taken off the channel and not yet put
    into an iteration; the task ([None] once it has returned, or when it is
    disabled); and the warmup requests it sent that no worker has taken. *)
Record LivePool := {
  lp_pool : Sys Session;
  lp_inbox : list shape;
  lp_task : option (Aw (PSet := PSet));
  lp_sent : list shape;
}.

Definition with_shared (sh : Shared) (x : Sys Session) : Sys Session :=
  {| sys_slots := sys_slots x; sys_shared := sh |}.

(** [try_recv] or [recv] of the task: the head of the suspect channel. *)
Definition take_suspect (sh : Shared) : option (shape * Shared) :=
  match suspects sh with
  | [] => None
  | x :: rest =>
      Some (x, {| live_workers := live_workers sh; loaded_workers := loaded_workers sh;
                  cost_model := cost_model sh;
                  WorkerGuard.warmed_seq_ceiling := WorkerGuard.warmed_seq_ceiling sh;
                  suspects := rest; suspect_capacity := suspect_capacity sh;
                  broadcasts := broadcasts sh |})
  end.

Definition is_warmup (ev : Event Session) : bool :=
  match ev with EvRequest (ReqAdaptiveWarmup _ _) _ _ => true | _ => false end.

(** A worker takes an event of a client, or a warmup request of the task; the
    task takes a suspect, or runs an iteration on suspects it has taken.  What a
    worker's subscription yields has been broadcast.  An iteration is placed at
    the moment it dispatches: its acknowledgement is any. *)
Inductive live_step (config : WorkerConfig) (n : Z) (aw : AdaptiveWarmupConfig)
    : LivePool -> LivePool -> Prop :=
| LiveEvent i rx ev rep x y ib t fl :
    rx_shapes rx ⊆ broadcasts (sys_shared x) -> is_warmup ev = false ->
    sys_event config n i rx ev rep x y ->
    live_step config n aw {| lp_pool := x; lp_inbox := ib; lp_task := t; lp_sent := fl |}
      {| lp_pool := y; lp_inbox := ib; lp_task := t; lp_sent := fl |}
| LiveWarmup i rx b q closed load rep x y ib t fl1 fl2 :
    rx_shapes rx ⊆ broadcasts (sys_shared x) ->
    sys_event config n i rx (EvRequest (ReqAdaptiveWarmup b q) closed load) rep x y ->
    live_step config n aw
      {| lp_pool := x; lp_inbox := ib; lp_task := t; lp_sent := fl1 ++ (b, q) :: fl2 |}
      {| lp_pool := y; lp_inbox := ib; lp_task := t; lp_sent := fl1 ++ fl2 |}
| LiveTake s sh x ib t fl :
    take_suspect (sys_shared x) = Some (s, sh) ->
    live_step config n aw {| lp_pool := x; lp_inbox := ib; lp_task := t; lp_sent := fl |}
      {| lp_pool := with_shared sh x; lp_inbox := ib ++ [s]; lp_task := t; lp_sent := fl |}
| LiveTask it st evs r x ib fl :
    it_check it <= it_reset it -> run_iter aw it st = (evs, r) ->
    live_step config n aw
      {| lp_pool := x; lp_inbox := received it ++ ib; lp_task := Some st; lp_sent := fl |}
      {| lp_pool := with_shared (foldl (broadcast_engine_ready config) (sys_shared x)
                                   (broadcast evs)) x;
         lp_inbox := ib; lp_task := r; lp_sent := fl ++ fired evs |}.

(** The task is spawned over a pool that has not served yet. *)
Definition spawn_live (aw : AdaptiveWarmupConfig) (now : Z) (x : Sys Session) : LivePool :=
  {| lp_pool := x; lp_inbox := [];
     lp_task := if aw_enabled aw then Some (init_aw now) else None; lp_sent := [] |}.

Context `{!IndexSetLaws PSet}.

(** Every shape in the system is within [B]. *)
Record live_ok (B : Z) (aw : AdaptiveWarmupConfig) (l : LivePool) : Prop := {
  lo_pool : cov_ok B (sys_shared (lp_pool l));
  lo_inbox : Forall (within B) (lp_inbox l);
  lo_sent : Forall (within B) (lp_sent l);
  lo_task st : lp_task l = Some st ->
    wf st /\ 0 <= shapes_this_hour st <= max_shapes_per_hour aw /\
    Forall (within B) (elems (pending st));
}.

Lemma cov_sys_event B config n i rx ev rep x y :
  ep config = TensorRt -> trt_inband_jit_guard_enabled config = true ->
  1 <= B -> trt_inband_jit_guard_seq config - 1 <= B ->
  rx_shapes rx ⊆ broadcasts (sys_shared x) -> ev_within B ev ->
  sys_event config n i rx ev rep x y -> cov_ok B (sys_shared x) ->
  cov_ok B (sys_shared y) /\
  WorkerGuard.warmed_seq_ceiling (sys_shared x) <= WorkerGuard.warmed_seq_ceiling (sys_shared y).
Proof.
  intros Hep Hg HB HB' Hrx Hev Hs Hok.
  assert (Hrx' : Forall (within B) (rx_shapes rx)).
  { pose proof (co_broadcasts _ _ Hok) as Hb. rewrite Forall_forall in Hb |- *. auto. }
  destruct Hs as [w slots sh w' sh' Hi Hen Hs|w slots sh w' sh' r Hi Hen Hs]; simpl in *;
    pose proof (cov_worker_step B i (make_worker_config config n i) rx ev w sh Hep Hg HB HB'
      Hrx' Hev Hok) as Hc;
    pose proof (ok_ceiling _ _ _ _ _
      (worker_step_ok i (make_worker_config config n i) rx ev w sh Hen)) as Hm;
    rewrite Hs in Hc, Hm; done.
Qed.

Lemma cov_broadcasts B config l sh :
  Forall (within B) l -> cov_ok B sh ->
  cov_ok B (foldl (broadcast_engine_ready config) sh l) /\
  WorkerGuard.warmed_seq_ceiling (foldl (broadcast_engine_ready config) sh l)
    = WorkerGuard.warmed_seq_ceiling sh.
Proof.
  intros Hl. revert sh. induction Hl as [|x l Hx _ IH]; intros sh Hok; [done|]. cbn [foldl].
  assert (Hb : cov_ok B (broadcast_engine_ready config sh x) /\
    WorkerGuard.warmed_seq_ceiling (broadcast_engine_ready config sh x)
      = WorkerGuard.warmed_seq_ceiling sh).
  { unfold broadcast_engine_ready. case_if; [|done]. split; [by apply cov_broadcast|done]. }
  destruct Hb as [Hb <-]. by apply IH.
Qed.

(** The shapes an iteration fires and broadcasts come from the pending set and
    from what it received. *)
Lemma iter_within B aw it st evs r :
  wf st -> 0 <= shapes_this_hour st <= max_shapes_per_hour aw ->
  max_shapes_per_hour aw <= U32_MAX -> it_check it <= it_reset it ->
  Forall (within B) (elems (pending st)) -> Forall (within B) (received it) ->
  run_iter aw it st = (evs, r) ->
  Forall (within B) (fired evs) /\ Forall (within B) (broadcast evs) /\
  forall st', r = Some st' ->
    wf st' /\ 0 <= shapes_this_hour st' <= max_shapes_per_hour aw /\
    Forall (within B) (elems (pending st')).
Proof.
  intros Hwf Hs Hmax Hclk Hp Hr Hit. apply ts_iter in Hit; [|done..].
  rewrite Forall_forall in Hp, Hr.
  assert (Hf : forall x, x ∈ fired evs -> within B x).
  { intros x [Hx|Hx]%(ts_fired _ _ _ _ _ Hit); auto. }
  split; [by apply Forall_forall|]. split.
  - apply Forall_forall. intros x Hx. apply Hf.
    rewrite (ts_bcast _ _ _ _ _ Hit) in Hx. apply list_elem_of_fmap in Hx as (c & -> & Hc).
    apply list_elem_of_filter in Hc as [_ Hc]. apply (ts_fresh _ _ _ _ _ Hit).
    by apply list_elem_of_fmap_2.
  - intros st' ->. destruct (ts_count _ _ _ _ _ (proj1 Hs) Hit) as [Hwf' Hs'].
    split; [done|]. split; [done|]. apply Forall_forall.
    destruct (ts_next _ _ _ _ _ Hit st' eq_refl) as (_ & _ & _ & _ & Hn).
    intros x [Hx|Hx]%Hn; auto.
Qed.

Lemma live_step_ok B config n aw l l' :
  ep config = TensorRt -> trt_inband_jit_guard_enabled config = true ->
  1 <= B -> trt_inband_jit_guard_seq config - 1 <= B -> max_shapes_per_hour aw <= U32_MAX ->
  live_step config n aw l l' -> live_ok B aw l ->
  live_ok B aw l' /\
  WorkerGuard.warmed_seq_ceiling (sys_shared (lp_pool l))
    <= WorkerGuard.warmed_seq_ceiling (sys_shared (lp_pool l')).
Proof.
  intros Hep Hg HB HB' Hmax Hstep [Hp Hi Hsent Ht].
  destruct Hstep as [i rx ev rep x y ib t fl Hrx Hev Hs|i rx b q closed load rep x y ib t fl1 fl2 Hrx Hs
    |s sh x ib t fl Htk|it st evs r x ib fl Hclk Hit]; simpl in *.
  - destruct (cov_sys_event B config n i rx ev rep x y) as [Hc Hm]; try done.
    { destruct ev as [| |[]]; done. }
  - apply Forall_app in Hsent as [Hs1 Hs2]. apply Forall_cons in Hs2 as [Hbq Hs2].
    destruct (cov_sys_event B config n i rx (EvRequest (ReqAdaptiveWarmup b q) closed load) rep x y)
      as [Hc Hm]; try done. split; [|done]. split; simpl; try done. by apply Forall_app.
  - unfold take_suspect in Htk. destruct Hp as [Hc Hsu Hb].
    destruct (suspects (sys_shared x)) as [|s0 rest]; simplify_eq.
    apply Forall_cons in Hsu as [Hs0 Hrest]. split; [|done]. split; simpl; try done.
    apply Forall_app. split; [done|]. by constructor.
  - apply Forall_app in Hi as [Hrec Hib]. destruct (Ht st eq_refl) as (Hwf & Hsh & Hpd).
    destruct (iter_within B aw it st evs r) as (Hf & Hb & Hn); try done.
    destruct (cov_broadcasts B config (broadcast evs) (sys_shared x) Hb Hp) as [Hc ->].
    split; [|done]. split; simpl; try done. by apply Forall_app.
Qed.

Lemma live_reachable_ok B config n aw l l' :
  ep config = TensorRt -> trt_inband_jit_guard_enabled config = true ->
  1 <= B -> trt_inband_jit_guard_seq config - 1 <= B -> max_shapes_per_hour aw <= U32_MAX ->
  rtc (live_step config n aw) l l' -> live_ok B aw l ->
  live_ok B aw l' /\
  WorkerGuard.warmed_seq_ceiling (sys_shared (lp_pool l))
    <= WorkerGuard.warmed_seq_ceiling (sys_shared (lp_pool l')).
Proof.
  intros Hep Hg HB HB' Hmax Hr. induction Hr as [|l l1 l' Hs _ IH]; [done|]. intros Hok.
  destruct (live_step_ok B _ _ _ _ _ Hep Hg HB HB' Hmax Hs Hok) as [Hok1 Hc1].
  destruct (IH Hok1) as [Hok2 Hc2]. split; [done|]. lia.
Qed.

Lemma spawn_live_ok B aw now x :
  0 <= max_shapes_per_hour aw -> cov_ok B (sys_shared x) -> live_ok B aw (spawn_live aw now x).
Proof.
  intros Hmax Hok. split; simpl; try done. case_if; [|done]. intros st [= <-].
  assert (Hne : elems (pending (init_aw now)) = []) by apply elems_new.
  split_and!; [|simpl; lia..|by rewrite Hne]. intros y. rewrite Hne. by intros Hy%elem_of_nil.
Qed.
End system.

(** ** The pool before it serves *)

Section start.
Context `{KeySort nat} {Session Output : Type} `{Runtime Session Output} `{WorkerWorld Session}.

Definition quiet (sh : Shared) : Prop := suspects sh = [] /\ broadcasts sh = [].

Lemma startup_quiet id config rss0 (load : result anyhow Session) sh :
  quiet sh -> quiet (su_shared (startup_worker id config rss0 load sh)).
Proof.
  intros Hq. unfold startup_worker, startup_prewarm. destruct load as [s|e]; [|done].
  case_if; [|done]. destruct (trt_prewarm _ _ _) as [s2 stats]. by case_if.
Qed.

Lemma init_step_quiet config n loads (st st' : Init Session) id :
  init_step config n loads st id = Ok st' -> quiet (in_shared st) -> quiet (in_shared st').
Proof.
  intros Hst Hq. unfold init_step in Hst.
  pose proof (startup_quiet id (make_worker_config config n id) (fst (loads id)) (snd (loads id))
    _ Hq) as Hq'.
  set (su := startup_worker _ _ _ _ _) in *.
  destruct (worker_signal id su); [|done]. destruct (su_result su) as [[s sm]|]; by simplify_eq.
Qed.

Lemma init_pool_quiet config n cm cap loads (st : Init Session) med :
  init_pool config n cm cap loads = Ok (st, med) -> quiet (in_shared st).
Proof.
  unfold init_pool. generalize (conj eq_refl eq_refl : quiet (init_shared n cm 0 cap)).
  change (init_shared n cm 0 cap) with
    (in_shared {| in_slots := [] : list (Slot Session); in_deltas := [];
                  in_shared := init_shared n cm 0 cap |}) at 1.
  generalize {| in_slots := [] : list (Slot Session); in_deltas := [];
                in_shared := init_shared n cm 0 cap |}. intros st0 Hq. revert st0 Hq.
  induction (seq 0 (Z.to_nat n)) as [|id ids IH]; intros st0 Hq; cbn [result_foldM].
  - by intros [= <- _].
  - destruct (init_step config n loads st0 id) as [st1|e] eqn:Hst; [|done].
    apply IH. by eapply init_step_quiet.
Qed.
End start.

(** ** Refusals *)

Section refusal.
Context `{KeySort nat} {Session Output : Type} `{RuntimeLaws Session Output} `{WorkerWorld Session}.

(** A text beyond a bound that covers the ceiling is refused in whatever step. *)
Lemma refused_step B id config rx req texts encs load (w : Worker Session) sh :
  ep config = TensorRt -> trt_inband_jit_guard_enabled config = true ->
  0 <= B -> Forall (within B) (rx_shapes rx) -> cov_ok B sh ->
  embed_texts req = Some texts -> encode_batch texts = Ok encs ->
  Exists (fun len => trt_inband_jit_guard_seq config <= len /\ B < len) (seq_lengths_of encs) ->
  let r := worker_step id config rx (EvRequest req false load) w sh in
  s_status r = Running /\ exists rep e, s_reply r = Some rep /\ answers req rep /\
    reply_error rep = Some e /\ (is_Some (models w) -> is_trt_shape_rejected e = true).
Proof.
  intros Hep Hg HB Hrx Hok Ht He Hd. unfold worker_step.
  pose proof (cov_drain B config rx w sh HB Hrx Hok) as Hok1.
  destruct (drain_step config rx w sh) as [w1 sh1] eqn:Hdr. simpl in Hok1.
  apply drain_step_spec in Hdr as (_ & Hmod & _).
  assert (Hrefuse : forall s w2 sh2, cov_ok B sh2 ->
    exists rep e, serve_request id config req false s w2 sh2
      = {| s_worker := with_models (Some s) w2; s_shared := sh2; s_reply := Some rep;
           s_status := Running |} /\
      answers req rep /\ reply_error rep = Some e /\ is_trt_shape_rejected e = true).
  { intros s w2 sh2 [Hc _ _]. eapply serve_refuses; [done..|].
    eapply Exists_impl; [exact Hd|]. intros len [H1' H2']. split; simpl; lia. }
  destruct (models w1) as [s|] eqn:Hm1.
  - destruct (Hrefuse s w1 sh1 Hok1) as (rep & e & -> & Ha & Hr & Hj).
    split; [done|]. by exists rep, e.
  - destruct load as [m|e].
    + destruct (Hrefuse (prime m) (with_models (Some (prime m)) w1) (loaded_add sh1)
        (cov_loaded _ _ _ Hok1)) as (rep & e & -> & Ha & Hr & Hj).
      split; [done|]. by exists rep, e.
    + split; [done|]. eexists _, _. split; [done|].
      assert (Hno : ~ is_Some (models w)) by (rewrite <- Hmod; by intros [? [=]]).
      destruct req; simpl in Ht; simplify_eq; done.
Qed.
End refusal.

(** ** What a split request nominates *)

(** A request of several chunks as one chunk is over the budget. *)
Lemma split_over_budget `{KeySort nat} lens cm q :
  Forall (fun x => 0 <= x) lens -> cost_model_f64 cm -> Forall (fun x => x <= q) lens ->
  (2 <= length (bin_pack lens cm))%nat -> fits cm (Z.of_nat (length lens)) q = false.
Proof.
  intros Hl Hcm Hle Hlen. destruct (fits cm (Z.of_nat (length lens)) q) eqn:Hf; [|done].
  exfalso. assert (Hp : Packing lens cm (bin_pack lens cm)).
  { by apply bin_pack_packing. }
  assert (Hne : lens <> []) by (intros ->; simpl in Hlen; lia).
  assert (Hq0 : 0 <= q).
  { destruct lens as [|x lens']; [done|]. apply Forall_cons in Hl as [? _], Hle as [? _]. lia. }
  pose proof (packing_fewest lens cm _ [seq 0 (length lens)] Hl Hcm Hp) as Hfew.
  cbn [length concat] in Hfew. rewrite app_nil_r in Hfew.
  specialize (Hfew ltac:(done)). enough (chunk_ok lens cm (seq 0 (length lens))).
  { specialize (Hfew ltac:(by constructor)). lia. }
  split; [by destruct lens|]. right. rewrite length_seq.
  pose proof (chunk_max_bound lens (seq 0 (length lens)) q Hq0 Hle) as Hmax.
  apply (fits_mono cm (Z.of_nat (length lens)) (Z.of_nat (length lens)) _ q); try done; try lia.
  split; [|done]. unfold chunk_max. clear. induction (map _ _); simpl; lia.
Qed.

(** ** Properties *)

(** C16: the in-band guard never relaxes.  Over an initialised pool with the guard
    on that has reported no shape yet, whatever requests, probes, idle timeouts
    and adaptive warmups follow in whatever order, the set of sequence lengths the guard refuses stays
    the one of the moment the pool started to serve, so a request with a text
    refused then is answered with an error, and its worker keeps running, for the
    life of the process: only inferences the guard let through report a shape, so
    neither adaptive warmup nor engine propagation ever raises the ceiling into
    the refused range. *)
Theorem guard_decision_frozen `{KeySort nat} {Session Output} `{RuntimeLaws Session Output}
    `{WorkerWorld Session} `{IndexSetLaws PSet} config n (x0 : Sys Session)
    (aw : AdaptiveWarmupConfig) now (l : LivePool (PSet := PSet)) :
  let guard_of (sh : Shared) :=
    guard_new (trt_inband_jit_guard_seq config) (WorkerGuard.warmed_seq_ceiling sh) in
  ep config = TensorRt -> trt_inband_jit_guard_enabled config = true ->
  2 <= trt_inband_jit_guard_seq config -> 0 <= max_shapes_per_hour aw <= U32_MAX ->
  quiet (sys_shared x0) ->
  rtc (live_step config n aw) (spawn_live aw now x0) l ->
  (forall len, dangerous (guard_of (sys_shared (lp_pool l))) len <->
               dangerous (guard_of (sys_shared x0)) len) /\
  forall i w rx req texts encs load,
    sys_slots (lp_pool l) !! i = Some (Active w) ->
    rx_shapes rx ⊆ broadcasts (sys_shared (lp_pool l)) ->
    embed_texts req = Some texts -> encode_batch texts = Ok encs ->
    Exists (dangerous (guard_of (sys_shared x0))) (seq_lengths_of encs) ->
    let r := worker_step i (make_worker_config config n i) rx (EvRequest req false load) w
               (sys_shared (lp_pool l)) in
    s_status r = Running /\ exists rep e, s_reply r = Some rep /\ answers req rep /\
      reply_error rep = Some e /\ (is_Some (models w) -> is_trt_shape_rejected e = true).
Proof.
  intros guard_of Hep Hg Hseq Hmax [Hsu Hbr] Hr.
  set (C := WorkerGuard.warmed_seq_ceiling (sys_shared x0)).
  set (B := Z.max 1 (Z.max C (trt_inband_jit_guard_seq config - 1))).
  assert (Hok0 : live_ok B aw (spawn_live aw now x0)).
  { apply spawn_live_ok; [lia|]. split; simpl; [fold C; lia|by rewrite Hsu|by rewrite Hbr]. }
  destruct (live_reachable_ok B config n aw _ _ Hep Hg ltac:(lia) ltac:(lia) (proj2 Hmax) Hr Hok0)
    as [[Hp _ _ _] Hmono]. change (C <= WorkerGuard.warmed_seq_ceiling (sys_shared (lp_pool l))) in Hmono.
  pose proof (co_ceiling _ _ Hp) as Hceil. split.
  - intros len. unfold dangerous, guard_of, guard_new. cbn [g_guard_seq g_warmed_seq_ceiling].
    fold C. lia.
  - intros i w rx req texts encs load Hi Hrx Ht He Hd. apply (refused_step B _ _ _ _ texts encs);
      try done; [lia| |].
    + pose proof (co_broadcasts _ _ Hp) as Hb. rewrite Forall_forall in Hb |- *. auto.
    + eapply Exists_impl; [exact Hd|]. intros len [H1' H2']. simpl in *. fold C in H2'. lia.
Qed.

Definition live_example : Stepped nat :=
  worker_step 0 (make_worker_config (example_config TensorRt) 1 0) []
    (EvRequest (ReqDense ["hi"]) false (Ok 0%nat)) (fresh_worker 1%nat (Some "sm89"))
    (loaded_add (init_shared 1 (conservative (2 ^ 30)) 0 64)).

Lemma guard_decision_frozen_witness :
  dangerous (guard_new 5 (WorkerGuard.warmed_seq_ceiling (s_shared live_example))) 8.
Proof.
  set (x0 := {| sys_slots := [Active (fresh_worker 1%nat (Some "sm89"))];
                sys_shared := loaded_add (init_shared 1 (conservative (2 ^ 30)) 0 64) |}).
  destruct (guard_decision_frozen (PSet := IndexList) (example_config TensorRt) 1 x0
    example_aw_config 3
    {| lp_pool := {| sys_slots := [Active (s_worker live_example)]; sys_shared := s_shared live_example |};
       lp_inbox := []; lp_task := Some (init_aw 3); lp_sent := [] |}
    eq_refl eq_refl ltac:(vm_compute; discriminate) ltac:(vm_compute; split; discriminate)
    ltac:(split; reflexivity))
    as [Hd _]; [|apply (Hd 8); vm_compute; split; [discriminate|reflexivity]].
  apply rtc_once. unfold spawn_live.
  apply (LiveEvent _ _ _ 0 [] (EvRequest (ReqDense ["hi"]) false (Ok 0%nat)) (s_reply live_example) x0);
    [done|done|].
  apply (run_event (example_config TensorRt) 1 0 []
    (EvRequest (ReqDense ["hi"]) false (Ok 0%nat)) (fresh_worker 1%nat (Some "sm89"))
    (sys_slots x0) (sys_shared x0)); [done|done|vm_compute; reflexivity].
Defined.

(** C22: the shape a slow request nominates for adaptive warmup and broadcasts to the
    other workers, each channel when it is wired (and, for the bounded one, has room),
    is its number of texts by its longest padded sequence, not a chunk that ran: when
    [bin_pack] had to split the request, that shape is over the workspace budget
    the packer keeps every run of more than one text under, whatever the cost model, and
    the warmup run of it has no budget check of its own. *)
Theorem nominated_over_budget `{KeySort nat} {Session Output} `{RuntimeLaws Session Output} {X T}
    (extract : Output -> M X) row (finish : list (option T) -> M (list T)) (s : Session) texts cm
    guard s' out stats config sh :
  embed_with extract row finish s texts cm guard = (s', Ok (out, stats)) ->
  cost_model_f64 cm -> 2 <= st_chunks stats -> CHUNK_CACHE_HIT_THRESHOLD_MS <= inference_ms stats ->
  let x := (Z.of_nat (length texts), max_chunk_seq stats) in
  let '(sent, sh') := log_inference_complete stats config (Z.of_nat (length texts)) sh in
  suspects sh' = suspects sh ++ (if jit_suspect_tx config
                   && Nat.ltb (length (suspects sh)) (suspect_capacity sh) then [x] else []) /\
  broadcasts sh' = broadcasts sh ++ (if engine_propagation_tx config then [x] else []) /\
  sent = (if engine_propagation_tx config then Some x else None) /\
  fits cm (fst x) (snd x) = false.
Proof.
  intros He Hcm Hch Hslow x.
  assert (Hover : fits cm (fst x) (snd x) = false).
  2: { unfold log_inference_complete, suspect_try_send. rewrite (proj2 (Z.ltb_ge _ _)) by done.
       destruct (jit_suspect_tx config), (engine_propagation_tx config), (Nat.ltb _ _);
         simpl; rewrite ?app_nil_r; done. }
  apply embed_with_chunks in He as (encs & Henc & Hn & Hpads & Hmax).
  set (lens := seq_lengths_of encs) in *.
  assert (Hlen : length texts = length lens).
  { unfold lens. by rewrite seq_lengths_length, (encode_length _ _ Henc). }
  pose proof (encoded_packing encs cm) as Hp. fold lens in Hp.
  cbn [x fst snd]. rewrite Hlen.
  apply split_over_budget; [apply seq_lengths_nonneg|done| |lia].
  apply Forall_lookup. intros i y Hi.
  destruct (packing_covers _ _ _ Hp i (lookup_lt_Some _ _ _ Hi)) as (c & Hc & Hic).
  rewrite Forall_forall in Hpads. specialize (Hpads c Hc).
  pose proof (chunk_pad_ge lens c i Hic) as Hge. unfold len_at in Hge.
  erewrite nth_lookup_Some in Hge by exact Hi. lia.
Qed.

(** The byte runtime with sessions whose runs take six seconds. *)
#[local] Instance slow_runtime : Runtime Z (nat * nat) := {|
  encode_batch := encode_batch (Runtime := byte_runtime);
  session_run s ids _ := (s + 1, snd (session_run (Runtime := byte_runtime) 0%nat ids ids));
  run_elapsed_ms _ := 6000;
  tokenize_elapsed_ms := 1;
  extract2 := extract2 (Runtime := byte_runtime);
  extract3 := extract3 (Runtime := byte_runtime);
  copy_strides := copy_strides (Runtime := byte_runtime);
  dot := dot (Runtime := byte_runtime);
  sparse_weight := sparse_weight (Runtime := byte_runtime);
  sparse_bias := f_zero;
  shape_error := "ShapeError/IncompatibleShape: incompatible shapes"
|}.

Lemma slow_run s ids mask s' out :
  session_run (Runtime := slow_runtime) s ids mask = (s', Ok out) ->
  exists s1, session_run (Runtime := byte_runtime) 0%nat ids ids = (s1, Ok out).
Proof.
  cbn [session_run slow_runtime]. destruct (session_run (Runtime := byte_runtime) 0%nat ids ids) as [s1 r].
  intros [= _ ->]. by exists s1.
Qed.

#[local] Instance slow_runtime_laws : RuntimeLaws Z (nat * nat).
Proof.
  split.
  - exact (encode_length (RuntimeLaws := byte_runtime_laws)).
  - exact (encode_mask (RuntimeLaws := byte_runtime_laws)).
  - done.
  - intros s s' ids mask out name x [s1 Hr]%slow_run. by apply (extract2_rows _ _ _ _ _ name _ Hr).
  - intros s s' ids mask out name x [s1 Hr]%slow_run. by apply (extract3_rows _ _ _ _ _ name _ Hr).
Qed.

Definition slow_stats : EmbedStats :=
  {| st_chunks := 2; max_chunk_seq := 4; total_token_positions := 8; tokenize_ms := 1;
     inference_ms := 12000; seq_len_min := 4; seq_len_max := 4; seq_len_mean := 4;
     seq_len_p95 := 4 |}.

Lemma nominated_over_budget_witness :
  let '(sent, sh') := log_inference_complete slow_stats (example_config TensorRt) 2 example_shared in
  suspects sh' = [(2, 4)] /\ broadcasts sh' = [(2, 4)] /\ sent = Some (2, 4) /\
  fits (conservative (2 ^ 17)) 2 4 = false.
Proof.
  assert (Hst : match snd (embed_dense (0 : Z) ["aaaa"; "bbbb"] (conservative (2 ^ 17)) Fp16 None) with
                | Ok (_, st) => Some st | Err _ => None end = Some slow_stats)
    by (vm_compute; reflexivity).
  destruct (embed_dense (0 : Z) ["aaaa"; "bbbb"] (conservative (2 ^ 17)) Fp16 None)
    as [s' [[out st]|e]] eqn:He; [|discriminate Hst].
  injection Hst as ->.
  apply (nominated_over_budget (dense_output Fp16) (fun _ emb p _ => dense_row emb p) finish_dense
    0 ["aaaa"; "bbbb"] (conservative (2 ^ 17)) None s' out slow_stats (example_config TensorRt)
    example_shared He); clear.
  - split; reflexivity.
  - simpl; lia.
  - vm_compute; discriminate.
Defined.
