(* ===== verification/HttpError.v ===== *)
(** * Application errors and their HTTP responses ([src/error.rs])

    [AppError] with [IntoResponse], the conversion of an [anyhow::Error] the
    handlers apply to what the pool answers, and the request and response types
    of [src/models.rs], with what serde derives to read a request from a JSON document. *)

From S2P Require Import Prelude Float RustStr JitGuard Types.
#[local] Open Scope Z_scope.

(** ** JSON bodies

    The value a [json!] literal builds or a request body holds; an object is its list
    of fields, in order and with any repetition. *)
Inductive Value :=
| VNull
| VBool (b : bool)
| VStr (s : string)
| VNum (z : Z)
| VFloat (x : f64)
| VArr (items : list Value)
| VObj (fields : list (string * Value)).

(** [body[key]] *)
Definition field (key : string) (v : Value) : option Value :=
  match v with
  | VObj fields => list_find (fun kv => fst kv = key) fields ≫= fun p => Some (snd (snd p))
  | _ => None
  end.

Definition BAD_REQUEST : Z := 400.
Definition OK : Z := 200.
Definition PAYLOAD_TOO_LARGE : Z := 413.
Definition UNSUPPORTED_MEDIA_TYPE : Z := 415.
Definition UNPROCESSABLE_ENTITY : Z := 422.
Definition SERVICE_UNAVAILABLE : Z := 503.
Definition INTERNAL_SERVER_ERROR : Z := 500.

Record Response := { status : Z; body : Value }.

(** ** Errors *)

Inductive AppError :=
| InvalidRequest (msg : string)
| ServiceUnavailable (msg : string)
| Internal (msg : string).

#[export] Instance AppError_eq_dec : EqDecision AppError.
Proof. solve_decision. Defined.

(** [IntoResponse for AppError] *)
Definition into_response (self : AppError) : Response :=
  let '(status, error_type, code, message) :=
    match self with
    | InvalidRequest msg => (BAD_REQUEST, "invalid_request_error", 400, msg)
    | ServiceUnavailable msg => (SERVICE_UNAVAILABLE, "service_unavailable", 503, msg)
    | Internal msg => (INTERNAL_SERVER_ERROR, "internal_error", 500, msg)
    end in
  let body := VObj [("error", VObj [("message", VStr message); ("type", VStr error_type);
                                    ("code", VNum code)])] in
  {| status := status; body := body |}.

(** [From<anyhow::Error> for AppError] *)
Definition app_error_of (err : anyhow) : AppError :=
  if is_trt_shape_rejected err
  then ServiceUnavailable "embedding temporarily unavailable for this input size; please retry"
  else Internal "internal server error".

(** The [?] of the handlers on an answer of the pool. *)
Definition from_pool {A} (r : result anyhow A) : result AppError A := map_err app_error_of r.

(** ** Requests and responses ([src/models.rs]) *)

(** The untagged [StringOrArray]: the variants are tried in turn. *)
Inductive StringOrArray := Single (s : string) | Multiple (v : list string).
Definition as_string (v : Value) : option string := match v with VStr s => Some s | _ => None end.
Definition string_or_array (v : Value) : option StringOrArray :=
  match as_string v with
  | Some s => Some (Single s)
  | None => match v with VArr items => Multiple <$> mapM as_string items | _ => None end
  end.

(** [TextInput::deserialize] *)
Definition text_input (v : Value) : option (list string) :=
  x ← string_or_array v;
  Some (match x with Single s => [s] | Multiple v => v end).

Record DenseRequest := { dreq_input : list string; dreq_model : option string }.
Record SparseRequest := { sreq_input : list string }.
Record DualRequest := { breq_input : list string; breq_model : option string }.

(** What [#[derive(Deserialize)]] generates for a struct with these fields: each is
    read from the object that has it at most once, unknown fields being skipped, or from the
    array that has exactly one item per field; [None] is a missing field. *)
Definition struct_values (names : list string) (v : Value) : option (list (option Value)) :=
  match v with
  | VObj fields =>
      mapM (fun name => match filter (fun kv => fst kv = name) fields with
                        | [] => Some None
                        | [(_, x)] => Some (Some x)
                        | _ => None
                        end) names
  | VArr items => if (length items =? length names)%nat then Some (map Some items) else None
  | _ => None
  end.

(** An [Option<String>] field: absent or null is [None]. *)
Definition optional_string (v : option Value) : option (option string) :=
  match v with
  | None | Some VNull => Some None
  | Some v => Some <$> as_string v
  end.

(** [DenseRequest], [SparseRequest] and [DualRequest] of a document. *)
Definition dense_request (v : Value) : option DenseRequest :=
  vs ← struct_values ["input"; "model"] v;
  match vs with
  | [Some input; model] =>
      texts ← text_input input; m ← optional_string model;
      Some {| dreq_input := texts; dreq_model := m |}
  | _ => None
  end.
Definition sparse_request (v : Value) : option SparseRequest :=
  vs ← struct_values ["input"] v;
  match vs with
  | [Some input] => texts ← text_input input; Some {| sreq_input := texts |}
  | _ => None
  end.
Definition dual_request (v : Value) : option DualRequest :=
  vs ← struct_values ["input"; "model"] v;
  match vs with
  | [Some input; model] =>
      texts ← text_input input; m ← optional_string model;
      Some {| breq_input := texts; breq_model := m |}
  | _ => None
  end.

Record Usage := { prompt_tokens : Z; total_tokens : Z }.

Record DenseEmbeddingData := { de_object : string; de_index : Z; de_embedding : list f32 }.
Record DenseResponse := {
  dr_object : string; dr_model : string; dr_data : list DenseEmbeddingData; dr_usage : Usage }.

Record SparseValues := { sv_indices : list Z; sv_values : list f32 }.
Record SparseEmbeddingData := { se_index : Z; se_sparse_values : SparseValues }.
Record SparseResponse := { sr_data : list SparseEmbeddingData }.

Record DualEmbeddingData := {
  du_index : Z; du_embedding : list f32; du_sparse_values : SparseValues }.
Record DualResponse := {
  bo_object : string; bo_model : string; bo_data : list DualEmbeddingData; bo_usage : Usage }.

Record ModelEntry := { me_id : string; me_object : string }.
Record ModelsResponse := { mr_object : string; mr_data : list ModelEntry }.

(** ** Lemmas *)

(** The fields of the body of an error response. *)
Definition error_field (key : string) (r : Response) : option Value :=
  field "error" (body r) ≫= field key.

Lemma context_rejected msg e : is_trt_shape_rejected (context msg e) = is_trt_shape_rejected e.
Proof. done. Qed.

Lemma from_pool_err {A} (r : result anyhow A) e : r = Err e -> from_pool r = Err (app_error_of e).
Proof. by intros ->. Qed.

Lemma app_error_of_cases e :
  (is_trt_shape_rejected e = true /\ status (into_response (app_error_of e)) = SERVICE_UNAVAILABLE) \/
  (is_trt_shape_rejected e = false /\ status (into_response (app_error_of e)) = INTERNAL_SERVER_ERROR).
Proof. unfold app_error_of. destruct (is_trt_shape_rejected e); [left|right]; done. Qed.

Lemma error_body a :
  error_field "code" (into_response a) = Some (VNum (status (into_response a))).
Proof. by destruct a. Qed.

Lemma error_status a :
  status (into_response a) = 400 \/ status (into_response a) = 503 \/ status (into_response a) = 500.
Proof. destruct a; auto. Qed.

(** A text input is a string or an array of strings, the empty one included. *)
Lemma text_input_spec v texts :
  text_input v = Some texts <-> (exists s, v = VStr s /\ texts = [s]) \/ v = VArr (VStr <$> texts).
Proof.
  assert (Harr : forall items, mapM as_string items = Some texts <-> items = VStr <$> texts).
  { intros items. rewrite mapM_Some. split.
    - induction 1 as [|v' s items texts Hv _ IH]; [done|]. rewrite IH. destruct v'; simpl in Hv; by simplify_eq.
    - intros ->. apply Forall2_fmap_l. by apply Forall_Forall2_diag, Forall_true. }
  unfold text_input, string_or_array. destruct v as [|b|s|z|x|items|fields]; cbn [as_string];
    try (split; [done|naive_solver]).
  - simpl. split; [intros [= <-]; left; eauto|]. intros [(s' & [= <-] & ->)|[=]]. done.
  - specialize (Harr items). destruct (mapM as_string items) as [l|]; simpl.
    + split; [intros [= ->]; right; f_equal; by apply Harr|].
      intros [(s & [=] & _)|[= Hi]]. by apply Harr in Hi.
    + split; [done|]. intros [(s & [=] & _)|[= Hi]]. by apply Harr in Hi.
Qed.

(** A sparse request is an object with exactly one text input, or an array of one. *)
Lemma sparse_request_spec v texts :
  sparse_request v = Some {| sreq_input := texts |} <->
  (exists fields x, v = VObj fields /\ filter (fun kv => fst kv = "input") fields = [("input", x)] /\
     text_input x = Some texts) \/ (exists x, v = VArr [x] /\ text_input x = Some texts).
Proof.
  assert (Hgo : forall x, (t ← text_input x; Some {| sreq_input := t |}) = Some {| sreq_input := texts |}
                          <-> text_input x = Some texts).
  { intros x. destruct (text_input x); simpl; split; congruence. }
  unfold sparse_request, struct_values.
  destruct v as [|b|s|z|y|items|fields]; cbn [length mapM option_bind mbind];
    try (split; [done|intros [(f & x & [=] & _)|(x & [=] & _)]]).
  - destruct items as [|x [|y items]]; simpl;
      try (split; [done|intros [(f & x' & [=] & _)|(x' & [=] & _)]]).
    rewrite Hgo. split; [eauto|]. by intros [(f & x' & [=] & _)|(x' & [= <-] & ?)].
  - assert (Hk : forall k x l, filter (fun kv => fst kv = "input") fields = (k, x) :: l -> k = "input").
    { intros k x l Ef. assert (Hin : (k, x) ∈ filter (fun kv => fst kv = "input") fields) by (rewrite Ef; by left).
      by apply list_elem_of_filter in Hin as [? _]. }
    destruct (filter _ fields) as [|[k x] [|y l]] eqn:Ef; simpl.
    + split; [done|]. intros [(f & x & [= <-] & Hf & _)|(x & [=] & _)]. by rewrite Ef in Hf.
    + rewrite (Hk k x [] eq_refl) in *. rewrite Hgo. split; [intros Hx; left; by exists fields, x|].
      intros [(f & x' & [= <-] & Hf & Hx)|(x' & [=] & _)]. rewrite Ef in Hf. by injection Hf as <-.
    + split; [done|]. intros [(f & x' & [= <-] & Hf & _)|(x' & [=] & _)]. by rewrite Ef in Hf.
Qed.
