(* ===== verification/Handler.v ===== *)
(** * The HTTP handlers ([src/handler/])

    The checks every embedding handler shares ([common.rs]), the three embedding
    handlers, the model list and the two health endpoints.  A handler is a
    function of the state it reads and of what the pool answers; the part before
    the concurrency permit is acquired ([accept]) and the part after the pool has
    answered ([respond]) are also given separately, because [Permits] interleaves
    them.  [dense_endpoint] and its siblings put the JSON extractor before the handler. *)

From S2P Require Import Prelude Float RustStr BinPack JitGuard Types Bootstrap Pipeline WorkerGuard Worker Pool HttpError.
#[local] Open Scope Z_scope.

(** ** Shared helpers ([common.rs]) *)

(** The header map as it iterates: the names are lowercase, the value is
    [to_str().ok()]. *)
Abbreviation headers := (list (string * option string)) (only parsing).

Definition dash : ascii := "-"%char.

Definition collect_x_headers (hs : headers) : gmap string string :=
  foldl (fun map '(name, value) =>
           if starts_with "x-" name then
             match value with
             | Some val => <[replace_char dash "_" name := val]> map
             | None => map
             end
           else map) ∅ hs.

Definition MAX_STRING_CHARS : Z := 32768.

Definition length_error (i count : Z) : AppError :=
  InvalidRequest ("input[" +:+ show i +:+ "] length " +:+ show count +:+ " exceeds maximum "
                  +:+ show MAX_STRING_CHARS +:+ " characters").

(** The loop over the enumerated texts. *)
Fixpoint check_lengths (i : Z) (texts : list string) : result AppError () :=
  match texts with
  | [] => Ok ()
  | text :: rest =>
      let count := char_count text in
      if MAX_STRING_CHARS <? count then Err (length_error i count) else check_lengths (i + 1) rest
  end.

Definition validate_input (texts : list string) (max_batch : Z) : result AppError () :=
  let n := Z.of_nat (length texts) in
  if bool_decide (texts = []) then Err (InvalidRequest "input must not be empty")
  else if max_batch <? n then
    Err (InvalidRequest ("batch size " +:+ show n +:+ " exceeds maximum " +:+ show max_batch))
  else check_lengths 0 texts.

(** What the handlers read: [AppState] with the pool's counters. *)
Record ServerState := {
  app : AppState;
  live_worker_count : Z;
  loaded_worker_count : Z;
  max_batch : Z;
  total_workers : Z;
  state_max_seq_length : Z;
}.

Definition check_ready (state : ServerState) : result AppError () :=
  if negb (as_ready (app state)) then Err (ServiceUnavailable "model not ready")
  else if live_worker_count state =? 0 then Err (ServiceUnavailable "no workers available")
  else Ok ().

(** [texts.iter().map(|t| t.chars().count() / 4 + 1).sum()] *)
Definition estimate_tokens (texts : list string) : Z :=
  foldl (fun acc t => wrap64 (acc + wrap64 (char_count t / 4 + 1))) 0 texts.

(** ** The embedding handlers *)

Definition sparse_values (e : SparseEmbedding) : SparseValues :=
  {| sv_indices := map wrap32 (indices e); sv_values := values e |}.

Definition usage (tokens : Z) : Usage := {| prompt_tokens := tokens; total_tokens := tokens |}.

Definition dense_response (tokens : Z) (embeddings : list (list f32)) : DenseResponse :=
  {| dr_object := "list"; dr_model := "bge-m3";
     dr_data := imap (fun index e => {| de_object := "embedding"; de_index := Z.of_nat index;
                                        de_embedding := e |}) embeddings;
     dr_usage := usage tokens |}.

Definition sparse_response (embeddings : list SparseEmbedding) : SparseResponse :=
  {| sr_data := imap (fun index e => {| se_index := Z.of_nat index;
                                        se_sparse_values := sparse_values e |}) embeddings |}.

Definition dual_response (tokens : Z) (pairs : list DualEmbedding) : DualResponse :=
  {| bo_object := "list"; bo_model := "bge-m3";
     bo_data := imap (fun index p => {| du_index := Z.of_nat index; du_embedding := dense p;
                                        du_sparse_values := sparse_values (sparse p) |}) pairs;
     bo_usage := usage tokens |}.

(** The checks before the permit. *)
Definition accept (state : ServerState) (texts : list string) : result AppError () :=
  _ ← check_ready state;
  validate_input texts (max_batch state).

(** [pool] is the answer of the worker pool to the texts. *)
Definition dense_embeddings (state : ServerState) (req : DenseRequest)
    (pool : list string -> result anyhow (list (list f32) * EmbedStats)) : result AppError DenseResponse :=
  _ ← check_ready state;
  let texts := dreq_input req in
  _ ← validate_input texts (max_batch state);
  let tokens := estimate_tokens texts in
  '(embeddings, _) ← from_pool (pool texts);
  Ok (dense_response tokens embeddings).

Definition sparse_embeddings (state : ServerState) (req : SparseRequest)
    (pool : list string -> result anyhow (list SparseEmbedding * EmbedStats)) : result AppError SparseResponse :=
  _ ← check_ready state;
  let texts := sreq_input req in
  _ ← validate_input texts (max_batch state);
  '(embeddings, _) ← from_pool (pool texts);
  Ok (sparse_response embeddings).

Definition both_embeddings (state : ServerState) (req : DualRequest)
    (pool : list string -> result anyhow (list DualEmbedding * EmbedStats)) : result AppError DualResponse :=
  _ ← check_ready state;
  let texts := breq_input req in
  _ ← validate_input texts (max_batch state);
  let tokens := estimate_tokens texts in
  '(pairs, _) ← from_pool (pool texts);
  Ok (dual_response tokens pairs).

(** [GET /v1/models] *)
Definition models_list : ModelsResponse :=
  {| mr_object := "list"; mr_data := [{| me_id := "bge-m3"; me_object := "model" |}] |}.

(** ** Health *)

Definition workers_value (state : ServerState) : Value :=
  VObj [("live", VNum (live_worker_count state)); ("total", VNum (total_workers state))].

(** The [tuning] block; the memory fields appear once start-up has written them. *)
Definition tuning_value (state : ServerState) : Value :=
  let cm := as_cost_model (app state) in
  VObj ([("a_bytes_per_token", VFloat (cm_a cm)); ("b_bytes_per_token_sq", VFloat (cm_b cm));
         ("max_workspace_bytes", VNum (max_workspace_bytes cm));
         ("probe_status", VStr (status_str (as_status (app state))))]
        ++ match as_tuning (app state) with
           | Some ti => [("memory_source", VStr (memory_source ti));
                         ("available_bytes", VNum (ti_available_bytes ti));
                         ("model_rss_bytes_per_worker", VNum (model_rss_bytes_per_worker ti))]
           | None => []
           end).

Definition health (state : ServerState) : Response :=
  if negb (as_ready (app state)) then
    {| status := SERVICE_UNAVAILABLE; body := VObj [("status", VStr "loading")] |}
  else if live_worker_count state =? 0 then
    {| status := SERVICE_UNAVAILABLE;
       body := VObj [("status", VStr "fail"); ("workers", workers_value state)] |}
  else if loaded_worker_count state =? 0 then
    {| status := OK; body := VObj [("status", VStr "idle"); ("workers", workers_value state)] |}
  else
    let st := if live_worker_count state <? total_workers state then "warn" else "ok" in
    {| status := OK;
       body := VObj [("status", VStr st); ("workers", workers_value state);
                     ("max_seq_length", VNum (state_max_seq_length state));
                     ("tuning", tuning_value state)] |}.

Definition DEEP_HEALTH_CANARY : string := "embedding service canary health check ok".

(** [None] is the elapsed timeout. *)
Definition health_deep (state : ServerState)
    (pool : list string -> option (result anyhow (list (list f32) * EmbedStats))) : Response :=
  if negb (as_ready (app state)) then
    {| status := SERVICE_UNAVAILABLE; body := VObj [("status", VStr "loading")] |}
  else match pool [DEEP_HEALTH_CANARY] with
  | Some (Ok _) => {| status := OK; body := VObj [("status", VStr "ok")] |}
  | Some (Err e) =>
      {| status := SERVICE_UNAVAILABLE;
         body := VObj [("status", VStr "fail"); ("error", VStr (display e))] |}
  | None =>
      {| status := SERVICE_UNAVAILABLE;
         body := VObj [("status", VStr "fail"); ("error", VStr "canary embed timed out")] |}
  end.

(** ** Validation: lemmas *)

(** What [validate_input] admits. *)
Definition valid_input (texts : list string) (max_batch : Z) : Prop :=
  texts <> [] /\ Z.of_nat (length texts) <= max_batch /\
  Forall (fun t => char_count t <= MAX_STRING_CHARS) texts.

Lemma check_lengths_ok i texts :
  check_lengths i texts = Ok () <-> Forall (fun t => char_count t <= MAX_STRING_CHARS) texts.
Proof.
  revert i. induction texts as [|t texts IH]; intros i; cbn [check_lengths]; [by split; [constructor|]|].
  rewrite Forall_cons, <- (IH (i + 1)). case_if; bool_to_prop.
  - split; [done|]. intros [? _]. lia.
  - split; [by split; [lia|]|by intros []].
Qed.

(** The error is about the first text that is too long. *)
Lemma check_lengths_err i texts e :
  check_lengths i texts = Err e <->
  exists k t, texts !! k = Some t /\ MAX_STRING_CHARS < char_count t /\
    Forall (fun t => char_count t <= MAX_STRING_CHARS) (take k texts) /\
    e = length_error (i + Z.of_nat k) (char_count t).
Proof.
  revert i. induction texts as [|t texts IH]; intros i; cbn [check_lengths].
  { split; [done|]. by intros (k & t & Hk & _). }
  destruct (MAX_STRING_CHARS <? char_count t) eqn:Ht; bool_to_prop.
  - split.
    + intros [= <-]. exists 0%nat, t. cbn [take]. split_and!; [done|lia|by constructor|].
      f_equal. lia.
    + intros ([|k] & t' & Hk & Hlong & Hpre & ->); simpl in Hk.
      * simplify_eq. do 2 f_equal. lia.
      * cbn [take] in Hpre. apply Forall_cons in Hpre as [? _]. lia.
  - rewrite IH. split.
    + intros (k & t' & Hk & Hlong & Hpre & ->). exists (S k), t'. cbn [take].
      split_and!; [done|done|by constructor|f_equal; lia].
    + intros ([|k] & t' & Hk & Hlong & Hpre & ->); simpl in Hk; [simplify_eq; lia|].
      cbn [take] in Hpre. apply Forall_cons in Hpre as [_ Hpre].
      exists k, t'. split_and!; [done..|f_equal; lia].
Qed.

Lemma validate_ok texts mb : validate_input texts mb = Ok () <-> valid_input texts mb.
Proof.
  unfold validate_input, valid_input. case_bool_decide as Hnil; [by split; [|intros []]|].
  case_if; bool_to_prop; [split; [done|intros (_ & ? & _); lia]|].
  rewrite check_lengths_ok. split; [done|]. by intros (_ & _ & ?).
Qed.

Lemma validate_err texts mb e :
  validate_input texts mb = Err e -> exists msg, e = InvalidRequest msg.
Proof.
  unfold validate_input. case_bool_decide; [intros [= <-]; eauto|].
  case_if; [intros [= <-]; eauto|].
  intros (? & ? & _ & _ & _ & ->)%check_lengths_err. eexists. done.
Qed.

Definition serving (state : ServerState) : Prop :=
  as_ready (app state) = true /\ live_worker_count state <> 0.

#[export] Instance serving_dec state : Decision (serving state).
Proof. unfold serving. apply _. Defined.

Lemma check_ready_ok state : check_ready state = Ok () <-> serving state.
Proof. unfold check_ready, serving. destruct (as_ready _); simpl; crush; naive_solver. Qed.

Lemma check_ready_err state e :
  check_ready state = Err e ->
  ~ serving state /\ status (into_response e) = SERVICE_UNAVAILABLE.
Proof.
  unfold check_ready, serving. destruct (as_ready _); simpl; [|intros [= <-]; naive_solver].
  case_if; [|done]. bool_to_prop. intros [= <-]. naive_solver.
Qed.

(** The shape the three handlers share. *)
Definition handle {A R} (state : ServerState) (texts : list string)
    (pool : list string -> result anyhow A) (respond : A -> R) : result AppError R :=
  _ ← accept state texts;
  x ← from_pool (pool texts);
  Ok (respond x).

Lemma dense_handle state req pool :
  dense_embeddings state req pool
  = handle state (dreq_input req) pool (fun x => dense_response (estimate_tokens (dreq_input req)) (fst x)).
Proof.
  unfold dense_embeddings, handle, accept. destruct (check_ready state); [|done]. simpl.
  destruct (validate_input _ _); [|done]. simpl. by destruct (pool _) as [[]|].
Qed.
Lemma sparse_handle state req pool :
  sparse_embeddings state req pool
  = handle state (sreq_input req) pool (fun x => sparse_response (fst x)).
Proof.
  unfold sparse_embeddings, handle, accept. destruct (check_ready state); [|done]. simpl.
  destruct (validate_input _ _); [|done]. simpl. by destruct (pool _) as [[]|].
Qed.
Lemma both_handle state req pool :
  both_embeddings state req pool
  = handle state (breq_input req) pool (fun x => dual_response (estimate_tokens (breq_input req)) (fst x)).
Proof.
  unfold both_embeddings, handle, accept. destruct (check_ready state); [|done]. simpl.
  destruct (validate_input _ _); [|done]. simpl. by destruct (pool _) as [[]|].
Qed.

(** The status of an answer; a response serialises with [200]. *)
Definition status_of {R} (r : result AppError R) : Z :=
  match r with Ok _ => OK | Err e => status (into_response e) end.

(** ** The endpoints

    What axum and serde_json make of a request before the [Json] extractor of the handler
    sees it: a rejection with its status, or a JSON document. *)
Inductive Extracted := Rejected (code : Z) | Parsed (v : Value).
Class JsonExtractor (Raw : Type) := { json_body : Raw -> Extracted }.

(** A document that is not a request of [fields] fields: 422, or 400 when the only fault is an
    array with too many items, which serde_json reports as a syntax error. *)
Definition decode_error {Req} (fields : nat) (decode : Value -> option Req) (v : Value) : Z :=
  match v with
  | VArr items => if decode (VArr (take fields items)) then BAD_REQUEST else UNPROCESSABLE_ENTITY
  | _ => UNPROCESSABLE_ENTITY
  end.

(** The extractor runs before the handler. *)
Definition endpoint_status `{JsonExtractor Raw} {Req} (raw : Raw) (fields : nat)
    (decode : Value -> option Req) (answer : Req -> Z) : Z :=
  match json_body raw with
  | Rejected code => code
  | Parsed v => match decode v with None => decode_error fields decode v | Some req => answer req end
  end.

Definition dense_endpoint `{JsonExtractor Raw} (state : ServerState) (raw : Raw)
    (pool : list string -> result anyhow (list (list f32) * EmbedStats)) : Z :=
  endpoint_status raw 2 dense_request (fun req => status_of (dense_embeddings state req pool)).
Definition sparse_endpoint `{JsonExtractor Raw} (state : ServerState) (raw : Raw)
    (pool : list string -> result anyhow (list SparseEmbedding * EmbedStats)) : Z :=
  endpoint_status raw 1 sparse_request (fun req => status_of (sparse_embeddings state req pool)).
Definition both_endpoint `{JsonExtractor Raw} (state : ServerState) (raw : Raw)
    (pool : list string -> result anyhow (list DualEmbedding * EmbedStats)) : Z :=
  endpoint_status raw 2 dual_request (fun req => status_of (both_embeddings state req pool)).

Lemma endpoint_promised `{JsonExtractor Raw} {Req} (raw : Raw) n decode (f g : Req -> Z) :
  (forall req, f req = g req) -> endpoint_status raw n decode f = endpoint_status raw n decode g.
Proof. intros Hfg. unfold endpoint_status. destruct (json_body raw) as [c|v]; [done|]. by destruct (decode v). Qed.

(** The codes axum documents for a request its [Json] extractor refuses; and all the
    answers of the embedding endpoints. *)
Definition extractor_codes : list Z :=
  [BAD_REQUEST; PAYLOAD_TOO_LARGE; UNSUPPORTED_MEDIA_TYPE; UNPROCESSABLE_ENTITY].
Definition answer_codes : list Z := [OK; INTERNAL_SERVER_ERROR; SERVICE_UNAVAILABLE] ++ extractor_codes.

Lemma endpoint_documented `{JsonExtractor Raw} {Req} (raw : Raw) n decode (f : Req -> Z) :
  (forall c, json_body raw = Rejected c -> c ∈ extractor_codes) -> (forall req, f req ∈ answer_codes) ->
  endpoint_status raw n decode f ∈ answer_codes.
Proof.
  intros Hc Hf. unfold endpoint_status. destruct (json_body raw) as [c|v].
  - apply elem_of_app. right. by apply Hc.
  - destruct (decode v); [done|]. unfold decode_error, answer_codes, extractor_codes.
    repeat case_match; set_solver.
Qed.

Lemma promised_documented {A} state texts (answer : result anyhow A) :
  (if decide (serving state) then
     if is_ok (validate_input texts (max_batch state)) then
       match answer with Ok _ => 200 | Err e => if is_trt_shape_rejected e then 503 else 500 end
     else 400
   else 503) ∈ answer_codes.
Proof.
  unfold answer_codes, extractor_codes, OK, INTERNAL_SERVER_ERROR, SERVICE_UNAVAILABLE, BAD_REQUEST.
  repeat case_match; simpl; set_solver.
Qed.

Section handled.
Context {A R : Type} (state : ServerState) (texts : list string)
  (pool : list string -> result anyhow A) (respond : A -> R).

(** Which answer a request gets, on every branch. *)
Lemma handle_status :
  status_of (handle state texts pool respond)
  = if decide (serving state) then
      if is_ok (validate_input texts (max_batch state)) then
        match pool texts with
        | Ok _ => 200
        | Err e => if is_trt_shape_rejected e then 503 else 500
        end
      else 400
    else 503.
Proof.
  unfold handle, accept. destruct (check_ready state) as [[]|e] eqn:Hr; simpl.
  - rewrite decide_True by by apply check_ready_ok.
    destruct (validate_input _ _) as [[]|e] eqn:Hv; simpl.
    + destruct (pool texts) as [x|e]; simpl; [done|]. unfold app_error_of.
      by destruct (is_trt_shape_rejected e).
    + by apply validate_err in Hv as [msg ->].
  - apply check_ready_err in Hr as [Hn Hs]. by rewrite decide_False.
Qed.

Lemma handle_ok x : handle state texts pool respond = Ok x <->
  serving state /\ valid_input texts (max_batch state) /\ exists y, pool texts = Ok y /\ x = respond y.
Proof.
  rewrite <- check_ready_ok, <- validate_ok. unfold handle, accept.
  destruct (check_ready state) as [[]|e]; simpl; [|naive_solver].
  destruct (validate_input _ _) as [[]|e]; simpl; [|naive_solver].
  destruct (pool texts) as [y|e]; simpl; naive_solver.
Qed.
End handled.

(** Only the guard flag of an error reaches the client. *)
Lemma handle_opaque {A R} state texts (pool pool' : list string -> result anyhow A) (respond : A -> R) e e' :
  pool texts = Err e -> pool' texts = Err e' ->
  is_trt_shape_rejected e = is_trt_shape_rejected e' ->
  handle state texts pool respond = handle state texts pool' respond.
Proof.
  intros Hp Hp' He. unfold handle. rewrite Hp, Hp'. unfold from_pool, map_err, app_error_of. by rewrite He.
Qed.

#[export] Instance valid_input_dec texts mb : Decision (valid_input texts mb).
Proof. unfold valid_input. apply _. Defined.

(** The status code the documentation of the endpoints promises. *)
Definition promised_status {A} (state : ServerState) (texts : list string) (answer : result anyhow A) : Z :=
  if decide (serving state) then
    if decide (valid_input texts (max_batch state)) then
      match answer with
      | Ok _ => 200
      | Err e => if is_trt_shape_rejected e then 503 else 500
      end
    else 400
  else 503.

Lemma handle_promised {A R} state texts (pool : list string -> result anyhow A) (respond : A -> R) :
  status_of (handle state texts pool respond) = promised_status state texts (pool texts).
Proof.
  rewrite handle_status. unfold promised_status. case_decide; [|done].
  destruct (validate_input _ _) as [[]|e] eqn:Hv; simpl.
  - by rewrite decide_True by by apply validate_ok.
  - rewrite decide_False; [done|]. intros Ho%validate_ok. congruence.
Qed.

(** ** Headers: lemmas *)

(** The entry of the header map that ends up under [k]. *)
Definition x_entry (k v : string) (h : string * option string) : Prop :=
  starts_with "x-" (fst h) = true /\ snd h = Some v /\ replace_char dash "_" (fst h) = k.

Lemma x_step (m : gmap string string) h k v :
  (if starts_with "x-" (fst h) then
     match snd h with
     | Some val => <[replace_char dash "_" (fst h) := val]> m
     | None => m
     end else m) !! k = Some v <->
  x_entry k v h \/ (m !! k = Some v /\ forall v', ~ x_entry k v' h).
Proof.
  unfold x_entry. destruct (starts_with _ _); [|naive_solver].
  destruct (snd h) as [val|]; [|naive_solver].
  rewrite lookup_insert_Some. naive_solver.
Qed.

Lemma collect_snoc hs h :
  collect_x_headers (hs ++ [h]) =
  (let m := collect_x_headers hs in
   if starts_with "x-" (fst h) then
     match snd h with
     | Some val => <[replace_char dash "_" (fst h) := val]> m
     | None => m
     end else m).
Proof. unfold collect_x_headers. rewrite foldl_app. by destruct h. Qed.

#[local] Arguments String.append !_ _ / : simpl nomatch.

Lemma replaced_no_dash s : ~ In dash (list_ascii_of_string (replace_char dash "_" s)).
Proof.
  induction s as [|c s IH]; simpl; [tauto|].
  destruct (Ascii.eqb c dash) eqn:Hc; simpl.
  - intros [H|H]; [discriminate H|tauto].
  - intros [->|H]; [by rewrite Ascii.eqb_refl in Hc|tauto].
Qed.

(** ** Properties *)

(** C10: every request to the three embedding endpoints is answered with exactly this
    status, on every branch.  What the JSON extractor refuses (the
    media type, the body limit, the syntax) and what is not a request (the texts are
    neither a string nor an array of strings, a field is missing, repeated or of the wrong type: 422;
    an array in the place of the object with too many items: 400)
    is answered before the state of the server is looked at; then 503 before
    start-up is over or without a live
    worker, whatever the input and without consulting the pool; 400 for an input
    that is empty, larger than the batch limit or has an over-long text; 503 for
    a refusal of the JIT guard anywhere in the error chain, 500 for any other
    error of the pool, 200 otherwise.  The [code] of an error body is the HTTP
    status, no other status than 200, 400, 413, 415, 422, 500 and 503 is given (when the
    extractor keeps to the codes axum documents), and at each of the three endpoints two pool errors the guard flag does not
    distinguish give the same
    response, so no internal message reaches a client. *)
Theorem embedding_status_exact `{JsonExtractor Raw} state (raw : Raw) :
  (forall pool, dense_endpoint state raw pool
     = endpoint_status raw 2 dense_request (fun req => promised_status state (dreq_input req) (pool (dreq_input req)))) /\
  (forall pool, sparse_endpoint state raw pool
     = endpoint_status raw 1 sparse_request (fun req => promised_status state (sreq_input req) (pool (sreq_input req)))) /\
  (forall pool, both_endpoint state raw pool
     = endpoint_status raw 2 dual_request (fun req => promised_status state (breq_input req) (pool (breq_input req)))) /\
  (forall v texts, text_input v = Some texts <->
     (exists s, v = VStr s /\ texts = [s]) \/ v = VArr (VStr <$> texts)) /\
  ((forall c, json_body raw = Rejected c -> c ∈ extractor_codes) -> forall pool pool' pool'',
     dense_endpoint state raw pool ∈ answer_codes /\ sparse_endpoint state raw pool' ∈ answer_codes /\
     both_endpoint state raw pool'' ∈ answer_codes) /\
  (forall e, error_field "code" (into_response e) = Some (VNum (status (into_response e)))) /\
  (forall e e', is_trt_shape_rejected e = is_trt_shape_rejected e' ->
     (forall req, dense_embeddings state req (fun _ => Err e) = dense_embeddings state req (fun _ => Err e')) /\
     (forall req, sparse_embeddings state req (fun _ => Err e) = sparse_embeddings state req (fun _ => Err e')) /\
     (forall req, both_embeddings state req (fun _ => Err e) = both_embeddings state req (fun _ => Err e'))).
Proof.
  split_and!.
  - intros pool. apply endpoint_promised. intros req. rewrite dense_handle. apply handle_promised.
  - intros pool. apply endpoint_promised. intros req. rewrite sparse_handle. apply handle_promised.
  - intros pool. apply endpoint_promised. intros req. rewrite both_handle. apply handle_promised.
  - apply text_input_spec.
  - intros Hc pool pool' pool''. split_and!; apply endpoint_documented; try done; intros req;
      rewrite ?dense_handle, ?sparse_handle, ?both_handle, handle_status; apply promised_documented.
  - apply error_body.
  - intros e e' He. split_and!; intros req; rewrite ?dense_handle, ?sparse_handle, ?both_handle;
      by eapply handle_opaque.
Qed.

Definition example_app : AppState := apply SetReady (initial_state 2 (conservative 0)).
Definition example_server : ServerState :=
  {| app := example_app; live_worker_count := 2; loaded_worker_count := 1; max_batch := 2;
     total_workers := 2; state_max_seq_length := 8192 |}.

(** An extractor over bodies that are documents already, within a limit on their
    number of fields. *)
Definition small_document (v : Value) : Extracted :=
  match v with VObj fields => if (4 <? length fields)%nat then Rejected PAYLOAD_TOO_LARGE else Parsed v | _ => Parsed v end.
#[local] Instance document_extractor : JsonExtractor Value := {| json_body := small_document |}.

Lemma embedding_status_exact_witness :
  both_endpoint example_server (VObj [("input", VArr [VStr "a"; VNum 42])]) (fun _ => Err (anyhow_msg "x")) = 422 /\
  both_endpoint example_server (VObj [("model", VNull); ("input", VStr "a")]) (fun _ => Err (anyhow_msg "x")) = 500 /\
  sparse_embeddings example_server {| sreq_input := ["a"] |}
    (fun _ => Err (anyhow_msg "secret path /var/models failed to load"))
  = sparse_embeddings example_server {| sreq_input := ["a"] |} (fun _ => Err (anyhow_msg "")).
Proof.
  split; [|split].
  - destruct (embedding_status_exact example_server (VObj [("input", VArr [VStr "a"; VNum 42])])) as (_ & _ & Hb & _).
    rewrite Hb. reflexivity.
  - destruct (embedding_status_exact example_server (VObj [("model", VNull); ("input", VStr "a")])) as (_ & _ & Hb & _).
    rewrite Hb. vm_compute. reflexivity.
  - destruct (embedding_status_exact example_server VNull) as (_ & _ & _ & _ & _ & _ & Hop).
    by apply (Hop (anyhow_msg "secret path /var/models failed to load") (anyhow_msg "") eq_refl).
Defined.

(** [validate_input] accepts exactly the non-empty batches within the limit
    whose texts have at most 32768 characters, and its error names the first
    violation in the order empty, batch size, text length; an over-long text is
    reported with its own index and character count. *)
Theorem validate_input_first_error texts mb :
  (validate_input texts mb = Ok () <-> valid_input texts mb) /\
  (texts = [] -> validate_input texts mb = Err (InvalidRequest "input must not be empty")) /\
  (texts <> [] -> mb < Z.of_nat (length texts) ->
   validate_input texts mb
   = Err (InvalidRequest ("batch size " +:+ show (Z.of_nat (length texts)) +:+ " exceeds maximum "
                          +:+ show mb))) /\
  (forall k t, texts !! k = Some t -> Z.of_nat (length texts) <= mb ->
   MAX_STRING_CHARS < char_count t ->
   Forall (fun t => char_count t <= MAX_STRING_CHARS) (take k texts) ->
   validate_input texts mb = Err (length_error (Z.of_nat k) (char_count t))).
Proof.
  split_and!; [apply validate_ok|by intros ->| |].
  - intros Hne Hmb. unfold validate_input. by rewrite bool_decide_false, (proj2 (Z.ltb_lt _ _)).
  - intros k t Hk Hmb Hlong Hpre. unfold validate_input.
    rewrite bool_decide_false by by intros ->. rewrite (proj2 (Z.ltb_ge _ _)) by done.
    apply check_lengths_err. exists k, t. done.
Qed.

Lemma validate_input_first_error_witness :
  validate_input ["a"; "b"; "c"] 2 = Err (InvalidRequest "batch size 3 exceeds maximum 2").
Proof. by apply (validate_input_first_error ["a"; "b"; "c"] 2). Defined.

(** The collected [x-] headers: a key holds the value of the last header
    whose name starts with [x-], has a readable value and normalises to the key;
    no key contains a hyphen. *)
Theorem collect_x_headers_exact hs k v :
  (collect_x_headers hs !! k = Some v <->
   exists i h, hs !! i = Some h /\ x_entry k v h /\
     forall j h' v', (i < j)%nat -> hs !! j = Some h' -> ~ x_entry k v' h') /\
  (collect_x_headers hs !! k = Some v -> ~ In dash (list_ascii_of_string k)).
Proof.
  assert (Hmain : collect_x_headers hs !! k = Some v <->
   exists i h, hs !! i = Some h /\ x_entry k v h /\
     forall j h' v', (i < j)%nat -> hs !! j = Some h' -> ~ x_entry k v' h').
  - induction hs as [|h hs IH] using rev_ind; [split; [done|]; by intros (i & h & Hi & _)|].
    rewrite collect_snoc. cbv zeta. rewrite x_step, IH. split.
    + intros [Hx|[(i & h' & Hi & Hx & Hlast) Hno]].
      * exists (length hs), h. rewrite list_lookup_middle by done. split_and!; [done..|].
        intros j h' v' Hj Hh'. apply lookup_lt_Some in Hh'. rewrite length_app in Hh'. simpl in Hh'. lia.
      * exists i, h'. split_and!; [by apply lookup_app_l_Some|done|].
        intros j h2 v' Hj [Hh2|[_ Hh2]]%lookup_app_Some; [by eapply Hlast|].
        apply list_lookup_singleton_Some in Hh2 as [_ <-]. apply Hno.
    + intros (i & h' & [Hi|[Hlen Hi]]%lookup_app_Some & Hx & Hlast).
      * right. split.
        { exists i, h'. split_and!; [done..|]. intros j h2 v' Hj Hh2. eapply Hlast; [done|].
          by apply lookup_app_l_Some. }
        intros v'. eapply (Hlast (length hs)); [by apply lookup_lt_Some in Hi|].
        by rewrite list_lookup_middle.
      * apply list_lookup_singleton_Some in Hi as [_ <-]. by left.
  - split; [done|]. intros (i & h & _ & (_ & _ & <-) & _)%Hmain. apply replaced_no_dash.
Qed.

Lemma collect_x_headers_exact_witness :
  collect_x_headers [("x-example-project", Some "p"); ("accept", Some "a"); ("x-bad", None)]
    !! "x_example_project" = Some "p" /\ ~ In dash (list_ascii_of_string "x_example_project").
Proof.
  assert (Hx : collect_x_headers [("x-example-project", Some "p"); ("accept", Some "a"); ("x-bad", None)]
    !! "x_example_project" = Some "p") by (vm_compute; reflexivity).
  split; [exact Hx|].
  destruct (collect_x_headers_exact
    [("x-example-project", Some "p"); ("accept", Some "a"); ("x-bad", None)] "x_example_project" "p")
    as [_ Hd]. exact (Hd Hx).
Defined.
