(* ===== verification/Service.v ===== *)
(** * A request through the service

    The composition of the handlers ([Handler]), the pool ([Pool]) and the
    workers ([Worker], [Pipeline]): what [/health] says about the pool behind it,
    and what a client of an embedding endpoint receives for what a worker
    computed. *)

From S2P Require Import Prelude Float RustStr BinPack JitGuard EmbedMath TrtCache Types Pipeline TrtWarmup Retry WorkerGuard Worker Pool PoolInit Bootstrap HttpError Handler.
#[local] Open Scope Z_scope.

(** ** The pool behind [/health] *)

Section health.
Context `{KeySort nat} {Session Output : Type} `{Runtime Session Output} `{WorkerWorld Session}.

(** A handler reads the counters of the pool. *)
Definition reads (state : ServerState) (x : Sys Session) : Prop :=
  live_worker_count state = live_workers (sys_shared x) /\
  loaded_worker_count state = loaded_workers (sys_shared x).

Definition some_running (x : Sys Session) : Prop :=
  exists i w, sys_slots x !! i = Some (Active w).

Lemma sum_positive (f : Slot Session -> Z) l :
  (forall s, 0 <= f s <= 1) -> sum_of (map f l) <> 0 <-> Exists (fun s => f s = 1) l.
Proof.
  intros Hf. unfold sum_of. induction l as [|s l IH]; cbn [map foldr].
  - rewrite Exists_nil. lia.
  - rewrite Exists_cons, <- IH.
    assert (0 <= foldr Z.add 0 (map f l)).
    { clear -Hf. induction l as [|b l IH]; cbn [map foldr]; [lia|]. pose proof (Hf b). lia. }
    pose proof (Hf s). lia.
Qed.

Lemma live_some_running l :
  sum_of (map slot_live l) <> 0 <-> exists i (w : Worker Session), l !! i = Some (Active w).
Proof.
  rewrite sum_positive by apply slot_live_range. rewrite Exists_exists. split.
  - intros (s & [i Hi]%list_elem_of_lookup_1 & Hs). destruct s as [w|]; [eauto|done].
  - intros (i & w & Hi). exists (Active w). split; [by eapply list_elem_of_lookup_2|done].
Qed.

Lemma live_le_slots (l : list (Slot Session)) : sum_of (map slot_live l) <= Z.of_nat (length l).
Proof.
  unfold sum_of. induction l as [|s l IH]; cbn [map foldr length]; [lia|].
  pose proof (slot_live_range s). lia.
Qed.
End health.

Definition health_status (r : Response) : option Value := field "status" (body r).

Lemma health_ok_iff state :
  status (health state) = 200 <-> as_ready (app state) = true /\ live_worker_count state <> 0.
Proof.
  unfold health. destruct (as_ready _); simpl; [|naive_solver].
  destruct (live_worker_count state =? 0) eqn:Hl; bool_to_prop; simpl; [naive_solver|].
  case_if; simpl; naive_solver.
Qed.

Lemma health_says_ok state :
  health_status (health state) = Some (VStr "ok") ->
  live_worker_count state >= total_workers state /\ loaded_worker_count state <> 0.
Proof.
  unfold health, health_status. destruct (as_ready _); simpl; [|done].
  destruct (live_worker_count state =? 0); simpl; [done|].
  destruct (loaded_worker_count state =? 0) eqn:Hl; simpl; [done|]. bool_to_prop.
  destruct (live_worker_count state <? total_workers state) eqn:Ht; bool_to_prop; simpl; [done|].
  intros _. lia.
Qed.

(** C27: [/health] tells the truth about the pool it serves: in every
    reachable state of a pool whose init task is done, it answers 200 exactly when start-up is
    over and at least one worker is still in its loop, and the status [ok] implies
    that every configured worker is.  Because the count it compares with is the
    configured one while the pool clamps a GPU deployment to its devices, a
    deployment with more workers than devices is never reported [ok]. *)
Theorem health_tracks_pool `{KeySort nat} {Session Output} `{Runtime Session Output}
    `{WorkerWorld Session} config requested cm cap (y : Sys Session) state :
  let n := clamp_workers config requested in
  1 <= requested <= U64_MAX -> 0 <= circuit_breaker_threshold config <= U64_MAX ->
  pool_running config n cm cap y -> reads state y -> total_workers state = requested ->
  (status (health state) = 200 <-> as_ready (app state) = true /\ some_running y) /\
  (health_status (health state) = Some (VStr "ok") ->
   n = requested /\ Z.of_nat (length (sys_slots y)) = sum_of (map slot_live (sys_slots y))) /\
  (ep config <> Cpu -> effective_gpu_count config < requested ->
   health_status (health state) <> Some (VStr "ok")).
Proof.
  intros n Hreq Ht Hr [Hlive _] Htot.
  assert (Hn : 1 <= n <= requested).
  { unfold n, clamp_workers, effective_gpu_count. case_if; bool_to_prop; lia. }
  destruct (running_inv config n cm cap y ltac:(lia) Ht Hr) as [[Hl _ _] Hlen].
  pose proof (live_le_slots (sys_slots y)) as Hle.
  assert (Hok : health_status (health state) = Some (VStr "ok") ->
    n = requested /\ Z.of_nat (length (sys_slots y)) = sum_of (map slot_live (sys_slots y))).
  { intros [Hall _]%health_says_ok. lia. }
  split_and!; [|done|].
  - rewrite health_ok_iff, Hlive, Hl. unfold some_running. by rewrite live_some_running.
  - intros Hep Hgpu [Heq _]%Hok. unfold n, clamp_workers in Heq.
    rewrite bool_decide_false, (proj2 (Z.ltb_lt _ _)) in Heq by done. simpl in Heq. lia.
Qed.

Definition clamped_state (sh : Shared) : ServerState :=
  {| app := example_app; live_worker_count := live_workers sh;
     loaded_worker_count := loaded_workers sh; max_batch := 8; total_workers := 4;
     state_max_seq_length := 8192 |}.

Lemma health_tracks_pool_witness :
  exists st med,
    init_pool (example_config Cuda) 1 (conservative 0) 64 (fun _ => (None, Ok 0%nat)) = Ok (st, med) /\
    health_status (health (clamped_state (in_shared st))) <> Some (VStr "ok").
Proof.
  assert (Hok : is_ok (init_pool (example_config Cuda) 1 (conservative 0) 64
                         (fun _ => (None, Ok 0%nat))) = true) by (vm_compute; reflexivity).
  destruct (init_pool (example_config Cuda) 1 (conservative 0) 64
              (fun _ => (None, Ok 0%nat))) as [[st med]|] eqn:E0; [|discriminate Hok].
  exists st, med. split; [reflexivity|].
  destruct (health_tracks_pool (example_config Cuda) 4 (conservative 0) 64
    {| sys_slots := in_slots st; sys_shared := in_shared st |} (clamped_state (in_shared st)))
    as (_ & _ & Hnever); [by vm_compute|by vm_compute|by eapply init_running, E0|by split|done|].
  apply Hnever; [done|by vm_compute].
Defined.

(** ** From the worker to the client *)

(** The keys of the pooled map come from the ids of the text. *)
Lemma maxpool_step_keys mask scores w w' j id k :
  maxpool_step mask scores w j id = Some w' -> is_Some (w' !! k) -> is_Some (w !! k) \/ k = id.
Proof.
  unfold maxpool_step. destruct (mask !! j) as [m|]; simpl; [|done].
  destruct (m =? 0); [intros [= <-]; auto|]. case_bool_decide; [intros [= <-]; auto|].
  destruct (scores !! j) as [s|]; simpl; [|done].
  case_if; [|intros [= <-]; auto]. intros [= <-].
  destruct (decide (k = id)) as [->|Hne]; [by right|].
  destruct (w !! id); rewrite lookup_insert_ne by done; auto.
Qed.

Lemma maxpool_loop_keys mask scores ids w w' j k :
  maxpool_loop mask scores w j ids = Some w' -> is_Some (w' !! k) -> is_Some (w !! k) \/ k ∈ ids.
Proof.
  revert w j. induction ids as [|id ids IH]; intros w j; simpl; [intros [= <-]; auto|].
  destruct (maxpool_step _ _ _ _ _) as [w1|] eqn:Hs; simpl; [|done]. intros Hl Hk.
  destruct (IH _ _ Hl Hk) as [H1|H1]; [|right; by right].
  destruct (maxpool_step_keys _ _ _ _ _ _ _ Hs H1) as [?| ->]; [by left|right; by left].
Qed.

(** The [as u32] of the handlers loses nothing on token ids. *)
Lemma wrap32_ids l : Forall (fun x => 0 <= x <= U32_MAX) l -> map wrap32 l = l.
Proof.
  induction 1 as [|x l Hx _ IH]; simpl; [done|]. rewrite IH. f_equal.
  unfold wrap32, U32_MAX in *. apply Z.mod_small. lia.
Qed.

Section end_to_end.
Context `{KeySort nat} {Session Output : Type} `{RuntimeLaws Session Output} `{WorkerWorld Session}.

Definition u32_ids (texts : list string) : Prop :=
  forall encs, encode_batch texts = Ok encs ->
    Forall (fun e => Forall (fun id => 0 <= id <= U32_MAX) (get_ids e)) encs.

Lemma sparse_row_u32 encs tok p i (r : SparseEmbedding) :
  Forall (fun e => Forall (fun id => 0 <= id <= U32_MAX) (get_ids e)) encs ->
  sparse_row encs tok p i = Ok r -> map wrap32 (indices r) = indices r.
Proof.
  intros Hu. unfold sparse_row. destruct (encs !! i) as [enc|] eqn:He; simpl; [|done].
  destruct (index_axis0 tok p); simpl; [|done]. destruct (result_mapM _ _) as [scores|]; simpl; [|done].
  destruct (sparse_maxpool _ _ _) as [[ixs vals]|] eqn:Hm; simpl; [|done]. intros [= <-]. simpl.
  apply wrap32_ids. rewrite Forall_lookup in Hu. specialize (Hu _ _ He).
  unfold sparse_maxpool in Hm. destruct (maxpool_loop _ _ _ _ _) as [w|] eqn:Hl; simpl in Hm; [|done].
  simplify_eq. apply Forall_forall. intros k Hk. fold (pooled_keys w) in Hk.
  apply pooled_keys_in in Hk. destruct (maxpool_loop_keys _ _ _ _ _ _ _ Hl Hk) as [[? Hn]|Hin].
  - by rewrite lookup_empty in Hn.
  - rewrite Forall_forall in Hu. by apply Hu.
Qed.

(** A successful reply comes from a successful run of the pipeline, at the first
    or at the second attempt. *)
Lemma retry_ok {T} (f : CostModel -> Session -> Session * M T) cm s s' v :
  embed_with_trt_retry f cm s = (s', Ok v) ->
  exists cm1 s1 s2, f cm1 s1 = (s2, Ok v).
Proof.
  unfold embed_with_trt_retry. destruct (f cm s) as [s1 [w|[|e]]] eqn:Hf; [|done|].
  - intros [= <- <-]. eauto.
  - case_if; [|done]. eauto.
Qed.

Lemma route_reply {T} embed msg (mk : result anyhow (list T * EmbedStats) -> Reply) closed
    config n cf (s : Session) wl sh d rep :
  embed_route embed msg mk closed config n cf s wl sh = Some d -> d_reply d = Some rep ->
  exists r, rep = mk r /\
    (forall v, r = Ok v -> exists cm s1 s2, embed cm s1 = (s2, Ok v)).
Proof.
  unfold embed_route. destruct closed; [by intros [= <-]|].
  destruct (embed_with_trt_retry _ _ _) as [s' [v|[|e]]] eqn:Hr; [|done|];
    destruct (finalize_embed_route _ _ _ _ _ _) as [[o wl'] sh'];
    intros [= <-] [= <-].
  - exists (Ok v). split; [done|]. intros v' [= <-]. by eapply retry_ok.
  - by eexists.
Qed.

(** What a step that serves a request does is what its dispatch does. *)
Lemma step_reply id config rx req closed load (w : Worker Session) sh rep :
  s_reply (worker_step id config rx (EvRequest req closed load) w sh) = Some rep ->
  (exists sm cf guard s wl sh' d,
     dispatch_request req closed config id sm cf guard s wl sh' = Some d /\ d_reply d = Some rep) \/
  (exists e, rep = reply_request_load_error req e).
Proof.
  assert (Hserve : forall s w sh, s_reply (serve_request id config req closed s w sh) = Some rep ->
    exists sm cf guard s wl sh' d,
     dispatch_request req closed config id sm cf guard s wl sh' = Some d /\ d_reply d = Some rep).
  { intros s w' sh'. unfold serve_request.
    destruct (dispatch_request _ _ _ _ _ _ _ _ _ _) as [d|] eqn:Hd; [|done]. intros Hrep.
    do 7 eexists. split; [exact Hd|]. revert Hrep.
    destruct (d_skip d); [done|]. case_bool_decide; [done|]. by destruct (should_unload_on_outcome _). }
  unfold worker_step. destruct (drain_step _ _ _ _) as [w1 sh1].
  destruct (models w1) as [s|]; [intros Hr; left; by eapply Hserve|].
  destruct load as [m|e]; [intros Hr; left; by eapply Hserve|].
  intros [= <-]. right. eauto.
Qed.
End end_to_end.

(** What the session computed for text [i] and the client sees at entry [i]. *)
Definition served `{KeySort nat} {Session Output} `{Runtime Session Output} (v : ModelVariant)
    (texts : list string) (i : nat) (entry : DualEmbeddingData) : Prop :=
  exists encs cm c p r ids mask s1 s2 o embs,
    encode_batch texts = Ok encs /\
    c ∈ bin_pack (seq_lengths_of encs) cm /\ c !! p = Some i /\
    build_chunk_arrays encs c (chunk_pad (seq_lengths_of encs) c) = Ok (ids, mask) /\
    session_run s1 ids mask = (s2, Ok o) /\
    both_output v o = Ok embs /\ both_row encs embs p i = Ok r /\
    entry = {| du_index := Z.of_nat i; du_embedding := dense r;
               du_sparse_values := {| sv_indices := indices (sparse r); sv_values := values (sparse r) |} |}.

(** The whole path of a request for dense and sparse embeddings: whatever a
    worker answers to an accepted request, the client gets either the status of
    the error, or one entry per text in the order of the request, where entry [i]
    carries index [i] and exactly what the run of the chunk that holds text [i]
    computed for it; the narrowing of the token ids to [u32] loses nothing. *)
Theorem both_request_end_to_end `{KeySort nat} {Session Output} `{RuntimeLaws Session Output}
    `{WorkerWorld Session} id config rx texts closed load (w : Worker Session) sh rep state model :
  serving state -> valid_input texts (max_batch state) -> u32_ids texts ->
  s_reply (worker_step id config rx (EvRequest (ReqBoth texts) closed load) w sh) = Some rep ->
  exists r, rep = RepBoth r /\
    match both_embeddings state {| breq_input := texts; breq_model := model |}
            (fun _ => pool_call true (Some r)) with
    | Ok resp =>
        length (bo_data resp) = length texts /\
        (forall i entry, bo_data resp !! i = Some entry ->
           served (model_variant config) texts i entry) /\
        prompt_tokens (bo_usage resp) = estimate_tokens texts
    | Err e => exists err, r = Err err /\ e = app_error_of err
    end.
Proof.
  intros Hs Hv Hu Hrep.
  assert (Hr : exists r, rep = RepBoth r /\
    (forall out, r = Ok out -> exists cm g s1 s2,
       embed_both s1 texts cm (model_variant config) g = (s2, Ok out))).
  { apply step_reply in Hrep as [(sm & cf & g & s & wl & sh' & d & Hd & Hrep)|[e ->]].
    - cbn [dispatch_request] in Hd.
      destruct (route_reply _ _ _ _ _ _ _ _ _ _ _ _ Hd Hrep) as (r & -> & Hr).
      exists r. split; [done|]. intros out Ho. destruct (Hr _ Ho) as (cm & s1 & s2 & He). eauto 10.
    - by eexists. }
  destruct Hr as (r & -> & Hr). exists r. split; [done|]. rewrite both_handle.
  unfold handle, accept. rewrite (proj2 (check_ready_ok _)) by done. simpl.
  rewrite (proj2 (validate_ok _ _)) by done. simpl.
  destruct r as [[out stats]|err]; simpl; [|by eexists].
  destruct (Hr _ eq_refl) as (cm & g & s1 & s2 & He). clear Hr Hrep.
  unfold embed_both in He.
  apply embed_with_rows in He as (encs & Henc & Hlen & Hrows);
    [|intros sl r i x; apply finish_slots_lookup|intros sl r Hf; by eapply result_mapM_length].
  split_and!; [by rewrite length_imap| |done].
  intros i entry. rewrite list_lookup_imap. intros (pr & Hpr & ->)%fmap_Some.
  apply lookup_lt_Some in Hpr as Hi. rewrite Hlen in Hi.
  destruct (Hrows i Hi) as (c & p & v & Hc & Hp & (ids & mask & t1 & t2 & o & x & Hb & Hrun & Hx & Hrow) & Ho).
  simplify_eq. exists encs, cm, c, p, pr, ids, mask, t1, t2, o, x. split_and!; try done.
  unfold sparse_values. f_equal. f_equal. destruct x as [de tok].
  apply both_row_split in Hrow as [_ Hrow]. eapply sparse_row_u32; [|exact Hrow]. by apply Hu.
Qed.

Lemma both_request_end_to_end_witness :
  exists rep r,
    s_reply (worker_step 0 (example_config Cpu) [] (EvRequest (ReqBoth ["hi"; "you"]) false (Ok 0%nat))
               (fresh_worker 0%nat None) example_shared) = Some rep /\ rep = RepBoth r.
Proof.
  assert (Hsome : is_Some (s_reply (worker_step 0 (example_config Cpu) []
    (EvRequest (ReqBoth ["hi"; "you"]) false (Ok 0%nat)) (fresh_worker 0%nat None) example_shared)))
    by (vm_compute; eexists; reflexivity).
  destruct Hsome as [rep Hrep]. exists rep.
  destruct (both_request_end_to_end 0 (example_config Cpu) [] ["hi"; "you"] false (Ok 0%nat)
    (fresh_worker 0%nat None) example_shared rep example_server None) as (r & Hr & _).
  - by split.
  - split; [done|]. split; [done|]. repeat constructor; by vm_compute.
  - intros encs He. injection He as <-.
    constructor; [apply byte_ids_u32|constructor; [apply byte_ids_u32|constructor]].
  - exact Hrep.
  - exists r. exact (conj Hrep Hr).
Defined.
