(* ===== verification/Permits.v ===== *)
(** * Concurrent requests at the permit gate

    The embedding handlers as tasks that interleave ([src/handler/dense.rs] and
    its siblings): a request is accepted or rejected on arrival, waits for a
    permit of the semaphore of [AppState], holds it while the pool works, and
    gives it back when the handler returns or the client disconnects.  The
    semaphore is [tokio]'s, reached through the interface [FairSemaphore]; the
    theorems hold for every implementation of it. *)

From S2P Require Import Prelude Float RustStr BinPack JitGuard Types Bootstrap HttpError Handler.
#[local] Open Scope nat_scope.

(** ** The semaphore *)

(** Free permits go to the longest-waiting tasks first. *)
Definition assign (cap : nat) (hs ws : list nat) : list nat * list nat :=
  let free := cap - length hs in (hs ++ take free ws, drop free ws).

Definition without (id : nat) (l : list nat) : list nat := filter (fun x => x <> id) l.

(** What [tokio::sync::Semaphore] documents: [acquire_owned] is served in the order
    of the calls, a dropped permit goes back, a dropped acquisition loses its
    place, [add_permits] raises the number of permits, and [forget] of [k] acquired
    permits lowers it. *)
Class FairSemaphore (Sem : Type) := {
  sem_new : nat -> Sem;
  capacity : Sem -> nat;
  holders : Sem -> list nat;
  waiters : Sem -> list nat;
  acquire : nat -> Sem -> Sem;
  release : nat -> Sem -> Sem;
  cancel : nat -> Sem -> Sem;
  add_permits : nat -> Sem -> Sem;
  forget_permits : nat -> Sem -> Sem;
  sem_new_law n : capacity (sem_new n) = n /\ holders (sem_new n) = [] /\ waiters (sem_new n) = [];
  acquire_law id s : capacity (acquire id s) = capacity s /\
    (holders (acquire id s), waiters (acquire id s))
    = assign (capacity s) (holders s) (waiters s ++ [id]);
  release_law id s : capacity (release id s) = capacity s /\
    (holders (release id s), waiters (release id s))
    = assign (capacity s) (without id (holders s)) (waiters s);
  cancel_law id s : capacity (cancel id s) = capacity s /\
    holders (cancel id s) = holders s /\ waiters (cancel id s) = without id (waiters s);
  add_permits_law k s : capacity (add_permits k s) = capacity s + k /\
    (holders (add_permits k s), waiters (add_permits k s))
    = assign (capacity s + k) (holders s) (waiters s);
  forget_permits_law k s : waiters s = [] -> length (holders s) + k <= capacity s ->
    capacity (forget_permits k s) = capacity s - k /\
    holders (forget_permits k s) = holders s /\ waiters (forget_permits k s) = [];
}.

(** ** The server *)

Inductive Phase :=
| Accepted (texts : list string)
| Replied (code : Z)
| Disconnected.

Record Server (Sem : Type) := { sv_sem : Sem; sv_phase : gmap nat Phase }.
Arguments sv_sem {Sem}. Arguments sv_phase {Sem}.

Inductive Act :=
| Arrive (id : nat) (state : ServerState) (texts : list string)
| Answer (id : nat) (r : result anyhow EmbedStats)
| Disconnect (id : nat)
| RaisePermits (k : nat).

Section server.
Context `{FairSemaphore Sem}.

(** When an action can happen: a request has a fresh number, only a request that
    holds a permit is answered. *)
Definition enabled (act : Act) (x : Server Sem) : Prop :=
  match act with
  | Arrive id _ _ => sv_phase x !! id = None
  | Answer id _ => id ∈ holders (sv_sem x)
  | Disconnect id => exists texts, sv_phase x !! id = Some (Accepted texts)
  | RaisePermits _ => True
  end.

Definition exec (act : Act) (x : Server Sem) : Server Sem :=
  match act with
  | Arrive id state texts =>
      match accept state texts with
      | Err e => {| sv_sem := sv_sem x;
                    sv_phase := <[id := Replied (status (into_response e))]> (sv_phase x) |}
      | Ok _ => {| sv_sem := acquire id (sv_sem x);
                   sv_phase := <[id := Accepted texts]> (sv_phase x) |}
      end
  | Answer id r =>
      {| sv_sem := release id (sv_sem x);
         sv_phase := <[id := Replied (status_of (from_pool r))]> (sv_phase x) |}
  | Disconnect id =>
      {| sv_sem := if decide (id ∈ holders (sv_sem x)) then release id (sv_sem x)
                   else cancel id (sv_sem x);
         sv_phase := <[id := Disconnected]> (sv_phase x) |}
  | RaisePermits k => {| sv_sem := add_permits k (sv_sem x); sv_phase := sv_phase x |}
  end.

Inductive srv_step (x : Server Sem) : Server Sem -> Prop :=
| SrvStep act : enabled act x -> srv_step x (exec act x).

Definition srv_init (n : nat) : Server Sem := {| sv_sem := sem_new n; sv_phase := ∅ |}.

Definition is_accepted (x : Server Sem) (id : nat) : Prop :=
  exists texts, sv_phase x !! id = Some (Accepted texts).

(** Permits are conserved and never idle while somebody waits; the requests at the
    semaphore are exactly the accepted ones. *)
Record srv_inv (x : Server Sem) : Prop := {
  iv_bound : length (holders (sv_sem x)) <= capacity (sv_sem x);
  iv_busy : waiters (sv_sem x) <> [] -> length (holders (sv_sem x)) = capacity (sv_sem x);
  iv_nodup : NoDup (holders (sv_sem x) ++ waiters (sv_sem x));
  iv_accepted id : id ∈ holders (sv_sem x) ++ waiters (sv_sem x) <-> is_accepted x id;
}.

(** ** Lemmas on the assignment *)

Lemma without_notin id l : id ∉ l -> without id l = l.
Proof. intros Hn. apply filter_id, Forall_forall. intros x Hx ->. done. Qed.

Lemma elem_without id x l : x ∈ without id l <-> x ∈ l /\ x <> id.
Proof. unfold without. rewrite list_elem_of_filter. tauto. Qed.

Lemma without_app id l k : without id (l ++ k) = without id l ++ without id k.
Proof. apply filter_app. Qed.

Lemma length_without id l : NoDup l -> id ∈ l -> length l = S (length (without id l)).
Proof.
  intros Hnd Hin. induction Hnd as [|x l Hx Hnd IH]; [inversion Hin|]. unfold without.
  rewrite filter_cons. case_decide as Hxi; simpl.
  - apply elem_of_cons in Hin as [->|Hin]; [done|]. by rewrite (IH Hin).
  - assert (x = id) as -> by (by destruct (decide (x = id))). f_equal. change (filter (fun y => y <> id) l) with (without id l).
    by rewrite without_notin.
Qed.

Lemma assign_app cap hs ws hs' ws' : (hs', ws') = assign cap hs ws -> hs' ++ ws' = hs ++ ws.
Proof. intros [= -> ->]. by rewrite <- app_assoc, take_drop. Qed.

Lemma assign_bound cap hs ws hs' ws' :
  (hs', ws') = assign cap hs ws -> length hs <= cap ->
  length hs' <= cap /\ (ws' <> [] -> length hs' = cap).
Proof.
  intros [= -> ->] Hle. rewrite length_app, length_take. split; [lia|]. intros Hne.
  assert (cap - length hs < length ws); [|lia].
  destruct (Nat.lt_ge_cases (cap - length hs) (length ws)); [done|].
  by rewrite drop_ge in Hne.
Qed.

(** ** The invariant *)

(** One lemma for every change that ends in an assignment. *)
Lemma inv_assign (sem : Sem) cap hs ws phase :
  capacity sem = cap -> (holders sem, waiters sem) = assign cap hs ws ->
  length hs <= cap -> NoDup (hs ++ ws) ->
  (forall id, id ∈ hs ++ ws <-> exists texts, phase !! id = Some (Accepted texts)) ->
  srv_inv {| sv_sem := sem; sv_phase := phase |}.
Proof.
  intros Hc Ha Hle Hnd Hacc. pose proof (assign_app _ _ _ _ _ Ha) as Happ.
  destruct (assign_bound _ _ _ _ _ Ha Hle) as [Hb Hw].
  split; cbn [sv_sem]; rewrite ?Hc, ?Happ; [done..|]. exact Hacc.
Qed.

Lemma acc_insert (phase : gmap nat Phase) id p i :
  (exists texts, <[id := p]> phase !! i = Some (Accepted texts)) <->
  (i = id /\ exists texts, p = Accepted texts) \/
  (i <> id /\ exists texts, phase !! i = Some (Accepted texts)).
Proof. setoid_rewrite lookup_insert_Some. naive_solver. Qed.

(** Once [id] has left, the others keep their places. *)
Lemma leave_accepted (hs ws : list nat) (phase : gmap nat Phase) id p :
  (forall texts, p <> Accepted texts) ->
  (forall i, i ∈ hs ++ ws <-> exists texts, phase !! i = Some (Accepted texts)) ->
  forall i, i ∈ without id (hs ++ ws) <-> exists texts, <[id := p]> phase !! i = Some (Accepted texts).
Proof. intros Hp Hacc i. rewrite acc_insert, elem_without, Hacc. naive_solver. Qed.

Lemma inv_release (sem : Sem) phase id p :
  id ∈ holders sem -> (forall texts, p <> Accepted texts) ->
  srv_inv {| sv_sem := sem; sv_phase := phase |} ->
  srv_inv {| sv_sem := release id sem; sv_phase := <[id := p]> phase |}.
Proof.
  intros Hid Hp [Hb _ Hnd Hacc]. unfold is_accepted in Hacc. cbn [sv_sem sv_phase] in *.
  destruct (release_law id sem) as [Hc Ha].
  assert (Hw : without id (holders sem ++ waiters sem) = without id (holders sem) ++ waiters sem).
  { rewrite without_app, (without_notin id (waiters sem)); [done|]. intros Hin.
    apply NoDup_app in Hnd as (_ & Hdis & _). by apply (Hdis id). }
  eapply inv_assign; [done|exact Ha| | |].
  - unfold without. etrans; [apply length_filter_le|done].
  - rewrite <- Hw. by apply NoDup_filter.
  - rewrite <- Hw. by apply leave_accepted.
Qed.

Lemma inv_cancel (sem : Sem) phase id p :
  id ∉ holders sem -> (forall texts, p <> Accepted texts) ->
  srv_inv {| sv_sem := sem; sv_phase := phase |} ->
  srv_inv {| sv_sem := cancel id sem; sv_phase := <[id := p]> phase |}.
Proof.
  intros Hid Hp [Hb Hbusy Hnd Hacc]. unfold is_accepted in Hacc. cbn [sv_sem sv_phase] in *.
  destruct (cancel_law id sem) as (Hc & Hh & Hw).
  assert (Happ : holders sem ++ without id (waiters sem) = without id (holders sem ++ waiters sem)).
  { by rewrite without_app, (without_notin id (holders sem)). }
  split; cbn [sv_sem sv_phase]; rewrite ?Hc, ?Hh, ?Hw, ?Happ; [done| | |].
  - intros Hne. apply Hbusy. intros Hnil. by rewrite Hnil in Hne.
  - by apply NoDup_filter.
  - intros i. unfold is_accepted. cbn [sv_phase]. by apply leave_accepted.
Qed.

Lemma exec_inv act x : enabled act x -> srv_inv x -> srv_inv (exec act x).
Proof.
  intros Hen Hinv. pose proof Hinv as [Hb Hbusy Hnd Hacc]. destruct x as [sem phase].
  unfold is_accepted in Hacc.
  cbn [sv_sem sv_phase] in *. destruct act as [id state texts|id r|id|k]; cbn [exec enabled] in *.
  - assert (Hfresh : id ∉ holders sem ++ waiters sem).
    { rewrite Hacc. intros [t Ht]. simpl in Hen. congruence. }
    destruct (accept state texts) as [[]|e].
    + destruct (acquire_law id sem) as [Hc Ha]. eapply inv_assign; [done|exact Ha|done| |].
      * rewrite app_assoc. apply NoDup_app. split_and!; [done| |apply NoDup_singleton].
        intros i Hi ->%list_elem_of_singleton. done.
      * intros i. rewrite acc_insert, app_assoc, elem_of_app, list_elem_of_singleton, Hacc.
        destruct (decide (i = id)) as [->|]; naive_solver.
    + split; [done..|]. intros i. unfold is_accepted. cbn [sv_sem sv_phase].
      rewrite acc_insert, Hacc. split; [|naive_solver].
      intros Hi. right. split; [|done]. intros ->. by apply Hfresh, Hacc.
  - by apply inv_release.
  - case_decide; [by apply inv_release|by apply inv_cancel].
  - destruct (add_permits_law k sem) as [Hc Ha]. eapply inv_assign; [done|exact Ha|lia|done|done].
Qed.

Lemma init_inv n : srv_inv (srv_init n).
Proof.
  destruct (sem_new_law n) as (Hc & Hh & Hw). split; unfold srv_init; cbn [sv_sem sv_phase];
    rewrite ?Hh, ?Hw; simpl; [lia|done|constructor|].
  intros id. unfold is_accepted. simpl. split; [inversion 1|]. intros [t Ht]. by rewrite lookup_empty in Ht.
Qed.

Lemma reachable_inv n x : rtc srv_step (srv_init n) x -> srv_inv x.
Proof.
  intros Hr. pose proof (init_inv n) as Hi. induction Hr as [|x y z [act Hen] _ IH]; [done|].
  by apply IH, exec_inv.
Qed.

(** ** The queue *)

(** [id] waits with at most [k] requests ahead of it. *)
Definition waits (id k : nat) (x : Server Sem) : Prop :=
  exists pre post, waiters (sv_sem x) = pre ++ id :: post /\ length pre <= k.

Lemma waits_elem id x : id ∈ waiters (sv_sem x) <-> exists k, waits id k x.
Proof.
  split.
  - intros (pre & post & Hw)%list_elem_of_split. exists (length pre), pre, post. done.
  - intros (k & pre & post & -> & _). set_solver.
Qed.

(** Dropping the first [d] waiters. *)
Lemma drop_ahead (ws : list nat) id pre post d :
  ws = pre ++ id :: post ->
  id ∈ take d ws \/ exists pre', drop d ws = pre' ++ id :: post /\ length pre = length pre' + d.
Proof.
  intros ->. destruct (Nat.lt_ge_cases (length pre) d) as [Hd|Hd].
  - left. rewrite take_app_ge by lia. replace (d - length pre) with (S (d - length pre - 1)) by lia.
    set_solver.
  - right. exists (drop d pre). rewrite drop_app_le by done. split; [done|]. rewrite length_drop. lia.
Qed.

Lemma assign_queue cap hs ws hs' ws' id pre post :
  (hs', ws') = assign cap hs ws -> NoDup (hs ++ ws) -> ws = pre ++ id :: post ->
  id ∉ ws' \/ exists pre', ws' = pre' ++ id :: post /\ length pre = length pre' + (cap - length hs).
Proof.
  intros Ha Hnd Hw. pose proof (assign_app _ _ _ _ _ Ha) as Happ. rewrite <- Happ in Hnd.
  injection Ha as -> ->. destruct (drop_ahead ws id pre post (cap - length hs) Hw) as [Hin|?]; [|by right].
  left. intros Hin'. apply NoDup_app in Hnd as (_ & Hdis & _). apply (Hdis id); set_solver.
Qed.

Lemma without_split id j (pre post : list nat) :
  id <> j -> without j (pre ++ id :: post) = without j pre ++ id :: without j post.
Proof. intros Hne. rewrite without_app. f_equal. unfold without. by rewrite filter_cons_True. Qed.

(** No request overtakes another; and each time a holder leaves, every waiter
    moves up. *)
Definition moved (id k d : nat) (x : Server Sem) : Prop :=
  id ∉ waiters (sv_sem x) \/ (d <= k /\ waits id (k - d) x).

Lemma assign_moved (sem : Sem) cap hs ws phase id k pre post d :
  (holders sem, waiters sem) = assign cap hs ws -> NoDup (hs ++ ws) ->
  ws = pre ++ id :: post -> length pre <= k -> d <= cap - length hs ->
  moved id k d {| sv_sem := sem; sv_phase := phase |}.
Proof.
  intros Ha Hnd Hw Hk Hd. unfold moved, waits. cbn [sv_sem].
  destruct (assign_queue _ _ _ _ _ _ _ _ Ha Hnd Hw) as [Hn|(pre' & Hw' & Hl)]; [by left|].
  right. split; [lia|]. exists pre', post. split; [done|]. lia.
Qed.

(** A holder gives its permit back. *)
Definition leaves (j : nat) (x y : Server Sem) : Prop :=
  j ∈ holders (sv_sem x) /\ j ∉ holders (sv_sem y).

Lemma assign_keeps (sem : Sem) cap hs ws j :
  (holders sem, waiters sem) = assign cap hs ws -> j ∈ hs -> j ∈ holders sem.
Proof. intros [= -> _] Hj. apply elem_of_app. by left. Qed.

Lemma release_moved (sem : Sem) phase phase' id j k pre post d :
  srv_inv {| sv_sem := sem; sv_phase := phase |} -> j ∈ holders sem ->
  waiters sem = pre ++ id :: post -> length pre <= k -> d <= 1 ->
  moved id k d {| sv_sem := release j sem; sv_phase := phase' |}.
Proof.
  intros [Hb Hbusy Hnd _] Hj Hw Hk Hd. cbn [sv_sem] in *. destruct (release_law j sem) as [Hc Ha].
  assert (Hlen : length (holders sem) = S (length (without j (holders sem)))).
  { apply length_without; [|done]. by apply NoDup_app in Hnd as (? & _ & _). }
  eapply assign_moved; [exact Ha| |exact Hw|done|lia].
  apply NoDup_app in Hnd as (Hh & Hdis & Hws). apply NoDup_app. split_and!; [by apply NoDup_filter| |done].
  intros i [Hi _]%elem_without. by apply Hdis.
Qed.

Lemma exec_moved act x id k :
  enabled act x -> srv_inv x -> waits id k x ->
  moved id k 0 (exec act x) /\ (forall j, leaves j x (exec act x) -> moved id k 1 (exec act x)).
Proof.
  intros Hen Hinv (pre & post & Hw & Hk). pose proof Hinv as [Hb Hbusy Hnd Hacc].
  destruct x as [sem phase]. cbn [sv_sem sv_phase] in *.
  assert (Hsame : forall phase', moved id k 0 {| sv_sem := sem; sv_phase := phase' |}).
  { intros phase'. right. split; [lia|]. rewrite Nat.sub_0_r. by exists pre, post. }
  destruct act as [i state texts|i r|i|n]; cbn [exec enabled sv_sem sv_phase] in *.
  - assert (Hfresh : i ∉ holders sem ++ waiters sem).
    { rewrite Hacc. intros [t Ht]. simpl in Ht. congruence. }
    destruct (accept state texts) as [[]|e]; [|split; [apply Hsame|by intros j [? []]]].
    destruct (acquire_law i sem) as [_ Ha]. split.
    + eapply (assign_moved _ _ _ _ _ _ _ pre (post ++ [i])); [exact Ha| | |done|lia].
      * rewrite app_assoc. apply NoDup_app. split_and!; [done| |apply NoDup_singleton].
        intros y Hy ->%list_elem_of_singleton. done.
      * by rewrite Hw, <- app_assoc.
    + intros j [Hj []]. by eapply assign_keeps.
  - split; intros; eapply release_moved; eauto; lia.
  - case_decide as Hh; [split; intros; eapply release_moved; eauto; lia|].
    destruct (cancel_law i sem) as (_ & Hh' & Hw'). split.
    + unfold moved, waits. cbn [sv_sem]. rewrite Hw', Hw, Nat.sub_0_r.
      destruct (decide (id = i)) as [->|Hne]; [left; by rewrite elem_without; intros []|right].
      split; [lia|]. rewrite without_split by done. eexists _, _. split; [done|].
      unfold without. etrans; [apply length_filter_le|done].
    + intros j [Hj []]. cbn [sv_sem]. by rewrite Hh'.
  - destruct (add_permits_law n sem) as [_ Ha]. split.
    + eapply assign_moved; [exact Ha|done|exact Hw|done|lia].
    + intros j [Hj []]. by eapply assign_keeps.
Qed.

(** ** Executions *)

Definition answered (x : Server Sem) (id : nat) : Prop :=
  (exists code, sv_phase x !! id = Some (Replied code)) \/ sv_phase x !! id = Some Disconnected.

(** An infinite run of the server from its start with [n] permits; it may idle. *)
Record execution (n : nat) (tr : nat -> Server Sem) : Prop := {
  ex_init : tr 0 = srv_init n;
  ex_step t : tr (S t) = tr t \/ srv_step (tr t) (tr (S t));
}.

(** A run from any good state with at least [n] permits. *)
Record running (n : nat) (tr : nat -> Server Sem) : Prop := {
  rn_inv : srv_inv (tr 0);
  rn_permits : n <= capacity (sv_sem (tr 0));
  rn_step t : tr (S t) = tr t \/ srv_step (tr t) (tr (S t));
}.

Lemma execution_running n tr : execution n tr -> running n tr.
Proof.
  intros [Hi Hs]. split; [rewrite Hi; apply init_inv| |done]. rewrite Hi. simpl.
  by destruct (sem_new_law n) as [-> _].
Qed.

(** The pool answers, or the client of, every request that holds a permit
    eventually leaves. *)
Definition fair (tr : nat -> Server Sem) : Prop :=
  forall t j, j ∈ holders (sv_sem (tr t)) -> exists t', t <= t' /\ j ∉ holders (sv_sem (tr t')).

Lemma exec_capacity act x : capacity (sv_sem x) <= capacity (sv_sem (exec act x)).
Proof.
  destruct act as [id state texts|id r|id|k]; cbn [exec].
  - destruct (accept state texts); cbn [sv_sem]; [|done]. by destruct (acquire_law id (sv_sem x)) as [-> _].
  - cbn [sv_sem]. by destruct (release_law id (sv_sem x)) as [-> _].
  - cbn [sv_sem]. case_decide; [by destruct (release_law id (sv_sem x)) as [-> _]|].
    by destruct (cancel_law id (sv_sem x)) as [-> _].
  - cbn [sv_sem]. destruct (add_permits_law k (sv_sem x)) as [-> _]. lia.
Qed.

Lemma exec_accepted act x id :
  enabled act x -> is_accepted x id -> is_accepted (exec act x) id \/ answered (exec act x) id.
Proof.
  intros Hen [texts Ht]. unfold is_accepted, answered.
  destruct act as [i state t|i r|i|k]; cbn [exec enabled sv_phase] in *.
  - assert (i <> id) by congruence. destruct (accept state t); cbn [sv_phase];
      rewrite lookup_insert_ne by done; eauto.
  - destruct (decide (i = id)) as [->|]; [rewrite lookup_insert_eq|rewrite lookup_insert_ne by done]; eauto.
  - destruct (decide (i = id)) as [->|]; [rewrite lookup_insert_eq|rewrite lookup_insert_ne by done]; eauto.
  - eauto.
Qed.

Lemma assign_waiters (sem : Sem) cap hs ws j :
  (holders sem, waiters sem) = assign cap hs ws -> j ∈ waiters sem -> j ∈ ws.
Proof.
  intros [= _ ->] Hj. rewrite <- (take_drop (cap - length hs) ws). apply elem_of_app. by right.
Qed.

Lemma exec_waiters act x j :
  j ∈ waiters (sv_sem (exec act x)) ->
  j ∈ waiters (sv_sem x) \/ exists state texts, act = Arrive j state texts.
Proof.
  destruct act as [i state t|i r|i|k]; cbn [exec sv_sem].
  - destruct (accept state t); cbn [sv_sem]; [|by left].
    destruct (acquire_law i (sv_sem x)) as [_ Ha]. intros Hj.
    apply (assign_waiters _ _ _ _ _ Ha), elem_of_app in Hj as [?| ->%list_elem_of_singleton]; eauto.
  - destruct (release_law i (sv_sem x)) as [_ Ha]. intros Hj. left. by eapply assign_waiters.
  - case_decide.
    + destruct (release_law i (sv_sem x)) as [_ Ha]. intros Hj. left. by eapply assign_waiters.
    + destruct (cancel_law i (sv_sem x)) as (_ & _ & ->). intros [? _]%elem_without. by left.
  - destruct (add_permits_law k (sv_sem x)) as [_ Ha]. intros Hj. left. by eapply assign_waiters.
Qed.

Lemma leaves_answered act x id :
  enabled act x -> srv_inv x -> leaves id x (exec act x) -> answered (exec act x) id.
Proof.
  intros Hen Hinv [Hin Hout].
  assert (Hacc : is_accepted x id) by (apply (iv_accepted _ Hinv), elem_of_app; by left).
  destruct (exec_accepted act x id Hen Hacc) as [Hstill|]; [|done]. exfalso.
  apply (iv_accepted _ (exec_inv _ _ Hen Hinv)), elem_of_app in Hstill as [?|Hw]; [done|].
  apply exec_waiters in Hw as [Hw|(state & texts & ->)].
  - pose proof (iv_nodup _ Hinv) as Hnd. apply NoDup_app in Hnd as (_ & Hdis & _). by apply (Hdis id).
  - destruct Hacc as [t Ht]. cbn [enabled] in Hen. congruence.
Qed.

Section run.
Context (n : nat) (tr : nat -> Server Sem) (Hex : running n tr).

Lemma run_step t :
  tr (S t) = tr t \/ exists act, enabled act (tr t) /\ tr (S t) = exec act (tr t).
Proof. destruct (rn_step _ _ Hex t) as [?|Hs]; [by left|]. inversion Hs. eauto. Qed.

Lemma run_inv t : srv_inv (tr t).
Proof.
  induction t as [|t IH]; [apply (rn_inv _ _ Hex)|].
  destruct (run_step t) as [->|(act & Hen & ->)]; [done|by apply exec_inv].
Qed.

Lemma run_capacity t : n <= capacity (sv_sem (tr t)).
Proof.
  induction t as [|t IH].
  - apply (rn_permits _ _ Hex).
  - destruct (run_step t) as [->|(act & Hen & ->)]; [done|].
    etrans; [exact IH|apply exec_capacity].
Qed.

(** An accepted request stays accepted until it is answered. *)
Lemma run_accepted t d id :
  is_accepted (tr t) id ->
  is_accepted (tr (t + d)) id \/ exists s, t <= s /\ answered (tr s) id.
Proof.
  intros Ha. induction d as [|d [IH|IH]]; [left; by rewrite Nat.add_0_r| |by right].
  rewrite Nat.add_succ_r. destruct (run_step (t + d)) as [Heq|(act & Hen & Heq)]; rewrite Heq; [by left|].
  destruct (exec_accepted act _ id Hen IH) as [|Hans]; [by left|right].
  exists (S (t + d)). rewrite Heq. split; [lia|done].
Qed.

(** A request that holds a permit at [t] and not at [t + d] was answered. *)
Lemma run_left d : forall t id,
  id ∈ holders (sv_sem (tr t)) -> id ∉ holders (sv_sem (tr (t + d))) ->
  exists s, t <= s /\ answered (tr s) id.
Proof.
  induction d as [|d IH]; intros t id Hin Hout; [by rewrite Nat.add_0_r in Hout|].
  destruct (decide (id ∈ holders (sv_sem (tr (S t))))) as [Hin'|Hout'].
  - destruct (IH (S t) id Hin') as (s & Hs & Ha); [by rewrite Nat.add_succ_l, <- Nat.add_succ_r|].
    exists s. split; [lia|done].
  - exists (S t). split; [lia|]. destruct (run_step t) as [Heq|(act & Hen & Heq)]; [by rewrite Heq in Hout'|].
    rewrite Heq in *. apply leaves_answered; [done|apply run_inv|done].
Qed.

(** Until some holder [j] has left, a waiter keeps its place; then it moves up. *)
Lemma run_moves d : forall t id k j,
  waits id k (tr t) -> j ∈ holders (sv_sem (tr t)) -> j ∉ holders (sv_sem (tr (t + d))) ->
  exists s, t <= s /\ (id ∉ waiters (sv_sem (tr s)) \/ exists k', k' < k /\ waits id k' (tr s)).
Proof.
  induction d as [|d IH]; intros t id k j Hw Hin Hout; [by rewrite Nat.add_0_r in Hout|].
  destruct (run_step t) as [Heq|(act & Hen & Heq)].
  - rewrite Nat.add_succ_r, <- Nat.add_succ_l in Hout. rewrite <- Heq in Hw, Hin.
    destruct (IH _ _ _ _ Hw Hin Hout) as (s & Hs & Hres). exists s. split; [lia|done].
  - destruct (exec_moved act _ id k Hen (run_inv t) Hw) as [H0 H1]. rewrite <- Heq in H0, H1.
    destruct (decide (j ∈ holders (sv_sem (tr (S t))))) as [Hin'|Hout'].
    + destruct H0 as [Hn|[_ Hw']]; [exists (S t); split; [lia|by left]|].
      rewrite Nat.sub_0_r in Hw'. rewrite Nat.add_succ_r, <- Nat.add_succ_l in Hout.
      destruct (IH _ _ _ _ Hw' Hin' Hout) as (s & Hs & Hres). exists s. split; [lia|done].
    + exists (S t). split; [lia|]. destruct (H1 j) as [Hn|[Hk Hw']]; [by split|by left|].
      right. exists (k - 1). split; [lia|done].
Qed.

Lemma run_granted (Hfair : fair tr) (Hn : 0 < n) k : forall t id,
  waits id k (tr t) -> exists s, t <= s /\ id ∉ waiters (sv_sem (tr s)).
Proof.
  induction (lt_wf k) as [k _ IH]. intros t id Hw.
  assert (Hne : waiters (sv_sem (tr t)) <> []).
  { destruct Hw as (pre & post & -> & _). by destruct pre. }
  pose proof (iv_busy _ (run_inv t) Hne) as Hbusy. pose proof (run_capacity t) as Hcap.
  destruct (holders (sv_sem (tr t))) as [|j hs] eqn:Hh; [simpl in Hbusy; lia|].
  assert (Hj : j ∈ holders (sv_sem (tr t))) by (rewrite Hh; by left).
  destruct (Hfair t j Hj) as (t' & Ht & Hout). replace t' with (t + (t' - t)) in Hout by lia.
  destruct (run_moves _ _ _ _ _ Hw Hj Hout) as (s & Hs & [Hdone|(k' & Hk & Hw')]).
  - by exists s.
  - destruct (IH k' Hk s id Hw') as (s' & Hs' & Hdone). exists s'. split; [lia|done].
Qed.

Lemma run_answered (Hfair : fair tr) (Hn : 0 < n) t id :
  is_accepted (tr t) id -> exists s, t <= s /\ answered (tr s) id.
Proof.
  intros Ha.
  assert (Hg : exists s, t <= s /\ id ∉ waiters (sv_sem (tr s))).
  { destruct (decide (id ∈ waiters (sv_sem (tr t)))) as [Hw|]; [|by exists t].
    apply waits_elem in Hw as [k Hw]. by eapply run_granted. }
  destruct Hg as (s & Hs & Hout). replace s with (t + (s - t)) in Hout by lia.
  destruct (run_accepted t (s - t) id Ha) as [Hacc|(s' & Hs' & Hans)]; [|by exists s'].
  apply (iv_accepted _ (run_inv _)), elem_of_app in Hacc as [Hh|?]; [|done].
  destruct (Hfair _ _ Hh) as (t' & Ht' & Hout').
  replace t' with (t + (s - t) + (t' - (t + (s - t)))) in Hout' by lia.
  destruct (run_left _ _ _ Hh Hout') as (s' & Hs' & Hans). exists s'. split; [lia|done].
Qed.
End run.
End server.

(** ** The queue as an implementation *)

Record Fifo := { f_capacity : nat; f_holders : list nat; f_waiters : list nat }.

Definition fifo_assign (cap : nat) (hs ws : list nat) : Fifo :=
  let '(hs', ws') := assign cap hs ws in {| f_capacity := cap; f_holders := hs'; f_waiters := ws' |}.

#[export, program] Instance fifo_semaphore : FairSemaphore Fifo := {|
  sem_new n := {| f_capacity := n; f_holders := []; f_waiters := [] |};
  capacity := f_capacity;
  holders := f_holders;
  waiters := f_waiters;
  acquire id s := fifo_assign (f_capacity s) (f_holders s) (f_waiters s ++ [id]);
  release id s := fifo_assign (f_capacity s) (without id (f_holders s)) (f_waiters s);
  cancel id s := {| f_capacity := f_capacity s; f_holders := f_holders s;
                    f_waiters := without id (f_waiters s) |};
  add_permits k s := fifo_assign (f_capacity s + k) (f_holders s) (f_waiters s);
  forget_permits k s := {| f_capacity := f_capacity s - k; f_holders := f_holders s;
                           f_waiters := f_waiters s |}
|}.
Solve All Obligations with done.

(** ** Properties *)

(** C12: the permits of the gate are conserved under every interleaving of
    arrivals, answers, disconnections and permit raises: at most [capacity]
    requests are at the pool, no permit idles while a request waits, exactly the
    accepted and unanswered requests hold or wait for a permit (so every permit is
    back once they are answered), and no step lets a request overtake another. *)
Theorem permits_conserved `{FairSemaphore Sem} (n : nat) (x : Server Sem) :
  rtc srv_step (srv_init n) x ->
  length (holders (sv_sem x)) <= capacity (sv_sem x) /\
  (waiters (sv_sem x) <> [] -> length (holders (sv_sem x)) = capacity (sv_sem x)) /\
  NoDup (holders (sv_sem x) ++ waiters (sv_sem x)) /\
  (forall id, id ∈ holders (sv_sem x) ++ waiters (sv_sem x) <-> is_accepted x id) /\
  (forall act id k, enabled act x -> waits id k x ->
     id ∉ waiters (sv_sem (exec act x)) \/ waits id k (exec act x)).
Proof.
  intros Hr. pose proof (reachable_inv n x Hr) as Hinv. pose proof Hinv as [Hb Hbusy Hnd Hacc].
  split_and!; try done. intros act id k Hen Hw.
  destruct (exec_moved act x id k Hen Hinv Hw) as [[?|[_ Hw']] _]; [by left|right].
  by rewrite Nat.sub_0_r in Hw'.
Qed.

Definition example_run (t : nat) : Server Fifo :=
  match t with
  | 0 => srv_init 1
  | 1 => exec (Arrive 0 example_server ["a"]) (srv_init 1)
  | _ => exec (Answer 0 (Ok default_stats)) (exec (Arrive 0 example_server ["a"]) (srv_init 1))
  end.

Lemma example_accept : accept example_server ["a"] = Ok ().
Proof. vm_compute. reflexivity. Qed.

Lemma example_held : f_holders (sv_sem (example_run 1)) = [0].
Proof. vm_compute. reflexivity. Qed.

Lemma example_execution : execution 1 example_run.
Proof.
  split; [done|]. intros [|[|t]]; [right|right|by left].
  - apply (SrvStep _ (Arrive 0 example_server ["a"])). apply lookup_empty.
  - apply (SrvStep _ (Answer 0 (Ok default_stats))). change (0 ∈ f_holders (sv_sem (example_run 1))). rewrite example_held. by left.
Qed.

Lemma example_done : f_holders (sv_sem (example_run 2)) = [].
Proof. vm_compute. reflexivity. Qed.

Lemma permits_conserved_witness :
  rtc srv_step (srv_init 1) (example_run 1) /\ length (holders (sv_sem (example_run 1))) <= 1.
Proof.
  assert (Hr : rtc srv_step (srv_init 1) (example_run 1)).
  { apply rtc_once. apply (SrvStep _ (Arrive 0 example_server ["a"])). apply lookup_empty. }
  split; [exact Hr|]. pose proof (permits_conserved 1 (example_run 1) Hr) as [Hle _].
  etrans; [exact Hle|]. cbn [example_run exec]. rewrite example_accept. by left.
Defined.

(** No request is forgotten: if every request at the pool is eventually
    answered or abandoned, then in every run of a server with at least one permit
    every accepted request is answered or its client leaves, however many
    requests arrive meanwhile. *)
Theorem requests_eventually_answered `{FairSemaphore Sem} (n : nat) (tr : nat -> Server Sem)
    (t id : nat) :
  0 < n -> execution n tr -> fair tr -> is_accepted (tr t) id ->
  exists t', t <= t' /\ answered (tr t') id.
Proof. intros Hn Hex Hfair. by apply (run_answered n tr (execution_running n tr Hex) Hfair Hn). Qed.

Lemma requests_eventually_answered_witness :
  exists t', 1 <= t' /\ answered (example_run t') 0.
Proof.
  apply (requests_eventually_answered 1 example_run 1 0); [lia|exact example_execution| |].
  - intros t j Hj. exists (t + 2). split; [lia|]. replace (t + 2) with (S (S t)) by lia.
    change (holders (sv_sem (example_run (S (S t))))) with (f_holders (sv_sem (example_run 2))).
    rewrite example_done. inversion 1.
  - exists ["a"]. cbn [example_run exec]. rewrite example_accept. apply lookup_insert_eq.
Defined.
