(* ===== verification/Logging.v ===== *)
(** * Log lines ([src/logging.rs])

    The two formatters that wrap the JSON formatter of [tracing-subscriber] and
    put their key first, and the choice of the output format.  The inner formatter
    is a parameter; the writers are text that is appended to, so a formatter is
    the text it writes or [None] for [fmt::Error]. *)

From S2P Require Import Prelude RustStr.
#[local] Open Scope Z_scope.

Definition BGE_MODULE : string := "server".

(** [gpu] is the [cuda] or [tensorrt] feature of the build. *)
Definition BUILD_VARIANT (gpu : bool) : string := if gpu then "cuda" else "cpu".

Definition quote : string := String "034"%char EmptyString.
Definition newline : string := String nl EmptyString.

(** ["key":"value"] *)
Definition quoted_pair (key value : string) : string :=
  quote +:+ key +:+ quote +:+ ":" +:+ quote +:+ value +:+ quote.

(** What both [format_event] do with the buffer of the inner formatter. *)
Definition prepend (key value buf : string) : string :=
  let trailing_newline := ends_with newline buf in
  let body := if trailing_newline then str_take (String.length buf - 1) buf else buf in
  (match strip_prefix "{" body with
   | Some rest =>
       match strip_prefix "}" rest with
       | Some rest => "{" +:+ quoted_pair key value +:+ "}" +:+ rest
       | None => "{" +:+ quoted_pair key value +:+ "," +:+ rest
       end
   | None => body
   end) +:+ (if trailing_newline then newline else "").

(** A formatter: the text it writes for an event. *)
Definition Format (Event : Type) : Type := Event -> option string.

Definition PrependBuild {Event} (gpu : bool) (inner : Format Event) : Format Event :=
  fun event => buf ← inner event; Some (prepend "build" (BUILD_VARIANT gpu) buf).

Definition PrependModule {Event} (inner : Format Event) : Format Event :=
  fun event => buf ← inner event; Some (prepend "bge_module" BGE_MODULE buf).

(** [BGE_M3_LOG_FORMAT] and whether the standard output is a terminal. *)
Definition want_json (log_format : option string) (is_terminal : bool) : bool :=
  match log_format with
  | Some f => if bool_decide (f = "text" \/ f = "pretty") then false
              else if bool_decide (f = "json") then true else negb is_terminal
  | None => negb is_terminal
  end.

(** The format [init] installs for the event lines; the pretty formatter is the
    library's default. *)
Definition event_format {Event} (log_format : option string) (is_terminal gpu : bool)
    (json pretty : Format Event) : Format Event :=
  if want_json log_format is_terminal then PrependModule (PrependBuild gpu json) else pretty.

(** ** JSON objects as text *)

(** An object with the given rendered members. *)
Definition object (members : list string) : string := "{" +:+ String.concat "," members +:+ "}".

(** A rendered member starts with the quote of its key. *)
Definition member (m : string) : Prop := exists r, m = quote +:+ r.

(** ** Lemmas *)

#[local] Arguments String.append !_ _ / : simpl nomatch.

Lemma str_take_app a b : str_take (String.length a) (a +:+ b) = a.
Proof. induction a as [|c a IH]; simpl; [by destruct b|]. by rewrite IH. Qed.

Lemma string_length_app a b : String.length (a +:+ b) = (String.length a + String.length b)%nat.
Proof. induction a as [|c a IH]; simpl; [done|]. by rewrite IH. Qed.

Lemma ends_newline s : ends_with newline (s +:+ newline) = true.
Proof. apply ends_with_spec. by exists s. Qed.

Lemma prepend_line key value s :
  prepend key value (s +:+ newline) =
  match strip_prefix "{" s with
  | Some rest =>
      match strip_prefix "}" rest with
      | Some rest => "{" +:+ quoted_pair key value +:+ "}" +:+ rest +:+ newline
      | None => "{" +:+ quoted_pair key value +:+ "," +:+ rest +:+ newline
      end
  | None => s +:+ newline
  end.
Proof.
  unfold prepend. rewrite ends_newline, string_length_app.
  replace (String.length s + String.length newline - 1)%nat with (String.length s) by (simpl; lia).
  rewrite str_take_app. destruct (strip_prefix "{" s) as [rest|]; [|done].
  destruct (strip_prefix "}" rest); by rewrite !string_app_assoc.
Qed.

Lemma strip_brace s : strip_prefix "{" ("{" +:+ s) = Some s.
Proof. by apply strip_prefix_Some. Qed.

Lemma member_not_close m s : member m -> strip_prefix "}" (m +:+ s) = None.
Proof. intros [r ->]. reflexivity. Qed.

Lemma concat_cons x y l : String.concat "," (x :: y :: l) = x +:+ "," +:+ String.concat "," (y :: l).
Proof. done. Qed.

(** Prepending to the text of an object is adding a first member. *)
Lemma prepend_object key value ms :
  Forall member ms ->
  prepend key value (object ms +:+ newline) = object (quoted_pair key value :: ms) +:+ newline.
Proof.
  intros Hms. rewrite prepend_line. unfold object. rewrite strip_brace.
  destruct ms as [|m ms].
  { change (strip_prefix "}" (String.concat "," [] +:+ "}")) with (Some ""). cbv iota beta.
    change ("" +:+ newline) with newline.
    change (String.concat "," [quoted_pair key value]) with (quoted_pair key value).
    by rewrite !string_app_assoc. }
  apply Forall_cons in Hms as [Hm _].
  assert (Hc : strip_prefix "}" (String.concat "," (m :: ms) +:+ "}") = None).
  { destruct ms as [|m' ms]; [by apply member_not_close|].
    rewrite concat_cons, <- !string_app_assoc. by apply member_not_close. }
  rewrite Hc, (concat_cons (quoted_pair key value)). by rewrite !string_app_assoc.
Qed.

Lemma quoted_member key value : member (quoted_pair key value).
Proof. by eexists. Qed.

Lemma prepend_other key value s :
  strip_prefix "{" s = None -> prepend key value (s +:+ newline) = s +:+ newline.
Proof. intros Hs. by rewrite prepend_line, Hs. Qed.

(** ** Properties *)

(** Every JSON log line starts with the module and then the build: wrapped
    around a formatter that renders an object with members [ms] and a line end,
    the chain renders the object with the two members in front and the same line
    end, also for an empty object; a line that is not an object, or that is
    rendered for a terminal, passes unchanged; an error of the inner formatter is
    an error and writes nothing. *)
Theorem log_line_prefixed {Event} (json pretty : Format Event) gpu event ms s :
  let chain := PrependModule (PrependBuild gpu json) in
  (Forall member ms -> json event = Some (object ms +:+ newline) ->
   chain event = Some (object (quoted_pair "bge_module" "server"
                                :: quoted_pair "build" (BUILD_VARIANT gpu) :: ms) +:+ newline)) /\
  (strip_prefix "{" s = None -> json event = Some (s +:+ newline) ->
   chain event = Some (s +:+ newline)) /\
  (json event = None -> chain event = None) /\
  (forall log_format tty, want_json log_format tty = false ->
   event_format log_format tty gpu json pretty event = pretty event).
Proof.
  intros chain. unfold chain, PrependModule, PrependBuild. split_and!.
  - intros Hms ->. cbn [mbind option_bind]. f_equal. rewrite prepend_object by done.
    apply prepend_object. by constructor; [apply quoted_member|].
  - intros Hs ->. cbn [mbind option_bind]. by rewrite (prepend_other _ _ s Hs), (prepend_other _ _ s Hs).
  - by intros ->.
  - intros lf tty Hw. unfold event_format. by rewrite Hw.
Qed.

Lemma log_line_prefixed_witness :
  PrependModule (PrependBuild true (fun _ : unit => Some (object [quoted_pair "level" "INFO"] +:+ newline))) tt
  = Some (object [quoted_pair "bge_module" "server"; quoted_pair "build" "cuda";
                  quoted_pair "level" "INFO"] +:+ newline).
Proof.
  apply (log_line_prefixed (fun _ : unit => Some (object [quoted_pair "level" "INFO"] +:+ newline))
    (fun _ => None) true tt [quoted_pair "level" "INFO"] ""); [|reflexivity].
  constructor; [apply quoted_member|constructor].
Defined.
