(* ===== verification/Server.v ===== *)
(** * The server process ([src/lib.rs], [src/main.rs], [src/bootstrap/router.rs])

    What [run] does with the configuration: the shared cost model, the permits,
    the channels and the worker configuration it hands to the pool; the
    warmup-only mode with its postcondition, exit code and wait for the workers;
    the route table. *)

From S2P Require Import Prelude Float RustStr BinPack JitGuard EmbedMath TrtCache Types SysInfo Config Pipeline TrtWarmup Retry WorkerGuard Worker Pool PoolInit Bootstrap.
#[local] Open Scope Z_scope.

(** ** Wiring *)

Definition initial_cost_model (cfg : Cfg.Config) : CostModel :=
  unwrap_or (Cfg.cost_model_override cfg) (conservative DEFAULT_MAX_WORKSPACE).

Definition initial_permits (cfg : Cfg.Config) : Z := Z.max (sat_sub (Cfg.workers cfg) 1) 1.

(** Both ends of the JIT-suspect channel exist together. *)
Definition jit_suspect_channel (cfg : Cfg.Config) : bool :=
  Cfg.adaptive_warmup_enabled cfg && bool_decide (Cfg.ep cfg = TensorRt).

Definition JIT_SUSPECT_CAPACITY : nat := 64.

Definition worker_config (cfg : Cfg.Config) : WorkerConfig :=
  {| idle_timeout := Cfg.idle_timeout cfg;
     model_variant := Cfg.model_variant cfg;
     max_seq_length := Cfg.max_seq_length cfg;
     intra_threads := Cfg.intra_threads cfg;
     ep := Cfg.ep cfg;
     trt_warmup_shapes := Cfg.trt_warmup_shapes cfg;
     device_id := 0;
     gpu_count := Cfg.gpu_count cfg;
     trt_max_workspace_bytes := Cfg.trt_max_workspace_bytes cfg;
     gpu_mem_limit_bytes := Cfg.gpu_mem_limit_bytes cfg;
     jit_suspect_tx := jit_suspect_channel cfg;
     engine_propagation_tx := Cfg.engine_propagation_enabled cfg;
     prewarm_strict := Cfg.prewarm_strict cfg;
     circuit_breaker_threshold := Cfg.circuit_breaker_threshold cfg;
     trt_inband_jit_guard_enabled := Cfg.trt_inband_jit_guard_enabled cfg;
     trt_inband_jit_guard_seq := Cfg.trt_inband_jit_guard_seq cfg;
     trt_cache_gc_enabled := Cfg.trt_cache_gc_enabled cfg |}.

(** The pool [run] spawns and the state it serves with. *)
Definition spawn_pool `{KeySort nat} {Session Output} `{Runtime Session Output} `{WorkerWorld Session}
    (cfg : Cfg.Config) (loads : nat -> option Z * result anyhow Session)
  : result (anyhow * Shared) (Init Session * Z) :=
  let wc := worker_config cfg in
  init_pool wc (clamp_workers wc (Cfg.workers cfg)) (initial_cost_model cfg) JIT_SUSPECT_CAPACITY loads.

(** The states of that pool once its init task is done. *)
Definition serving_pool `{KeySort nat} {Session Output} `{Runtime Session Output} `{WorkerWorld Session}
    (cfg : Cfg.Config) (x : Sys Session) : Prop :=
  let wc := worker_config cfg in
  pool_running wc (clamp_workers wc (Cfg.workers cfg)) (initial_cost_model cfg) JIT_SUSPECT_CAPACITY x.

(** ** Warmup-only mode *)

Definition WARMUP_POSTCONDITION_FAILED_EXIT_CODE : Z := 2.

Definition warmup_postcondition_failed (ep : EpSelection) (engine_count : Z) : bool :=
  bool_decide (ep = TensorRt) && (engine_count =? 0).

(** [wait_for_workers_to_exit] against the readings of each poll: the live count
    and the clock in milliseconds. *)
Inductive Waited := Drained | TimedOut.

#[export] Instance Waited_eq_dec : EqDecision Waited.
Proof. solve_decision. Defined.

Fixpoint wait_for_workers_to_exit (fuel : nat) (deadline : Z) (poll : nat -> Z * Z) (k : nat)
  : option (Waited * nat) :=
  match fuel with
  | O => None
  | S fuel =>
      let '(live, now) := poll k in
      if 0 <? live then
        if deadline <=? now then Some (TimedOut, k)
        else wait_for_workers_to_exit fuel deadline poll (S k)
      else Some (Drained, k)
  end.

(** How the process ends. *)
Inductive Exit := ExitOk | ExitErr (e : anyhow) | ExitCode (code : Z).

(** What the branch does on the way, in order. *)
Inductive WarmupStep :=
| HeartbeatStopped
| PoolDropped
| WorkersAwaited (w : Waited)
| EngineDirSynced
| CacheInspected (info : TrtCacheInfo)
| EnginesCounted (sm : option string) (matching : Z).

(** The warmup-only branch of [run].  [waited] is how the wait for the workers
    ended, [dir] the engine directory after it, [create] whether it could be
    created; the heartbeat task only logs. *)
Definition run_warmup_only (cfg : Cfg.Config) (init : InitResult) (waited : Waited) (create : bool)
    (dir : Dir) (nvidia_smi : Z -> option (bool * option string)) : list WarmupStep * Exit :=
  match init with
  | InitPanicked e => ([], ExitErr (anyhow_msg ("Worker pool task panicked: " +:+ e)))
  | InitDone (Err e) =>
      ([], ExitErr (anyhow_msg ("Worker pool initialization failed: " +:+ display e)))
  | InitDone (Ok _) =>
      let trt_info := ensure_and_inspect (Cfg.cache_dir cfg) create dir in
      let detected_sm := if bool_decide (Cfg.ep cfg = TensorRt)
                         then detect_sm_for_device nvidia_smi 0 else None in
      let matching_engine_count := count_engine_files_for_sm dir detected_sm in
      ((if 0 <? Cfg.heartbeat_secs cfg then [HeartbeatStopped] else [])
       ++ [PoolDropped; WorkersAwaited waited; EngineDirSynced; CacheInspected trt_info;
           EnginesCounted detected_sm matching_engine_count],
       if warmup_postcondition_failed (Cfg.ep cfg) matching_engine_count
       then ExitCode WARMUP_POSTCONDITION_FAILED_EXIT_CODE
       else ExitOk)
  end.

(** ** Routes *)

Inductive Method := GET | POST.
Inductive Endpoint := DenseEmbeddings | SparseEmbeddings | BothEmbeddings | Models | Health | HealthDeep.

(** The table [build_router] registers. *)
Definition routes : list (string * Method * Endpoint) :=
  [("/v1/embeddings", POST, DenseEmbeddings);
   ("/v1/sparse-embeddings", POST, SparseEmbeddings);
   ("/v1/embeddings:both", POST, BothEmbeddings);
   ("/v1/embeddings%3Aboth", POST, BothEmbeddings);
   ("/v1/embeddings%3aboth", POST, BothEmbeddings);
   ("/v1/models", GET, Models);
   ("/health", GET, Health);
   ("/health/deep", GET, HealthDeep)].

(** [RouteAwareSpan]: the paths whose spans are at the debug level. *)
Definition is_noisy (path : string) : bool :=
  bool_decide (path = "/health" \/ path = "/health/deep" \/ path = "/v1/models").

(** ** Shutdown: lemmas *)

Section shutdown.
Context `{KeySort nat} {Session Output : Type} `{Runtime Session Output} `{WorkerWorld Session}.

Definition all_gone (x : Sys Session) : Prop :=
  Forall (fun s => exists fatal, s = Gone fatal) (sys_slots x).

(** A worker that finds the channel closed leaves its loop, without an error. *)
Lemma closed_exits id config rx (w : Worker Session) sh :
  s_status (worker_step id config rx EvClosed w sh) = Exited (Ok tt) /\
  s_reply (worker_step id config rx EvClosed w sh) = None.
Proof. unfold worker_step. by destruct (drain_step _ _ _ _). Qed.

Lemma close_step config n (x : Sys Session) i w :
  sys_slots x !! i = Some (Active w) ->
  exists y, sys_step config n x y /\ sys_slots y = <[i := Gone false]> (sys_slots x).
Proof.
  intros Hi. destruct x as [slots sh]. simpl in Hi.
  destruct (closed_exits i (make_worker_config config n i) [] w sh) as [Hst Hrep].
  destruct (worker_step i (make_worker_config config n i) [] EvClosed w sh) as [w' sh' rep st] eqn:Hs.
  simpl in Hst, Hrep. subst st rep.
  eexists. split; [exists i, [], EvClosed, None; by eapply SysExit|]. done.
Qed.

Lemma gone_or_active (l : list (Slot Session)) :
  Forall (fun s => exists fatal, s = Gone fatal) l \/ exists i w, l !! i = Some (Active w).
Proof.
  induction l as [|s l [IH|(i & w & Hi)]]; [by left| |right; by exists (S i), w].
  destruct s as [w|fatal]; [right; by exists 0%nat, w|left]. constructor; [by exists fatal|done].
Qed.

Lemma gone_live (l : list (Slot Session)) :
  Forall (fun s => exists fatal, s = Gone fatal) l -> sum_of (map slot_live l) = 0.
Proof. unfold sum_of. induction 1 as [|s l [f ->] _ IH]; [done|]. cbn [map foldr]. by rewrite IH. Qed.

(** As many exits as there are running workers empty the pool. *)
Lemma drain_pool config n k : forall x : Sys Session,
  sum_of (map slot_live (sys_slots x)) = Z.of_nat k ->
  exists y, nsteps (sys_step config n) k x y /\ all_gone y.
Proof.
  induction k as [|k IH]; intros x Hk.
  - exists x. split; [constructor|]. destruct (gone_or_active (sys_slots x)) as [|(i & w & Hi)]; [done|].
    pose proof (sum_of_rest slot_live _ _ _ slot_live_range Hi) as Hrest. simpl in Hrest. lia.
  - destruct (gone_or_active (sys_slots x)) as [Hg|(i & w & Hi)].
    { apply gone_live in Hg. lia. }
    destruct (close_step config n x i w Hi) as (x1 & Hstep & Hx1).
    destruct (IH x1) as (y & Hsteps & Hy).
    { rewrite Hx1, (sum_of_insert _ _ _ _ _ Hi). simpl. lia. }
    exists y. split; [by econstructor|done].
Qed.
End shutdown.

(** ** Waiting: lemmas *)

(** The clock moves by at least the sleep of 100 ms between two polls. *)
Definition ticking (poll : nat -> Z * Z) : Prop :=
  forall k, snd (poll k) + 100 <= snd (poll (S k)).

Lemma ticking_from poll k j : ticking poll -> snd (poll k) + 100 * Z.of_nat j <= snd (poll (k + j)%nat).
Proof.
  intros Ht. induction j as [|j IH]; [rewrite Nat.add_0_r; lia|].
  rewrite Nat.add_succ_r. pose proof (Ht (k + j)%nat). lia.
Qed.

(** The first poll that ends the wait. *)
Definition wait_ends (deadline : Z) (poll : nat -> Z * Z) (k0 k : nat) (e : Waited) : Prop :=
  (k0 <= k)%nat /\
  (forall j, (k0 <= j < k)%nat -> 0 < fst (poll j) /\ snd (poll j) < deadline) /\
  (if decide (e = Drained) then fst (poll k) <= 0
   else 0 < fst (poll k) /\ deadline <= snd (poll k)).

Lemma wait_for_workers_spec fuel deadline poll k0 :
  ticking poll -> deadline - snd (poll k0) <= 100 * (Z.of_nat fuel - 1) -> (0 < fuel)%nat ->
  exists e k, wait_for_workers_to_exit fuel deadline poll k0 = Some (e, k) /\
    wait_ends deadline poll k0 k e /\ (k < k0 + fuel)%nat.
Proof.
  intros Ht. revert k0. induction fuel as [|fuel IH]; intros k0 Hf Hpos; [lia|].
  cbn [wait_for_workers_to_exit]. destruct (poll k0) as [live now] eqn:Hp. cbn [snd] in Hf.
  destruct (0 <? live) eqn:Hl; bool_to_prop.
  - destruct (deadline <=? now) eqn:Hd; bool_to_prop.
    + exists TimedOut, k0. split; [done|]. split; [|lia]. split; [lia|]. split; [intros j Hj; lia|].
      simpl. rewrite Hp. simpl. lia.
    + pose proof (Ht k0) as Htk. rewrite Hp in Htk. cbn [snd] in Htk.
      destruct (IH (S k0)) as (e & k & Hw & (Hle & Hpre & Hend) & Hk); [lia|lia|].
      exists e, k. split; [done|]. split; [|lia]. split; [lia|]. split; [|done].
      intros j Hj. destruct (decide (j = k0)) as [->|]; [rewrite Hp; simpl; lia|]. apply Hpre. lia.
  - exists Drained, k0. split; [done|]. split; [|lia]. split; [lia|]. split; [intros j Hj; lia|].
    simpl. rewrite Hp. simpl. lia.
Qed.

(** ** Properties *)

(** C33: closing the request channel drains the pool: a worker that finds it closed
    leaves its loop without an error or a reply, so from every reachable state of
    an initialised pool exactly as many exits as there are running workers lead to
    a state without one, where the live count the shutdown polls is 0 and the
    loaded count is the number of workers that had left by the fatal exit. *)
Theorem pool_drains_on_close `{KeySort nat} {Session Output} `{Runtime Session Output}
    `{WorkerWorld Session} config n cm cap (x : Sys Session) :
  1 <= n <= U64_MAX -> 0 <= circuit_breaker_threshold config <= U64_MAX ->
  pool_running config n cm cap x ->
  (forall id rx (w : Worker Session) sh,
     s_status (worker_step id config rx EvClosed w sh) = Exited (Ok tt) /\
     s_reply (worker_step id config rx EvClosed w sh) = None) /\
  exists y, nsteps (sys_step config n) (Z.to_nat (live_workers (sys_shared x))) x y /\
    all_gone y /\ live_workers (sys_shared y) = 0 /\
    loaded_workers (sys_shared y) = sum_of (map slot_loaded (sys_slots y)).
Proof.
  intros Hn Ht Hr. split; [intros; apply closed_exits|].
  assert (Hinv : forall y, rtc (sys_step config n) x y -> sys_inv config y).
  { intros y Hy. by apply (running_inv config n cm cap y Hn Ht), (running_steps _ _ _ _ x). }
  pose proof (Hinv x ltac:(done)) as [Hlive _ _].
  assert (Hpos : 0 <= live_workers (sys_shared x)).
  { rewrite Hlive. pose proof (sum_of_bounds (map slot_live (sys_slots x)) 0 1) as Hb.
    rewrite Z.mul_0_l in Hb. apply Hb. apply Forall_map, Forall_true. apply slot_live_range. }
  destruct (drain_pool config n (Z.to_nat (live_workers (sys_shared x))) x) as (y & Hy & Hg); [lia|].
  exists y. split; [done|]. split; [done|].
  destruct (Hinv y) as [Hl Hld _].
  { by eapply rtc_nsteps_2. }
  split; [|done]. rewrite Hl. by apply gone_live.
Qed.

Lemma pool_drains_on_close_witness :
  exists st med (y : Sys nat),
    init_pool (example_config Cpu) 2 (conservative (2 ^ 30)) 64 (fun _ => (None, Ok 0%nat)) = Ok (st, med) /\
    all_gone y /\ live_workers (sys_shared y) = 0.
Proof.
  assert (Hok : is_ok (init_pool (example_config Cpu) 2 (conservative (2 ^ 30)) 64
                         (fun _ => (None, Ok 0%nat))) = true) by (vm_compute; reflexivity).
  destruct (init_pool (example_config Cpu) 2 (conservative (2 ^ 30)) 64
              (fun _ => (None, Ok 0%nat))) as [[st med]|] eqn:E0; [|discriminate Hok].
  destruct (pool_drains_on_close (example_config Cpu) 2 (conservative (2 ^ 30)) 64
    {| sys_slots := in_slots st; sys_shared := in_shared st |})
    as (_ & y & _ & Hg & Hl & _); [by vm_compute|by vm_compute|by eapply init_running, E0|].
  exists st, med, y. exact (conj eq_refl (conj Hg Hl)).
Defined.

(** C34: the shutdown wait terminates: with at least 100 ms between two polls it
    returns after at most [timeout / 100 + 2] polls; it reports the workers drained
    exactly when the poll it ends with finds none alive, otherwise it has timed out
    at a poll at or after the deadline, and at every earlier poll some worker was
    alive and the deadline ahead. *)
Theorem wait_for_workers_terminates (start timeout : Z) (poll : nat -> Z * Z) :
  0 <= timeout -> ticking poll -> start <= snd (poll 0%nat) ->
  let fuel := S (S (Z.to_nat (timeout / 100))) in
  exists e k, wait_for_workers_to_exit fuel (start + timeout) poll 0 = Some (e, k) /\
    wait_ends (start + timeout) poll 0 k e /\ (k <= S (Z.to_nat (timeout / 100)))%nat.
Proof.
  intros Hto Htick Hstart fuel.
  destruct (wait_for_workers_spec fuel (start + timeout) poll 0 Htick) as (e & k & Hw & Hends & Hk).
  - unfold fuel. rewrite !Nat2Z.inj_succ, Z2Nat.id by (apply Z.div_pos; lia).
    pose proof (Z.mod_pos_bound timeout 100). pose proof (Z.div_mod timeout 100). lia.
  - unfold fuel. lia.
  - exists e, k. split; [done|]. split; [done|]. unfold fuel in Hk. lia.
Qed.

Lemma wait_for_workers_terminates_witness :
  exists e k, wait_for_workers_to_exit 5 300 (fun k => (if (k <? 2)%nat then 1 else 0, 100 * Z.of_nat k)) 0
    = Some (e, k).
Proof.
  destruct (wait_for_workers_terminates 0 300 (fun k => (if (k <? 2)%nat then 1 else 0, 100 * Z.of_nat k)))
    as (e & k & Hw & _); [lia|intros k; cbn [snd]; lia|cbn [snd]; lia|].
  exists e, k. exact Hw.
Defined.

(** C26: every configuration [from_env] accepts starts a lawful server: between 1
    and the requested number of workers, at least one request permit, a JIT-suspect
    channel exactly for adaptive warmup on TensorRT, the conservative cost model
    on a GPU provider; and every state its pool reaches has exact counters and no
    worker at the circuit-breaker threshold. *)
Theorem environment_starts_lawful_pool `{KeySort nat} {Session Output} `{Runtime Session Output}
    `{WorkerWorld Session} lookup entries c :
  Cfg.from_env lookup entries = Ok c ->
  let wc := worker_config c in
  let n := clamp_workers wc (Cfg.workers c) in
  1 <= n <= Cfg.workers c /\ Cfg.workers c <= U64_MAX /\
  as_permits (initial_state (Cfg.workers c) (initial_cost_model c)) = initial_permits c /\
  1 <= initial_permits c /\
  (jit_suspect_tx wc = true <-> Cfg.adaptive_warmup_enabled c = true /\ Cfg.ep c = TensorRt) /\
  (Cfg.ep c <> Cpu -> exists w, initial_cost_model c = conservative w) /\
  (forall loads (st : Init Session) med, spawn_pool c loads = Ok (st, med) ->
     serving_pool c {| sys_slots := in_slots st; sys_shared := in_shared st |}) /\
  forall y : Sys Session, serving_pool c y -> sys_inv wc y /\ length (sys_slots y) = Z.to_nat n.
Proof.
  intros Hc wc n.
  assert (Hl : c = Cfg.from_lookup lookup entries).
  { unfold Cfg.from_env in Hc. destruct (Cfg.validate _); simpl in Hc; [by simplify_eq|done]. }
  destruct (from_lookup_well_formed lookup entries) as (Hw & _ & _ & _ & _ & _ & Hgpu & Hg & _ & Ht & _).
  rewrite <- Hl in Hw, Hgpu, Hg, Ht.
  assert (Hwu : Cfg.workers c <= U64_MAX).
  { rewrite Hl. cbn [Cfg.workers Cfg.from_lookup].
    pose proof (env_usize_range lookup "BGE_M3_WORKERS" 2 ltac:(unfold usize, U64_MAX; lia)). unfold usize, U64_MAX in *. lia. }
  assert (Htu : Cfg.circuit_breaker_threshold c <= U64_MAX).
  { rewrite Hl. cbn [Cfg.circuit_breaker_threshold Cfg.from_lookup].
    pose proof (env_usize_range lookup "BGE_M3_CIRCUIT_BREAKER_THRESHOLD" 5 ltac:(unfold usize, U64_MAX; lia)).
    unfold usize, U64_MAX in *. lia. }
  assert (Hn : 1 <= n <= Cfg.workers c).
  { unfold n, clamp_workers, effective_gpu_count. simpl. case_if; bool_to_prop; lia. }
  split_and!; try done; try (unfold initial_permits, sat_sub; lia).
  - simpl. unfold jit_suspect_channel. by rewrite andb_true_iff, bool_decide_eq_true.
  - intros Hep. destruct (Hgpu Hep) as [w Hw']. exists w. unfold initial_cost_model. by rewrite Hw'.
  - intros loads st med Hs. unfold spawn_pool in Hs. fold wc n in Hs.
    apply (init_running wc n _ _ loads st med); [lia|exact Hs].
  - intros y Hy. apply (running_inv wc n (initial_cost_model c) JIT_SUSPECT_CAPACITY y); [lia|simpl; lia|exact Hy].
Qed.

Definition example_env (k : string) : option string :=
  if String.eqb k "BGE_M3_WORKERS" then Some "4" else None.

Lemma environment_starts_lawful_pool_witness :
  exists c, Cfg.from_env example_env None = Ok c /\ 1 <= initial_permits c.
Proof.
  assert (Hok : is_ok (Cfg.from_env example_env None) = true) by (vm_compute; reflexivity).
  destruct (Cfg.from_env example_env None) as [c|e] eqn:E; [|discriminate Hok].
  exists c. split; [reflexivity|].
  destruct (environment_starts_lawful_pool (Session := nat) example_env None c E)
    as (_ & _ & _ & Hp & _). exact Hp.
Defined.

(** How a warmup-only run ends: with success exactly when the pool initialised
    and, on TensorRT, at least one engine plan usable by this host's compute
    capability is on disk; with exit code 2 exactly when the pool initialised on
    TensorRT and none is, however many plans of other devices there are; with an
    error that carries the cause otherwise.  The plans are counted only after the
    pool was dropped, its workers waited for and the directory synced. *)
Theorem warmup_only_exit cfg init waited create dir smi :
  let sm := if bool_decide (Cfg.ep cfg = TensorRt) then detect_sm_for_device smi 0 else None in
  let usable := exists entries e, dir = Some entries /\ e ∈ entries /\ engine_for_sm sm e = true in
  (snd (run_warmup_only cfg init waited create dir smi) = ExitOk <->
   (exists u, init = InitDone (Ok u)) /\ (Cfg.ep cfg = TensorRt -> usable)) /\
  (snd (run_warmup_only cfg init waited create dir smi) = ExitCode 2 <->
   (exists u, init = InitDone (Ok u)) /\ Cfg.ep cfg = TensorRt /\ ~ usable) /\
  (forall e, init = InitDone (Err e) ->
   snd (run_warmup_only cfg init waited create dir smi)
   = ExitErr (anyhow_msg ("Worker pool initialization failed: " +:+ display e))) /\
  (forall sm' k, EnginesCounted sm' k ∈ fst (run_warmup_only cfg init waited create dir smi) ->
     exists pre, fst (run_warmup_only cfg init waited create dir smi)
                 = pre ++ [PoolDropped; WorkersAwaited waited; EngineDirSynced;
                           CacheInspected (ensure_and_inspect (Cfg.cache_dir cfg) create dir);
                           EnginesCounted sm' k]).
Proof.
  intros sm usable.
  assert (Hu : count_engine_files_for_sm dir sm <> 0 <-> usable).
  { unfold count_engine_files_for_sm, engine_files_for_sm, usable. destruct dir as [entries|]; simpl.
    2: { split; [done|]. by intros (? & ? & ? & _). }
    destruct (List.filter (engine_for_sm sm) entries) as [|e l] eqn:Hf; simpl.
    - split; [done|]. intros (? & e & [= <-] & He & Hm).
      assert (Hin : In e (List.filter (engine_for_sm sm) entries))
        by (apply filter_In; split; [by apply list_elem_of_In|done]).
      by rewrite Hf in Hin.
    - split; [|lia]. intros _. exists entries, e.
      assert (Hin : In e (List.filter (engine_for_sm sm) entries)) by (rewrite Hf; by left).
      apply filter_In in Hin as [Hin Hm]. by rewrite list_elem_of_In. }
  unfold run_warmup_only. fold sm. unfold warmup_postcondition_failed.
  destruct init as [msg|[u|err]]; cbn [fst snd].
  - split_and!; [split; [done|by intros [[? ?] _]]|split; [done|by intros [[? ?] _]]|done|].
    intros ? ? Hin. inversion Hin.
  - split_and!; [| |done|].
    1,2: case_bool_decide as Hep; simpl;
      [destruct (count_engine_files_for_sm dir sm =? 0) eqn:Hc; bool_to_prop; rewrite <- Hu|]; naive_solver.
    intros sm' k [Hin|Hin]%elem_of_app.
    + destruct (0 <? _); [|inversion Hin]. by apply list_elem_of_singleton in Hin.
    + assert (EnginesCounted sm' k = EnginesCounted sm (count_engine_files_for_sm dir sm)) as ->;
        [|by eexists].
      repeat (apply elem_of_cons in Hin as [Hin|Hin]; [by discriminate Hin || exact Hin|]). inversion Hin.
  - split_and!; [split; [done|by intros [[? ?] _]]|split; [done|by intros [[? ?] _]]|by intros e [= ->]|].
    intros ? ? Hin. inversion Hin.
Qed.

(** ** The route table *)

(** No path is registered twice, and the debug spans are those of the read-only
    endpoints, which load balancers poll. *)
Lemma routes_lawful :
  NoDup (map (fun r => fst (fst r)) routes) /\
  Forall (fun '(path, m, _) => is_noisy path = true <-> m = GET) routes.
Proof.
  split; [apply (bool_decide_unpack _); vm_compute; reflexivity|].
  repeat constructor; vm_compute; intros; congruence.
Qed.
