(* ===== verification/PoolQueue.v ===== *)
(** * The request queue of the pool ([src/embedder/pool.rs], [worker/run.rs])

    The bounded channel between the clients of the pool and its workers: clients
    submit and may leave at any moment, each worker takes the oldest request when
    it is free, and the channel dies with the last worker.  The channel is
    [tokio]'s [mpsc], reached through the interface [BoundedChannel]. *)

From S2P Require Import Prelude Float RustStr BinPack JitGuard EmbedMath TrtCache Types Pipeline TrtWarmup Retry WorkerGuard Worker Pool Permits Server.

(** ** The channel *)

(** What [mpsc::channel] documents: at most [capacity] messages are queued, a send
    beyond that waits for a place in the order of the calls, messages are received
    in that order, and a send whose future is dropped loses its place. *)
Class BoundedChannel (Ch : Type) := {
  ch_new : nat -> Ch;
  ch_capacity : Ch -> nat;
  ch_queue : Ch -> list nat;
  ch_blocked : Ch -> list nat;
  ch_send : nat -> Ch -> Ch;
  ch_recv : Ch -> option (nat * Ch);
  ch_forget : nat -> Ch -> Ch;
  ch_new_law cap : ch_capacity (ch_new cap) = cap /\ ch_queue (ch_new cap) = [] /\ ch_blocked (ch_new cap) = [];
  ch_send_law id c : ch_capacity (ch_send id c) = ch_capacity c /\
    (ch_queue (ch_send id c), ch_blocked (ch_send id c))
    = assign (ch_capacity c) (ch_queue c) (ch_blocked c ++ [id]);
  ch_recv_none c : ch_recv c = None -> ch_queue c = [];
  ch_recv_some c id c' : ch_recv c = Some (id, c') -> ch_capacity c' = ch_capacity c /\
    exists q, ch_queue c = id :: q /\
      (ch_queue c', ch_blocked c') = assign (ch_capacity c) q (ch_blocked c);
  ch_forget_law id c : ch_capacity (ch_forget id c) = ch_capacity c /\
    ch_queue (ch_forget id c) = ch_queue c /\ ch_blocked (ch_forget id c) = without id (ch_blocked c);
}.

(** Everyone in line, oldest first, and what a bounded channel keeps. *)
Definition line `{BoundedChannel Ch} (c : Ch) : list nat := ch_queue c ++ ch_blocked c.

Record chan_ok `{BoundedChannel Ch} (c : Ch) : Prop := {
  co_bound : (length (ch_queue c) <= ch_capacity c)%nat;
  co_busy : ch_blocked c <> [] -> length (ch_queue c) = ch_capacity c;
}.

Section channel.
Context `{BoundedChannel Ch}.

Lemma assign_ok (c : Ch) cap hs ws :
  ch_capacity c = cap -> (ch_queue c, ch_blocked c) = assign cap hs ws -> (length hs <= cap)%nat ->
  chan_ok c /\ line c = hs ++ ws.
Proof.
  intros Hc Ha Hle. destruct (assign_bound _ _ _ _ _ Ha Hle) as [Hb Hw].
  split; [|by apply (assign_app _ _ _ _ _ Ha)]. by split; rewrite Hc.
Qed.

Lemma send_line id (c : Ch) : chan_ok c -> chan_ok (ch_send id c) /\ line (ch_send id c) = line c ++ [id].
Proof.
  intros [Hb _]. destruct (ch_send_law id c) as [Hc Ha].
  destruct (assign_ok _ _ _ _ Hc Ha Hb) as [Hok ->]. by rewrite app_assoc.
Qed.

Lemma recv_line (c : Ch) id c' :
  chan_ok c -> ch_recv c = Some (id, c') -> chan_ok c' /\ line c = id :: line c'.
Proof.
  intros [Hb _] Hr. destruct (ch_recv_some _ _ _ Hr) as (Hc & q & Hq & Ha).
  rewrite Hq in Hb. simpl in Hb.
  destruct (assign_ok _ _ _ _ Hc Ha) as [Hok Hl]; [lia|]. split; [done|].
  unfold line at 1. by rewrite Hq, Hl.
Qed.

Lemma forget_line id (c : Ch) :
  chan_ok c -> NoDup (line c) -> id ∈ ch_blocked c ->
  chan_ok (ch_forget id c) /\ line (ch_forget id c) = without id (line c).
Proof.
  intros [Hb Hbusy] Hnd Hin. destruct (ch_forget_law id c) as (Hc & Hq & Hw).
  assert (Hni : id ∉ ch_queue c).
  { intros Hq'. apply NoDup_app in Hnd as (_ & Hdis & _). by apply (Hdis id). }
  split; [split; rewrite Hc, Hq; [done|]|].
  - rewrite Hw. intros Hne. apply Hbusy. intros Hnil. by rewrite Hnil in Hne.
  - unfold line. by rewrite Hq, Hw, without_app, (without_notin id (ch_queue c)).
Qed.

(** A call waits for a place only behind a full queue. *)
Lemma queue_nonempty (c : Ch) : chan_ok c -> (0 < ch_capacity c)%nat -> line c <> [] -> ch_queue c <> [].
Proof.
  intros [_ Hbusy] Hcap Hl Hnil. unfold line in Hl. rewrite Hnil in *. simpl in *.
  specialize (Hbusy Hl). lia.
Qed.

Lemma new_line cap : chan_ok (ch_new cap : Ch) /\ line (ch_new cap : Ch) = [].
Proof.
  destruct (ch_new_law cap) as (Hc & Hq & Hw). unfold line. rewrite Hq, Hw.
  split; [|done]. split; rewrite ?Hq, ?Hw; [simpl; lia|done].
Qed.
End channel.

(** How a call of a client ends: with what the worker sent; without a reply, the
    client being gone; because the reply sender or the channel went away with the
    last worker; or because the client left before its request was queued. *)
Inductive CallEnd :=
| Replied_ (rep : Reply)
| Abandoned
| DroppedReply
| SendFailed
| Withdrawn.

Section queue.
Context `{KeySort nat} {Session Output : Type} `{Runtime Session Output} `{WorkerWorld Session}.
Context `{BoundedChannel Ch}.

(** [q_order] lists the calls in the order they were made, [q_taken] those that
    left the queue. *)
Record PoolQueue := {
  q_chan : Ch;
  q_order : list nat;
  q_req : gmap nat EmbedRequest;
  q_sys : Sys Session;
  q_taken : list nat;
  q_end : gmap nat CallEnd;
  q_left : gset nat;
}.

Definition end_all (e : CallEnd) (ids : list nat) (m : gmap nat CallEnd) : gmap nat CallEnd :=
  foldr (fun id m => <[id := e]> m) m ids.

(** What happens at the queue: a client submits or leaves, a worker takes the oldest
    request or times out, the channel goes away with the last worker. *)
Inductive QueueAct :=
| Submit (id : nat) (req : EmbedRequest)
| Leave (id : nat)
| Take (id : nat)
| Idle
| Close.

Inductive queue_event (config : WorkerConfig) (n : Z) (q : PoolQueue) : QueueAct -> PoolQueue -> Prop :=
| QSubmit id req :
    q_req q !! id = None -> ~ all_gone (q_sys q) ->
    queue_event config n q (Submit id req)
      {| q_chan := ch_send id (q_chan q); q_order := q_order q ++ [id];
         q_req := <[id := req]> (q_req q); q_sys := q_sys q; q_taken := q_taken q;
         q_end := q_end q; q_left := q_left q |}
| QSubmitClosed id req :
    q_req q !! id = None -> all_gone (q_sys q) ->
    queue_event config n q (Submit id req)
      {| q_chan := q_chan q; q_order := q_order q ++ [id];
         q_req := <[id := req]> (q_req q); q_sys := q_sys q; q_taken := q_taken q;
         q_end := <[id := SendFailed]> (q_end q); q_left := q_left q |}
| QLeave id :
    id ∈ ch_queue (q_chan q) ->
    queue_event config n q (Leave id)
      {| q_chan := q_chan q; q_order := q_order q; q_req := q_req q; q_sys := q_sys q;
         q_taken := q_taken q; q_end := q_end q; q_left := {[ id ]} ∪ q_left q |}
| QWithdraw id :
    id ∈ ch_blocked (q_chan q) ->
    queue_event config n q (Leave id)
      {| q_chan := ch_forget id (q_chan q); q_order := q_order q; q_req := q_req q;
         q_sys := q_sys q; q_taken := q_taken q; q_end := <[id := Withdrawn]> (q_end q);
         q_left := {[ id ]} ∪ q_left q |}
| QTake i rx load rep id c req y :
    ch_recv (q_chan q) = Some (id, c) -> q_req q !! id = Some req ->
    sys_event config n i rx (EvRequest req (bool_decide (id ∈ q_left q)) load) rep (q_sys q) y ->
    queue_event config n q (Take id)
      {| q_chan := c; q_order := q_order q; q_req := q_req q; q_sys := y;
         q_taken := q_taken q ++ [id];
         q_end := <[id := match rep with Some r => Replied_ r | None => Abandoned end]> (q_end q);
         q_left := q_left q |}
| QIdle i rx rep y :
    sys_event config n i rx EvTimeout rep (q_sys q) y ->
    queue_event config n q Idle
      {| q_chan := q_chan q; q_order := q_order q; q_req := q_req q; q_sys := y;
         q_taken := q_taken q; q_end := q_end q; q_left := q_left q |}
| QClose :
    all_gone (q_sys q) ->
    queue_event config n q Close
      {| q_chan := ch_new (ch_capacity (q_chan q)); q_order := q_order q; q_req := q_req q;
         q_sys := q_sys q; q_taken := q_taken q ++ ch_queue (q_chan q);
         q_end := end_all DroppedReply (ch_queue (q_chan q))
                    (end_all SendFailed (ch_blocked (q_chan q)) (q_end q));
         q_left := q_left q |}.

Definition queue_step (config : WorkerConfig) (n : Z) (q q' : PoolQueue) : Prop :=
  exists act, queue_event config n q act q'.

(** The queue of a pool whose init task is done, nothing submitted yet. *)
Definition queue_start (n : Z) (x : Sys Session) : PoolQueue :=
  {| q_chan := ch_new (Z.to_nat (queue_capacity n)); q_order := []; q_req := ∅; q_sys := x;
     q_taken := []; q_end := ∅; q_left := ∅ |}.

(** Some worker of the pool put [rep] on the reply channel of [req]. *)
Definition worker_reply (config : WorkerConfig) (n : Z) (req : EmbedRequest) (rep : Reply) : Prop :=
  exists i rx closed load w sh,
    s_reply (worker_step i (make_worker_config config n i) rx (EvRequest req closed load) w sh) = Some rep.

(** Why a call may have ended so. *)
Definition end_ok (config : WorkerConfig) (n : Z) (q : PoolQueue) (id : nat) (req : EmbedRequest) (e : CallEnd) : Prop :=
  match e with
  | Replied_ rep => answers req rep /\ worker_reply config n req rep
  | Abandoned => id ∈ q_left q /\ is_Some (embed_texts req)
  | Withdrawn => id ∈ q_left q
  | DroppedReply | SendFailed => all_gone (q_sys q)
  end.

Record queue_inv (config : WorkerConfig) (n : Z) (q : PoolQueue) : Prop := {
  qi_chan : chan_ok (q_chan q);
  qi_order : NoDup (q_order q);
  qi_known id : id ∈ q_order q <-> is_Some (q_req q !! id);
  qi_fifo : q_taken q ++ line (q_chan q) `sublist_of` q_order q;
  qi_open id : id ∈ line (q_chan q) <-> is_Some (q_req q !! id) /\ q_end q !! id = None;
  qi_end id e : q_end q !! id = Some e -> exists req, q_req q !! id = Some req /\ end_ok config n q id req e;
}.

(** ** Lemmas *)

Lemma end_all_lookup e ids m id :
  end_all e ids m !! id = if decide (id ∈ ids) then Some e else m !! id.
Proof.
  induction ids as [|i ids IH]; [by rewrite decide_False by (by intros Hx%elem_of_nil)|]. cbn [end_all foldr].
  destruct (decide (i = id)) as [->|Hne].
  - rewrite lookup_insert_eq, decide_True; [done|by left].
  - rewrite lookup_insert_ne by done. change (foldr _ m ids) with (end_all e ids m). rewrite IH.
    destruct (decide (id ∈ ids)) as [Hin|Hni]; [rewrite decide_True|rewrite decide_False]; try done;
      [by right|by intros [->|]%elem_of_cons].
Qed.

(** The pool never comes back from having no worker. *)
Lemma sys_event_gone config n i rx ev rep (x y : Sys Session) :
  sys_event config n i rx ev rep x y -> all_gone x -> False.
Proof.
  intros Hs Hg. unfold all_gone in Hg.
  destruct Hs as [w slots sh w' sh' Hi _ _|w slots sh w' sh' r Hi _ _]; simpl in Hg;
    destruct (proj1 (Forall_lookup _ _) Hg _ _ Hi) as [f [=]].
Qed.

(** The reply of an event, by the request. *)
Lemma sys_event_reply config n i rx req closed load rep (x y : Sys Session) :
  sys_event config n i rx (EvRequest req closed load) rep x y ->
  match rep with
  | Some r => answers req r /\ worker_reply config n req r
  | None => closed = true /\ is_Some (embed_texts req)
  end.
Proof.
  intros Hs.
  destruct Hs as [w slots sh w' sh' Hi Hen Hs|w slots sh w' sh' r Hi Hen Hs];
    pose proof (ok_reply _ _ _ _ _ (worker_step_ok i (make_worker_config config n i) rx
      (EvRequest req closed load) w sh Hen)) as Hr; rewrite Hs in Hr; cbn [s_status s_reply] in Hr;
    (destruct Hr as [(rep' & -> & Ha)|(-> & Hc & He)]; [discriminate| |];
     [split; [done|]; exists i, rx, closed, load, w, sh; by rewrite Hs
     |split; [done|]; destruct req; simpl in *; done || eauto]).
Qed.

Lemma end_ok_mono config n q q' id req e :
  q_left q ⊆ q_left q' -> (all_gone (q_sys q) -> all_gone (q_sys q')) ->
  end_ok config n q id req e -> end_ok config n q' id req e.
Proof. intros Hl Hg. destruct e; simpl; try done; [intros [? ?]; split; auto|auto..]. Qed.

Lemma queue_start_inv config n x : queue_inv config n (queue_start n x).
Proof.
  destruct (new_line (Z.to_nat (queue_capacity n))) as [Hok Hl].
  split; simpl; rewrite ?Hl; try done.
  - by apply NoDup_nil_2.
  - intros id. rewrite lookup_empty. split; [by intros Hx%elem_of_nil|by intros [? ?]].
  - intros id. rewrite !lookup_empty. split; [by intros Hx%elem_of_nil|by intros [[? ?] _]].
Qed.

(** A step that takes [id] out of the line and ends its call. *)
Lemma inv_ended config n (q : PoolQueue) c taken y id e left' :
  queue_inv config n q -> id ∈ line (q_chan q) ->
  chan_ok c -> line c = without id (line (q_chan q)) ->
  taken ++ line c `sublist_of` q_order q ->
  q_left q ⊆ left' -> (all_gone (q_sys q) -> all_gone y) ->
  (forall req, q_req q !! id = Some req ->
     end_ok config n {| q_chan := c; q_order := q_order q; q_req := q_req q; q_sys := y; q_taken := taken;
               q_end := <[id := e]> (q_end q); q_left := left' |} id req e) ->
  queue_inv config n {| q_chan := c; q_order := q_order q; q_req := q_req q; q_sys := y; q_taken := taken;
               q_end := <[id := e]> (q_end q); q_left := left' |}.
Proof.
  intros [Hch Hord Hkn Hf Hop Hen] Hin Hok Hl Hsub Hleft Hgone He. split; simpl; try done.
  - intros i. rewrite Hl, elem_without, Hop, lookup_insert_None. naive_solver.
  - intros i e' [[<- <-]|[Hne He']]%lookup_insert_Some.
    + apply Hop in Hin as [[req Hreq] _]. exists req. split; [done|]. by apply He.
    + destruct (Hen i e' He') as (req & Hreq & Hok'). exists req. split; [done|].
      by eapply (end_ok_mono _ _ q).
Qed.

Lemma inv_submit config n (q : PoolQueue) id req c e :
  queue_inv config n q -> q_req q !! id = None -> chan_ok c -> line c = line (q_chan q) ++ e ->
  e = [] \/ e = [id] ->
  (e = [] -> all_gone (q_sys q)) ->
  queue_inv config n {| q_chan := c; q_order := q_order q ++ [id]; q_req := <[id := req]> (q_req q);
               q_sys := q_sys q; q_taken := q_taken q;
               q_end := if decide (e = []) then <[id := SendFailed]> (q_end q) else q_end q;
               q_left := q_left q |}.
Proof.
  intros [Hch Hord Hkn Hf Hop Hen] Hnew Hok Hl He Hgone.
  assert (Hnk : id ∉ q_order q) by (rewrite Hkn, Hnew; by intros [? ?]).
  assert (Hne : q_end q !! id = None).
  { destruct (q_end q !! id) as [e'|] eqn:He'; [|done]. destruct (Hen _ _ He') as (r & Hr & _). congruence. }
  assert (Hni : id ∉ line (q_chan q)) by (rewrite Hop, Hnew; by intros [[? ?] _]).
  split; simpl; [done| | | | |].
  - apply NoDup_app. split_and!; [done| |by apply NoDup_singleton].
    by intros i Hi ->%list_elem_of_singleton.
  - intros i. rewrite elem_of_app, list_elem_of_singleton, Hkn, lookup_insert_is_Some'. naive_solver.
  - rewrite Hl, app_assoc. apply sublist_app; [done|]. destruct He as [->| ->]; [by apply sublist_nil_l|done].
  - intros i. rewrite Hl, elem_of_app, Hop, lookup_insert_is_Some'.
    destruct He as [->| ->]; [rewrite decide_True by done|rewrite decide_False by done].
    + rewrite elem_of_nil, lookup_insert_None. destruct (decide (i = id)) as [->|]; naive_solver.
    + rewrite list_elem_of_singleton. destruct (decide (i = id)) as [->|]; naive_solver.
  - intros i e'. assert (Hold : q_end q !! i = Some e' ->
      exists r, <[id := req]> (q_req q) !! i = Some r /\ end_ok config n q i r e').
    { intros He'. destruct (Hen _ _ He') as (r & Hr & Hok'). exists r. split; [|done].
      rewrite lookup_insert_ne; [done|]. intros ->. congruence. }
    case_decide; [|exact Hold]. intros [[<- <-]|[_ He']]%lookup_insert_Some; [|by apply Hold].
    exists req. split; [by apply lookup_insert_eq|]. by apply Hgone.
Qed.

Lemma sublist_without id l k : l `sublist_of` k -> without id l `sublist_of` k.
Proof. intros Hl. etrans; [apply sublist_filter|done]. Qed.

Lemma inv_nodup config n (q : PoolQueue) : queue_inv config n q -> NoDup (q_taken q ++ line (q_chan q)).
Proof. intros Hq. eapply sublist_NoDup; [apply (qi_order _ _ _ Hq)|apply (qi_fifo _ _ _ Hq)]. Qed.

Lemma inv_line_nodup config n (q : PoolQueue) : queue_inv config n q -> NoDup (line (q_chan q)).
Proof. intros Hq%inv_nodup. by apply NoDup_app in Hq as (_ & _ & ?). Qed.

(** Neither the line nor the calls change. *)
Lemma inv_same config n (q : PoolQueue) y left' :
  queue_inv config n q -> q_left q ⊆ left' -> (all_gone (q_sys q) -> all_gone y) ->
  queue_inv config n {| q_chan := q_chan q; q_order := q_order q; q_req := q_req q; q_sys := y;
               q_taken := q_taken q; q_end := q_end q; q_left := left' |}.
Proof.
  intros [Hch Hord Hkn Hf Hop Hen] Hl Hg. split; simpl; try done.
  intros i e He. destruct (Hen i e He) as (req & Hreq & Hok). exists req. split; [done|].
  by eapply (end_ok_mono _ _ q).
Qed.

Lemma inv_close config n (q : PoolQueue) :
  queue_inv config n q -> all_gone (q_sys q) ->
  queue_inv config n {| q_chan := ch_new (ch_capacity (q_chan q)); q_order := q_order q; q_req := q_req q;
               q_sys := q_sys q; q_taken := q_taken q ++ ch_queue (q_chan q);
               q_end := end_all DroppedReply (ch_queue (q_chan q))
                          (end_all SendFailed (ch_blocked (q_chan q)) (q_end q));
               q_left := q_left q |}.
Proof.
  intros [Hch Hord Hkn Hf Hop Hen] Hg.
  destruct (new_line (ch_capacity (q_chan q))) as [Hok Hl]. split; simpl; try done.
  - rewrite Hl, app_nil_r. etrans; [|exact Hf]. unfold line. rewrite app_assoc.
    apply sublist_inserts_r. done.
  - intros i. rewrite Hl, !end_all_lookup. split; [by intros Hx%elem_of_nil|]. intros [Hreq He].
    repeat case_decide; try done. exfalso.
    assert (Hin : i ∈ line (q_chan q)) by (by apply Hop). unfold line in Hin.
    by apply elem_of_app in Hin as [?|?].
  - intros i e. rewrite !end_all_lookup. pose proof (Hop i) as Hi. unfold line in Hi.
    rewrite elem_of_app in Hi.
    repeat case_decide; [intros [= <-]..|by apply Hen].
    + destruct (proj1 Hi) as [[req Hreq] _]; [by left|]. by exists req.
    + destruct (proj1 Hi) as [[req Hreq] _]; [by right|]. by exists req.
Qed.

Lemma queue_step_inv config n (q q' : PoolQueue) :
  queue_step config n q q' -> queue_inv config n q -> queue_inv config n q'.
Proof.
  intros Hs Hq. pose proof (qi_chan _ _ _ Hq) as Hch.
  destruct Hs as [act Hs].
  destruct Hs as [id req Hnew Hng|id req Hnew Hg|id Hin|id Hin|i rx load rep id c req y Hr Hreq Hev
    |i rx rep y Hev|Hg].
  - destruct (send_line id _ Hch) as [Hok Hl]. by apply (inv_submit _ _ q id req _ [id]); auto.
  - apply (inv_submit _ _ q id req (q_chan q) []); auto. by rewrite app_nil_r.
  - apply inv_same; [done|set_solver|done].
  - destruct (forget_line id _ Hch (inv_line_nodup _ _ _ Hq) Hin) as [Hok Hl].
    apply (inv_ended _ _ q); try done; [apply elem_of_app; by right| |set_solver|].
    + rewrite Hl. etrans; [|apply (qi_fifo _ _ _ Hq)]. apply sublist_app; [done|]. by apply sublist_without.
    + intros r _. simpl. set_solver.
  - destruct (recv_line _ _ _ Hch Hr) as [Hok Hl].
    assert (Hw : line c = without id (line (q_chan q))).
    { pose proof (inv_line_nodup _ _ _ Hq) as Hnd. rewrite Hl in Hnd |- *. apply NoDup_cons in Hnd as [Hni _].
      unfold without. rewrite filter_cons_False by (intros Hx; by apply Hx).
      by apply (eq_sym (without_notin id (line c) Hni)). }
    apply (inv_ended _ _ q); try done.
    + rewrite Hl. by left.
    + rewrite <- app_assoc. cbn [app]. rewrite <- Hl. apply (qi_fifo _ _ _ Hq).
    + intros Hg. exfalso. by eapply sys_event_gone.
    + intros r Hr'. assert (r = req) as -> by congruence.
      pose proof (sys_event_reply _ _ _ _ _ _ _ _ _ _ Hev) as Hrep.
      destruct rep as [rep|]; [done|]. destruct Hrep as [Hc He]. by apply bool_decide_eq_true in Hc.
  - apply inv_same; [done..|]. intros Hg. exfalso. by eapply sys_event_gone.
  - by apply inv_close.
Qed.

Lemma queue_reachable_inv config n x (q : PoolQueue) :
  rtc (queue_step config n) (queue_start n x) q -> queue_inv config n q.
Proof.
  intros Hr. pose proof (queue_start_inv config n x) as Hi. revert Hi.
  induction Hr as [|a b c Hs _ IH]; [done|]. intros Hi. by eapply IH, queue_step_inv.
Qed.

(** ** Progress: lemmas *)

(** At most [k] calls are ahead of [id]. *)
Definition ahead (id k : nat) (q : PoolQueue) : Prop :=
  exists pre post, line (q_chan q) = pre ++ id :: post /\ (length pre <= k)%nat.

Lemma ahead_elem id q : id ∈ line (q_chan q) <-> exists k, ahead id k q.
Proof.
  split.
  - intros (pre & post & Hw)%list_elem_of_split. exists (length pre), pre, post. done.
  - intros (k & pre & post & -> & _). set_solver.
Qed.

(** How a call ended never changes. *)
Lemma step_end config n (q q' : PoolQueue) id e :
  queue_step config n q q' -> queue_inv config n q -> q_end q !! id = Some e -> q_end q' !! id = Some e.
Proof.
  intros [act Hs] Hq He.
  assert (Hni : id ∉ line (q_chan q)) by (rewrite (qi_open _ _ _ Hq), He; by intros [_ [=]]).
  destruct (qi_end _ _ _ Hq id e He) as (r & Hr & _).
  assert (Hins : forall i e', i ∈ line (q_chan q) \/ q_req q !! i = None ->
    <[i := e']> (q_end q) !! id = Some e).
  { intros i e' Hi. rewrite lookup_insert_ne; [done|]. intros ->. destruct Hi; [done|congruence]. }
  destruct Hs as [i req Hnew Hng|i req Hnew Hg|i Hin|i Hin|i rx load rep j c req y Hrc Hreq Hev
    |i rx rep y Hev|Hg]; cbn [q_end]; try done.
  - apply Hins. by right.
  - apply Hins. left. apply elem_of_app. by right.
  - apply Hins. left. destruct (recv_line _ _ _ (qi_chan _ _ _ Hq) Hrc) as [_ ->]. by left.
  - unfold line in Hni. rewrite elem_of_app in Hni. rewrite !end_all_lookup, !decide_False by tauto. done.
Qed.

Lemma step_capacity config n (q q' : PoolQueue) :
  queue_step config n q q' -> ch_capacity (q_chan q') = ch_capacity (q_chan q).
Proof.
  intros [act []]; simpl; try done.
  - by destruct (ch_send_law id (q_chan q)) as [-> _].
  - by destruct (ch_forget_law id (q_chan q)) as [-> _].
  - match goal with Hr : ch_recv _ = Some _ |- _ => by destruct (ch_recv_some _ _ _ Hr) as [-> _] end.
  - by destruct (ch_new_law (ch_capacity (q_chan q))) as [-> _].
Qed.

Lemma queue_reachable_capacity config n x (q : PoolQueue) :
  rtc (queue_step config n) (queue_start n x) q -> ch_capacity (q_chan q) = Z.to_nat (queue_capacity n).
Proof.
  intros Hr. transitivity (ch_capacity (q_chan (queue_start n x))).
  - induction Hr as [|a b c Hs _ IH]; [done|]. by rewrite IH, (step_capacity _ _ _ _ Hs).
  - simpl. by destruct (ch_new_law (Z.to_nat (queue_capacity n))) as [-> _].
Qed.

(** One in line ends or does not fall behind, and each call taken brings it nearer. *)
Lemma step_ahead config n (q q' : PoolQueue) id k :
  queue_step config n q q' -> queue_inv config n q -> ahead id k q ->
  is_Some (q_end q' !! id) \/
  exists k', ahead id k' q' /\ (k' + length (q_taken q') <= k + length (q_taken q))%nat.
Proof.
  intros [act Hs] Hq Ha. pose proof (qi_chan _ _ _ Hq) as Hch. pose proof Ha as (pre & post & Hl & Hk).
  assert (Hkeep : forall c l, line c = line (q_chan q) ++ l -> forall order req y left' ends,
    ahead id k {| q_chan := c; q_order := order; q_req := req; q_sys := y; q_taken := q_taken q;
                  q_end := ends; q_left := left' |}).
  { intros c l Hc *. exists pre, (post ++ l). simpl. by rewrite Hc, Hl, <- app_assoc. }
  assert (Hsame : line (q_chan q) = line (q_chan q) ++ []) by (by rewrite app_nil_r).
  destruct Hs as [i req Hnew Hng|i req Hnew Hg|i Hin|i Hin|i rx load rep j c req y Hr Hreq Hev
    |i rx rep y Hev|Hg]; cbn [q_taken q_end].
  - right. exists k. split; [|done]. destruct (send_line i _ Hch) as [_ Hc]. by eapply Hkeep.
  - right. exists k. split; [by eapply Hkeep|done].
  - right. exists k. split; [by eapply Hkeep|done].
  - destruct (decide (i = id)) as [->|Hne]; [left; rewrite lookup_insert_eq; eauto|right].
    destruct (forget_line i _ Hch (inv_line_nodup _ _ _ Hq) Hin) as [_ Hc].
    exists k. split; [|done]. exists (without i pre), (without i post). simpl.
    rewrite Hc, Hl, without_split by done. split; [done|].
    unfold without. etrans; [apply length_filter_le|done].
  - destruct (recv_line _ _ _ Hch Hr) as [_ Hc]. rewrite Hl in Hc.
    destruct pre as [|p pre]; cbn [app] in Hc; injection Hc as -> Hc.
    + left. rewrite lookup_insert_eq. eauto.
    + right. exists (k - 1)%nat. cbn [length] in Hk. split.
      * exists pre, post. simpl. split; [done|lia].
      * rewrite length_app. simpl. lia.
  - right. exists k. split; [by eapply Hkeep|done].
  - left. rewrite !end_all_lookup.
    assert (Hin : id ∈ line (q_chan q)) by (rewrite Hl; set_solver). unfold line in Hin.
    apply elem_of_app in Hin as [?|?]; repeat case_decide; eauto; done.
Qed.

(** An infinite run of the queue; it may idle. *)
Record queue_run (config : WorkerConfig) (n : Z) (x : Sys Session) (tr : nat -> PoolQueue) : Prop := {
  qr_init : tr 0%nat = queue_start n x;
  qr_step t : tr (S t) = tr t \/ queue_step config n (tr t) (tr (S t));
}.

(** A run from any good state. *)
Record queue_running (config : WorkerConfig) (n : Z) (tr : nat -> PoolQueue) : Prop := {
  qn_inv : queue_inv config n (tr 0%nat);
  qn_capacity : ch_capacity (q_chan (tr 0%nat)) = Z.to_nat (queue_capacity n);
  qn_step t : tr (S t) = tr t \/ queue_step config n (tr t) (tr (S t));
}.

Lemma queue_run_running config n x tr : queue_run config n x tr -> queue_running config n tr.
Proof.
  intros [Hi Hs]. split; [rewrite Hi; apply queue_start_inv| |done]. rewrite Hi. simpl.
  by destruct (ch_new_law (Z.to_nat (queue_capacity n))) as [-> _].
Qed.

(** Whenever a call is queued, the next one is eventually taken: a worker gets done
    with its request, or the last one leaves. *)
Definition workers_fair (tr : nat -> PoolQueue) : Prop :=
  forall t, ch_queue (q_chan (tr t)) <> [] ->
    exists t', (t <= t')%nat /\ (length (q_taken (tr t)) < length (q_taken (tr t')))%nat.

Section run.
Context (config : WorkerConfig) (n : Z) (tr : nat -> PoolQueue).
Hypothesis Hrun : queue_running config n tr.

Lemma qrun_inv t : queue_inv config n (tr t).
Proof.
  induction t as [|t IH]; [apply (qn_inv _ _ _ Hrun)|].
  destruct (qn_step _ _ _ Hrun t) as [->|Hs]; [done|]. by eapply queue_step_inv.
Qed.

Lemma qrun_ended t d id e : q_end (tr t) !! id = Some e -> q_end (tr (t + d)%nat) !! id = Some e.
Proof.
  intros He. induction d as [|d IH]; [by rewrite Nat.add_0_r|]. rewrite Nat.add_succ_r.
  destruct (qn_step _ _ _ Hrun (t + d)%nat) as [->|Hs]; [done|]. by eapply step_end; [|apply qrun_inv|].
Qed.

Lemma qrun_ahead t d id k :
  ahead id k (tr t) ->
  is_Some (q_end (tr (t + d)%nat) !! id) \/
  exists k', ahead id k' (tr (t + d)%nat) /\
    (k' + length (q_taken (tr (t + d)%nat)) <= k + length (q_taken (tr t)))%nat.
Proof.
  intros Ha. induction d as [|d [IH|(k' & Ha' & Hle)]]; [right; rewrite Nat.add_0_r; eauto|left|];
    rewrite Nat.add_succ_r; destruct (qn_step _ _ _ Hrun (t + d)%nat) as [Heq|Hs].
  - by rewrite Heq.
  - destruct IH as [e He]. exists e. by eapply step_end; [|apply qrun_inv|].
  - right. rewrite Heq. eauto.
  - destruct (step_ahead _ _ _ _ _ _ Hs (qrun_inv _) Ha') as [?|(k2 & Ha2 & Hle2)]; [by left|right].
    exists k2. split; [done|]. lia.
Qed.

Lemma qrun_capacity t : ch_capacity (q_chan (tr t)) = Z.to_nat (queue_capacity n).
Proof.
  induction t as [|t IH]; [apply (qn_capacity _ _ _ Hrun)|].
  destruct (qn_step _ _ _ Hrun t) as [->|Hs]; [done|]. by rewrite (step_capacity _ _ _ _ Hs).
Qed.

Lemma qrun_ends (Hfair : workers_fair tr) (Hcap : (0 < Z.to_nat (queue_capacity n))%nat) k : forall t id,
  ahead id k (tr t) -> exists t', (t <= t')%nat /\ is_Some (q_end (tr t') !! id).
Proof.
  induction (lt_wf k) as [k _ IH]. intros t id Ha.
  assert (Hne : ch_queue (q_chan (tr t)) <> []).
  { apply queue_nonempty; [apply (qi_chan _ _ _ (qrun_inv t))|by rewrite qrun_capacity|].
    destruct Ha as (pre & post & -> & _). by destruct pre. }
  destruct (Hfair t Hne) as (t' & Ht & Hlt). replace t' with (t + (t' - t))%nat in Hlt by lia.
  destruct (qrun_ahead t (t' - t) id k Ha) as [He|(k' & Ha' & Hle)].
  - exists (t + (t' - t))%nat. split; [lia|done].
  - destruct (IH k' ltac:(lia) _ id Ha') as (s & Hs & He). exists s. split; [lia|done].
Qed.
End run.
End queue.
Arguments PoolQueue : clear implicits.

(** ** A step that empties the queue is always possible *)

Section progress.
Context `{KeySort nat} {Session Output : Type} `{RuntimeLaws Session Output} `{WorkerWorld Session}.
Context `{BoundedChannel Ch}.
Context (config : WorkerConfig) (n : Z) {Hexport : ModelExport Session Output (model_variant config)}.

(** A running worker can serve any request. *)
Lemma active_event i rx req closed load (x : Sys Session) w :
  sys_slots x !! i = Some (Active w) ->
  exists rep y, sys_event config n i rx (EvRequest req closed load) rep x y.
Proof.
  destruct x as [slots sh]. intros Hi. simpl in Hi. set (wc := make_worker_config config n i).
  pose proof (worker_not_aborted i wc rx (EvRequest req closed load) w sh) as Hna.
  destruct (worker_step i wc rx (EvRequest req closed load) w sh) as [w' sh' rep [|r|]] eqn:Hs;
    [| |by destruct Hna]; do 2 eexists; [by eapply SysRun|by eapply SysExit].
Qed.

(** Whenever a call is queued, a worker can take the oldest one, or the queue can
    go away with the last worker. *)
Lemma queue_progress (q : PoolQueue Session Ch) :
  queue_inv config n q -> ch_queue (q_chan q) <> [] ->
  exists act q', queue_event config n q act q' /\
    (act = Close \/ exists id, act = Take id) /\ (length (q_taken q) < length (q_taken q'))%nat.
Proof.
  intros Hq Hne. destruct (gone_or_active (sys_slots (q_sys q))) as [Hg|(i & w & Hi)].
  - exists Close. eexists. split; [by apply QClose|]. split; [by left|]. simpl. rewrite length_app.
    destruct (ch_queue (q_chan q)); [done|]. simpl. lia.
  - destruct (ch_recv (q_chan q)) as [[id c]|] eqn:Hr; [|by apply ch_recv_none in Hr].
    destruct (recv_line _ _ _ (qi_chan _ _ _ Hq) Hr) as [_ Hl].
    assert (Hin : id ∈ line (q_chan q)) by (rewrite Hl; by left).
    apply (qi_open _ _ _ Hq) in Hin as [[req Hreq] _].
    destruct (active_event i [] req (bool_decide (id ∈ q_left q)) (Err (anyhow_msg "unused"))
      (q_sys q) w Hi) as (rep & y & Hev).
    exists (Take id). eexists. split; [by eapply QTake|]. split; [eauto|].
    simpl. rewrite length_app. simpl. lia.
Qed.
End progress.

(** ** The channel as an implementation *)

Record Chan := { c_capacity : nat; c_queue : list nat; c_blocked : list nat }.

Definition chan_assign (cap : nat) (hs ws : list nat) : Chan :=
  let '(hs', ws') := assign cap hs ws in {| c_capacity := cap; c_queue := hs'; c_blocked := ws' |}.

Definition chan_recv (c : Chan) : option (nat * Chan) :=
  match c_queue c with
  | [] => None
  | id :: q => Some (id, chan_assign (c_capacity c) q (c_blocked c))
  end.

Lemma chan_recv_none c : chan_recv c = None -> c_queue c = [].
Proof. by destruct c as [cap [|id q] ws]. Qed.

Lemma chan_recv_some c id c' : chan_recv c = Some (id, c') -> c_capacity c' = c_capacity c /\
  exists q, c_queue c = id :: q /\ (c_queue c', c_blocked c') = assign (c_capacity c) q (c_blocked c).
Proof.
  destruct c as [cap [|i q] ws]; [done|]. intros [= -> <-]. split; [done|]. by exists q.
Qed.

#[export] Instance fifo_channel : BoundedChannel Chan.
Proof.
  refine {|
    ch_new cap := {| c_capacity := cap; c_queue := []; c_blocked := [] |};
    ch_capacity := c_capacity;
    ch_queue := c_queue;
    ch_blocked := c_blocked;
    ch_send id c := chan_assign (c_capacity c) (c_queue c) (c_blocked c ++ [id]);
    ch_recv := chan_recv;
    ch_forget id c := {| c_capacity := c_capacity c; c_queue := c_queue c;
                         c_blocked := without id (c_blocked c) |};
    ch_recv_none := chan_recv_none;
    ch_recv_some := chan_recv_some;
  |}; done.
Defined.

(** ** Properties *)


Definition example_sys : Sys nat :=
  {| sys_slots := [Active (fresh_worker 0%nat None)]; sys_shared := example_shared |}.

Definition example_queue : PoolQueue nat Chan :=
  {| q_chan := ch_send 7 (q_chan (queue_start 1 example_sys)); q_order := [7%nat];
     q_req := {[ 7%nat := ReqDense ["hi"] ]}; q_sys := example_sys; q_taken := []; q_end := ∅;
     q_left := ∅ |}.

Lemma example_submitted : rtc (queue_step (example_config Cpu) 1) (queue_start 1 example_sys) example_queue.
Proof.
  apply rtc_once. exists (Submit 7 (ReqDense ["hi"])).
  apply (QSubmit _ _ (queue_start 1 example_sys)); [done|].
  intros Hg. by apply Forall_cons in Hg as [[? [=]] _].
Qed.

