(* ===== verification/Traffic.v ===== *)
(** * Requests from the gate through the pool

    The permit gate of [AppState], the handlers and the request queue of the pool
    running together ([src/handler/dense.rs] and its siblings, [handler/health.rs],
    [src/embedder/pool.rs]): a handler acquires a permit, sends its request to the
    pool, waits for the reply and gives the permit back; the canary of the deep
    health check, the probe and the adaptive warmup use the pool without a permit.
    The theorems join those of [Permits], [PoolQueue] and [Service]: what a client
    receives in a good state of the two (stated for the whole server in [Lifecycle]),
    that they refine a table of
    requests answered in one step ([service_step]), and that no request is stuck. *)

From S2P Require Import Prelude Float RustStr BinPack JitGuard EmbedMath TrtCache Types Bootstrap HttpError Handler Pipeline TrtWarmup Retry WorkerGuard Worker Pool PoolInit Service Permits Server PoolQueue.
#[local] Open Scope nat_scope.

(** ** The two together *)

(** What the awaited call of a client of the pool returns, without the
    embeddings. *)
Definition reply_stats (rep : Reply) : option (result anyhow EmbedStats) :=
  match rep with
  | RepDense r => Some ('(_, st) ← r; Ok st)
  | RepSparse r => Some ('(_, st) ← r; Ok st)
  | RepBoth r => Some ('(_, st) ← r; Ok st)
  | RepProbe _ | RepAdaptiveWarmup _ => None
  end.

Definition call_answer (e : CallEnd) : result anyhow EmbedStats :=
  match e with
  | Replied_ rep => pool_call true (reply_stats rep)
  | Abandoned | DroppedReply | Withdrawn => pool_call true None
  | SendFailed => pool_call false None
  end.

Record Traffic (Sem Session Ch : Type) := { tf_gate : Server Sem; tf_pool : PoolQueue Session Ch }.
Arguments tf_gate {_ _ _}. Arguments tf_pool {_ _ _}.

Inductive TrafficAct :=
| Arrives (id : nat)
| Raises
| Submits (id : nat)
| Answers (id : nat)
| Leaves (id : nat)
| Bypass (id : nat)
| Works (act : QueueAct).

(** The acts of the workers. *)
Definition is_work (act : QueueAct) : Prop :=
  match act with Take _ | Idle | Close => True | _ => False end.

(** The acts that bring a request nearer to its answer. *)
Definition productive (act : TrafficAct) : Prop :=
  match act with
  | Submits _ | Answers _ | Works (Take _) | Works Close => True
  | _ => False
  end.

Section traffic.
Context `{FairSemaphore Sem} `{KeySort nat} {Session Output : Type} `{Runtime Session Output}
  `{WorkerWorld Session} `{BoundedChannel Ch}.
#[local] Abbreviation Traffic := (Traffic Sem Session Ch).

Inductive traffic_event (config : WorkerConfig) (n : Z) (x : Traffic) : TrafficAct -> Traffic -> Prop :=
| TArrive id state texts :
    sv_phase (tf_gate x) !! id = None -> q_req (tf_pool x) !! id = None ->
    live_worker_count state = live_workers (sys_shared (q_sys (tf_pool x))) ->
    traffic_event config n x (Arrives id)
      {| tf_gate := exec (Arrive id state texts) (tf_gate x); tf_pool := tf_pool x |}
| TRaise k :
    traffic_event config n x Raises
      {| tf_gate := exec (RaisePermits k) (tf_gate x); tf_pool := tf_pool x |}
| TSubmit id texts req pool :
    id ∈ holders (sv_sem (tf_gate x)) ->
    sv_phase (tf_gate x) !! id = Some (Accepted texts) -> embed_texts req = Some texts ->
    queue_event config n (tf_pool x) (Submit id req) pool ->
    traffic_event config n x (Submits id) {| tf_gate := tf_gate x; tf_pool := pool |}
| TAnswer id e :
    id ∈ holders (sv_sem (tf_gate x)) -> q_end (tf_pool x) !! id = Some e ->
    traffic_event config n x (Answers id)
      {| tf_gate := exec (Answer id (call_answer e)) (tf_gate x); tf_pool := tf_pool x |}
| TLeave id pool :
    enabled (Disconnect id) (tf_gate x) ->
    queue_event config n (tf_pool x) (Leave id) pool \/
      (id ∉ line (q_chan (tf_pool x))) /\ pool = tf_pool x ->
    traffic_event config n x (Leaves id)
      {| tf_gate := exec (Disconnect id) (tf_gate x); tf_pool := pool |}
| TBypass id act pool :
    sv_phase (tf_gate x) !! id = None -> act = Leave id \/ (exists req, act = Submit id req) ->
    queue_event config n (tf_pool x) act pool ->
    traffic_event config n x (Bypass id) {| tf_gate := tf_gate x; tf_pool := pool |}
| TWork act pool :
    is_work act -> queue_event config n (tf_pool x) act pool ->
    traffic_event config n x (Works act) {| tf_gate := tf_gate x; tf_pool := pool |}.

Definition traffic_step (config : WorkerConfig) (n : Z) (x y : Traffic) : Prop :=
  exists act, traffic_event config n x act y.

Definition traffic_start (permits : nat) (n : Z) (s : Sys Session) : Traffic :=
  {| tf_gate := srv_init permits; tf_pool := queue_start n s |}.

(** ** The service as its clients see it

    A table of requests and whether the service is down.  A request is refused with 503
    before the server is ready and once it is down, and with 400 when its texts are not
    a valid input; any other one is accepted.  An accepted request is
    answered in one step by a reply some worker gives to a request for its texts,
    failed when the service is down, or abandoned by its client. *)
Record ServiceState := { sv_table : gmap nat Phase; sv_down : bool }.

Definition set_phase (id : nat) (p : Phase) (m : ServiceState) : ServiceState :=
  {| sv_table := <[id := p]> (sv_table m); sv_down := sv_down m |}.

Inductive service_step (config : WorkerConfig) (n : Z) (m : ServiceState) : ServiceState -> Prop :=
| SvAccept id state texts :
    sv_table m !! id = None -> as_ready (app state) = true -> sv_down m = false ->
    valid_input texts (max_batch state) ->
    service_step config n m (set_phase id (Accepted texts) m)
| SvUnavailable id state :
    sv_table m !! id = None -> as_ready (app state) = false \/ sv_down m = true ->
    service_step config n m (set_phase id (Replied SERVICE_UNAVAILABLE) m)
| SvInvalid id state texts :
    sv_table m !! id = None -> as_ready (app state) = true -> sv_down m = false ->
    ~ valid_input texts (max_batch state) ->
    service_step config n m (set_phase id (Replied BAD_REQUEST) m)
| SvServe id texts req rep r :
    sv_table m !! id = Some (Accepted texts) -> embed_texts req = Some texts ->
    worker_reply config n req rep -> reply_stats rep = Some r ->
    service_step config n m (set_phase id (Replied (status_of (from_pool r))) m)
| SvFail id texts :
    sv_table m !! id = Some (Accepted texts) -> sv_down m = true ->
    service_step config n m (set_phase id (Replied INTERNAL_SERVER_ERROR) m)
| SvLeave id texts :
    sv_table m !! id = Some (Accepted texts) -> service_step config n m (set_phase id Disconnected m)
| SvStop :
    sv_down m = false -> service_step config n m {| sv_table := sv_table m; sv_down := true |}.

(** The service that the gate and the pool implement. *)
Definition gone (x : Sys Session) : bool :=
  forallb (fun s => match s with Gone _ => true | Active _ => false end) (sys_slots x).

Definition service (x : Traffic) : ServiceState :=
  {| sv_table := sv_phase (tf_gate x); sv_down := gone (q_sys (tf_pool x)) |}.

(** How far an accepted request that was sent to the pool has come. *)
Definition call_state (x : Traffic) (id : nat) (texts : list string) : Prop :=
  id ∈ holders (sv_sem (tf_gate x)) /\ sv_phase (tf_gate x) !! id = Some (Accepted texts) \/
  (exists e, q_end (tf_pool x) !! id = Some e /\
     sv_phase (tf_gate x) !! id = Some (Replied (status_of (from_pool (call_answer e))))) \/
  sv_phase (tf_gate x) !! id = Some Disconnected.

(** The status of a refusal before the gate. *)
Definition refused (code : Z) : Prop :=
  exists state texts e, accept state texts = Err e /\ code = status (into_response e).

Record traffic_inv (config : WorkerConfig) (n : Z) (x : Traffic) : Prop := {
  ti_gate : srv_inv (tf_gate x);
  ti_pool : queue_inv config n (tf_pool x);
  ti_call id req : q_req (tf_pool x) !! id = Some req ->
    sv_phase (tf_gate x) !! id = None \/
    exists texts, embed_texts req = Some texts /\ call_state x id texts;
  ti_refused id code : sv_phase (tf_gate x) !! id = Some (Replied code) ->
    is_Some (q_req (tf_pool x) !! id) \/ refused code;
  ti_left id : id ∈ q_left (tf_pool x) ->
    sv_phase (tf_gate x) !! id = Some Disconnected \/
    sv_phase (tf_gate x) !! id = None /\ is_Some (q_req (tf_pool x) !! id);
}.

(** ** Lemmas *)

(** Which request an action of the gate is about. *)
Definition actor (act : Act) : option nat :=
  match act with
  | Arrive id _ _ | Answer id _ | Disconnect id => Some id
  | RaisePermits _ => None
  end.

Lemma exec_phase act (x : Server Sem) id :
  actor act <> Some id -> sv_phase (exec act x) !! id = sv_phase x !! id.
Proof.
  destruct act as [i state texts|i r|i|k]; cbn [exec actor sv_phase]; intros Hne; [|by rewrite ?lookup_insert_ne by congruence..].
  destruct (accept state texts); simpl; by rewrite lookup_insert_ne by congruence.
Qed.

Lemma exec_holders act (x : Server Sem) id :
  actor act <> Some id -> id ∈ holders (sv_sem x) -> id ∈ holders (sv_sem (exec act x)).
Proof.
  assert (Hrel : forall j, j <> id -> id ∈ holders (sv_sem x) -> id ∈ holders (release j (sv_sem x))).
  { intros j Hne Hin. destruct (release_law j (sv_sem x)) as [_ Ha]. eapply assign_keeps; [exact Ha|].
    by apply elem_without. }
  destruct act as [i state texts|i r|i|k]; cbn [exec actor sv_sem]; intros Hne Hin.
  - destruct (accept state texts); simpl; [|done]. destruct (acquire_law i (sv_sem x)) as [_ Ha].
    by eapply assign_keeps.
  - apply Hrel; congruence.
  - case_decide; [apply Hrel; congruence|]. by destruct (cancel_law i (sv_sem x)) as (_ & -> & _).
  - destruct (add_permits_law k (sv_sem x)) as [_ Ha]. by eapply assign_keeps.
Qed.

Lemma event_req config n (q q' : PoolQueue Session Ch) act id req :
  queue_event config n q act q' -> q_req q !! id = Some req -> q_req q' !! id = Some req.
Proof. intros [] Hr; simpl; try done; rewrite lookup_insert_ne; congruence. Qed.

Lemma event_req_inv config n (q q' : PoolQueue Session Ch) act id req :
  queue_event config n q act q' -> q_req q' !! id = Some req ->
  q_req q !! id = Some req \/ act = Submit id req.
Proof.
  intros []; simpl; auto; intros [[-> ->]|[_ ?]]%lookup_insert_Some; auto.
Qed.

Lemma event_left config n (q q' : PoolQueue Session Ch) act id :
  queue_event config n q act q' -> queue_inv config n q -> id ∈ q_left q' ->
  id ∈ q_left q \/ act = Leave id /\ is_Some (q_req q' !! id).
Proof.
  intros Hs Hq. destruct Hs as [| |i Hi|i Hi| | |]; simpl; auto;
    (intros [->%elem_of_singleton|?]%elem_of_union; [right|by left]);
    (split; [done|]; apply (qi_open _ _ _ Hq), elem_of_app; auto).
Qed.

(** Nobody else's step changes how far a request has come. *)
Lemma call_state_pool config n (x : Traffic) act pool id texts :
  queue_inv config n (tf_pool x) -> queue_event config n (tf_pool x) act pool ->
  call_state x id texts -> call_state {| tf_gate := tf_gate x; tf_pool := pool |} id texts.
Proof.
  intros Hq Hs [?|[(e & He & Hp)|Hp]]; [by left| |by right; right]. right. left. exists e.
  split; [|done]. eapply step_end; [by exists act|done|done].
Qed.

Lemma call_state_gate (x : Traffic) act id texts :
  actor act <> Some id -> call_state x id texts ->
  call_state {| tf_gate := exec act (tf_gate x); tf_pool := tf_pool x |} id texts.
Proof.
  intros Hne [(Hh & Hp)|[(e & He & Hp)|Hp]]; unfold call_state; simpl; rewrite exec_phase by done.
  - left. split; [|done]. by apply exec_holders.
  - right. left. by exists e.
  - by right; right.
Qed.

(** A step of the gate by [id], whose call is then as the last hypothesis says. *)
Lemma inv_gate config n (x : Traffic) act :
  traffic_inv config n x -> enabled act (tf_gate x) ->
  (forall id, actor act = Some id ->
    (forall req, q_req (tf_pool x) !! id = Some req -> exists texts, embed_texts req = Some texts /\
      call_state {| tf_gate := exec act (tf_gate x); tf_pool := tf_pool x |} id texts) /\
    (forall code, sv_phase (exec act (tf_gate x)) !! id = Some (Replied code) ->
      is_Some (q_req (tf_pool x) !! id) \/ refused code) /\
    (id ∈ q_left (tf_pool x) -> sv_phase (exec act (tf_gate x)) !! id = Some Disconnected)) ->
  traffic_inv config n {| tf_gate := exec act (tf_gate x); tf_pool := tf_pool x |}.
Proof.
  intros [Hg Hq Hc Hrf Hl] Hen Hact. split; cbn [tf_gate tf_pool]; [by apply exec_inv|done| | |].
  - intros id req Hreq. destruct (decide (actor act = Some id)) as [Ha|Hne].
    + right. by apply (Hact id Ha).
    + destruct (Hc id req Hreq) as [Hp|(texts & Ht & Hs)]; [left; by rewrite exec_phase|right].
      exists texts. split; [done|]. by apply call_state_gate.
  - intros id code. destruct (decide (actor act = Some id)) as [Ha|Hne]; [by apply (Hact id Ha)|].
    rewrite exec_phase by done. apply Hrf.
  - intros id Hin. destruct (decide (actor act = Some id)) as [Ha|Hne]; [left; by apply (Hact id Ha)|].
    rewrite exec_phase by done. by apply Hl.
Qed.

(** A step of the pool. *)
Lemma inv_pool config n (x : Traffic) act pool :
  traffic_inv config n x -> queue_event config n (tf_pool x) act pool ->
  (forall id, act = Leave id ->
     sv_phase (tf_gate x) !! id = None \/ sv_phase (tf_gate x) !! id = Some Disconnected) ->
  (forall id req, act = Submit id req -> sv_phase (tf_gate x) !! id = None \/
     exists texts, embed_texts req = Some texts /\
       call_state {| tf_gate := tf_gate x; tf_pool := pool |} id texts) ->
  traffic_inv config n {| tf_gate := tf_gate x; tf_pool := pool |}.
Proof.
  intros [Hg Hq Hc Hrf Hl] Hs Hleave Hsub. split; cbn [tf_gate tf_pool]; [done| | | |].
  - eapply queue_step_inv; [by exists act|done].
  - intros id req Hreq. destruct (event_req_inv _ _ _ _ _ _ _ Hs Hreq) as [Hold| ->]; [|by apply Hsub].
    destruct (Hc id req Hold) as [Hp|(texts & Ht & Hst)]; [by left|right]. exists texts. split; [done|].
    by eapply call_state_pool.
  - intros id code Hp. destruct (Hrf id code Hp) as [[req Hreq]|]; [left|by right].
    exists req. by eapply event_req.
  - intros id Hin. destruct (event_left _ _ _ _ _ _ Hs Hq Hin) as [Hold|[-> Hr]].
    + destruct (Hl id Hold) as [?|[Hp [r Hr]]]; [by left|right]. split; [done|]. exists r. by eapply event_req.
    + destruct (Hleave id eq_refl); auto.
Qed.

Lemma holder_phase config n (x : Traffic) id :
  traffic_inv config n x -> id ∈ holders (sv_sem (tf_gate x)) ->
  exists texts, sv_phase (tf_gate x) !! id = Some (Accepted texts).
Proof. intros Hx Hh. apply (iv_accepted _ (ti_gate _ _ _ Hx)), elem_of_app. by left. Qed.

Lemma traffic_event_inv config n (x y : Traffic) act :
  traffic_event config n x act y -> traffic_inv config n x -> traffic_inv config n y.
Proof.
  intros Hs Hx. destruct Hs as [id state texts Hp Hr _|k|id texts req pool Hh Hp Ht Hs|id e Hh He
    |id pool Hen Hs|id act pool Hp Ha Hs|act pool Hw Hs].
  - apply inv_gate; [done|done|]. intros i [= <-]. split_and!.
    + congruence.
    + cbn [exec]. destruct (accept state texts) as [|e] eqn:Hacc; cbn [sv_phase]; rewrite lookup_insert_eq;
        [done|]. intros code [= <-]. right. by exists state, texts, e.
    + intros Hl. destruct (ti_left _ _ _ Hx id Hl) as [?|[_ [? ?]]]; congruence.
  - by apply inv_gate.
  - eapply inv_pool; [done|done|done|]. intros i r [= <- <-]. right. exists texts. split; [done|]. by left.
  - destruct (holder_phase _ _ _ _ Hx Hh) as [texts Hp].
    apply inv_gate; [done|done|]. intros i [= <-]. cbn [exec sv_phase]. rewrite lookup_insert_eq. split_and!.
    + intros req Hreq. destruct (ti_call _ _ _ Hx id req Hreq) as [?|(t & Ht & _)]; [congruence|].
      exists t. split; [done|]. right. left. exists e. split; [done|]. apply lookup_insert_eq.
    + intros code _. left. destruct (qi_end _ _ _ (ti_pool _ _ _ Hx) id e He) as (req & Hreq & _). eauto.
    + intros Hl. destruct (ti_left _ _ _ Hx id Hl) as [?|[? _]]; congruence.
  - assert (Hx1 : traffic_inv config n {| tf_gate := exec (Disconnect id) (tf_gate x); tf_pool := tf_pool x |}).
    { apply inv_gate; [done|done|]. intros i [= <-]. cbn [exec sv_phase]. rewrite lookup_insert_eq.
      split_and!; [|done|done]. intros req Hreq. destruct Hen as [t Hp].
      destruct (ti_call _ _ _ Hx id req Hreq) as [?|(t' & Ht & _)]; [congruence|]. exists t'. split; [done|].
      right. right. apply lookup_insert_eq. }
    destruct Hs as [Hs|[_ ->]]; [|done].
    eapply (inv_pool _ _ _ _ _ Hx1); [exact Hs| |done]. intros i [= <-]. right. apply lookup_insert_eq.
  - eapply inv_pool; [done|done| |]; [intros i ->|intros i r ->]; left;
      destruct Ha as [[= ->]|[r' [= -> ->]]]; done.
  - eapply inv_pool; [done|done| |]; by intros; subst act.
Qed.

Lemma traffic_start_inv config n permits s : traffic_inv config n (traffic_start permits n s).
Proof. split; simpl; [apply init_inv|apply queue_start_inv|by intros..]. Qed.

Lemma traffic_reachable_inv config n permits s (x : Traffic) :
  rtc (traffic_step config n) (traffic_start permits n s) x -> traffic_inv config n x.
Proof.
  intros Hr. pose proof (traffic_start_inv config n permits s) as Hi. revert Hi. induction Hr as [|a b c [act Hs] _ IH]; [done|]. intros Hi. by eapply IH, traffic_event_inv.
Qed.

(** The gate and the pool each run as [Permits] and [PoolQueue] say. *)
Lemma traffic_gate config n (x y : Traffic) :
  traffic_step config n x y -> tf_gate y = tf_gate x \/ srv_step (tf_gate x) (tf_gate y).
Proof.
  intros [act Hs]. destruct Hs as [id state texts Hp Hr _|k|id texts req pool Hh Hp Ht Hs|id e Hh He
    |id pool Hen Hs|id act pool Hp Ha Hs|act pool Hw Hs]; simpl; auto; right.
  - by apply (SrvStep _ (Arrive id state texts)).
  - by apply (SrvStep _ (RaisePermits k)).
  - by apply (SrvStep _ (Answer id (call_answer e))).
  - by apply (SrvStep _ (Disconnect id)).
Qed.

Lemma traffic_pool config n (x y : Traffic) :
  traffic_step config n x y -> tf_pool y = tf_pool x \/ queue_step config n (tf_pool x) (tf_pool y).
Proof.
  intros [act Hs]. destruct Hs as [id state texts Hp Hr _|k|id texts req pool Hh Hp Ht Hs|id e Hh He
    |id pool Hen [Hs|[_ ->]]|id act pool Hp Ha Hs|act pool Hw Hs]; simpl; auto; right; by eexists.
Qed.

Lemma queue_sys config n (q q' : PoolQueue Session Ch) :
  queue_step config n q q' -> rtc (sys_step config n) (q_sys q) (q_sys q').
Proof. intros [act []]; simpl; try done; apply rtc_once; by do 4 eexists. Qed.

Lemma traffic_sys config n permits s (x : Traffic) :
  rtc (traffic_step config n) (traffic_start permits n s) x ->
  rtc (sys_step config n) s (q_sys (tf_pool x)).
Proof.
  change s with (q_sys (tf_pool (traffic_start permits n s))) at 2.
  induction 1 as [|a b c Hs _ IH]; [done|]. etrans; [|exact IH].
  destruct (traffic_pool _ _ _ _ Hs) as [->|Hq]; [done|]. by eapply queue_sys.
Qed.

(** How the call behind an answer ended. *)
Definition answered_by (config : WorkerConfig) (n : Z) (x : Traffic) (id : nat) (code : Z) : Prop :=
  exists req e, q_req (tf_pool x) !! id = Some req /\ q_end (tf_pool x) !! id = Some e /\
    code = status_of (from_pool (call_answer e)) /\
    ((exists rep r, e = Replied_ rep /\ answers req rep /\ worker_reply config n req rep /\
        reply_stats rep = Some r /\
        (code = OK <-> is_ok r = true)) \/
     (e = DroppedReply \/ e = SendFailed) /\ all_gone (q_sys (tf_pool x)) /\ code = INTERNAL_SERVER_ERROR).

Lemma status_ok {A} (r : result anyhow A) : status_of (from_pool r) = OK <-> is_ok r = true.
Proof.
  destruct r as [v|e]; [done|]. simpl. unfold app_error_of. split; [|done].
  by destruct (is_trt_shape_rejected e).
Qed.

Lemma replied_by config n (x : Traffic) id code :
  traffic_inv config n x -> sv_phase (tf_gate x) !! id = Some (Replied code) ->
  q_req (tf_pool x) !! id = None /\ refused code \/ answered_by config n x id code.
Proof.
  intros Hx Hp. destruct (q_req (tf_pool x) !! id) as [req|] eqn:Hreq.
  - right. destruct (ti_call _ _ _ Hx id req Hreq) as [?|(texts & Ht & Hst)]; [congruence|].
    destruct Hst as [[_ ?]|[(e & He & Hp')|?]]; [congruence| |congruence].
    assert (code = status_of (from_pool (call_answer e))) as Hcode by congruence.
    exists req, e. split_and!; [done..|].
    destruct (qi_end _ _ _ (ti_pool _ _ _ Hx) id e He) as (req' & Hreq' & Hok).
    assert (req' = req) as -> by congruence.
    assert (Hnl : id ∉ q_left (tf_pool x)).
    { intros Hl. destruct (ti_left _ _ _ Hx id Hl) as [?|[? _]]; congruence. }
    destruct e as [rep| | | |]; simpl in Hok; [left|by destruct Hok|by right; auto..|done].
    assert (Hr : exists r, reply_stats rep = Some r).
    { destruct Hok as [Ha _], req, rep; try done; by eexists. }
    destruct Hr as [r Hr], Hok as [Ha Hw]. exists rep, r. split_and!; [done..|]. rewrite Hcode. simpl. rewrite Hr.
    apply status_ok.
  - left. split; [done|]. destruct (ti_refused _ _ _ Hx id code Hp) as [[? ?]|]; [congruence|done].
Qed.

(** At most as many of the requests in hand are at the pool as there are permits. *)
Lemma in_pool_bound config n (x : Traffic) ids :
  traffic_inv config n x -> NoDup ids ->
  (forall id, id ∈ ids -> is_accepted (tf_gate x) id /\ is_Some (q_req (tf_pool x) !! id)) ->
  length ids <= capacity (sv_sem (tf_gate x)).
Proof.
  intros Hx Hnd Hids. etrans; [|apply (iv_bound _ (ti_gate _ _ _ Hx))].
  apply submseteq_length, NoDup_submseteq; [done|]. intros id Hin.
  destruct (Hids id Hin) as [[t Hp] [req Hreq]].
  destruct (ti_call _ _ _ Hx id req Hreq) as [?|(texts & _ & [[Hh _]|[(e & _ & ?)|?]])]; congruence || done.
Qed.

(** Nobody is told about a call its client has left. *)
Lemma replied_end config n (x : Traffic) id e :
  traffic_inv config n x -> id ∈ holders (sv_sem (tf_gate x)) -> q_end (tf_pool x) !! id = Some e ->
  exists texts req, sv_phase (tf_gate x) !! id = Some (Accepted texts) /\
    embed_texts req = Some texts /\ q_req (tf_pool x) !! id = Some req /\
    ((exists rep, e = Replied_ rep /\ answers req rep /\ worker_reply config n req rep) \/
     e = DroppedReply \/ e = SendFailed).
Proof.
  intros Hx Hh He. destruct (holder_phase _ _ _ _ Hx Hh) as [texts Hp].
  destruct (qi_end _ _ _ (ti_pool _ _ _ Hx) id e He) as (req & Hreq & Hok).
  assert (Hnl : id ∉ q_left (tf_pool x)).
  { intros Hl. destruct (ti_left _ _ _ Hx id Hl) as [?|[? _]]; congruence. }
  destruct (ti_call _ _ _ Hx id req Hreq) as [?|(t & Ht & Hst)]; [congruence|].
  assert (t = texts) as ->.
  { destruct Hst as [[_ ?]|[(? & _ & ?)|?]]; congruence. }
  exists texts, req. split_and!; [done..|].
  destruct e as [rep| | | |]; simpl in Hok; [left; by exists rep|by destruct Hok|by right; auto..|done].
Qed.

(** What the awaited call of the dual handler returns. *)
Definition call_both (e : CallEnd) : result anyhow (list DualEmbedding * EmbedStats) :=
  match e with
  | Replied_ rep => pool_call true (match rep with RepBoth r => Some r | _ => None end)
  | Abandoned | DroppedReply | Withdrawn => pool_call true None
  | SendFailed => pool_call false None
  end.

(** Without workers every new request is refused. *)
Lemma no_worker_refused state texts :
  live_worker_count state = 0%Z ->
  exists msg, accept state texts = Err (ServiceUnavailable msg).
Proof.
  intros Hl. unfold accept, check_ready. rewrite Hl. destruct (as_ready (app state)); simpl; eauto.
Qed.

Lemma gone_spec (x : Sys Session) : gone x = true <-> all_gone x.
Proof.
  unfold gone, all_gone. rewrite forallb_forall, Forall_forall. setoid_rewrite list_elem_of_In.
  split; intros Hg sl Hin; specialize (Hg sl Hin); destruct sl as [w|f]; eauto; [done|].
  by destruct Hg as [f [=]].
Qed.

(** The live count is 0 exactly when nobody lives. *)
Lemma traffic_live config n cm cap permits s (x : Traffic) :
  (1 <= n <= U64_MAX)%Z -> (0 <= circuit_breaker_threshold config <= U64_MAX)%Z ->
  pool_running config n cm cap s -> rtc (traffic_step config n) (traffic_start permits n s) x ->
  live_workers (sys_shared (q_sys (tf_pool x))) = 0%Z <-> all_gone (q_sys (tf_pool x)).
Proof.
  intros Hn Ht Hrun Hr. apply traffic_sys in Hr.
  destruct (running_inv config n cm cap _ Hn Ht (running_steps _ _ _ _ _ _ Hrun Hr)) as [[Hlive _ _] _].
  rewrite Hlive. split; [|apply gone_live]. intros Hzero.
  destruct (gone_or_active (sys_slots (q_sys (tf_pool x)))) as [Hg|Hactive]; [done|].
  by apply live_some_running in Hactive.
Qed.

Lemma traffic_down config n cm cap permits s (x : Traffic) :
  (1 <= n <= U64_MAX)%Z -> (0 <= circuit_breaker_threshold config <= U64_MAX)%Z ->
  pool_running config n cm cap s -> rtc (traffic_step config n) (traffic_start permits n s) x ->
  all_gone (q_sys (tf_pool x)) -> live_workers (sys_shared (q_sys (tf_pool x))) = 0%Z.
Proof.
  intros Hn Ht Hrun Hr Hg. by apply (traffic_live _ _ _ _ _ _ _ Hn Ht Hrun Hr).
Qed.

(** What the checks before the gate decide. *)
Lemma accept_cases state texts :
  match accept state texts with
  | Ok () => as_ready (app state) = true /\ live_worker_count state <> 0%Z /\
             valid_input texts (max_batch state)
  | Err e =>
      (as_ready (app state) = false \/ live_worker_count state = 0%Z) /\
        status (into_response e) = SERVICE_UNAVAILABLE \/
      as_ready (app state) = true /\ live_worker_count state <> 0%Z /\
        ~ valid_input texts (max_batch state) /\ status (into_response e) = BAD_REQUEST
  end.
Proof.
  unfold accept. destruct (check_ready state) as [[]|e] eqn:Hc; simpl.
  - apply check_ready_ok in Hc as [Hr Hl].
    destruct (validate_input texts (max_batch state)) as [[]|e] eqn:Hv.
    + by apply validate_ok in Hv.
    + right. split_and!; [done..| |by destruct (validate_err _ _ _ Hv) as [msg ->]].
      intros Hok%validate_ok. congruence.
  - left. apply check_ready_err in Hc as [Hs ?]. split; [|done]. unfold serving in Hs.
    destruct (as_ready (app state)); [right|by left]. destruct (Z.eq_dec (live_worker_count state) 0%Z); tauto.
Qed.

(** A step of the pool changes nothing but whether a worker is left. *)
Lemma pool_service config n (x : Traffic) pool act gate :
  queue_event config n (tf_pool x) act pool -> sv_phase gate = sv_phase (tf_gate x) ->
  let y := {| tf_gate := gate; tf_pool := pool |} in
  service y = service x \/ service_step config n (service x) (service y).
Proof.
  intros Hs Hg y. unfold y, service. cbn [tf_gate tf_pool]. rewrite Hg.
  destruct (gone (q_sys (tf_pool x))) eqn:Hx, (gone (q_sys pool)) eqn:Hy; auto.
  - exfalso. apply gone_spec in Hx. assert (Hne : q_sys pool <> q_sys (tf_pool x)).
    { intros Heq. rewrite Heq in Hy. apply gone_spec in Hx. congruence. }
    destruct Hs; simpl in Hne; try done; by eapply sys_event_gone.
  - right. by apply (SvStop _ _ {| sv_table := sv_phase (tf_gate x); sv_down := false |}).
Qed.

(** Every step of the gate and the pool is one step of the service, or none. *)
Lemma traffic_refines_step config n (x y : Traffic) act :
  traffic_inv config n x ->
  (live_workers (sys_shared (q_sys (tf_pool x))) = 0%Z <-> all_gone (q_sys (tf_pool x))) ->
  traffic_event config n x act y ->
  service y = service x \/ service_step config n (service x) (service y).
Proof.
  intros Hx Hlive Hs. destruct Hs as [id state texts Hp Hr Hl|k|id texts req pool Hh Hp Ht Hs|id e Hh He
    |id pool [texts Hp] Hs|id act pool Hp Ha Hs|act pool Hw Hs]; [| |by eapply pool_service| | |by eapply pool_service..];
    cbn [exec]; [|by left|..]; right.
  - unfold service at 2. cbn [tf_gate tf_pool]. rewrite <- Hl, <- gone_spec in Hlive.
    pose proof (accept_cases state texts) as Hc.
    assert (Hup : live_worker_count state <> 0%Z -> gone (q_sys (tf_pool x)) = false).
    { intros Hne. destruct (gone (q_sys (tf_pool x))); [by destruct Hne; apply Hlive|done]. }
    destruct (accept state texts) as [[]|e] eqn:Ha; cbn [sv_phase].
    + destruct Hc as (Hrd & Hne & Hv). apply (SvAccept _ _ (service x) id state texts); auto.
    + destruct Hc as [[Hn ->]|(Hrd & Hne & Hv & ->)].
      * apply (SvUnavailable _ _ (service x) id state); [done|]. cbn [service sv_down]. tauto.
      * apply (SvInvalid _ _ (service x) id state texts); auto.
  - destruct (replied_end _ _ _ _ _ Hx Hh He) as (texts & req & Hp & Ht & Hreq & Hend).
    unfold service at 2. cbn [tf_gate tf_pool sv_phase].
    destruct Hend as [(rep & -> & Ha & Hw)|Hd].
    + assert (Hr : exists r, reply_stats rep = Some r) by (destruct req, rep; try done; by eexists).
      destruct Hr as [r Hr]. cbn [call_answer pool_call negb]. rewrite Hr.
      by apply (SvServe _ _ (service x) id texts req rep r).
    + destruct (qi_end _ _ _ (ti_pool _ _ _ Hx) id e He) as (req' & _ & Hok).
      assert (Hg : all_gone (q_sys (tf_pool x))) by (destruct Hd as [-> | ->]; exact Hok).
      apply gone_spec in Hg. destruct Hd as [-> | ->]; by apply (SvFail _ _ (service x) id texts).
  - assert (Hsys : q_sys pool = q_sys (tf_pool x)) by (destruct Hs as [Hs|[_ ->]]; [by inversion Hs|done]).
    unfold service at 2. cbn [tf_gate tf_pool sv_phase]. rewrite Hsys.
    by apply (SvLeave _ _ (service x) id texts).
Qed.

(** The dual handler on an accepted request. *)
Lemma both_accepted state texts model r :
  serving state -> valid_input texts (max_batch state) ->
  both_embeddings state {| breq_input := texts; breq_model := model |} (fun _ => r)
  = match r with
    | Ok (out, _) => Ok (dual_response (estimate_tokens texts) out)
    | Err err => Err (app_error_of err)
    end.
Proof.
  intros Hs Hv. rewrite both_handle. unfold handle, accept.
  rewrite (proj2 (check_ready_ok _)) by done. simpl. rewrite (proj2 (validate_ok _ _)) by done.
  by destruct r as [[out st]|err].
Qed.

(** ** Runs *)

(** An infinite run of the gate and the pool; it may idle. *)
Record traffic_run (config : WorkerConfig) (n : Z) (permits : nat) (s : Sys Session)
    (tr : nat -> Traffic) : Prop := {
  tr_init : tr 0 = traffic_start permits n s;
  tr_step t : tr (S t) = tr t \/ traffic_step config n (tr t) (tr (S t));
}.

(** A handler that holds a permit gets to its call of the pool, and one whose call
    has ended returns; either may be cut short by the client. *)
Definition handlers_fair (tr : nat -> Traffic) : Prop :=
  (forall t j, j ∈ holders (sv_sem (tf_gate (tr t))) -> exists t', t <= t' /\
     ((j ∉ holders (sv_sem (tf_gate (tr t')))) \/ is_Some (q_req (tf_pool (tr t')) !! j))) /\
  (forall t j, j ∈ holders (sv_sem (tf_gate (tr t))) -> is_Some (q_end (tf_pool (tr t)) !! j) ->
     exists t', t <= t' /\ (j ∉ holders (sv_sem (tf_gate (tr t'))))).

Lemma queue_capacity_pos n : (1 <= n)%Z -> (4 * n <= U64_MAX)%Z -> 0 < Z.to_nat (queue_capacity n).
Proof. intros Hn H4n. unfold queue_capacity. rewrite wrap64_small; [lia|]. unfold usize. lia. Qed.

(** A run from any good state. *)
Record traffic_running (config : WorkerConfig) (n : Z) (permits : nat) (tr : nat -> Traffic) : Prop := {
  tn_inv : traffic_inv config n (tr 0);
  tn_permits : permits <= capacity (sv_sem (tf_gate (tr 0)));
  tn_queue : ch_capacity (q_chan (tf_pool (tr 0))) = Z.to_nat (queue_capacity n);
  tn_step t : tr (S t) = tr t \/ traffic_step config n (tr t) (tr (S t));
}.

Lemma traffic_run_running config n permits s tr :
  traffic_run config n permits s tr -> traffic_running config n permits tr.
Proof.
  intros [Hi Hs]. split; [..|done]; rewrite Hi; [apply traffic_start_inv| |].
  - simpl. by destruct (sem_new_law permits) as [-> _].
  - simpl. by destruct (ch_new_law (Z.to_nat (queue_capacity n))) as [-> _].
Qed.

Lemma trun_reach config n permits s tr :
  traffic_run config n permits s tr ->
  forall t, rtc (traffic_step config n) (traffic_start permits n s) (tr t).
Proof.
  intros [Hi Hs]. induction t as [|t IH]; [by rewrite Hi|].
  destruct (Hs t) as [->|Ht]; [done|]. by eapply rtc_r.
Qed.

Section run.
Context (config : WorkerConfig) (n : Z) (permits : nat) (tr : nat -> Traffic).
Hypothesis Hrun : traffic_running config n permits tr.

Lemma trun_inv t : traffic_inv config n (tr t).
Proof.
  induction t as [|t IH]; [apply (tn_inv _ _ _ _ Hrun)|].
  destruct (tn_step _ _ _ _ Hrun t) as [->|[act Hs]]; [done|]. by eapply traffic_event_inv.
Qed.

Lemma trun_gate : running permits (fun t => tf_gate (tr t)).
Proof.
  split; [apply (ti_gate _ _ _ (trun_inv 0))|apply (tn_permits _ _ _ _ Hrun)|]. intros t.
  destruct (tn_step _ _ _ _ Hrun t) as [->|Hs]; [by left|]. by eapply traffic_gate.
Qed.

Lemma trun_pool : queue_running config n (fun t => tf_pool (tr t)).
Proof.
  split; [apply (ti_pool _ _ _ (trun_inv 0))|apply (tn_queue _ _ _ _ Hrun)|]. intros t.
  destruct (tn_step _ _ _ _ Hrun t) as [->|Hs]; [by left|]. by eapply traffic_pool.
Qed.

(** What [Permits] assumes of the pool: every permit comes back. *)
Lemma trun_fair :
  0 < Z.to_nat (queue_capacity n) -> handlers_fair tr -> workers_fair (fun t => tf_pool (tr t)) ->
  fair (fun t => tf_gate (tr t)).
Proof.
  intros Hcap [Hsub Hret] Hw t j Hj. destruct (Hsub t j Hj) as (t1 & Ht1 & [Hn|[req Hreq]]); [by exists t1|].
  destruct (decide (j ∈ holders (sv_sem (tf_gate (tr t1))))) as [Hj1|Hn]; [|by exists t1].
  assert (He : exists t2, t1 <= t2 /\ is_Some (q_end (tf_pool (tr t2)) !! j)).
  { destruct (q_end (tf_pool (tr t1)) !! j) as [e|] eqn:He; [by exists t1; rewrite He; eauto|].
    assert (Hin : j ∈ line (q_chan (tf_pool (tr t1)))).
    { apply (qi_open _ _ _ (qrun_inv _ _ _ trun_pool t1)). eauto. }
    apply ahead_elem in Hin as [k Hk]. by eapply (qrun_ends _ _ _ trun_pool Hw Hcap). }
  destruct He as (t2 & Ht2 & He2).
  destruct (decide (j ∈ holders (sv_sem (tf_gate (tr t2))))) as [Hj2|Hn]; [|exists t2; split; [lia|done]].
  destruct (Hret t2 j Hj2 He2) as (t3 & Ht3 & Hn). exists t3. split; [lia|done].
Qed.

(** Every accepted request is answered, or its client leaves. *)
Lemma trun_answered t id :
  0 < permits -> 0 < Z.to_nat (queue_capacity n) -> handlers_fair tr -> workers_fair (fun t => tf_pool (tr t)) ->
  is_accepted (tf_gate (tr t)) id -> exists t', t <= t' /\ answered (tf_gate (tr t')) id.
Proof.
  intros Hper Hcap Hh Hw Ha. apply (run_answered permits (fun t => tf_gate (tr t)) trun_gate); [|done..].
  by apply trun_fair.
Qed.
End run.
End traffic.

Section stuck.
Context `{FairSemaphore Sem} `{KeySort nat} {Session Output : Type} `{RuntimeLaws Session Output}
  `{WorkerWorld Session} `{BoundedChannel Ch}.

(** Some request holds a permit, and a step by its handler or by a worker is possible. *)
Lemma holder_moves config n `{!ModelExport Session Output (model_variant config)}
    (x : Traffic Sem Session Ch) j :
  traffic_inv config n x -> 0 < ch_capacity (q_chan (tf_pool x)) -> j ∈ holders (sv_sem (tf_gate x)) ->
  exists act y, traffic_event config n x act y /\ productive act.
Proof.
  intros Hx Hcap Hj. destruct (holder_phase _ _ _ _ Hx Hj) as [texts Hp].
  destruct (q_req (tf_pool x) !! j) as [req|] eqn:Hreq.
  - destruct (q_end (tf_pool x) !! j) as [e|] eqn:He; [|].
    { exists (Answers j). eexists. split; [apply (TAnswer _ _ _ _ e Hj He)|exact I]. }
    assert (Hin : j ∈ line (q_chan (tf_pool x))) by (apply (qi_open _ _ _ (ti_pool _ _ _ Hx)); eauto).
    destruct (queue_progress config n (tf_pool x) (ti_pool _ _ _ Hx)) as (act & pool & Hs & Ha & _).
    { apply queue_nonempty; [apply (qi_chan _ _ _ (ti_pool _ _ _ Hx))|done|]. intros Hnil. rewrite Hnil in Hin.
      by apply elem_of_nil in Hin. }
    exists (Works act). eexists. split; [apply TWork; [|exact Hs]|];
      destruct Ha as [->|[i ->]]; exact I.
  - exists (Submits j). assert (Hs : exists pool, queue_event config n (tf_pool x) (Submit j (ReqDense texts)) pool).
    { destruct (gone_or_active (sys_slots (q_sys (tf_pool x)))) as [Hg|(i & w & Hi)].
      - eexists. by apply QSubmitClosed.
      - eexists. apply QSubmit; [done|]. intros Hg.
        destruct (proj1 (Forall_lookup _ _) Hg _ _ Hi) as [f [=]]. }
    destruct Hs as [pool Hs]. eexists. split; [apply (TSubmit _ _ _ j texts (ReqDense texts) pool Hj Hp eq_refl Hs)|exact I].
Qed.

Lemma accepted_holder config n (x : Traffic Sem Session Ch) id :
  traffic_inv config n x -> 0 < capacity (sv_sem (tf_gate x)) -> is_accepted (tf_gate x) id ->
  exists j, j ∈ holders (sv_sem (tf_gate x)).
Proof.
  intros Hx Hcap Ha. apply (iv_accepted _ (ti_gate _ _ _ Hx)), elem_of_app in Ha as [Hh|Hw]; [by exists id|].
  assert (Hne : waiters (sv_sem (tf_gate x)) <> []) by (intros Hnil; rewrite Hnil in Hw; by apply elem_of_nil in Hw).
  pose proof (iv_busy _ (ti_gate _ _ _ Hx) Hne) as Hb.
  destruct (holders (sv_sem (tf_gate x))) as [|j hs]; [simpl in Hb; lia|]. exists j. by left.
Qed.
End stuck.

(** What a client of the dual endpoint got, in every good state of the gate and the
    pool. *)
Lemma dual_client_answer `{FairSemaphore Sem} `{KeySort nat} {Session Output}
    `{RuntimeLaws Session Output} `{WorkerWorld Session} `{BoundedChannel Ch}
    config n (x : Traffic Sem Session Ch) id code texts state model :
  traffic_inv config n x ->
  sv_phase (tf_gate x) !! id = Some (Replied code) ->
  q_req (tf_pool x) !! id = Some (ReqBoth texts) ->
  serving state -> valid_input texts (max_batch state) -> u32_ids texts ->
  exists e, q_end (tf_pool x) !! id = Some e /\
    let answer := both_embeddings state {| breq_input := texts; breq_model := model |}
                    (fun _ => call_both e) in
    code = status_of answer /\
    match answer with
    | Ok resp => length (bo_data resp) = length texts /\
        (forall i entry, bo_data resp !! i = Some entry -> served (model_variant config) texts i entry)
    | Err _ => code = SERVICE_UNAVAILABLE \/ code = INTERNAL_SERVER_ERROR
    end.
Proof.
  intros Hx Hp Hreq Hs Hv Hu.
  destruct (replied_by _ _ _ _ _ Hx Hp) as [[Hnone _]|(req & e & Hreq' & He & Hcode & Hend)]; [congruence|].
  assert (req = ReqBoth texts) as -> by congruence. exists e. split; [done|].
  destruct Hend as [(rep & r0 & -> & Ha & (i & rx & closed & load & w & sh & Hw) & _)|(Hdown & _ & Hc)].
  - destruct (both_request_end_to_end i (make_worker_config config n i) rx texts closed load w sh rep
      state model Hs Hv Hu Hw) as (r & -> & Hmatch). revert Hcode Hmatch.
    cbn [call_both call_answer reply_stats pool_call negb]. rewrite both_accepted by done.
    destruct r as [[out st]|err]; cbn [status_of]; intros ->; [intros (? & ? & _)|intros _]; split; try done.
    simpl. unfold app_error_of. destruct (is_trt_shape_rejected err); auto.
  - assert (Hb : exists msg, call_both e = Err (anyhow_msg msg)) by (destruct Hdown as [-> | ->]; by eexists).
    destruct Hb as [msg ->]. intros answer. unfold answer. rewrite both_accepted by done. split; [done|by right].
Qed.

(** ** One request, from its arrival to its answer *)

Section example.
Context (s y : Sys nat) (rep : option Reply).
Hypothesis Hlive : live_workers (sys_shared s) = 2%Z.
Hypothesis Hactive : ~ all_gone s.
Hypothesis Htake :
  sys_event (example_config Cpu) 2 0 [] (EvRequest (ReqBoth ["a"]) false (Ok 0)) rep s y.

Definition example_end : CallEnd := match rep with Some r => Replied_ r | None => Abandoned end.

Definition example_sent : PoolQueue nat Chan :=
  {| q_chan := ch_send 0 (ch_new 8); q_order := [0]; q_req := <[0 := ReqBoth ["a"]]> ∅; q_sys := s;
     q_taken := []; q_end := ∅; q_left := ∅ |}.

Definition example_served : PoolQueue nat Chan :=
  {| q_chan := ch_new 8; q_order := [0]; q_req := <[0 := ReqBoth ["a"]]> ∅; q_sys := y;
     q_taken := [0]; q_end := <[0 := example_end]> ∅; q_left := ∅ |}.

Definition example_held_gate : Server Fifo := exec (Arrive 0 example_server ["a"]) (srv_init 1).

Definition example_trace (t : nat) : Traffic Fifo nat Chan :=
  match t with
  | 0 => traffic_start 1 2 s
  | 1 => {| tf_gate := example_held_gate; tf_pool := queue_start 2 s |}
  | 2 => {| tf_gate := example_held_gate; tf_pool := example_sent |}
  | 3 => {| tf_gate := example_held_gate; tf_pool := example_served |}
  | _ => {| tf_gate := exec (Answer 0 (call_answer example_end)) example_held_gate;
            tf_pool := example_served |}
  end.

Lemma example_held_holder : 0 ∈ holders (sv_sem example_held_gate).
Proof. change (0 ∈ f_holders (sv_sem (example_run 1))). rewrite example_held. by left. Qed.

Lemma example_held_phase : sv_phase example_held_gate !! 0 = Some (Accepted ["a"]).
Proof. unfold example_held_gate, exec. rewrite example_accept. apply lookup_insert_eq. Qed.

Lemma example_capacity : Z.to_nat (queue_capacity 2) = 8.
Proof. by vm_compute. Qed.

Definition example_act (t : nat) : TrafficAct :=
  match t with 0 => Arrives 0 | 1 => Submits 0 | 2 => Works (Take 0) | _ => Answers 0 end.

Lemma example_trace_act t :
  example_trace (S t) = example_trace t \/
  traffic_event (example_config Cpu) 2 (example_trace t) (example_act t) (example_trace (S t)).
Proof.
  destruct t as [|[|[|[|t]]]]; [right..|by left].
  - by apply (TArrive _ _ (traffic_start 1 2 s) 0 example_server ["a"]).
  - apply (TSubmit _ _ (example_trace 1) 0 ["a"] (ReqBoth ["a"]) example_sent);
      [apply example_held_holder|apply example_held_phase|done|].
    unfold example_sent. rewrite <- example_capacity. by apply (QSubmit _ _ (queue_start 2 s) 0).
  - apply (TWork _ _ (example_trace 2) (Take 0) example_served); [done|].
    by apply (QTake _ _ example_sent 0 [] (Ok 0) rep 0 (ch_new 8) (ReqBoth ["a"])).
  - apply (TAnswer _ _ (example_trace 3) 0 example_end); [apply example_held_holder|].
    apply lookup_insert_eq.
Qed.

Lemma example_trace_step t :
  example_trace (S t) = example_trace t \/
  traffic_step (example_config Cpu) 2 (example_trace t) (example_trace (S t)).
Proof. destruct (example_trace_act t); [by left|right]. by eexists. Qed.

Lemma example_traffic_run : traffic_run (example_config Cpu) 2 1 s example_trace.
Proof. split; [done|apply example_trace_step]. Qed.

Lemma example_trace_fair :
  handlers_fair example_trace /\ workers_fair (fun t => tf_pool (example_trace t)).
Proof.
  assert (Hdone : forall t, 4 <= t -> holders (sv_sem (tf_gate (example_trace t))) = []).
  { intros [|[|[|[|t]]]] Ht; [lia..|].
    change (without 0 (f_holders (sv_sem (example_run 1))) = []). by rewrite example_held. }
  repeat split.
  - intros t j _. exists (t + 4). split; [lia|]. left. rewrite Hdone by lia. by intros Hx%elem_of_nil.
  - intros t j _ _. exists (t + 4). split; [lia|]. rewrite Hdone by lia. by intros Hx%elem_of_nil.
  - intros [|[|[|[|t]]]]; simpl; try done. intros _. exists 3. split; [lia|]. simpl. lia.
Qed.
End example.

(** Such a pool exists. *)
Lemma example_pool :
  exists (s y : Sys nat) rep,
    pool_running (example_config Cpu) 2 (conservative 0) 64 s /\
    live_workers (sys_shared s) = 2%Z /\ ~ all_gone s /\
    sys_event (example_config Cpu) 2 0 [] (EvRequest (ReqBoth ["a"]) false (Ok 0)) rep s y.
Proof.
  assert (Hok : is_ok (init_pool (example_config Cpu) 2 (conservative 0) 64
                         (fun _ => (None, Ok 0))) = true) by (vm_compute; reflexivity).
  destruct (init_pool (example_config Cpu) 2 (conservative 0) 64
              (fun _ => (None, Ok 0))) as [[st med]|] eqn:E0; [|discriminate Hok].
  pose proof (init_running _ 2 _ _ _ _ _ ltac:(lia) E0) as Hrun.
  destruct (init_pool_inv _ 2 _ _ _ _ _ ltac:(done) E0) as [[Hl _ _ Hsl] Hlen].
  destruct (in_slots st) as [|sl slots] eqn:Hs; [discriminate Hlen|].
  apply Forall_cons in Hsl as [(m & sm & ->) _].
  destruct (active_event (example_config Cpu) 2 0 [] (ReqBoth ["a"]) false (Ok 0)
    {| sys_slots := in_slots st; sys_shared := in_shared st |} (fresh_worker m sm)) as (rep & y & Hev);
    [by rewrite Hs|].
  rewrite Hs in Hev. exists {| sys_slots := Active (fresh_worker m sm) :: slots; sys_shared := in_shared st |}, y, rep.
  split_and!; [done..| |done]. intros Hg. by apply Forall_cons in Hg as [[? [=]] _].
Qed.

(** ** Properties *)



(** C9: what a client of the embedding endpoints is told is what the pool did: in every
    state the gate and the pool reach together, an answered request was either
    refused before the gate and never sent, or its status is that of the one way
    its call ended: 200 exactly when the worker's reply, of the kind asked for, is
    a success, and 500 when the last worker took the call with it; of the requests
    in hand at most as many are at the pool as there are permits; and once no
    worker is left every new request is refused with 503. *)
Theorem replies_are_the_pools `{FairSemaphore Sem} `{KeySort nat} {Session Output}
    `{Runtime Session Output} `{WorkerWorld Session} `{BoundedChannel Ch}
    config n cm cap permits (s : Sys Session) (x : Traffic Sem Session Ch) :
  (1 <= n <= U64_MAX)%Z -> (0 <= circuit_breaker_threshold config <= U64_MAX)%Z ->
  pool_running config n cm cap s -> rtc (traffic_step config n) (traffic_start permits n s) x ->
  (forall id code, sv_phase (tf_gate x) !! id = Some (Replied code) ->
     q_req (tf_pool x) !! id = None /\ refused code \/ answered_by config n x id code) /\
  (forall ids, NoDup ids ->
     (forall id, id ∈ ids -> is_accepted (tf_gate x) id /\ is_Some (q_req (tf_pool x) !! id)) ->
     length ids <= capacity (sv_sem (tf_gate x))) /\
  (all_gone (q_sys (tf_pool x)) -> forall id y, traffic_event config n x (Arrives id) y ->
     sv_phase (tf_gate y) !! id = Some (Replied SERVICE_UNAVAILABLE)).
Proof.
  intros Hn Ht Hrun Hr. pose proof (traffic_reachable_inv _ _ _ _ _ Hr) as Hx. split_and!.
  - intros id code. by apply replied_by.
  - intros ids. by eapply in_pool_bound.
  - intros Hg id y Hs. inversion Hs as [i state texts Hp Hq Hl Hid Hy| | | | | |]; subst. simpl.
    rewrite (traffic_down _ _ _ _ _ _ _ Hn Ht Hrun Hr Hg) in Hl.
    destruct (no_worker_refused state texts Hl) as [msg ->]. apply lookup_insert_eq.
Qed.

Lemma replies_are_the_pools_witness :
  exists s y rep,
    let x := example_trace s y rep 4 in
    rtc (traffic_step (example_config Cpu) 2) (traffic_start 1 2 s) x /\
    answered_by (example_config Cpu) 2 x 0 (status_of (from_pool (call_answer (example_end rep)))).
Proof.
  destruct example_pool as (s & y & rep & Hrun & Hl & Hg & Hev). exists s, y, rep. intros x.
  pose proof (trun_reach _ _ _ _ _ (example_traffic_run s y rep Hl Hg Hev) 4) as Hr. split; [exact Hr|].
  destruct (replies_are_the_pools (example_config Cpu) 2 (conservative 0) 64 1 s x) as [Hans _];
    [by vm_compute|by vm_compute|exact Hrun|exact Hr|].
  destruct (Hans 0 (status_of (from_pool (call_answer (example_end rep))))) as [[Hq _]|Ha];
    [apply lookup_insert_eq|discriminate Hq|exact Ha].
Defined.


