(* ===== verification/Lifecycle.v ===== *)
(** * The life of the server: start-up beside the traffic

    The listener is bound before the workspace budget is known, so requests arrive
    while the start-up sequence of [Bootstrap] is still publishing ([src/lib.rs],
    [src/bootstrap/], [src/state.rs]).  Here that sequence runs beside the gate and
    the pool of [Traffic]: each of its updates is one step on what they share, the
    cost model behind its [ArcSwap] and the permits of the semaphore, and any step of
    the clients and the workers may fall between two of them.  The theorems say what
    no component says alone: a client got what the runs of its texts computed, no
    client is served under a cost model that is not the final one, the gate holds the permits the start-up accounts for, the sequence is
    never blocked by the traffic it races with, and every accepted request is
    answered. *)

From S2P Require Import Prelude Float RustStr BinPack JitGuard EmbedMath TrtCache Types SysInfo Fit ProbeCache Probe Bootstrap HttpError Handler Pipeline TrtWarmup Retry WorkerGuard Worker Pool PoolInit Service Permits Server PoolQueue Traffic.
#[local] Open Scope nat_scope.

(** ** What an update does to the gate and the pool *)

(** [state.cost_model.store], behind the handle the workers read. *)
Definition store_cost_model (cm : CostModel) (sh : Shared) : Shared :=
  {| live_workers := live_workers sh; loaded_workers := loaded_workers sh; cost_model := cm;
     warmed_seq_ceiling := warmed_seq_ceiling sh; suspects := suspects sh;
     suspect_capacity := suspect_capacity sh; broadcasts := broadcasts sh |}.

Section publish.
Context {Sem : Type} `{FairSemaphore Sem} {Session Ch : Type}.

Definition with_cost_model (cm : CostModel) (q : PoolQueue Session Ch) : PoolQueue Session Ch :=
  {| q_chan := q_chan q; q_order := q_order q; q_req := q_req q;
     q_sys := {| sys_slots := sys_slots (q_sys q); sys_shared := store_cost_model cm (sys_shared (q_sys q)) |};
     q_taken := q_taken q; q_end := q_end q; q_left := q_left q |}.

(** [acquire_many_owned] of idle permits, then [forget]. *)
Definition drain (k : nat) (g : Server Sem) : Server Sem :=
  {| sv_sem := forget_permits k (sv_sem g); sv_phase := sv_phase g |}.

Definition publish (u : Update) (t : Traffic Sem Session Ch) : Traffic Sem Session Ch :=
  match u with
  | StoreCostModel cm => {| tf_gate := tf_gate t; tf_pool := with_cost_model cm (tf_pool t) |}
  | ForgetPermits k => {| tf_gate := drain (Z.to_nat k) (tf_gate t); tf_pool := tf_pool t |}
  | AddPermits k => {| tf_gate := exec (RaisePermits (Z.to_nat k)) (tf_gate t); tf_pool := tf_pool t |}
  | SetTuning _ | StoreStatus _ | SetReady | SaveCache _ _ => t
  end.

(** The semaphore is fair: permits are acquired once nobody waits before the
    start-up and enough of them are free. *)
Definition publishable (u : Update) (t : Traffic Sem Session Ch) : Prop :=
  match u with
  | ForgetPermits k =>
      waiters (sv_sem (tf_gate t)) = [] /\
      length (holders (sv_sem (tf_gate t))) + Z.to_nat k <= capacity (sv_sem (tf_gate t))
  | _ => True
  end.
End publish.

Record Lifecycle (Sem Session Ch : Type) := {
  lc_pending : list Update;
  lc_app : AppState;
  lc_traffic : Traffic Sem Session Ch;
}.
Arguments lc_pending {_ _ _}. Arguments lc_app {_ _ _}. Arguments lc_traffic {_ _ _}.

(** The steps of the traffic that do not read the application state. *)
Definition is_serving (act : TrafficAct) : Prop :=
  match act with Arrives _ | Raises => False | _ => True end.

Section lifecycle.
Context `{FairSemaphore Sem} `{KeySort nat} {Session Output : Type} `{Runtime Session Output}
  `{WorkerWorld Session} `{BoundedChannel Ch}.
#[local] Abbreviation Lifecycle := (Lifecycle Sem Session Ch).

Definition lc_gate (x : Lifecycle) : Server Sem := tf_gate (lc_traffic x).
Definition lc_pool (x : Lifecycle) : PoolQueue Session Ch := tf_pool (lc_traffic x).
Definition lc_shared (x : Lifecycle) : Shared := sys_shared (q_sys (lc_pool x)).

Inductive lifecycle_step (config : WorkerConfig) (n : Z) (x : Lifecycle) : Lifecycle -> Prop :=
| LcPublish u us :
    lc_pending x = u :: us -> publishable u (lc_traffic x) ->
    lifecycle_step config n x
      {| lc_pending := us; lc_app := apply u (lc_app x); lc_traffic := publish u (lc_traffic x) |}
| LcArrive id state texts :
    sv_phase (lc_gate x) !! id = None -> q_req (lc_pool x) !! id = None ->
    app state = lc_app x -> live_worker_count state = live_workers (lc_shared x) ->
    lifecycle_step config n x
      {| lc_pending := lc_pending x; lc_app := lc_app x;
         lc_traffic := {| tf_gate := exec (Arrive id state texts) (lc_gate x); tf_pool := lc_pool x |} |}
| LcTraffic act y :
    is_serving act -> traffic_event config n (lc_traffic x) act y ->
    lifecycle_step config n x {| lc_pending := lc_pending x; lc_app := lc_app x; lc_traffic := y |}.

(** [run] once the listener is bound and the pool is up: [w] workers are configured,
    [n] are running, and [us] is what start-up goes on to publish. *)
Definition lifecycle_start (w n : Z) (us : list Update) (s : Sys Session) : Lifecycle :=
  let st0 := initial_state w (cost_model (sys_shared s)) in
  {| lc_pending := us; lc_app := st0;
     lc_traffic := traffic_start (Z.to_nat (as_permits st0)) n s |}.

(** Start-up and the shared state agree, and before readiness no request passes. *)
Record lc_inv (config : WorkerConfig) (n : Z) (st0 : AppState) (us : list Update) (x : Lifecycle) : Prop := {
  li_sent : exists sent, us = sent ++ lc_pending x /\ lc_app x = apply_all sent st0;
  li_traffic : traffic_inv config n (lc_traffic x);
  li_queue : ch_capacity (q_chan (lc_pool x)) = Z.to_nat (queue_capacity n);
  li_cost : cost_model (lc_shared x) = as_cost_model (lc_app x);
  li_permits : Z.of_nat (capacity (sv_sem (lc_gate x))) = as_permits (lc_app x);
  li_closed : as_ready (lc_app x) = false ->
    forall id p, sv_phase (lc_gate x) !! id = Some p ->
    p = Replied SERVICE_UNAVAILABLE /\ q_req (lc_pool x) !! id = None;
}.

(** ** Lemmas: the steps *)

(** Nobody is at the gate before readiness. *)
Lemma closed_gate config n st0 us x :
  lc_inv config n st0 us x -> as_ready (lc_app x) = false ->
  holders (sv_sem (lc_gate x)) = [] /\ waiters (sv_sem (lc_gate x)) = [].
Proof.
  intros Hx Hr. assert (Hnil : holders (sv_sem (lc_gate x)) ++ waiters (sv_sem (lc_gate x)) = []).
  { apply elem_of_nil_inv. intros id Hin.
    apply (iv_accepted _ (ti_gate _ _ _ (li_traffic _ _ _ _ _ Hx))) in Hin as [texts Hp].
    by destruct (li_closed _ _ _ _ _ Hx Hr _ _ Hp) as [? _]. }
  by apply app_nil in Hnil.
Qed.

(** A request that arrives too early is refused. *)
Lemma early_refused (state : ServerState) texts :
  as_ready (app state) = false -> exists msg, accept state texts = Err (ServiceUnavailable msg).
Proof. intros Hr. unfold accept, check_ready. rewrite Hr. by eexists. Qed.

Lemma queue_cost config n (q q' : PoolQueue Session Ch) act :
  queue_event config n q act q' -> cost_model (sys_shared (q_sys q')) = cost_model (sys_shared (q_sys q)).
Proof. intros []; simpl; try done; by eapply sys_event_cost. Qed.

Lemma queue_keeps_capacity config n (q q' : PoolQueue Session Ch) act :
  queue_event config n q act q' -> ch_capacity (q_chan q') = ch_capacity (q_chan q).
Proof. intros Hs. apply (step_capacity config n). by exists act. Qed.

(** A step of the traffic keeps what start-up publishes; only [Raises] changes the
    number of permits. *)
Lemma traffic_keeps config n (t t' : Traffic Sem Session Ch) act :
  traffic_event config n t act t' -> is_serving act ->
  cost_model (sys_shared (q_sys (tf_pool t'))) = cost_model (sys_shared (q_sys (tf_pool t))) /\
  ch_capacity (q_chan (tf_pool t')) = ch_capacity (q_chan (tf_pool t)) /\
  capacity (sv_sem (tf_gate t')) = capacity (sv_sem (tf_gate t)).
Proof.
  intros Hs Hact. destruct Hs as [| |id texts req pool Hh Hp Ht Hs|id e Hh He
    |id pool Hen Hs|id act pool Hp Ha Hs|act pool Hw Hs]; try done; cbn [tf_gate tf_pool exec sv_sem].
  - split_and!; [by eapply queue_cost|by eapply queue_keeps_capacity|done].
  - by destruct (release_law id (sv_sem (tf_gate t))) as [-> _].
  - split_and!; [destruct Hs as [Hs|[_ ->]]; [by eapply queue_cost|done]
                |destruct Hs as [Hs|[_ ->]]; [by eapply queue_keeps_capacity|done]|].
    case_decide; [by destruct (release_law id (sv_sem (tf_gate t))) as [-> _]|].
    by destruct (cancel_law id (sv_sem (tf_gate t))) as [-> _].
  - split_and!; [by eapply queue_cost|by eapply queue_keeps_capacity|done].
  - split_and!; [by eapply queue_cost|by eapply queue_keeps_capacity|done].
Qed.

(** ** Lemmas: publication *)

Lemma cost_model_inv config n cm (t : Traffic Sem Session Ch) :
  traffic_inv config n t ->
  traffic_inv config n {| tf_gate := tf_gate t; tf_pool := with_cost_model cm (tf_pool t) |}.
Proof. intros [Hg [? ? ? ? ? ?] Hc Hrf Hl]. split; [done|by split|done..]. Qed.

(** Draining an idle gate. *)
Lemma drain_law k (g : Server Sem) :
  holders (sv_sem g) = [] -> waiters (sv_sem g) = [] -> k <= capacity (sv_sem g) ->
  capacity (sv_sem (drain k g)) = capacity (sv_sem g) - k /\
  holders (sv_sem (drain k g)) = [] /\ waiters (sv_sem (drain k g)) = [].
Proof.
  intros Hh Hw Hk. destruct (forget_permits_law k (sv_sem g) Hw) as (Hc & Hh' & Hw'); [by rewrite Hh|].
  simpl. by rewrite Hh', Hh.
Qed.

Lemma drain_inv config n k (t : Traffic Sem Session Ch) :
  traffic_inv config n t ->
  holders (sv_sem (tf_gate t)) = [] -> waiters (sv_sem (tf_gate t)) = [] ->
  k <= capacity (sv_sem (tf_gate t)) ->
  (forall id p, sv_phase (tf_gate t) !! id = Some p -> q_req (tf_pool t) !! id = None) ->
  traffic_inv config n {| tf_gate := drain k (tf_gate t); tf_pool := tf_pool t |}.
Proof.
  intros [Hg Hq Hc Hrf Hl] Hh Hw Hk Hnone. destruct (drain_law k _ Hh Hw Hk) as (Hcap & Hh' & Hw').
  split; cbn [tf_gate tf_pool]; try done.
  - split; rewrite ?Hh', ?Hw'; [simpl; lia|done|constructor|].
    intros id. rewrite <- (iv_accepted _ Hg id), Hh, Hw. done.
  - intros id req Hreq. left. cbn [drain sv_phase].
    destruct (sv_phase (tf_gate t) !! id) as [p|] eqn:Hp; [|done]. by rewrite (Hnone _ _ Hp) in Hreq.
Qed.

Lemma publish_traffic_inv config n st0 us x u :
  lc_inv config n st0 us x -> publishable u (lc_traffic x) ->
  (forall k, u = ForgetPermits k -> as_ready (lc_app x) = false) ->
  traffic_inv config n (publish u (lc_traffic x)).
Proof.
  intros Hx Hpub Hdr. pose proof (li_traffic _ _ _ _ _ Hx) as Ht.
  destruct u; cbn [publish]; try done; [by apply cost_model_inv| |].
  - specialize (Hdr k eq_refl). destruct (closed_gate _ _ _ _ _ Hx Hdr) as [Hh Hw].
    destruct Hpub as [_ Hpub]. unfold lc_gate in *. rewrite Hh in Hpub.
    apply drain_inv; [done..|]. intros id p Hp. by apply (li_closed _ _ _ _ _ Hx Hdr id p).
  - eapply traffic_event_inv; [apply TRaise|done].
Qed.

(** The permits published are the permits of the gate. *)
Lemma publish_permits u (t : Traffic Sem Session Ch) st :
  Z.of_nat (capacity (sv_sem (tf_gate t))) = as_permits st -> publishable u t ->
  (forall k, u = ForgetPermits k \/ u = AddPermits k -> (0 <= k)%Z) ->
  Z.of_nat (capacity (sv_sem (tf_gate (publish u t)))) = as_permits (apply u st).
Proof.
  intros Hc Hpub Hk. destruct u; try done; cbn [publish tf_gate apply as_permits exec sv_sem drain].
  - destruct Hpub as [Hw Hle]. destruct (forget_permits_law (Z.to_nat k) _ Hw Hle) as [-> _].
    specialize (Hk k (or_introl eq_refl)). lia.
  - destruct (add_permits_law (Z.to_nat k) (sv_sem (tf_gate t))) as [-> _].
    specialize (Hk k (or_intror eq_refl)). lia.
Qed.

Lemma publish_cost u (t : Traffic Sem Session Ch) st :
  cost_model (sys_shared (q_sys (tf_pool t))) = as_cost_model st ->
  cost_model (sys_shared (q_sys (tf_pool (publish u t)))) = as_cost_model (apply u st).
Proof. by destruct u. Qed.

Lemma publish_frame u (t : Traffic Sem Session Ch) :
  sv_phase (tf_gate (publish u t)) = sv_phase (tf_gate t) /\
  q_req (tf_pool (publish u t)) = q_req (tf_pool t) /\
  q_chan (tf_pool (publish u t)) = q_chan (tf_pool t).
Proof. by destruct u. Qed.

(** What the next update may be. *)
Lemma next_update config n w st0 us x u rest :
  lc_inv config n st0 us x -> staged_updates w us -> (0 <= w)%Z ->
  lc_pending x = u :: rest ->
  (forall k, u = ForgetPermits k \/ u = AddPermits k -> (0 <= k)%Z) /\
  (forall k, u = ForgetPermits k -> as_ready st0 = false -> as_ready (lc_app x) = false).
Proof.
  intros Hx Hus Hw Hp. destruct (li_sent _ _ _ _ _ Hx) as (sent & Hsent & Happ). rewrite Hp in Hsent. split.
  - intros k [-> | ->].
    + by apply (su_drain _ _ Hus) in Hsent as (_ & _ & ? & _).
    + rewrite (su_add _ _ Hus k); [done|]. rewrite Hsent, elem_of_app. right. by left.
  - intros k -> Hr0. apply (su_drain _ _ Hus) in Hsent as (Hno & _). rewrite Happ.
    by apply prefix_states_closed.
Qed.

(** ** Lemmas: the invariant *)

Section invariant.
Context (config : WorkerConfig) (n w : Z) (us : list Update) (cm0 : CostModel).
Hypothesis Hw : (0 <= w)%Z.
Hypothesis Hus : staged_updates w us.

#[local] Abbreviation st0 := (initial_state w cm0).

Lemma publish_inv x u rest :
  lc_inv config n st0 us x -> lc_pending x = u :: rest -> publishable u (lc_traffic x) ->
  lc_inv config n st0 us
    {| lc_pending := rest; lc_app := apply u (lc_app x); lc_traffic := publish u (lc_traffic x) |}.
Proof.
  intros Hx Hp Hpub. destruct (next_update _ _ _ _ _ _ _ _ Hx Hus Hw Hp) as [Hk Hd].
  destruct (publish_frame u (lc_traffic x)) as (Hphase & Hreq & Hchan). split.
  - destruct (li_sent _ _ _ _ _ Hx) as (sent & -> & Happ). exists (sent ++ [u]). rewrite Hp. cbn [lc_pending lc_app].
    rewrite <- app_assoc. split; [done|]. rewrite Happ. unfold apply_all. by rewrite foldl_app.
  - eapply publish_traffic_inv; [done..|]. intros k ->. by apply (Hd k).
  - unfold lc_pool. cbn [lc_traffic]. rewrite Hchan. apply (li_queue _ _ _ _ _ Hx).
  - apply publish_cost, (li_cost _ _ _ _ _ Hx).
  - by apply publish_permits; [apply (li_permits _ _ _ _ _ Hx)|..].
  - unfold lc_gate, lc_pool. cbn [lc_app lc_traffic]. rewrite Hphase, Hreq. intros Hr.
    apply (li_closed _ _ _ _ _ Hx). by destruct u.
Qed.

Lemma arrive_inv x id state texts :
  lc_inv config n st0 us x ->
  sv_phase (lc_gate x) !! id = None -> q_req (lc_pool x) !! id = None ->
  app state = lc_app x -> live_worker_count state = live_workers (lc_shared x) ->
  lc_inv config n st0 us
    {| lc_pending := lc_pending x; lc_app := lc_app x;
       lc_traffic := {| tf_gate := exec (Arrive id state texts) (lc_gate x); tf_pool := lc_pool x |} |}.
Proof.
  intros Hx Hp Hq Happ Hl. split; try apply Hx.
  - eapply traffic_event_inv; [by apply (TArrive _ _ (lc_traffic x) id state texts)|apply Hx].
  - cbn [lc_app]. rewrite <- (li_permits _ _ _ _ _ Hx). f_equal. unfold lc_gate. cbn [lc_traffic tf_gate exec].
    destruct (accept state texts); cbn [sv_sem]; [|done].
    by destruct (acquire_law id (sv_sem (tf_gate (lc_traffic x)))) as [-> _].
  - cbn [lc_app]. intros Hr. unfold lc_gate, lc_pool. cbn [lc_traffic tf_gate tf_pool exec].
    rewrite <- Happ in Hr. destruct (early_refused state texts Hr) as [msg ->]. cbn [sv_phase].
    intros j p [[<- <-]|[_ Hj]]%lookup_insert_Some; [done|]. rewrite Happ in Hr.
    by apply (li_closed _ _ _ _ _ Hx Hr).
Qed.

(** Before readiness the traffic is that of the probe and the health checks. *)
Lemma early_traffic x act y :
  lc_inv config n st0 us x -> as_ready (lc_app x) = false -> is_serving act ->
  traffic_event config n (lc_traffic x) act y ->
  sv_phase (tf_gate y) = sv_phase (lc_gate x) /\
  forall id, is_Some (q_req (tf_pool y) !! id) ->
    is_Some (q_req (lc_pool x) !! id) \/ sv_phase (lc_gate x) !! id = None.
Proof.
  intros Hx Hr Hact Hs. destruct (closed_gate _ _ _ _ _ Hx Hr) as [Hh _]. unfold lc_gate, lc_pool in *.
  destruct Hs as [| |id texts req pool Hin|id e Hin|id pool [texts Hp]|id act pool Hp Ha Hs|act pool Hwk Hs];
    try done; cbn [tf_gate tf_pool]; try (rewrite Hh in Hin; by apply elem_of_nil in Hin).
  - by destruct (li_closed _ _ _ _ _ Hx Hr _ _ Hp) as [? _].
  - split; [done|]. intros j [req Hj]. destruct (event_req_inv _ _ _ _ _ _ _ Hs Hj) as [->|Heq]; [by left; eauto|right].
    destruct Ha as [->|[r ->]]; [done|]. by injection Heq as -> _.
  - split; [done|]. intros j [req Hj]. destruct (event_req_inv _ _ _ _ _ _ _ Hs Hj) as [->|Heq]; [by left; eauto|].
    by subst act.
Qed.

Lemma serving_step_inv x act y :
  lc_inv config n st0 us x -> is_serving act -> traffic_event config n (lc_traffic x) act y ->
  lc_inv config n st0 us {| lc_pending := lc_pending x; lc_app := lc_app x; lc_traffic := y |}.
Proof.
  intros Hx Hact Hs. destruct (traffic_keeps _ _ _ _ _ Hs Hact) as (Hcost & Hcap & Hper). split.
  - apply Hx.
  - eapply traffic_event_inv; [exact Hs|apply Hx].
  - rewrite <- (li_queue _ _ _ _ _ Hx). exact Hcap.
  - etrans; [exact Hcost|apply Hx].
  - cbn [lc_app]. rewrite <- (li_permits _ _ _ _ _ Hx). f_equal. exact Hper.
  - cbn [lc_app]. intros Hr. unfold lc_gate, lc_pool. cbn [lc_traffic].
    destruct (early_traffic _ _ _ Hx Hr Hact Hs) as [-> Hreq]. intros id p Hp.
    destruct (li_closed _ _ _ _ _ Hx Hr _ _ Hp) as [? Hnone]. split; [done|].
    apply eq_None_not_Some. intros Hsome. destruct (Hreq id Hsome) as [[? ?]|?]; congruence.
Qed.

Lemma lifecycle_step_inv x y :
  lifecycle_step config n x y -> lc_inv config n st0 us x -> lc_inv config n st0 us y.
Proof.
  intros [u rest Hp Hpub|id state texts Hp Hq Ha Hl|act y' Ha Hs] Hx;
    [by apply publish_inv|by apply arrive_inv|by eapply serving_step_inv].
Qed.

(** Start-up is never held up. *)
Lemma next_publishable x u rest :
  lc_inv config n st0 us x -> lc_pending x = u :: rest -> publishable u (lc_traffic x).
Proof.
  intros Hx Hp. destruct u as [| | | |k| |]; try done.
  destruct (li_sent _ _ _ _ _ Hx) as (sent & Hsent & Happ). rewrite Hp in Hsent.
  destruct (su_drain _ _ Hus _ _ _ Hsent) as (Hno & Hsum & Hk).
  assert (Hr : as_ready (lc_app x) = false) by (rewrite Happ; by apply prefix_states_closed).
  destruct (closed_gate _ _ _ _ _ Hx Hr) as [Hh Hwt]. unfold lc_gate in *. simpl. rewrite Hh. split; [done|].
  pose proof (li_permits _ _ _ _ _ Hx) as Hper. rewrite Happ, apply_all_permits, Hsum in Hper.
  unfold lc_gate in Hper. simpl in *. lia.
Qed.

(** Once ready, only permits are added. *)
Lemma ready_pending x :
  lc_inv config n st0 us x -> as_ready (lc_app x) = true ->
  Forall (fun u => u = SetReady \/ exists k, u = AddPermits k) (lc_pending x).
Proof.
  intros Hx Hr. destruct (li_sent _ _ _ _ _ Hx) as (sent & Hsent & Happ).
  destruct (su_split _ _ Hus) as (pre & post & Hsplit & Hpre & Hpost). rewrite Hsplit in Hsent.
  destruct (app_eq_inv _ _ _ _ Hsent) as [(k & -> & ->)|(k & -> & ->)].
  - exfalso. rewrite Happ in Hr.
    destruct (prefix_states_closed sent st0) as [_ Hf]; [done|set_solver|congruence].
  - by apply Forall_app in Hpost as [_ ?].
Qed.

Lemma ready_cost x :
  lc_inv config n st0 us x -> as_ready (lc_app x) = true ->
  cost_model (lc_shared x) = as_cost_model (apply_all us st0).
Proof.
  intros Hx Hr. pose proof (ready_pending x Hx Hr) as Hp. rewrite (li_cost _ _ _ _ _ Hx).
  destruct (li_sent _ _ _ _ _ Hx) as (sent & -> & ->). unfold apply_all. rewrite foldl_app.
  fold (apply_all sent st0). generalize (apply_all sent st0). clear Hx Hus Hr.
  induction Hp as [|u rest Hu _ IH]; intros st; [done|]. cbn [foldl]. rewrite <- IH.
  by destruct Hu as [->|[k ->]].
Qed.

(** A request that got past the checks proves that start-up is over. *)
Lemma client_ready x id p :
  lc_inv config n st0 us x -> sv_phase (lc_gate x) !! id = Some p ->
  p <> Replied SERVICE_UNAVAILABLE \/ is_Some (q_req (lc_pool x) !! id) -> as_ready (lc_app x) = true.
Proof.
  intros Hx Hp Hc. destruct (as_ready (lc_app x)) eqn:Hr; [done|].
  destruct (li_closed _ _ _ _ _ Hx Hr _ _ Hp) as [-> Hnone]. destruct Hc as [?|[? ?]]; congruence.
Qed.

Lemma ready_published x : lc_inv config n st0 us x -> as_ready (lc_app x) = true -> us <> [].
Proof.
  intros Hx Hr ->. destruct (li_sent _ _ _ _ _ Hx) as (sent & Hsent & Happ).
  symmetry in Hsent. apply app_nil in Hsent as [-> _]. by rewrite Happ in Hr.
Qed.
End invariant.

Lemma lifecycle_start_inv config n w us (s : Sys Session) :
  lc_inv config n (initial_state w (cost_model (sys_shared s))) us (lifecycle_start w n us s).
Proof.
  split.
  - by exists [].
  - apply traffic_start_inv.
  - simpl. by destruct (ch_new_law (Z.to_nat (queue_capacity n))) as [-> _].
  - done.
  - unfold lc_gate. cbn [lc_traffic lifecycle_start traffic_start tf_gate srv_init sv_sem lc_app].
    destruct (sem_new_law (Z.to_nat (as_permits (initial_state w (cost_model (sys_shared s)))))) as [-> _].
    simpl. lia.
  - by intros.
Qed.

Lemma lifecycle_reachable_inv config n w us (s : Sys Session) x :
  (0 <= w)%Z -> staged_updates w us ->
  rtc (lifecycle_step config n) (lifecycle_start w n us s) x ->
  lc_inv config n (initial_state w (cost_model (sys_shared s))) us x.
Proof.
  intros Hw Hus Hr. pose proof (lifecycle_start_inv config n w us s) as Hi. revert Hi.
  induction Hr as [|a b c Hs _ IH]; [done|]. intros Hi. by eapply IH, lifecycle_step_inv.
Qed.

(** From every state of the server start-up can finish at once. *)
Lemma startup_can_finish config n w cm0 us x :
  (0 <= w)%Z -> staged_updates w us -> lc_inv config n (initial_state w cm0) us x ->
  exists y, rtc (lifecycle_step config n) x y /\ lc_pending y = [] /\
    sv_phase (lc_gate y) = sv_phase (lc_gate x) /\ q_req (lc_pool y) = q_req (lc_pool x) /\
    live_workers (lc_shared y) = live_workers (lc_shared x).
Proof.
  intros Hw Hus. destruct x as [pending st t]. revert st t.
  induction pending as [|u rest IH]; intros st t Hx; [by exists {| lc_pending := []; lc_app := st; lc_traffic := t |}|].
  pose proof (next_publishable config n w us cm0 Hus _ u rest Hx eq_refl) as Hpub.
  pose proof (publish_inv config n w us cm0 Hw Hus _ u rest Hx eq_refl Hpub) as Hx1.
  destruct (IH _ _ Hx1) as (y & Hr & Hp & Hphase & Hreq & Hl). exists y. cbn [lc_traffic] in Hpub.
  destruct (publish_frame u t) as (Hphase1 & Hreq1 & _). split_and!.
  - eapply rtc_l; [|exact Hr]. by apply (LcPublish config n {| lc_pending := u :: rest; lc_app := st; lc_traffic := t |}).
  - done.
  - rewrite Hphase. exact Hphase1.
  - rewrite Hreq. exact Hreq1.
  - rewrite Hl. by destruct u.
Qed.

(** When a readiness check of the probe task fails, the call has succeeded and
    nothing exits, but readiness is never published: the server refuses for ever. *)
Lemma failed_checks_never_open fmt init mem rss w max_seq safety dis ck task us config n s x :
  run_readiness_probe fmt init mem rss w max_seq safety None None dis ck task = Ok (Ok (), us) ->
  (0 <= w)%Z -> is_err (run_readiness_checks_and_open (pt_checks task)) = true ->
  rtc (lifecycle_step config n) (lifecycle_start w n us s) x ->
  as_ready (lc_app x) = false /\
  forall id p, sv_phase (lc_gate x) !! id = Some p -> p = Replied SERVICE_UNAVAILABLE.
Proof.
  intros Hrun Hw He Hr. pose proof (readiness_staged _ _ _ _ _ _ _ _ _ _ _ _ _ _ Hrun Hw) as Hus.
  pose proof (lifecycle_reachable_inv config n w us s x Hw Hus Hr) as Hx.
  assert (Hno : SetReady ∉ us).
  { destruct (readiness_cases _ _ _ _ _ _ _ _ _ _ _ _ _ _ Hrun)
      as [[? _]|[(tun & cm & st & _ & _ & _ & [[? ?]|[_ [? ?]]])
        |(tun & acq & dr & cm & saved & failed & -> & _ & _ & _ & _ & _ & Hs)]]; [done..|].
    unfold probe_updates, opening. destruct (run_readiness_checks_and_open (pt_checks task)); [done|].
    destruct acq, Hs as [->|(a & b & ->)]; set_solver. }
  assert (Hclosed : as_ready (lc_app x) = false).
  { destruct (li_sent _ _ _ _ _ Hx) as (sent & -> & ->). apply prefix_states_closed; [done|set_solver]. }
  split; [done|]. intros id p Hp. by apply (li_closed _ _ _ _ _ Hx Hclosed id p).
Qed.

(** ** Runs *)

(** An infinite run of the server; it may idle. *)
Record lifecycle_run (config : WorkerConfig) (n w : Z) (us : list Update) (s : Sys Session)
    (lr : nat -> Lifecycle) : Prop := {
  lr_init : lr 0 = lifecycle_start w n us s;
  lr_step t : lr (S t) = lr t \/ lifecycle_step config n (lr t) (lr (S t));
}.

(** The start-up task goes on when it can. *)
Definition startup_fair (lr : nat -> Lifecycle) : Prop :=
  forall t u rest, lc_pending (lr t) = u :: rest -> publishable u (lc_traffic (lr t)) ->
  exists t', t <= t' /\ length (lc_pending (lr t')) < length (lc_pending (lr t)).

Section run.
Context (config : WorkerConfig) (n w : Z) (us : list Update) (s : Sys Session) (lr : nat -> Lifecycle).
Hypothesis Hw : (0 <= w)%Z.
Hypothesis Hus : staged_updates w us.
Hypothesis Hrun : lifecycle_run config n w us s lr.

#[local] Abbreviation cm0 := (cost_model (sys_shared s)).

Lemma lrun_inv t : lc_inv config n (initial_state w cm0) us (lr t).
Proof.
  induction t as [|t IH]; [rewrite (lr_init _ _ _ _ _ _ Hrun); apply lifecycle_start_inv|].
  destruct (lr_step _ _ _ _ _ _ Hrun t) as [->|Hs]; [done|]. by eapply lifecycle_step_inv.
Qed.

Lemma lrun_ready t d : as_ready (lc_app (lr t)) = true -> as_ready (lc_app (lr (t + d))) = true.
Proof.
  intros Hr. induction d as [|d IH]; [by rewrite Nat.add_0_r|]. rewrite Nat.add_succ_r.
  destruct (lr_step _ _ _ _ _ _ Hrun (t + d)) as [->|Hs]; [done|].
  destruct Hs as [u rest _ _| |]; [|done..]. cbn [lc_app]. by destruct u.
Qed.

(** Once ready, the server is the traffic alone: start-up only adds permits. *)
Lemma lrun_traffic t p :
  as_ready (lc_app (lr t)) = true -> p <= capacity (sv_sem (lc_gate (lr t))) ->
  traffic_running config n p (fun d => lc_traffic (lr (t + d))).
Proof.
  intros Hr Hp. split; rewrite ?Nat.add_0_r; [apply (li_traffic _ _ _ _ _ (lrun_inv t))|done
    |apply (li_queue _ _ _ _ _ (lrun_inv t))|].
  intros d. rewrite Nat.add_succ_r.
  destruct (lr_step _ _ _ _ _ _ Hrun (t + d)) as [->|Hs]; [by left|].
  pose proof (ready_pending _ _ _ _ _ Hw Hus _ (lrun_inv (t + d)) (lrun_ready t d Hr)) as Hpend.
  destruct Hs as [u rest Hu Hpub|id state texts Hph Hq Ha Hl|act y Ha Hs]; cbn [lc_traffic].
  - rewrite Hu in Hpend. apply Forall_cons in Hpend as [[->|[k ->]] _]; [by left|right].
    exists Raises. apply TRaise.
  - right. exists (Arrives id). by apply TArrive.
  - right. by exists act.
Qed.

Lemma lrun_finishes (Hfair : startup_fair lr) m : forall t,
  length (lc_pending (lr t)) = m -> exists T, lc_pending (lr T) = [].
Proof.
  induction (lt_wf m) as [m _ IH]. intros t Hm.
  destruct (lc_pending (lr t)) as [|u rest] eqn:Hp; [by exists t|].
  destruct (Hfair t u rest Hp) as (t' & _ & Hlt).
  { by eapply next_publishable, Hp; [|apply lrun_inv]. }
  rewrite Hp, Hm in Hlt. by apply (IH _ Hlt t').
Qed.

Lemma lrun_finished T d : lc_pending (lr T) = [] -> lc_pending (lr (T + d)) = [].
Proof.
  intros HT. induction d as [|d IH]; [by rewrite Nat.add_0_r|]. rewrite Nat.add_succ_r.
  destruct (lr_step _ _ _ _ _ _ Hrun (T + d)) as [->|Hs]; [done|].
  destruct Hs as [u rest Hp _| |]; [congruence|done..].
Qed.

(** What a finished start-up leaves behind. *)
Lemma lrun_published t :
  lc_pending (lr t) = [] ->
  lc_app (lr t) = apply_all us (initial_state w cm0) /\
  cost_model (lc_shared (lr t)) = as_cost_model (apply_all us (initial_state w cm0)) /\
  1 <= capacity (sv_sem (lc_gate (lr t))).
Proof.
  intros Hp. destruct (li_sent _ _ _ _ _ (lrun_inv t)) as (sent & Hsent & Happ).
  rewrite Hp, app_nil_r in Hsent. subst sent. split_and!; [done|by rewrite <- Happ; apply (lrun_inv t)|].
  pose proof (li_permits _ _ _ _ _ (lrun_inv t)) as Hper. rewrite Happ in Hper.
  pose proof (su_permits _ _ Hus cm0 Hw). lia.
Qed.

Lemma handlers_fair_shift (tr : nat -> Traffic Sem Session Ch) t0 :
  handlers_fair tr -> handlers_fair (fun d => tr (t0 + d)).
Proof.
  intros [Hs Hr]. split.
  - intros t j Hj. destruct (Hs _ _ Hj) as (t' & Ht & Hor). exists (t' - t0). split; [lia|].
    by replace (t0 + (t' - t0)) with t' by lia.
  - intros t j Hj He. destruct (Hr _ _ Hj He) as (t' & Ht & Hor). exists (t' - t0). split; [lia|].
    by replace (t0 + (t' - t0)) with t' by lia.
Qed.

Lemma workers_fair_shift (tr : nat -> PoolQueue Session Ch) t0 :
  workers_fair tr -> workers_fair (fun d => tr (t0 + d)).
Proof.
  intros Hf t Hne. destruct (Hf _ Hne) as (t' & Ht & Hlt). exists (t' - t0). split; [lia|].
  by replace (t0 + (t' - t0)) with t' by lia.
Qed.

(** Every accepted request is answered, in spite of the start-up beside it. *)
Lemma lrun_answered T t id :
  0 < Z.to_nat (queue_capacity n) -> lc_pending (lr T) = [] ->
  handlers_fair (fun t => lc_traffic (lr t)) -> workers_fair (fun t => lc_pool (lr t)) ->
  is_accepted (lc_gate (lr t)) id -> exists t', t <= t' /\ answered (lc_gate (lr t')) id.
Proof.
  intros Hcap HT Hh Hwk Ha.
  assert (Hr : as_ready (lc_app (lr t)) = true).
  { destruct Ha as [texts Hp]. eapply client_ready; [apply lrun_inv|exact Hp|by left]. }
  pose proof (lrun_traffic t 0 Hr ltac:(lia)) as Htr.
  destruct (run_accepted _ _ (trun_gate _ _ _ _ Htr) 0 T id) as [Hacc|(t' & _ & Hans)];
    [by rewrite Nat.add_0_r| |by exists (t + t'); split; [lia|]].
  pose proof (lrun_finished T t HT) as Hfin. rewrite Nat.add_comm in Hfin.
  destruct (lrun_published _ Hfin) as (_ & _ & Hper).
  pose proof (lrun_traffic (t + T) 1 (lrun_ready t T Hr) Hper) as Htr'.
  destruct (trun_answered _ _ _ _ Htr' 0 id) as (t' & _ & Hans).
  - lia.
  - done.
  - by apply (handlers_fair_shift (fun t => lc_traffic (lr t))).
  - by apply (workers_fair_shift (fun t => lc_pool (lr t))).
  - rewrite Nat.add_0_r. exact Hacc.
  - exists (t + T + t'). split; [lia|exact Hans].
Qed.
End run.
End lifecycle.

(** ** A start-up with a configured cost model, and one request *)

(** Two workers on 8 GiB, as [example_readiness], but with an override. *)
Definition example_override (cm : CostModel) : M (result anyhow () * list Update) :=
  run_readiness_probe (fun _ => "0.7") (InitDone (Ok ())) {| available_bytes := 8 * 2 ^ 30; source := CgroupV2 |}
    (12 * 10 ^ 8) 2 512 (f64_lit 7 10) (Some cm) None false example_checks example_task.

Definition example_opening (cm : CostModel) : list Update :=
  match example_override cm with Ok (_, us) => us | Err _ => [] end.

Section example.
Context (s y : Sys nat) (rep : option Reply).
Hypothesis Hlive : live_workers (sys_shared s) = 2%Z.
Hypothesis Hactive : ~ all_gone s.
Hypothesis Htake :
  sys_event (example_config Cpu) 2 0 [] (EvRequest (ReqBoth ["a"]) false (Ok 0)) rep s y.

#[local] Abbreviation cm0 := (cost_model (sys_shared s)).

Lemma example_updates : exists tun,
  example_override cm0 = Ok (Ok (), [SetTuning tun; StoreCostModel cm0; StoreStatus Disabled; SetReady]).
Proof. eexists. vm_compute. reflexivity. Qed.

Definition example_opened : AppState := apply_all (example_opening cm0) (initial_state 2 cm0).

Definition example_client : ServerState :=
  {| app := example_opened; live_worker_count := 2; loaded_worker_count := 1; max_batch := 2;
     total_workers := 2; state_max_seq_length := 8192 |}.

(** The start-up, then [example_trace]. *)
Definition example_life (t : nat) : Lifecycle Fifo nat Chan :=
  {| lc_pending := drop t (example_opening cm0);
     lc_app := apply_all (take t (example_opening cm0)) (initial_state 2 cm0);
     lc_traffic := example_trace s y rep (t - 4) |}.

Lemma example_same_pool : with_cost_model cm0 (queue_start 2 s) = (queue_start 2 s : PoolQueue nat Chan).
Proof. unfold with_cost_model, queue_start. simpl. by destruct s as [sl []]. Qed.

Lemma example_client_arrives :
  exec (Arrive 0 example_client ["a"]) (srv_init 1) = exec (Arrive 0 example_server ["a"]) (srv_init 1 : Server Fifo).
Proof.
  cbn [exec]. assert (Ha : accept example_client ["a"] = Ok ()).
  { unfold accept, check_ready, example_client, example_opened, example_opening. cbn [app live_worker_count].
    destruct example_updates as [tun ->]. by vm_compute. }
  by rewrite Ha, example_accept.
Qed.

Lemma example_life_publish t u :
  t < 4 -> example_opening cm0 !! t = Some u ->
  lifecycle_step (example_config Cpu) 2 (example_life t) (example_life (S t)).
Proof.
  intros Ht Hu. pose proof (drop_S _ _ _ Hu) as Hdrop.
  assert (Hus : exists tun, example_opening cm0 = [SetTuning tun; StoreCostModel cm0; StoreStatus Disabled; SetReady]).
  { unfold example_opening. destruct example_updates as [tun ->]. by exists tun. }
  destruct Hus as [tun Hus]. rewrite Hus in Hu.
  assert (Hsame : publish u (traffic_start 1 2 s : Traffic Fifo nat Chan) = traffic_start 1 2 s).
  { destruct t as [|[|[|[|t]]]]; [..|lia]; injection Hu as <-; try reflexivity.
    unfold publish. cbn [tf_gate tf_pool traffic_start]. by rewrite example_same_pool. }
  assert (Hlc : example_life (S t) = {| lc_pending := drop (S t) (example_opening cm0);
    lc_app := apply u (lc_app (example_life t)); lc_traffic := publish u (lc_traffic (example_life t)) |}).
  { unfold example_life. cbn [lc_app lc_traffic]. rewrite Hus in *.
    replace (S t - 4) with 0 by lia. replace (t - 4) with 0 by lia.
    change (example_trace s y rep 0) with (traffic_start 1 2 s : Traffic Fifo nat Chan). rewrite Hsame.
    rewrite (take_S_r _ _ _ Hu). unfold apply_all. by rewrite foldl_app. }
  rewrite Hlc. apply (LcPublish _ _ (example_life t)); [exact Hdrop|].
  destruct t as [|[|[|[|t]]]]; [..|lia]; injection Hu as <-; exact I.
Qed.

Lemma example_life_step t :
  example_life (S t) = example_life t \/
  lifecycle_step (example_config Cpu) 2 (example_life t) (example_life (S t)).
Proof.
  assert (Hlen : length (example_opening cm0) = 4).
  { unfold example_opening. destruct example_updates as [tun ->]. done. }
  destruct (decide (t < 4)) as [Ht|Ht].
  - right. destruct (lookup_lt_is_Some_2 (example_opening cm0) t) as [u Hu]; [lia|].
    by eapply example_life_publish.
  - assert (Hend : forall d, 4 <= d -> example_life d = {| lc_pending := []; lc_app := example_opened;
      lc_traffic := example_trace s y rep (d - 4) |}).
    { intros d Hd. unfold example_life, example_opened. by rewrite drop_ge, take_ge by lia. }
    rewrite !Hend by lia. replace (S t - 4) with (S (t - 4)) by lia. generalize (t - 4). intros d.
    destruct (example_trace_act s y rep Hlive Hactive Htake d) as [->|Hs]; [by left|].
    destruct d as [|d].
    + right. change (example_trace s y rep 1) with
        ({| tf_gate := exec (Arrive 0 example_server ["a"]) (srv_init 1); tf_pool := queue_start 2 s |}
         : Traffic Fifo nat Chan). rewrite <- example_client_arrives.
      by apply (LcArrive _ _ {| lc_pending := []; lc_app := example_opened; lc_traffic := traffic_start 1 2 s |}
        0 example_client ["a"]).
    + right. apply (LcTraffic _ _ {| lc_pending := []; lc_app := example_opened;
        lc_traffic := example_trace s y rep (S d) |} (example_act (S d))); [|exact Hs].
      by destruct d as [|[|d]].
Qed.

Lemma example_life_run us :
  example_override cm0 = Ok (Ok (), us) ->
  lifecycle_run (example_config Cpu) 2 2 us s example_life.
Proof.
  intros E. assert (Hus : example_opening cm0 = us) by (unfold example_opening; by rewrite E).
  split; [|apply example_life_step]. unfold example_life. by rewrite drop_0, Hus.
Qed.

Lemma example_life_reach us :
  example_override cm0 = Ok (Ok (), us) ->
  forall t, rtc (lifecycle_step (example_config Cpu) 2) (lifecycle_start 2 2 us s) (example_life t).
Proof.
  intros E. induction t as [|t IH]; [by rewrite (lr_init _ _ _ _ _ _ (example_life_run us E))|].
  destruct (example_life_step t) as [->|Hs]; [done|]. by eapply rtc_r.
Qed.

Lemma example_client_serves : serving example_client.
Proof.
  unfold serving, example_client, example_opened, example_opening. cbn [app live_worker_count].
  destruct example_updates as [tun ->]. by split.
Qed.
End example.

(** ** Properties *)

(** C1: the whole path of a client of the dual endpoint: in every state the server
    reaches, while start-up publishes and after it, whatever the other clients and
    the workers did meanwhile, an answered request sent for [texts] got either
    exactly one entry per text, in order, where entry [i] carries index [i] and what
    the session run of the chunk that holds text [i] computed for it, with status
    200, or the status of an error; and what the client is told is what the handler
    makes of the one way its call of the pool ended. *)
Theorem dual_client_end_to_end `{FairSemaphore Sem} `{KeySort nat} {Session Output}
    `{RuntimeLaws Session Output} `{WorkerWorld Session} `{BoundedChannel Ch}
    fmt init mem rss w max_seq safety o cached dis ck task r us
    config n (s : Sys Session) (x : Lifecycle Sem Session Ch) id code texts state model :
  run_readiness_probe fmt init mem rss w max_seq safety o cached dis ck task = Ok (r, us) ->
  (0 <= w)%Z -> rtc (lifecycle_step config n) (lifecycle_start w n us s) x ->
  sv_phase (lc_gate x) !! id = Some (Replied code) ->
  q_req (lc_pool x) !! id = Some (ReqBoth texts) ->
  serving state -> valid_input texts (max_batch state) -> u32_ids texts ->
  exists e, q_end (lc_pool x) !! id = Some e /\
    let answer := both_embeddings state {| breq_input := texts; breq_model := model |}
                    (fun _ => call_both e) in
    code = status_of answer /\
    match answer with
    | Ok resp => length (bo_data resp) = length texts /\
        (forall i entry, bo_data resp !! i = Some entry -> served (model_variant config) texts i entry)
    | Err _ => code = SERVICE_UNAVAILABLE \/ code = INTERNAL_SERVER_ERROR
    end.
Proof.
  intros Hrun Hw Hr. pose proof (readiness_staged _ _ _ _ _ _ _ _ _ _ _ _ _ _ Hrun Hw) as Hus.
  pose proof (lifecycle_reachable_inv config n w us s x Hw Hus Hr) as Hx.
  apply (dual_client_answer config n), Hx.
Qed.

(** The request of [example_life], answered after eight steps. *)
Lemma dual_client_end_to_end_witness :
  exists s y rep e,
    q_end (lc_pool (example_life s y rep 8)) !! 0 = Some e /\
    status_of (from_pool (call_answer (example_end rep)))
    = status_of (both_embeddings (example_client s) {| breq_input := ["a"]; breq_model := None |}
                   (fun _ => call_both e)).
Proof.
  destruct example_pool as (s & y & rep & Hrun & Hl & Hg & Hev). exists s, y, rep.
  destruct (example_updates s) as [tun E].
  destruct (dual_client_end_to_end _ _ _ _ _ _ _ _ _ _ _ _ _ _ (example_config Cpu) 2 s (example_life s y rep 8) 0
    (status_of (from_pool (call_answer (example_end rep)))) ["a"] (example_client s) None E) as (e & He & Hc & _).
  - lia.
  - exact (example_life_reach s y rep Hl Hg Hev _ E 8).
  - apply lookup_insert_eq.
  - apply lookup_insert_eq.
  - apply example_client_serves.
  - split; [done|]. split; [done|]. repeat constructor; by vm_compute.
  - intros encs Henc. injection Henc as <-. constructor; [apply byte_ids_u32|constructor].
  - exists e. exact (conj He Hc).
Defined.

(** C2: Traffic never overtakes start-up: in every state the server reaches while
    the start-up sequence publishes beside the clients, whatever they interleave,
    (a) before readiness every request has been refused with 503, none was sent to
    the pool, and nobody holds or awaits a permit; (b) whenever a request is at the
    gate or was sent to the pool, the workers pack under the final cost model, which
    is the configured one or has the computed per-worker budget, never under the
    start-up default; (c) the gate has exactly the permits the start-up accounts
    for; and (d) the next update of start-up can be made at once. *)
Theorem no_client_before_budget `{FairSemaphore Sem} `{KeySort nat} {Session Output}
    `{Runtime Session Output} `{WorkerWorld Session} `{BoundedChannel Ch}
    fmt init mem rss w max_seq safety o cached dis ck task r us
    config n (s : Sys Session) (x : Lifecycle Sem Session Ch) :
  run_readiness_probe fmt init mem rss w max_seq safety o cached dis ck task = Ok (r, us) ->
  (0 <= w)%Z -> rtc (lifecycle_step config n) (lifecycle_start w n us s) x ->
  (as_ready (lc_app x) = false ->
     (forall id p, sv_phase (lc_gate x) !! id = Some p ->
        p = Replied SERVICE_UNAVAILABLE /\ q_req (lc_pool x) !! id = None) /\
     holders (sv_sem (lc_gate x)) = [] /\ waiters (sv_sem (lc_gate x)) = []) /\
  (forall id p, sv_phase (lc_gate x) !! id = Some p ->
     p <> Replied SERVICE_UNAVAILABLE \/ is_Some (q_req (lc_pool x) !! id) ->
     cost_model (lc_shared x)
     = as_cost_model (apply_all us (initial_state w (cost_model (sys_shared s)))) /\
     match o with
     | Some cm => cost_model (lc_shared x) = cm
     | None => max_workspace_bytes (cost_model (lc_shared x))
               = (compute_workspace_budget (available_bytes mem) w rss safety).1.1
     end) /\
  Z.of_nat (capacity (sv_sem (lc_gate x))) = as_permits (lc_app x) /\
  (forall u rest, lc_pending x = u :: rest -> publishable u (lc_traffic x)).
Proof.
  intros Hrun Hw Hr. pose proof (readiness_staged _ _ _ _ _ _ _ _ _ _ _ _ _ _ Hrun Hw) as Hus.
  pose proof (lifecycle_reachable_inv config n w us s x Hw Hus Hr) as Hx. split_and!.
  - intros Hno. split; [apply (li_closed _ _ _ _ _ Hx Hno)|]. by eapply closed_gate.
  - intros id p Hp Hc. pose proof (client_ready _ _ _ _ _ _ _ _ Hx Hp Hc) as Hready.
    pose proof (ready_cost _ _ _ _ _ Hw Hus x Hx Hready) as Hcost. split; [done|]. rewrite Hcost.
    eapply readiness_budget; [exact Hrun|]. by eapply ready_published.
  - apply Hx.
  - intros u rest. by eapply next_publishable.
Qed.

(** With the probe of [example_readiness], a request accepted after it. *)
Lemma no_client_before_budget_witness :
  exists us s (x : Lifecycle Fifo nat Chan),
    example_readiness = Ok (Ok (), us) /\
    rtc (lifecycle_step (example_config Cpu) 2) (lifecycle_start 2 2 us s) x /\
    is_accepted (lc_gate x) 0 /\
    max_workspace_bytes (cost_model (lc_shared x)) = 2072524697%Z.
Proof.
  destruct example_readiness as [[r us]|f] eqn:E; [|exfalso; vm_compute in E; discriminate].
  assert (Hr : r = Ok ()) by (vm_compute in E; injection E as <- _; reflexivity). subst r.
  assert (Hw : (0 <= 2)%Z) by lia.
  pose proof (readiness_staged _ _ _ _ _ _ _ _ _ _ _ _ _ _ E Hw) as Hus.
  destruct example_pool as (s & _ & _ & _ & Hl & _).
  destruct (startup_can_finish (Sem := Fifo) (Ch := Chan) (example_config Cpu) 2 2 (cost_model (sys_shared s)) us
    (lifecycle_start 2 2 us s)) as (y & Hy & Hp & Hphase & Hreq & Hlive);
    [exact Hw|done|apply lifecycle_start_inv|].
  pose proof (lifecycle_reachable_inv _ _ _ _ s y Hw Hus Hy) as Hinv.
  assert (Happ : lc_app y = apply_all us (initial_state 2 (cost_model (sys_shared s)))).
  { destruct (li_sent _ _ _ _ _ Hinv) as (sent & Hsent & ->). by rewrite Hp, app_nil_r in Hsent; subst sent. }
  set (state := {| app := lc_app y; live_worker_count := live_workers (lc_shared y); loaded_worker_count := 1;
                   max_batch := 2; total_workers := 2; state_max_seq_length := 512 |}).
  assert (Hacc : accept state ["a"] = Ok ()).
  { assert (Hready : as_ready (lc_app y) = true).
    { rewrite Happ, apply_all_ready. vm_compute in E. injection E as <-. reflexivity. }
    unfold accept, check_ready, state. cbn [app live_worker_count]. rewrite Hready, Hlive.
    change (lc_shared (lifecycle_start 2 2 us s)) with (sys_shared s). rewrite Hl. by vm_compute. }
  set (x := {| lc_pending := lc_pending y; lc_app := lc_app y;
               lc_traffic := {| tf_gate := exec (Arrive 0 state ["a"]) (lc_gate y); tf_pool := lc_pool y |} |}).
  assert (Hx : rtc (lifecycle_step (example_config Cpu) 2) (lifecycle_start 2 2 us s) x).
  { eapply rtc_r; [exact Hy|]. apply LcArrive; [by rewrite Hphase|by rewrite Hreq|done|done]. }
  assert (Hph : sv_phase (lc_gate x) !! 0 = Some (Accepted ["a"])).
  { unfold x, lc_gate. cbn [lc_traffic tf_gate exec]. rewrite Hacc. apply lookup_insert_eq. }
  exists us, s, x. split; [reflexivity|]. split; [exact Hx|]. split; [by exists ["a"]|].
  destruct (no_client_before_budget _ _ _ _ _ _ _ _ _ _ _ _ _ _ (example_config Cpu) 2 s x E Hw Hx)
    as (_ & Hb & _ & _).
  destruct (Hb 0 _ Hph) as [_ ->]; [by left|]. vm_compute. reflexivity.
Defined.

(** C4: The server comes up and serves: in every run in which the start-up task goes
    on when it can, no handler that holds a permit stops for ever, and the workers
    keep taking requests, start-up ends: from some moment on the application state
    and the cost model of the workers are the final ones and the gate has at least
    one permit; and every request that is ever accepted, also while the permits of
    the probe are still drained, is answered or its client leaves. *)
Theorem server_comes_up `{FairSemaphore Sem} `{KeySort nat} {Session Output}
    `{Runtime Session Output} `{WorkerWorld Session} `{BoundedChannel Ch}
    fmt init mem rss w max_seq safety o cached dis ck task r us
    config n (s : Sys Session) (lr : nat -> Lifecycle Sem Session Ch) :
  run_readiness_probe fmt init mem rss w max_seq safety o cached dis ck task = Ok (r, us) ->
  (0 <= w)%Z -> (1 <= n)%Z -> (4 * n <= U64_MAX)%Z -> lifecycle_run config n w us s lr ->
  startup_fair lr -> handlers_fair (fun t => lc_traffic (lr t)) -> workers_fair (fun t => lc_pool (lr t)) ->
  let final := apply_all us (initial_state w (cost_model (sys_shared s))) in
  (exists T, forall t, T <= t ->
     lc_pending (lr t) = [] /\ lc_app (lr t) = final /\
     cost_model (lc_shared (lr t)) = as_cost_model final /\ 1 <= capacity (sv_sem (lc_gate (lr t)))) /\
  (forall t id, is_accepted (lc_gate (lr t)) id -> exists t', t <= t' /\ answered (lc_gate (lr t')) id).
Proof.
  intros Hready Hw Hn Hn4 Hrun Hs Hh Hwk final.
  pose proof (readiness_staged _ _ _ _ _ _ _ _ _ _ _ _ _ _ Hready Hw) as Hus.
  pose proof (queue_capacity_pos n Hn Hn4) as Hcap.
  destruct (lrun_finishes _ _ _ _ _ _ Hw Hus Hrun Hs _ 0 eq_refl) as [T HT]. split.
  - exists T. intros t Ht. assert (Hp : lc_pending (lr t) = []).
    { replace t with (T + (t - T)) by lia. by eapply lrun_finished. }
    split; [done|]. by eapply lrun_published.
  - intros t id. by eapply lrun_answered.
Qed.

Lemma server_comes_up_witness :
  exists s y rep us,
    example_override (cost_model (sys_shared s)) = Ok (Ok (), us) /\
    lifecycle_run (example_config Cpu) 2 2 us s (example_life s y rep) /\
    is_accepted (lc_gate (example_life s y rep 5)) 0 /\
    exists t', 5 <= t' /\ answered (lc_gate (example_life s y rep t')) 0.
Proof.
  destruct example_pool as (s & y & rep & Hrun & Hl & Hg & Hev).
  destruct (example_updates s) as [tun E]. eexists s, y, rep, _. split; [exact E|].
  assert (Hus : example_opening (cost_model (sys_shared s))
    = [SetTuning tun; StoreCostModel (cost_model (sys_shared s)); StoreStatus Disabled; SetReady])
    by (unfold example_opening; by rewrite E).
  pose proof (example_life_run s y rep Hl Hg Hev _ E) as Hlr.
  assert (Hacc : is_accepted (lc_gate (example_life s y rep 5)) 0) by (exists ["a"]; apply example_held_phase).
  split; [exact Hlr|]. split; [exact Hacc|].
  destruct (example_trace_fair s y rep) as [[Hh1 Hh2] Hwk]. set (tr := example_trace s y rep) in *.
  destruct (server_comes_up _ _ _ _ _ _ _ _ _ _ _ _ _ _ (example_config Cpu) 2 s (example_life s y rep) E)
    as [_ Hans]; [lia|lia|by vm_compute|exact Hlr| | | |by apply Hans].
  - intros t u rest Hp _. exists (t + 4). split; [lia|]. rewrite Hp. unfold example_life. cbn [lc_pending].
    rewrite drop_ge; [simpl; lia|]. rewrite Hus. simpl. lia.
  - split; intros t j; unfold example_life; cbn [lc_traffic].
    + intros Hj. destruct (Hh1 _ _ Hj) as (t' & Ht & Hor). exists (t' + 4). split; [lia|].
      by replace (t' + 4 - 4) with t' by lia.
    + intros Hj He. destruct (Hh2 _ _ Hj He) as (t' & Ht & Hor). exists (t' + 4). split; [lia|].
      by replace (t' + 4 - 4) with t' by lia.
  - intros t Hne. destruct (Hwk _ Hne) as (t' & Ht & Hlt). exists (t' + 4). split; [lia|].
    unfold lc_pool, example_life. cbn [lc_traffic]. by replace (t' + 4 - 4) with t' by lia.
Defined.
