(* ===== verification/Run.v ===== *)
(** * The whole process ([run] of [src/lib.rs])

    The order in which [run] reads the configuration, spawns the pool and the
    background tasks and starts to listen, as the list of what it did and how it
    ended.  Its parts are those of [Server], [Bootstrap] and [AdaptiveWarmup]. *)

From S2P Require Import Prelude Float RustStr BinPack JitGuard EmbedMath TrtCache Types SysInfo Config Pipeline TrtWarmup Retry WorkerGuard Worker Pool AdaptiveWarmup Bootstrap Server.
#[local] Open Scope Z_scope.

(** ** What the process asks of its surroundings *)

Record RunWorld := {
  (** the feature [tls] of the build *)
  tls_build : bool;
  lookup : string -> option string;
  gpu_entries : option (list bool);
  (** how the initialisation of the pool ends, and the state the warmup-only branch finds *)
  init_result : InitResult;
  wait_result : Waited;
  can_create_cache : bool;
  engine_entries : Dir;
  smi : Z -> option (bool * option string);
  (** [RustlsConfig::from_pem_file], [SocketAddr::from_str] and the two servers *)
  from_pem_file : string -> string -> result string ();
  parse_socket_addr : string -> result string ();
  serve_rustls : result anyhow ();
  bind_tcp : string -> result anyhow ();
  serve_tcp : result anyhow ();
}.

Inductive Listener := TlsListener (addr cert key : string) | PlainListener (addr : string).

(** What the readiness task is given. *)
Record ReadinessArgs := {
  ra_max_seq : Z;
  ra_workers : Z;
  ra_safety : f64;
  ra_cost_model_override : option CostModel;
  ra_cache_dir : string;
  ra_model_variant : string;
  ra_disable_probe_cache : bool;
}.

Inductive RunEvent :=
| CryptoProviderInstalled
| PoolSpawned (workers : Z) (config : WorkerConfig)
| Warmup (s : WarmupStep)
| AdaptiveWarmupSpawned (cfg : AdaptiveWarmupConfig)
| ReadinessSpawned (args : ReadinessArgs)
| HeartbeatSpawned (secs : Z)
| Serving (l : Listener).

(** ** The steps *)

Definition disable_probe_cache (lookup : string -> option string) : bool :=
  match lookup "BGE_M3_DISABLE_PROBE_CACHE" with
  | Some v => bool_decide (v = "1" \/ v = "true" \/ v = "yes")
  | None => false
  end.

Definition adaptive_config (cfg : Cfg.Config) : AdaptiveWarmupConfig :=
  {| aw_enabled := Cfg.adaptive_warmup_enabled cfg;
     quiet_secs := Cfg.adaptive_warmup_quiet_secs cfg;
     max_shapes_per_hour := Cfg.adaptive_warmup_max_shapes_per_hour cfg |}.

Definition readiness_args (world : RunWorld) (cfg : Cfg.Config) : ReadinessArgs :=
  {| ra_max_seq := Cfg.max_seq_length cfg; ra_workers := Cfg.workers cfg;
     ra_safety := Cfg.memory_safety_factor cfg;
     ra_cost_model_override := Cfg.cost_model_override cfg; ra_cache_dir := Cfg.cache_dir cfg;
     ra_model_variant := fmt_variant (Cfg.model_variant cfg);
     ra_disable_probe_cache := disable_probe_cache (lookup world) |}.

(** The end of the spawned readiness task: an error ends the process. *)
Definition readiness_exit (r : result anyhow ()) : option Exit :=
  match r with Err _ => Some (ExitCode 1) | Ok _ => None end.

Definition exit_of (r : result anyhow ()) : Exit :=
  match r with Ok _ => ExitOk | Err e => ExitErr e end.

(** The listener, until it ends. *)
Definition listen (world : RunWorld) (cfg : Cfg.Config) : list RunEvent * Exit :=
  match tls_build world, Cfg.tls_cert_path cfg, Cfg.tls_key_path cfg with
  | true, Some cert, Some key =>
      match from_pem_file world cert key with
      | Err e => ([], ExitErr (anyhow_msg ("TLS config error: " +:+ e)))
      | Ok _ =>
          match parse_socket_addr world (Cfg.bind_addr cfg) with
          | Err e => ([], ExitErr (anyhow_msg ("invalid bind addr: " +:+ e)))
          | Ok _ => ([Serving (TlsListener (Cfg.bind_addr cfg) cert key)], exit_of (serve_rustls world))
          end
      end
  | _, _, _ =>
      match bind_tcp world (Cfg.bind_addr cfg) with
      | Err e => ([], ExitErr e)
      | Ok _ => ([Serving (PlainListener (Cfg.bind_addr cfg))], exit_of (serve_tcp world))
      end
  end.

(** The serving branch, after the pool was spawned. *)
Definition run_serving (world : RunWorld) (cfg : Cfg.Config) : list RunEvent * Exit :=
  let '(evs, e) := listen world cfg in
  ((if jit_suspect_channel cfg then [AdaptiveWarmupSpawned (adaptive_config cfg)] else [])
   ++ [ReadinessSpawned (readiness_args world cfg)]
   ++ (if 0 <? Cfg.heartbeat_secs cfg then [HeartbeatSpawned (Cfg.heartbeat_secs cfg)] else [])
   ++ evs, e).

Definition run (world : RunWorld) : list RunEvent * Exit :=
  let provider := if tls_build world then [CryptoProviderInstalled] else [] in
  match Cfg.from_env (lookup world) (gpu_entries world) with
  | Err e => (provider, ExitErr e)
  | Ok cfg =>
      let wc := worker_config cfg in
      let spawned := provider ++ [PoolSpawned (clamp_workers wc (Cfg.workers cfg)) wc] in
      if Cfg.warmup_only cfg then
        let '(steps, e) := run_warmup_only cfg (init_result world) (wait_result world)
                             (can_create_cache world) (engine_entries world) (smi world) in
        (spawned ++ map Warmup steps, e)
      else
        let '(evs, e) := run_serving world cfg in (spawned ++ evs, e)
  end.

(** ** Lemmas *)

Lemma listen_single world cfg :
  fst (listen world cfg) = [] \/ exists l, fst (listen world cfg) = [Serving l].
Proof. unfold listen. repeat case_match; cbn [fst]; eauto. Qed.

Lemma run_warmup_events world cfg :
  Cfg.from_env (lookup world) (gpu_entries world) = Ok cfg -> Cfg.warmup_only cfg = true ->
  forall x, x ∈ fst (run world) ->
    x = CryptoProviderInstalled \/ (exists n wc, x = PoolSpawned n wc) \/ exists s, x = Warmup s.
Proof.
  intros Hc Hw x. unfold run. rewrite Hc, Hw. destruct (run_warmup_only _ _ _ _ _ _) as [steps e].
  cbn [fst]. rewrite !elem_of_app, list_elem_of_singleton, list_elem_of_fmap.
  intros [[Hx|Hx]|(s & Hx & _)]; [|by eauto|by eauto].
  destruct (tls_build world); [|inversion Hx]. apply list_elem_of_singleton in Hx. eauto.
Qed.

(** The events of a serving run. *)
Lemma run_serving_events world cfg :
  Cfg.from_env (lookup world) (gpu_entries world) = Ok cfg -> Cfg.warmup_only cfg = false ->
  exists pre mid, fst (run world) = pre ++ PoolSpawned (clamp_workers (worker_config cfg) (Cfg.workers cfg)) (worker_config cfg)
                                       :: mid ++ fst (listen world cfg) /\
    snd (run world) = snd (listen world cfg) /\
    ReadinessSpawned (readiness_args world cfg) ∈ mid /\
    (forall l, Serving l ∉ pre ++ mid) /\ pre = (if tls_build world then [CryptoProviderInstalled] else []).
Proof.
  intros Hc Hw. unfold run, run_serving. rewrite Hc, Hw.
  destruct (listen world cfg) as [evs e]. cbn [fst snd].
  set (pre := if tls_build world then _ else _). set (ad := if jit_suspect_channel cfg then _ else _).
  set (hb := if 0 <? _ then _ else _).
  exists pre, (ad ++ [ReadinessSpawned (readiness_args world cfg)] ++ hb). split_and!; try done.
  - by rewrite <- !app_assoc.
  - rewrite !elem_of_app, list_elem_of_singleton. auto.
  - intros l. rewrite !elem_of_app, list_elem_of_singleton. unfold pre, ad, hb.
    intros [Hx|[Hx|[Hx|Hx]]]; [| |done|]; revert Hx; case_match; rewrite ?list_elem_of_singleton;
      try done; by intros ?%elem_of_nil.
Qed.

Lemma from_env_tls lk entries cfg :
  Cfg.from_env lk entries = Ok cfg ->
  Cfg.tls_cert_path cfg = lk "BGE_M3_TLS_CERT_PATH" /\ Cfg.tls_key_path cfg = lk "BGE_M3_TLS_KEY_PATH".
Proof. unfold Cfg.from_env. destruct (Cfg.validate _); simpl; [|done]. by intros [= <-]. Qed.

(** [validate] passed, so the two paths are set together. *)
Lemma validate_tls lk entries cfg :
  Cfg.from_env lk entries = Ok cfg ->
  (Cfg.tls_cert_path cfg = None <-> Cfg.tls_key_path cfg = None).
Proof.
  unfold Cfg.from_env. destruct (Cfg.validate _) eqn:Hv; simpl; [|done]. intros [= <-].
  unfold Cfg.validate in Hv. by destruct (Cfg.tls_cert_path _), (Cfg.tls_key_path _).
Qed.

(** A run that serves: its configuration, and what it listened with. *)
Lemma serving_inv world l :
  Serving l ∈ fst (run world) ->
  exists cfg, Cfg.from_env (lookup world) (gpu_entries world) = Ok cfg /\
    Cfg.warmup_only cfg = false /\ fst (listen world cfg) = [Serving l].
Proof.
  intros Hin. destruct (Cfg.from_env (lookup world) (gpu_entries world)) as [cfg|e] eqn:Hc.
  - exists cfg. split; [done|]. destruct (Cfg.warmup_only cfg) eqn:Hw.
    { by destruct (run_warmup_events world cfg Hc Hw _ Hin) as [?|[(? & ? & ?)|[? ?]]]. }
    split; [done|]. destruct (run_serving_events world cfg Hc Hw) as (pre & mid & Hevs & _ & _ & Hno & _).
    rewrite Hevs in Hin. rewrite elem_of_app, elem_of_cons, elem_of_app in Hin.
    destruct Hin as [Hin|[Hin|[Hin|Hin]]]; [|done| |].
    + exfalso. apply (Hno l). rewrite elem_of_app. by left.
    + exfalso. apply (Hno l). rewrite elem_of_app. by right.
    + destruct (listen_single world cfg) as [Hl|[l' Hl]]; rewrite Hl in Hin |- *;
        [inversion Hin|by apply list_elem_of_singleton in Hin as [= ->]].
  - unfold run in Hin. rewrite Hc in Hin. cbn [fst] in Hin.
    destruct (tls_build world); [|inversion Hin]. by apply list_elem_of_singleton in Hin.
Qed.

(** ** Properties *)

(** C28: what a run of the process listens on.  It serves at most once, and only
    after the pool and the readiness task were spawned; a build with TLS serves
    plain HTTP only when neither TLS path is set, so a broken or half-set TLS
    configuration is never served in the clear; an environment [from_env] refuses
    spawns nothing, and a warmup-only run never listens nor probes. *)
Theorem run_listens_safely (world : RunWorld) :
  let evs := fst (run world) in
  (forall l, Serving l ∈ evs ->
     exists cfg pre args, Cfg.from_env (lookup world) (gpu_entries world) = Ok cfg /\
       Cfg.warmup_only cfg = false /\
       evs = pre ++ [Serving l] /\ (forall l', Serving l' ∉ pre) /\
       PoolSpawned (clamp_workers (worker_config cfg) (Cfg.workers cfg)) (worker_config cfg) ∈ pre /\
       ReadinessSpawned args ∈ pre /\ ra_workers args = Cfg.workers cfg) /\
  (forall addr, Serving (PlainListener addr) ∈ evs -> tls_build world = true ->
     lookup world "BGE_M3_TLS_CERT_PATH" = None /\ lookup world "BGE_M3_TLS_KEY_PATH" = None) /\
  (forall addr cert key, Serving (TlsListener addr cert key) ∈ evs ->
     tls_build world = true /\ lookup world "BGE_M3_TLS_CERT_PATH" = Some cert /\
     lookup world "BGE_M3_TLS_KEY_PATH" = Some key /\ from_pem_file world cert key = Ok tt) /\
  (forall e, Cfg.from_env (lookup world) (gpu_entries world) = Err e ->
     snd (run world) = ExitErr e /\ forall n wc, PoolSpawned n wc ∉ evs) /\
  (forall cfg args, Cfg.from_env (lookup world) (gpu_entries world) = Ok cfg ->
     Cfg.warmup_only cfg = true -> ReadinessSpawned args ∉ evs).
Proof.
  intros evs. split_and!.
  - intros l Hin. destruct (serving_inv world l Hin) as (cfg & Hc & Hw & Hl).
    destruct (run_serving_events world cfg Hc Hw) as (pre & mid & Hevs & _ & Hr & Hno & _).
    exists cfg, (pre ++ PoolSpawned (clamp_workers (worker_config cfg) (Cfg.workers cfg)) (worker_config cfg) :: mid),
      (readiness_args world cfg).
    split_and!; try done.
    + unfold evs. by rewrite Hevs, Hl, <- app_assoc.
    + intros l'. specialize (Hno l'). rewrite elem_of_app in Hno. rewrite elem_of_app, elem_of_cons. naive_solver.
    + rewrite elem_of_app, elem_of_cons. auto.
    + rewrite elem_of_app, elem_of_cons. auto.
  - intros addr Hin Ht. destruct (serving_inv world _ Hin) as (cfg & Hc & _ & Hl).
    pose proof (from_env_tls _ _ _ Hc) as [Hcert Hkey].
    pose proof (validate_tls _ _ _ Hc) as Hv.
    unfold listen in Hl. rewrite Ht in Hl. rewrite <- Hcert, <- Hkey.
    destruct (Cfg.tls_cert_path cfg) as [cert|], (Cfg.tls_key_path cfg) as [key|]; [|naive_solver..].
    by repeat case_match.
  - intros addr cert key Hin. destruct (serving_inv world _ Hin) as (cfg & Hc & _ & Hl).
    pose proof (from_env_tls _ _ _ Hc) as [<- <-]. unfold listen in Hl.
    destruct (tls_build world), (Cfg.tls_cert_path cfg) as [c|], (Cfg.tls_key_path cfg) as [k|];
      try (by repeat case_match). destruct (from_pem_file world c k) as [[]|] eqn:Hp; [|done].
    by destruct (parse_socket_addr _ _); simplify_eq/=.
  - intros e He. unfold evs, run. rewrite He. cbn [fst snd]. split; [done|].
    intros n wc. destruct (tls_build world); [rewrite list_elem_of_singleton; done|by intros ?%elem_of_nil].
  - intros cfg args Hc Hw Hin.
    by destruct (run_warmup_events world cfg Hc Hw _ Hin) as [?|[(? & ? & ?)|[? ?]]].
Qed.

(** A host without a GPU, with the environment [env]. *)
Definition example_run (tls : bool) (env : string -> option string) : RunWorld := {|
  tls_build := tls; lookup := env; gpu_entries := None;
  init_result := InitDone (Ok tt); wait_result := Drained; can_create_cache := true;
  engine_entries := Some []; smi _ := None;
  from_pem_file _ _ := Ok tt; parse_socket_addr _ := Ok tt; serve_rustls := Ok tt;
  bind_tcp _ := Ok tt; serve_tcp := Ok tt |}.

Definition tls_env (k : string) : option string :=
  if String.eqb k "BGE_M3_TLS_CERT_PATH" then Some "/tls/leaf.crt"
  else if String.eqb k "BGE_M3_TLS_KEY_PATH" then Some "/tls/leaf.key" else None.

Example run_values :
  last (fst (run (example_run true tls_env)))
    = Some (Serving (TlsListener "0.0.0.0:8081" "/tls/leaf.crt" "/tls/leaf.key")) /\
  last (fst (run (example_run false tls_env))) = Some (Serving (PlainListener "0.0.0.0:8081")) /\
  last (fst (run (example_run true (fun k => if String.eqb k "BGE_M3_WARMUP_ONLY" then Some "1" else None))))
    = Some (Warmup (EnginesCounted None 0)).
Proof. vm_compute. split_and!; reflexivity. Qed.
