(* ===== verification/Loading.v ===== *)
(** * Loading a model ([src/embedder/model_files.rs], [session.rs], [src/weights.rs])

    Which files of which pinned revision a worker fetches and in what order, the
    execution providers it registers, the steps that build a session, and the
    decoding of the bundled sparse projection.  The hub client, ONNX Runtime, the
    tokenizer library and the safetensors parser are parameters. *)

From Stdlib Require Import Floats.SpecFloat.
From S2P Require Import Prelude Float RustStr JitGuard TrtCache Types.
#[local] Open Scope Z_scope.

(** ** Model files *)

Definition REPO_ID : string := "BAAI/bge-m3".
Definition REPO_REVISION : string := "5617a9f61b028005a4858fdac845db406aefb181".
Definition XENOVA_REPO_ID : string := "Xenova/bge-m3".
Definition XENOVA_REPO_REVISION : string := "4de13258303883538bd53b696b452bf8099f0858".

Record ModelFiles := { onnx_path : string; tokenizer_path : string }.

Definition repo_of (variant : ModelVariant) : string * string :=
  match variant with
  | Fp32 => (REPO_ID, REPO_REVISION)
  | Fp16 | Int8 => (XENOVA_REPO_ID, XENOVA_REPO_REVISION)
  end.

Definition onnx_filename (variant : ModelVariant) : string :=
  match variant with
  | Fp32 => "onnx/model.onnx"
  | Fp16 => "onnx/model_fp16.onnx"
  | Int8 => "onnx/model_int8.onnx"
  end.

(** The components below the cache directory whose existence [is_model_cached]
    tests. *)
Definition snapshot_path (repo_id revision onnx_filename : string) : list string :=
  ["models--" +:+ replace_char "/" "--" repo_id; "snapshots"; revision; onnx_filename].

Definition is_model_cached (exists_ : list string -> bool) (repo_id revision onnx_filename : string) : bool :=
  exists_ (snapshot_path repo_id revision onnx_filename).

(** A file of a revision of a repository. *)
Record Fetch := { f_repo : string; f_revision : string; f_file : string }.

(** Computations that ask the hub for files: the requests, then the outcome. *)
Definition Traced (A : Type) : Type := list Fetch * result anyhow A.

#[export] Instance traced_ret : MRet Traced := fun A a => ([], Ok a).
#[export] Instance traced_bind : MBind Traced := fun A B f m =>
  match m with
  | (t, Err e) => (t, Err e)
  | (t, Ok a) => (t ++ fst (f a), snd (f a))
  end.

Definition no_fetch {A} (r : result anyhow A) : Traced A := ([], r).

Record Hub := {
  create_dir_all : result string ();
  api_build : result string ();
  repo_get : Fetch -> result string string;
}.

Section download.
Variables (hub : Hub) (cache_dir : string) (variant : ModelVariant).

Definition get (file : string) : Traced string :=
  let f := {| f_repo := fst (repo_of variant); f_revision := snd (repo_of variant); f_file := file |} in
  ([f], map_err (fun e => anyhow_msg ("Failed to get " +:+ file +:+ ": " +:+ e)) (repo_get hub f)).

Definition download_model_files : Traced ModelFiles :=
  _ ← no_fetch (map_err (fun e => anyhow_msg ("Cannot create or access model cache directory "
                                       +:+ cache_dir +:+ ": " +:+ e)) (create_dir_all hub));
  _ ← no_fetch (map_err (fun e => anyhow_msg ("Failed to build hf-hub API: " +:+ e)) (api_build hub));
  onnx_path ← match variant with
              | Fp32 => path ← get "onnx/model.onnx";
                        _ ← get "onnx/model.onnx_data";
                        _ ← get "onnx/Constant_7_attr__value";
                        mret path
              | Fp16 => get "onnx/model_fp16.onnx"
              | Int8 => get "onnx/model_int8.onnx"
              end;
  tokenizer_path ← get "tokenizer.json";
  mret {| onnx_path := onnx_path; tokenizer_path := tokenizer_path |}.
End download.

(** ** Execution providers *)

(** The providers the program registers, with what it sets on them. *)
Inductive Provider :=
| TensorRtEp (device : Z) (engine_cache timing_cache : string) (fp16 : bool)
             (max_workspace : option Z) (error_on_failure : bool)
| CudaEp (device : Z) (memory_limit : option Z) (error_on_failure : bool).

(** [u32::cast_signed] *)
Definition cast_signed (x : Z) : Z := if x <? 2 ^ 31 then x else x - 2 ^ 32.

(** [trt_build] and [cuda_build] are the features of the build (not macOS). *)
Definition execution_providers (trt_build cuda_build : bool) (cache_dir : string) (ep : EpSelection)
    (device_id : Z) (trt_max_workspace_bytes gpu_mem_limit_bytes : option Z) : list Provider :=
  if trt_build && bool_decide (ep = TensorRt) then
    [TensorRtEp (cast_signed device_id) (engine_cache_path cache_dir) (timing_cache_path cache_dir) true
       trt_max_workspace_bytes true]
  else if cuda_build && bool_decide (ep = Cuda) then
    [CudaEp (cast_signed device_id) gpu_mem_limit_bytes true]
  else [].

(** ** Sessions *)

Record GpuSessionConfig := {
  gs_cache_dir : string;
  gs_model_variant : ModelVariant;
  gs_max_seq_length : Z;
  gs_intra_threads : Z;
  gs_ep : EpSelection;
  gs_device_id : Z;
  gs_trt_max_workspace_bytes : option Z;
  gs_gpu_mem_limit_bytes : option Z;
}.

(** [ort]'s session builder and [tokenizers]; an error is its text. *)
Class Ort (Builder OrtSession Tokenizer : Type) := {
  builder : result string Builder;
  with_execution_providers : list Provider -> Builder -> result string Builder;
  with_optimization_level3 : Builder -> result string Builder;
  with_intra_threads : Z -> Builder -> result string Builder;
  commit_from_file : string -> Builder -> result string OrtSession;
  from_file : string -> result string Tokenizer;
  with_truncation : Z -> Tokenizer -> result string Tokenizer;
  without_padding : Tokenizer -> Tokenizer;
}.

Section session.
Context {Builder OrtSession Tokenizer : Type} `{Ort Builder OrtSession Tokenizer}.

Definition ort_result {A} (r : result string A) : result anyhow A := map_err anyhow_msg r.

Definition load_session (model_path : string) (eps : list Provider) (intra_threads : Z)
  : result anyhow OrtSession :=
  b ← ort_result builder;
  b ← (if bool_decide (eps = []) then Ok b else ort_result (with_execution_providers eps b));
  b ← ort_result (with_optimization_level3 b);
  b ← ort_result (with_intra_threads (Z.max intra_threads 1) b);
  ort_result (commit_from_file model_path b).

(** [load_tokenizer] of [tokenize.rs] *)
Definition load_tokenizer (path : string) (max_seq_length : Z) : result anyhow Tokenizer :=
  t ← map_err (fun e => anyhow_msg ("Failed to load tokenizer: " +:+ e)) (from_file path);
  t ← map_err (fun e => anyhow_msg ("Failed to set truncation: " +:+ e)) (with_truncation max_seq_length t);
  Ok (without_padding t).

Definition load_models (trt_build cuda_build : bool) (hub : Hub) (cfg : GpuSessionConfig)
  : Traced (OrtSession * Tokenizer) :=
  files ← download_model_files hub (gs_cache_dir cfg) (gs_model_variant cfg);
  tokenizer ← no_fetch (load_tokenizer (tokenizer_path files) (gs_max_seq_length cfg));
  let eps := execution_providers trt_build cuda_build (gs_cache_dir cfg) (gs_ep cfg) (gs_device_id cfg)
               (gs_trt_max_workspace_bytes cfg) (gs_gpu_mem_limit_bytes cfg) in
  session ← no_fetch (load_session (onnx_path files) eps (gs_intra_threads cfg));
  mret (session, tokenizer).
End session.

(** ** The sparse projection *)

(** [f32::from_bits]: IEEE binary32. *)
Definition f32_of_bits (b : Z) : f32 :=
  let s := bool_decide (2 ^ 31 <= b) in
  let e := (b / 2 ^ 23) mod 2 ^ 8 in
  let m := b mod 2 ^ 23 in
  if e =? 255 then (if m =? 0 then S754_infinity s else S754_nan)
  else if e =? 0 then (match m with Zpos p => S754_finite s p (-149) | _ => S754_zero s end)
  else match m + 2 ^ 23 with Zpos p => S754_finite s p (e - 150) | _ => S754_nan end.

Definition f32_from_le_bytes (b0 b1 b2 b3 : Z) : f32 :=
  f32_of_bits (b0 + 2 ^ 8 * b1 + 2 ^ 16 * b2 + 2 ^ 24 * b3).

(** [chunks_exact(4)], each read as an [f32]. *)
Fixpoint f32_chunks (data : list Z) : list f32 :=
  match data with
  | b0 :: b1 :: b2 :: b3 :: rest => f32_from_le_bytes b0 b1 b2 b3 :: f32_chunks rest
  | _ => []
  end.

Definition assert_ (b : bool) : M () := if b then Ok () else Err Panic.

(** [tensor name] is the data of a tensor of the file; [None] does not parse. *)
Definition sparse_linear (tensors : option (string -> option (list Z))) : M (list f32 * f32) :=
  tensor ← expect tensors;
  weight_data ← expect (tensor "weight");
  bias_data ← expect (tensor "bias");
  _ ← assert_ (Z.of_nat (length weight_data) mod 4 =? 0);
  let weight := f32_chunks weight_data in
  _ ← assert_ (Z.of_nat (length bias_data) =? 4);
  bias ← (match bias_data with
          | b0 :: b1 :: b2 :: b3 :: _ => Ok (f32_from_le_bytes b0 b1 b2 b3)
          | _ => Err Panic
          end);
  _ ← assert_ (Z.of_nat (length weight) =? 1024);
  Ok (weight, bias).

(** ** Lemmas *)

(** The files a variant needs, in the order they are fetched. *)
Definition required_files (variant : ModelVariant) : list string :=
  onnx_filename variant
  :: (match variant with Fp32 => ["onnx/model.onnx_data"; "onnx/Constant_7_attr__value"] | _ => [] end)
  ++ ["tokenizer.json"].

Definition pinned (variant : ModelVariant) (file : string) : Fetch :=
  {| f_repo := fst (repo_of variant); f_revision := snd (repo_of variant); f_file := file |}.

(** The requests are a prefix of the files needed; all of them on success. *)
(** The outcome of a download when every answer of the hub is known. *)
Ltac hub_rewrite := repeat match goal with H : repo_get _ _ = _ |- _ => rewrite H; clear H end.
Ltac hub_outcomes :=
  first
  [ split_and!; [done|repeat first [apply Forall_nil_2 | apply Forall_cons_2]; hub_rewrite; done|done|done]
  | right; right; eexists [], _; split; [reflexivity|by hub_rewrite]
  | right; right; eexists [_], _; split; [reflexivity|by hub_rewrite]
  | right; right; eexists [_; _], _; split; [reflexivity|by hub_rewrite]
  | right; right; eexists [_; _; _], _; split; [reflexivity|by hub_rewrite] ].

Lemma download_trace hub cache_dir variant :
  let '(t, r) := download_model_files hub cache_dir variant in
  t `prefix_of` map (pinned variant) (required_files variant) /\
  match r with
  | Ok files =>
      t = map (pinned variant) (required_files variant) /\
      Forall (fun f => is_ok (repo_get hub f) = true) t /\
      repo_get hub (pinned variant (onnx_filename variant)) = Ok (onnx_path files) /\
      repo_get hub (pinned variant "tokenizer.json") = Ok (tokenizer_path files)
  | Err _ =>
      is_err (create_dir_all hub) = true \/ is_err (api_build hub) = true \/
      exists pre f, t = pre ++ [f] /\ is_err (repo_get hub f) = true
  end.
Proof.
  unfold download_model_files, no_fetch.
  destruct (create_dir_all hub) as [[]|e]; [|by split; [apply prefix_nil|left]].
  destruct (api_build hub) as [[]|e]; [|by split; [apply prefix_nil|right; left]].
  cbn [mbind traced_bind map_err fst snd app].
  destruct variant; unfold get, mret, traced_ret, pinned, required_files; cbn -[repo_get];
    repeat match goal with |- context [repo_get hub ?f] => destruct (repo_get hub f) eqn:?; cbn -[repo_get] end;
    (split; [by eexists|]); hub_outcomes.
Qed.

(** A loaded session passed the registration of its providers. *)
Lemma load_session_registers {Builder OrtSession Tokenizer} `{Ort Builder OrtSession Tokenizer}
    model_path eps threads s :
  load_session model_path eps threads = Ok s -> eps <> [] ->
  exists b b', builder = Ok b /\ with_execution_providers eps b = Ok b'.
Proof.
  unfold load_session. intros Hs Hne.
  destruct builder as [b|]; simpl in Hs; [|done].
  rewrite bool_decide_false in Hs by done. exists b.
  destruct (with_execution_providers _ b) as [b'|]; simpl in Hs; [by exists b'|done].
Qed.

Lemma f32_chunks_app_four b0 b1 b2 b3 l :
  f32_chunks ([b0; b1; b2; b3] ++ l) = f32_from_le_bytes b0 b1 b2 b3 :: f32_chunks l.
Proof. done. Qed.

(** The little-endian bytes of a 32-bit pattern. *)
Definition le_bytes (b : Z) : list Z :=
  [b mod 2 ^ 8; (b / 2 ^ 8) mod 2 ^ 8; (b / 2 ^ 16) mod 2 ^ 8; (b / 2 ^ 24) mod 2 ^ 8].

Lemma le_bytes_decode b : 0 <= b <= U32_MAX ->
  b mod 2 ^ 8 + 2 ^ 8 * ((b / 2 ^ 8) mod 2 ^ 8) + 2 ^ 16 * ((b / 2 ^ 16) mod 2 ^ 8)
  + 2 ^ 24 * ((b / 2 ^ 24) mod 2 ^ 8) = b.
Proof.
  unfold U32_MAX. intros Hb.
  replace (b / 2 ^ 16) with (b / 2 ^ 8 / 2 ^ 8) by (rewrite Z.div_div; [done|lia|lia]).
  replace (b / 2 ^ 24) with (b / 2 ^ 8 / 2 ^ 8 / 2 ^ 8) by (rewrite !Z.div_div by lia; done).
  pose proof (Z.div_mod b (2 ^ 8) ltac:(lia)). pose proof (Z.div_mod (b / 2 ^ 8) (2 ^ 8) ltac:(lia)).
  pose proof (Z.div_mod (b / 2 ^ 8 / 2 ^ 8) (2 ^ 8) ltac:(lia)).
  rewrite (Z.mod_small (b / 2 ^ 8 / 2 ^ 8 / 2 ^ 8)); [lia|].
  rewrite !Z.div_div by lia. split; [apply Z.div_pos; lia|]. apply Z.div_lt_upper_bound; lia.
Qed.

Lemma f32_chunks_le bits :
  Forall (fun b => 0 <= b <= U32_MAX) bits ->
  f32_chunks (concat (map le_bytes bits)) = map f32_of_bits bits.
Proof.
  induction 1 as [|b bits Hb _ IH]; [done|]. cbn [map concat]. unfold le_bytes at 1.
  rewrite f32_chunks_app_four, IH. f_equal. unfold f32_from_le_bytes. by rewrite le_bytes_decode.
Qed.

Lemma f32_chunks_length l : (length (f32_chunks l) = length l / 4)%nat.
Proof.
  remember (length l) as n eqn:Hn. revert l Hn. induction (lt_wf n) as [n _ IH]. intros l ->.
  destruct l as [|b0 [|b1 [|b2 [|b3 l]]]]; try done. cbn [f32_chunks length].
  rewrite (IH (length l)) by (simpl; lia || done).
  replace (S (S (S (S (length l))))) with (length l + 1 * 4)%nat by lia.
  rewrite Nat.div_add by done. lia.
Qed.

(** The patterns of binary32: what [from_bits] yields is a value of the format, and
    the pattern can be read back from every value but NaN. *)
Definition f32_to_bits (x : f32) : Z :=
  match x with
  | S754_zero s => if s then 2 ^ 31 else 0
  | S754_infinity s => (if s then 2 ^ 31 else 0) + 255 * 2 ^ 23
  | S754_nan => 2 ^ 31 - 1
  | S754_finite s m e =>
      (if s then 2 ^ 31 else 0)
      + (if Zpos m <? 2 ^ 23 then Zpos m else (e + 150) * 2 ^ 23 + (Zpos m - 2 ^ 23))
  end.

Lemma f32_bits_roundtrip b :
  0 <= b <= U32_MAX -> is_nan (f32_of_bits b) = false -> f32_to_bits (f32_of_bits b) = b.
Proof.
  unfold U32_MAX. intros Hb. unfold f32_of_bits.
  set (s := bool_decide (2 ^ 31 <= b)).
  assert (Hs : (if s then 2 ^ 31 else 0) = 2 ^ 31 * (b / 2 ^ 31)).
  { unfold s. case_bool_decide.
    - rewrite <- (Z.div_unique b (2 ^ 31) 1 (b - 2 ^ 31)); [done|left; lia|lia].
    - rewrite Z.div_small; [done|lia]. }
  assert (Hdec : b = 2 ^ 31 * (b / 2 ^ 31) + 2 ^ 23 * ((b / 2 ^ 23) mod 2 ^ 8) + b mod 2 ^ 23).
  { replace (b / 2 ^ 31) with (b / 2 ^ 23 / 2 ^ 8) by (rewrite Z.div_div; [done|lia|lia]).
    pose proof (Z.div_mod b (2 ^ 23) ltac:(lia)).
    pose proof (Z.div_mod (b / 2 ^ 23) (2 ^ 8) ltac:(lia)). lia. }
  assert (Hm : 0 <= b mod 2 ^ 23 < 2 ^ 23) by (apply Z.mod_pos_bound; lia).
  assert (He : 0 <= (b / 2 ^ 23) mod 2 ^ 8 < 256) by (apply Z.mod_pos_bound; lia).
  revert Hdec Hm He. generalize (b mod 2 ^ 23) ((b / 2 ^ 23) mod 2 ^ 8). intros m e Hdec Hm He.
  destruct (e =? 255) eqn:He1; bool_to_prop.
  - destruct (m =? 0) eqn:Hm0; bool_to_prop; [|done]. intros _. cbn [f32_to_bits]. rewrite Hs. lia.
  - destruct (e =? 0) eqn:He0; bool_to_prop.
    + intros _. destruct m as [|p|p]; [cbn [f32_to_bits]; lia| |lia]. cbn [f32_to_bits].
      rewrite (proj2 (Z.ltb_lt _ _)) by lia. lia.
    + destruct (m + 2 ^ 23) as [|p|p] eqn:Hp; [lia| |lia]. intros _. cbn [f32_to_bits].
      rewrite (proj2 (Z.ltb_ge _ _)) by lia. lia.
Qed.

(** ** Properties *)

(** a worker only ever loads the pinned model: every request goes to the pinned
    revision of the repository of its variant and asks for the files of the variant
    in their order; a success means that all of them were fetched and that the
    paths handed on are those of the ONNX file and the tokenizer, the ONNX file
    being the one the cache check looks for; an unusable cache directory fails
    before any request. *)
Theorem downloads_pinned hub cache_dir variant :
  let t := fst (download_model_files hub cache_dir variant) in
  (t `prefix_of` map (pinned variant) (required_files variant)) /\
  (forall files, snd (download_model_files hub cache_dir variant) = Ok files ->
     t = map (pinned variant) (required_files variant) /\
     Forall (fun f => is_ok (repo_get hub f) = true) t /\
     repo_get hub (pinned variant (onnx_filename variant)) = Ok (onnx_path files) /\
     repo_get hub (pinned variant "tokenizer.json") = Ok (tokenizer_path files)) /\
  (forall e, create_dir_all hub = Err e -> t = []) /\
  (forall e, snd (download_model_files hub cache_dir variant) = Err e ->
     is_err (create_dir_all hub) = true \/ is_err (api_build hub) = true \/
     exists pre f, t = pre ++ [f] /\ is_err (repo_get hub f) = true).
Proof.
  intros t. unfold t. pose proof (download_trace hub cache_dir variant) as Ht.
  assert (Hdir : forall e, create_dir_all hub = Err e -> fst (download_model_files hub cache_dir variant) = []).
  { intros e He. unfold download_model_files. by rewrite He. }
  destruct (download_model_files hub cache_dir variant) as [tr [files|err]]; simpl in *;
    destruct Ht as [Hpre Hres].
  - split_and!; [done|by intros ? [= <-]|done|done].
  - split_and!; [done|done|done|by intros ? [= <-]].
Qed.

Definition example_hub : Hub :=
  {| create_dir_all := Ok (); api_build := Ok ();
     repo_get f := Ok ("/cache/" +:+ f_revision f +:+ "/" +:+ f_file f) |}.

Lemma downloads_pinned_witness :
  fst (download_model_files example_hub "/cache" Fp32)
  = map (pinned Fp32) ["onnx/model.onnx"; "onnx/model.onnx_data"; "onnx/Constant_7_attr__value"; "tokenizer.json"].
Proof.
  destruct (downloads_pinned example_hub "/cache" Fp32) as (_ & Hok & _).
  destruct (Hok {| onnx_path := "/cache/5617a9f61b028005a4858fdac845db406aefb181/onnx/model.onnx";
                   tokenizer_path := "/cache/5617a9f61b028005a4858fdac845db406aefb181/tokenizer.json" |})
    as (Ht & _); [vm_compute; reflexivity|].
  exact Ht.
Defined.

(** A GPU deployment never falls back to the CPU silently: a provider is
    registered exactly when the build has it and the configuration asks for it, it
    is then the only one, pinned to the worker's device, and an error on its
    registration is an error of the load; a loaded session therefore passed the
    registration.  Without the build feature the list is empty and the session
    runs on the CPU. *)
Theorem no_silent_cpu_fallback {Builder OrtSession Tokenizer} `{Ort Builder OrtSession Tokenizer}
    trt_build cuda_build dir ep device ws lim model_path threads :
  let eps := execution_providers trt_build cuda_build dir ep device ws lim in
  0 <= device < 2 ^ 31 ->
  (ep = TensorRt -> trt_build = true ->
   eps = [TensorRtEp device (engine_cache_path dir) (timing_cache_path dir) true ws true]) /\
  (ep = Cuda -> cuda_build = true -> eps = [CudaEp device lim true]) /\
  (eps = [] <-> ~ (ep = TensorRt /\ trt_build = true) /\ ~ (ep = Cuda /\ cuda_build = true)) /\
  (forall s, load_session model_path eps threads = Ok s -> eps <> [] ->
   exists b b', builder = Ok b /\ with_execution_providers eps b = Ok b').
Proof.
  intros eps Hd. assert (Hc : cast_signed device = device).
  { unfold cast_signed. by rewrite (proj2 (Z.ltb_lt _ _)) by lia. }
  split_and!; [| | |intros s; apply load_session_registers]; unfold eps, execution_providers; rewrite Hc.
  - by intros -> ->.
  - intros -> ->. by rewrite andb_false_r.
  - destruct trt_build, cuda_build, ep; simpl; naive_solver.
Qed.

(** A stand-in for the session builder that records what it was given. *)
#[export] Instance example_ort : Ort (list Provider) (string * list Provider) Z := {|
  builder := Ok [];
  with_execution_providers eps _ := Ok eps;
  with_optimization_level3 b := Ok b;
  with_intra_threads _ b := Ok b;
  commit_from_file path b := Ok (path, b);
  from_file _ := Ok 0;
  with_truncation n _ := Ok n;
  without_padding t := t
|}.

Lemma no_silent_cpu_fallback_witness :
  execution_providers true true "/cache" TensorRt 3 None None
  = [TensorRtEp 3 "/cache/trt-engines" "/cache/trt-timing" true None true].
Proof.
  destruct (no_silent_cpu_fallback true true "/cache" TensorRt 3 None None "/m.onnx" 1) as (Ht & _);
    [lia|].
  exact (Ht eq_refl eq_refl).
Defined.

(** The bundled projection decodes exactly: from the little-endian bytes of
    1024 patterns and of one bias it returns those binary32 values; it never
    returns from a file of any other size, an unparsable one or one without the
    tensors; and no pattern but NaN's is lost in the decoding. *)
Theorem sparse_linear_decodes (tensor : string -> option (list Z)) bits bias :
  (forall w b, sparse_linear (Some tensor) = Ok (w, b) ->
     exists wd bd, tensor "weight" = Some wd /\ tensor "bias" = Some bd /\
       length wd = (4 * 1024)%nat /\ length bd = 4%nat /\ length w = 1024%nat) /\
  sparse_linear None = Err Panic /\
  (Forall (fun b => 0 <= b <= U32_MAX) bits -> length bits = 1024%nat -> 0 <= bias <= U32_MAX ->
   tensor "weight" = Some (concat (map le_bytes bits)) -> tensor "bias" = Some (le_bytes bias) ->
   exists w b, sparse_linear (Some tensor) = Ok (w, b) /\ w = map f32_of_bits bits /\
     b = f32_of_bits bias /\
     (is_nan b = false -> f32_to_bits b = bias) /\
     (Forall (fun x => is_nan x = false) w -> map f32_to_bits w = bits)).
Proof.
  split_and!; [|done|].
  - intros w b. unfold sparse_linear, assert_. cbn [mbind result_bind expect].
    destruct (tensor "weight") as [wd|]; cbn [mbind result_bind expect]; [|done].
    destruct (tensor "bias") as [bd|]; cbn [mbind result_bind expect]; [|done].
    destruct (_ mod 4 =? 0) eqn:Hm; cbn [mbind result_bind]; [|done].
    destruct (Z.of_nat (length bd) =? 4) eqn:Hb; cbn [mbind result_bind]; [|done].
    destruct bd as [|b0 [|b1 [|b2 [|b3 bd]]]]; cbn [mbind result_bind]; try done.
    destruct (Z.of_nat (length (f32_chunks wd)) =? 1024) eqn:Hw; cbn [mbind result_bind]; [|done].
    intros [= <- <-]. bool_to_prop. exists wd, (b0 :: b1 :: b2 :: b3 :: bd).
    rewrite f32_chunks_length in Hw. split_and!; [done|done| |lia|rewrite f32_chunks_length; lia].
    change 4 with (Z.of_nat 4) in Hm. rewrite <- Nat2Z.inj_mod in Hm.
    pose proof (Nat.div_mod (length wd) 4). lia.
  - intros Hbits Hlen Hbias Hw Hb. exists (map f32_of_bits bits), (f32_of_bits bias).
    split; [|split_and!; [done|done|by apply f32_bits_roundtrip|]].
    + unfold sparse_linear, assert_. cbn [mbind result_bind expect]. rewrite Hw. cbn [mbind result_bind expect].
      rewrite Hb. cbn [mbind result_bind expect].
      rewrite (concat_uniform_length _ 4), length_map, Hlen by by apply Forall_map, Forall_true.
      rewrite f32_chunks_le by done. rewrite length_map, Hlen. cbn -[f32_of_bits f32_from_le_bytes map le_bytes].
      unfold le_bytes, f32_from_le_bytes. by rewrite le_bytes_decode.
    + clear -Hbits. induction Hbits as [|b bits Hb _ IH]; [done|]. cbn [map].
      intros [Hn Hns]%Forall_cons. rewrite IH by done. by rewrite f32_bits_roundtrip.
Qed.

(** The pattern of 1.0. *)
Definition one_bits : Z := 127 * 2 ^ 23.

Definition example_tensor (name : string) : option (list Z) :=
  if String.eqb name "weight" then Some (concat (map le_bytes (replicate 1024 one_bits)))
  else Some (le_bytes one_bits).

Lemma sparse_linear_decodes_witness :
  exists w b, sparse_linear (Some example_tensor) = Ok (w, b) /\ b = f32_of_bits one_bits.
Proof.
  destruct (sparse_linear_decodes example_tensor (replicate 1024 one_bits) one_bits) as (_ & _ & Hd).
  destruct Hd as (w & b & He & _ & Hb & _).
  - apply Forall_replicate. unfold one_bits, U32_MAX. lia.
  - apply length_replicate.
  - unfold one_bits, U32_MAX. lia.
  - reflexivity.
  - reflexivity.
  - exists w, b. exact (conj He Hb).
Defined.
