(* ===== verification/GpuStats.v ===== *)
(** * GPU heartbeat events ([src/gpu_stats.rs], the NVML build)

    The events one heartbeat tick emits; NVML is a parameter. *)

From S2P Require Import Prelude Float.
#[local] Open Scope Z_scope.

(** What NVML answers; [None] is an error, which is logged and skips the device. *)
Class Nvml (Device : Type) := {
  device_by_index : Z -> option Device;
  memory_info : Device -> option (Z * Z);  (* used, total *)
  utilization_rates : Device -> option Z;
  temperature : Device -> option Z;
}.

Record GpuHeartbeat := {
  gpu_device : Z;
  vram_used_mb : Z;
  vram_total_mb : Z;
  vram_utilization_pct : f32;
  gpu_utilization_pct : Z;
  gpu_temp_c : Z;
  gpu_temp_f : Z;
}.

(** The handle [init] leaves behind: the GPU count when NVML is available. *)
Inductive NvmlState := Ready (gpu_count : Z) | Unavailable.

(** [GpuStatsCollector::init]: without NVML the collector stays silent. *)
Definition collector_init (nvml : bool) (gpu_count : Z) : NvmlState :=
  if nvml then Ready gpu_count else Unavailable.

Definition fahrenheit (c : Z) : Z := wrap32 (wrap32 (c * 9) / 5 + 32).

Section heartbeat.
Context `{Nvml Device}.

Definition vram_pct (used total : Z) : f32 :=
  if 0 <? total then f32_mul (f32_div (f32_of_Z used) (f32_of_Z total)) (f32_of_Z 100) else f_zero.

(** One iteration of the loop over the devices. *)
Definition device_event (device_idx : nat) : option GpuHeartbeat :=
  let idx := wrap32 (Z.of_nat device_idx) in
  device ← device_by_index idx;
  '(used, total) ← memory_info device;
  gpu ← utilization_rates device;
  temp ← temperature device;
  Some {| gpu_device := idx;
          vram_used_mb := used / (1024 * 1024);
          vram_total_mb := total / (1024 * 1024);
          vram_utilization_pct := vram_pct used total;
          gpu_utilization_pct := gpu;
          gpu_temp_c := temp;
          gpu_temp_f := fahrenheit temp |}.

Definition emit_heartbeat (state : NvmlState) : list GpuHeartbeat :=
  match state with
  | Ready gpu_count => omap device_event (seq 0 (Z.to_nat gpu_count))
  | Unavailable => []
  end.

(** A device is reported exactly when all its readings succeed, and an unreadable
    one does not stop the loop. *)
Lemma heartbeat_reports gpu_count e :
  e ∈ emit_heartbeat (Ready gpu_count) <->
  exists i, (i < Z.to_nat gpu_count)%nat /\ device_event i = Some e.
Proof.
  cbn [emit_heartbeat]. rewrite list_elem_of_omap. setoid_rewrite elem_of_seq. split.
  - intros (i & Hi & He). exists i. split; [lia|done].
  - intros (i & Hi & He). exists i. split; [lia|done].
Qed.

(** The conversion does not overflow in any physical range. *)
Lemma fahrenheit_exact c : 0 <= c <= 10 ^ 8 -> fahrenheit c = c * 9 / 5 + 32.
Proof.
  intros Hc. unfold fahrenheit, wrap32. rewrite (Z.mod_small (c * 9)) by lia.
  apply Z.mod_small. split; [pose proof (Z.div_pos (c * 9) 5); lia|].
  assert (c * 9 / 5 <= c * 9) by (apply Z.div_le_upper_bound; lia). lia.
Qed.
End heartbeat.
