(* ===== verification/EvalMetrics.v ===== *)
(** * Metrics of the FP16 evaluation ([examples/fp16_eval.rs])

    The four fidelity metrics of the evaluation program, their summary and the
    decision whether the targets are met.  All arithmetic is [f64]; the iteration
    order of a [HashMap] is a parameter ([HashOrder]). *)

From Stdlib Require Import SpecFloat.
From stdpp Require Import fin_sets gmap.
From S2P Require Import Prelude Float.

(** ** Dense metrics *)

Definition dot64 (a b : list f32) : f64 :=
  f64_sum (zip_with (fun x y => f64_mul (f64_of_f32 x) (f64_of_f32 y)) a b).

Definition norm64 (a : list f32) : f64 :=
  f64_sqrt (f64_sum (map (fun x => f64_mul (f64_of_f32 x) (f64_of_f32 x)) a)).

Definition cosine_similarity (a b : list f32) : f64 :=
  let dot := dot64 a b in
  let norm_a := norm64 a in
  let norm_b := norm64 b in
  if f_eq norm_a f_zero || f_eq norm_b f_zero then f_zero
  else f64_div dot (f64_mul norm_a norm_b).

Definition max_abs_diff (a b : list f32) : f64 :=
  foldl f_max f_zero
    (zip_with (fun x y => f_abs (f64_sub (f64_of_f32 x) (f64_of_f32 y))) a b).

(** ** Sparse metrics *)

Definition jaccard_index (a b : list Z) : f64 :=
  let set_a : gset Z := list_to_set a in
  let set_b : gset Z := list_to_set b in
  let intersection := Z.of_nat (size (set_a ∩ set_b)) in
  let union := Z.of_nat (size (set_a ∪ set_b)) in
  if union =? 0 then f64_of_Z 1
  else f64_div (f64_of_Z intersection) (f64_of_Z union).

(** The order in which a [HashMap] yields its keys. *)
Class HashOrder := {
  map_keys : gmap Z f32 -> list Z;
  map_keys_perm m : map_keys m ≡ₚ map fst (map_to_list m);
}.

(** [zip(..).collect::<HashMap<_, _>>()]: a later entry replaces an earlier one. *)
Definition collect_map (ks : list Z) (vs : list f32) : gmap Z f32 :=
  foldl (fun m kv => <[kv.1 := kv.2]> m) ∅ (zip ks vs).

(** The loop that accumulates the covariance and the two variances. *)
Definition moments (mean_a mean_b : f64) (acc : f64 * f64 * f64) (p : f64 * f64) : f64 * f64 * f64 :=
  let '(cov, var_a, var_b) := acc in
  let da := f64_sub p.1 mean_a in
  let db := f64_sub p.2 mean_b in
  (f64_add cov (f64_mul da db), f64_add var_a (f64_mul da da), f64_add var_b (f64_mul db db)).

Definition weight_correlation `{HashOrder} (a_indices : list Z) (a_values : list f32)
    (b_indices : list Z) (b_values : list f32) : f64 :=
  let a_map := collect_map a_indices a_values in
  let b_map := collect_map b_indices b_values in
  let shared := filter (fun k => is_Some (b_map !! k)) (map_keys a_map) in
  if (length shared <? 2)%nat then S754_nan
  else
    let a_vals := map (fun k => f64_of_f32 (default f_zero (a_map !! k))) shared in
    let b_vals := map (fun k => f64_of_f32 (default f_zero (b_map !! k))) shared in
    let n := f64_of_Z (Z.of_nat (length shared)) in
    let mean_a := f64_div (f64_sum a_vals) n in
    let mean_b := f64_div (f64_sum b_vals) n in
    let '(cov, var_a, var_b) :=
      foldl (moments mean_a mean_b) (f_zero, f_zero, f_zero) (zip a_vals b_vals) in
    if f_eq var_a f_zero || f_eq var_b f_zero then f64_of_Z 1
    else f64_div cov (f64_mul (f64_sqrt var_a) (f64_sqrt var_b)).

(** ** Summary and decision *)

(** [(min, mean, max)] *)
Definition stats (vals : list f64) : f64 * f64 * f64 :=
  if bool_decide (vals = []) then (S754_nan, S754_nan, S754_nan)
  else
    let min := foldl f_min (S754_infinity false) vals in
    let max := foldl f_max (S754_infinity true) vals in
    let mean := f64_div (f64_sum vals) (f64_of_Z (Z.of_nat (length vals))) in
    (min, mean, max).

Definition stats_min (vals : list f64) : f64 := (stats vals).1.1.
Definition stats_max (vals : list f64) : f64 := (stats vals).2.

(** The four series the program collects over all scenarios. *)
Record Series := {
  dense_cosines : list f64;
  dense_diffs : list f64;
  sparse_jaccards : list f64;
  sparse_correlations : list f64;
}.

Record Targets := {
  dense_pass : bool;
  diff_pass : bool;
  jaccard_pass : bool;
  corr_pass : bool;
}.

Definition targets (s : Series) : Targets := {|
  dense_pass := f_gt (stats_min (dense_cosines s)) (f64_lit 999 1000);
  diff_pass := f_lt (stats_max (dense_diffs s)) (f64_lit 1 100);
  jaccard_pass := f_gt (stats_min (sparse_jaccards s)) (f64_lit 95 100);
  corr_pass := f_gt (stats_min (sparse_correlations s)) (f64_lit 99 100);
|}.

Definition all_pass (t : Targets) : bool :=
  dense_pass t && diff_pass t && jaccard_pass t && corr_pass t.

(** ** The summary and NaN *)

Lemma fold_min_gt acc l c : is_nan acc = false ->
  f_gt (foldl f_min acc l) c = f_gt acc c && forallb (fun x => is_nan x || f_gt x c) l.
Proof.
  revert acc. induction l as [|x l IH]; intros acc Ha; simpl; [by rewrite andb_true_r|].
  rewrite IH by (by apply f_min_not_nan). by rewrite f_min_gt, andb_assoc.
Qed.

Lemma fold_max_lt acc l c : is_nan acc = false ->
  f_lt (foldl f_max acc l) c = f_lt acc c && forallb (fun x => is_nan x || f_lt x c) l.
Proof.
  revert acc. induction l as [|x l IH]; intros acc Ha; simpl; [by rewrite andb_true_r|].
  rewrite IH by (by apply f_max_not_nan). by rewrite f_max_lt, andb_assoc.
Qed.

(** A finite bound. *)
Definition is_finite (c : f64) : bool :=
  match c with S754_zero _ | S754_finite _ _ _ => true | _ => false end.

Lemma stats_min_gt l c : is_finite c = true ->
  f_gt (stats_min l) c = negb (bool_decide (l = [])) && forallb (fun x => is_nan x || f_gt x c) l.
Proof.
  intros Hc. unfold stats_min, stats. case_bool_decide; simpl.
  - subst l. unfold f_gt. change SFltb with f_lt. apply f_lt_nan_r.
  - rewrite fold_min_gt by done. by destruct c as [[]|[]| |[]].
Qed.

Lemma stats_max_lt l c : is_finite c = true ->
  f_lt (stats_max l) c = negb (bool_decide (l = [])) && forallb (fun x => is_nan x || f_lt x c) l.
Proof.
  intros Hc. unfold stats_max, stats. case_bool_decide; simpl; [done|].
  rewrite fold_max_lt by done. by destruct c as [[]|[]| |[]].
Qed.

(** ** Metrics on NaN *)

Lemma fold_nan (f : f64 -> f64 -> f64) l :
  (forall x, f S754_nan x = S754_nan) -> foldl f S754_nan l = S754_nan.
Proof. intros Hf. induction l as [|x l IH]; simpl; [done|]. by rewrite Hf. Qed.

Lemma f64_add_nan_r x : f64_add x S754_nan = S754_nan.
Proof. by destruct x. Qed.
Lemma f64_mul_nan_r x : f64_mul x S754_nan = S754_nan.
Proof. by destruct x. Qed.
Lemma f64_sub_nan_r x : f64_sub x S754_nan = S754_nan.
Proof. by destruct x. Qed.
Lemma f64_div_nan_l y : f64_div S754_nan y = S754_nan.
Proof. done. Qed.

(** A vector of NaN, as an overflow in half precision yields. *)
Definition all_nan (b : list f32) : Prop := Forall (fun x => x = S754_nan) b.

Lemma cosine_nan a b : all_nan b -> length a = length b -> f_eq (norm64 a) f_zero = false ->
  b <> [] -> cosine_similarity a b = S754_nan.
Proof.
  intros Hb Hl Ha Hne. unfold cosine_similarity.
  destruct Hb as [|y b -> Hb]; [done|]. destruct a as [|x a]; [done|].
  assert (Hd : dot64 (x :: a) (S754_nan :: b) = S754_nan).
  { unfold dot64, f64_sum. cbn [zip_with foldl f64_of_f32]. rewrite f64_mul_nan_r, f64_add_nan_r.
    by apply fold_nan. }
  assert (Hn : norm64 (S754_nan :: b) = S754_nan).
  { unfold norm64, f64_sum. cbn [map foldl f64_of_f32].
    by rewrite f64_mul_nan_r, f64_add_nan_r, fold_nan. }
  by rewrite Ha, Hn, Hd.
Qed.

Lemma max_abs_diff_nan a b : all_nan b -> max_abs_diff a b = f_zero.
Proof.
  intros Hb. unfold max_abs_diff. revert a. induction Hb as [|y b -> Hb IH]; intros [|x a]; simpl; try done.
  rewrite f64_sub_nan_r. apply IH.
Qed.

(** ** Sparse metrics *)

Lemma jaccard_sym a b : jaccard_index a b = jaccard_index b a.
Proof.
  unfold jaccard_index. set (A := list_to_set a : gset Z). set (B := list_to_set b : gset Z).
  assert (A ∩ B = B ∩ A) as -> by set_solver. by assert (A ∪ B = B ∪ A) as -> by set_solver.
Qed.

Lemma collect_map_keys ks vs k : is_Some (collect_map ks vs !! k) -> k ∈ ks.
Proof.
  unfold collect_map. intros H. enough (k ∈ ks \/ is_Some ((∅ : gmap Z f32) !! k)) as [|[? Hn]]
    by (done || by rewrite lookup_empty in Hn).
  revert H. generalize (∅ : gmap Z f32). revert vs.
  induction ks as [|x ks IH]; intros [|v vs] m H; simpl in *; auto.
  apply IH in H as [|H]; [left; by right|]. rewrite lookup_insert in H.
  case_decide; [subst; left; by left|auto].
Qed.

Lemma forallb_map {A B} (f : A -> B) p l : forallb p (map f l) = forallb (fun x => p (f x)) l.
Proof. induction l as [|x l IH]; simpl; [done|]. by rewrite IH. Qed.

Lemma filter_none {A} (P : A -> Prop) `{forall x, Decision (P x)} l :
  (forall x, x ∈ l -> ~ P x) -> filter P l = [].
Proof.
  induction l as [|x l IH]; intros Hl; [done|].
  rewrite filter_cons_False by (apply Hl; by left). apply IH. intros y Hy. apply Hl. by right.
Qed.

(** Texts without a common token have no correlation. *)
Lemma correlation_disjoint `{HashOrder} a va b vb :
  (forall k, k ∈ a -> k ∉ b) -> weight_correlation a va b vb = S754_nan.
Proof.
  intros Hd. unfold weight_correlation. rewrite filter_none; [done|].
  intros k Hk Hb. apply collect_map_keys in Hb. apply (Hd k); [|done].
  rewrite map_keys_perm, list_elem_of_fmap in Hk. destruct Hk as ([k' v] & -> & Hin%elem_of_map_to_list).
  eapply collect_map_keys. by eexists.
Qed.

(** ** Properties *)

(** What a series must satisfy to meet a target: it is not empty, and every value
    that is a number is on the right side of the bound. *)
Definition meets (ok : f64 -> bool) (l : list f64) : Prop :=
  l <> [] /\ Forall (fun x => is_nan x = true \/ ok x = true) l.

Lemma meets_iff ok l :
  negb (bool_decide (l = [])) && forallb (fun x => is_nan x || ok x) l = true <-> meets ok l.
Proof.
  unfold meets. rewrite andb_true_iff, negb_true_iff, bool_decide_eq_false, forallb_forall, List.Forall_forall.
  split; intros [Hl Hf]; (split; [done|]); intros x Hx; apply orb_true_iff; auto.
Qed.

(** The evaluation accepts the FP16 model exactly when each of the four series
    has a value and every value of it that is a number lies strictly on the right
    side of its bound; values that are not numbers count for nothing. *)
Theorem all_pass_exact (s : Series) :
  all_pass (targets s) = true <->
  meets (fun c => f_gt c (f64_lit 999 1000)) (dense_cosines s) /\
  meets (fun d => f_lt d (f64_lit 1 100)) (dense_diffs s) /\
  meets (fun j => f_gt j (f64_lit 95 100)) (sparse_jaccards s) /\
  meets (fun r => f_gt r (f64_lit 99 100)) (sparse_correlations s).
Proof.
  unfold all_pass, targets. cbn [dense_pass diff_pass jaccard_pass corr_pass].
  rewrite !andb_true_iff, !stats_min_gt, stats_max_lt, !meets_iff by (by vm_compute). tauto.
Qed.

(** The dense series of pairs of vectors. *)
Definition dense_series (l : list (list f32 * list f32)) : list f64 * list f64 :=
  (map (fun p => cosine_similarity p.1 p.2) l, map (fun p => max_abs_diff p.1 p.2) l).

Definition dense_targets (l : list (list f32 * list f32)) : bool :=
  f_gt (stats_min (dense_series l).1) (f64_lit 999 1000) &&
  f_lt (stats_max (dense_series l).2) (f64_lit 1 100).

Lemma dense_targets_forall l :
  dense_targets l = negb (bool_decide (l = [])) &&
    forallb (fun p => (is_nan (cosine_similarity p.1 p.2) || f_gt (cosine_similarity p.1 p.2) (f64_lit 999 1000))
                   && (is_nan (max_abs_diff p.1 p.2) || f_lt (max_abs_diff p.1 p.2) (f64_lit 1 100))) l.
Proof.
  unfold dense_targets, dense_series. cbn [fst snd].
  rewrite stats_min_gt, stats_max_lt, !forallb_map by (by vm_compute).
  destruct l as [|p l]; [done|]. rewrite !bool_decide_false by done. cbn [negb andb].
  induction (p :: l) as [|q r IH]; [done|]. cbn [forallb]. rewrite <- IH.
  set (a := is_nan _ || _). set (b := is_nan (max_abs_diff _ _) || _).
  destruct a, b; simpl; rewrite ?andb_false_r; done.
Qed.

(** C39: a text for which the FP16 model returns a vector of NaN cannot make the
    dense targets fail: the decision is the one without the text, and a corpus
    of such texts only is accepted. *)
Theorem nan_text_invisible l1 a b l2 :
  all_nan b -> b <> [] -> length a = length b -> f_eq (norm64 a) f_zero = false ->
  dense_targets (l1 ++ (a, b) :: l2) = bool_decide (l1 ++ l2 = []) || dense_targets (l1 ++ l2).
Proof.
  intros Hb Hne Hl Ha. rewrite !dense_targets_forall, !forallb_app. cbn [forallb fst snd].
  rewrite (cosine_nan a b), (max_abs_diff_nan a b) by done.
  rewrite bool_decide_false by (by destruct l1). cbn [is_nan orb andb negb].
  replace (f_lt f_zero (f64_lit 1 100)) with true by (by vm_compute). cbn [andb].
  case_bool_decide as H; cbn [negb andb orb]; [|done]. apply app_eq_nil in H as [-> ->]. done.
Qed.

Lemma nan_text_invisible_witness :
  dense_targets ([([f32_of_Z 1], [f32_of_Z 1])] ++ ([f32_of_Z 1], [S754_nan]) :: [])
  = bool_decide ([([f32_of_Z 1], [f32_of_Z 1])] ++ [] = []) ||
    dense_targets ([([f32_of_Z 1], [f32_of_Z 1])] ++ []).
Proof.
  apply (nan_text_invisible [([f32_of_Z 1], [f32_of_Z 1])] [f32_of_Z 1] [S754_nan] []).
  - by repeat constructor.
  - discriminate.
  - reflexivity.
  - vm_compute. reflexivity.
Defined.

(** The keys in the order of the representation. *)
#[export, program] Instance list_order : HashOrder := {| map_keys m := map fst (map_to_list m) |}.
Next Obligation. done. Qed.

(** One pair of identical vectors meets the dense targets, an all-NaN vector alone
    meets them as well, and the zero vector does not. *)
Example dense_targets_values :
  dense_targets [([f32_of_Z 3; f32_of_Z 4], [f32_of_Z 3; f32_of_Z 4])] = true /\
  dense_targets [([f32_of_Z 3], [S754_nan])] = true /\
  dense_targets [([f32_of_Z 3], [f_zero])] = false.
Proof. vm_compute. split_and!; reflexivity. Qed.

Example sparse_metrics_values :
  jaccard_index [5; 7; 9] [5; 7] = f64_div (f64_of_Z 2) (f64_of_Z 3) /\
  f_gt (weight_correlation [5; 7; 9] (map f32_of_Z [1; 2; 3]) [5; 7; 9] (map f32_of_Z [1; 2; 3]))
    (f64_lit 99 100) = true.
Proof. vm_compute. by split. Qed.
