(* ===== verification/Fp16Eval.v ===== *)
(** * The FP16 evaluation program ([examples/fp16_eval.rs])

    Loading the two models, embedding every text of the corpus with both, and
    comparing the results with the metrics of [EvalMetrics].  The embedding
    functions duplicate those of the server; the theorems relate the two. *)

From S2P Require Import Prelude Float RustStr BinPack JitGuard EmbedMath Types Pipeline Loading EvalMetrics.
#[local] Open Scope Z_scope.

(** ** Loading *)

Definition MAX_SEQ_LENGTH : Z := 8192.

(** The padding tokenizer of the evaluation, its runs and its outputs. *)
Class EvalRuntime (Tokenizer Session Output : Type) := {
  with_padding_longest : Tokenizer -> Tokenizer;
  ev_encode : Tokenizer -> list string -> result string (list Encoding);
  ev_run : Session -> Array2 -> Array2 -> Session * result string Output;
  ev_extract : Output -> string -> option (result string (list (list (list f32))));
  ev_dot : list f32 -> list f32 -> f32;
  ev_shape_error : string;
}.

(** What the program reads besides the models. *)
Record EvalWorld := {
  env_var : string -> option string;
  read_corpus : result string string;
  parse_corpus : string -> result string (gmap string (list string));
  hub : Hub;
  file_size : string -> result string Z;
  bundled_tensors : option (string -> option (list Z));
}.

Definition load_corpus (w : EvalWorld) : result anyhow (gmap string (list string)) :=
  raw ← map_err (fun e => context "Failed to read corpus.json" (anyhow_msg e)) (read_corpus w);
  map_err (fun e => context "Failed to parse corpus.json" (anyhow_msg e)) (parse_corpus w raw).

(** [SparseLinearWeights]: the weight and the bias. *)
Record SparseLinearWeights := { weight : list f32; bias : f32 }.

(** [tensor name] is the data of a tensor of the bundled file. *)
Definition load_sparse_weights (tensors : option (string -> option (list Z))) : M SparseLinearWeights :=
  tensor ← expect tensors;
  weight_data ← expect (tensor "weight");
  bias_data ← expect (tensor "bias");
  let weight := f32_chunks weight_data in
  _ ← assert_ (Z.of_nat (length bias_data) =? 4);
  bias ← (match bias_data with
          | b0 :: b1 :: b2 :: b3 :: _ => Ok (f32_from_le_bytes b0 b1 b2 b3)
          | _ => Err Panic
          end);
  _ ← assert_ (Z.of_nat (length weight) =? 1024);
  Ok {| weight := weight; bias := bias |}.

(** One file of the pinned FP32 revision. *)
Definition eval_get (h : Hub) (ctx file : string) : Traced string :=
  let f := {| f_repo := REPO_ID; f_revision := REPO_REVISION; f_file := file |} in
  ([f], map_err (fun e => context ctx (anyhow_msg e)) (repo_get h f)).

Definition eval_download_model_files (h : Hub) : Traced (string * string) :=
  _ ← no_fetch (map_err (fun e => anyhow_msg ("Failed to build hf-hub API: " +:+ e)) (api_build h));
  onnx_path ← eval_get h "model.onnx" "onnx/model.onnx";
  _ ← eval_get h "model.onnx_data" "onnx/model.onnx_data";
  _ ← eval_get h "Constant_7" "onnx/Constant_7_attr__value";
  tokenizer_path ← eval_get h "tokenizer.json" "tokenizer.json";
  mret (onnx_path, tokenizer_path).

(** [String]s in byte order. *)
Definition name_le (a b : string) : Prop := String.leb a b = true.
#[export] Instance name_le_dec : RelDecision name_le.
Proof. intros a b. unfold name_le. apply _. Defined.

Definition sort_names (names : list string) : list string := merge_sort name_le names.

Section eval.
Context {Builder Tokenizer Session Output : Type}.
Context `{Ort Builder Session Tokenizer} `{EvalRuntime Tokenizer Session Output} `{HashOrder}.

Definition eval_load_tokenizer (path : string) : result anyhow Tokenizer :=
  t ← map_err (fun e => anyhow_msg ("Failed to load tokenizer: " +:+ e)) (from_file path);
  t ← map_err (fun e => anyhow_msg ("Truncation: " +:+ e)) (with_truncation MAX_SEQ_LENGTH t);
  Ok (with_padding_longest t).

Definition eval_load_session (model_path : string) : result anyhow Session :=
  b ← ort_result builder;
  b ← ort_result (with_optimization_level3 b);
  b ← ort_result (with_intra_threads 1 b);
  ort_result (commit_from_file model_path b).

(** ** Embedding *)

Definition tokenize (t : Tokenizer) (texts : list string) : M (list Encoding) :=
  lift (map_err (fun e => anyhow_msg ("Tokenization failed: " +:+ e)) (ev_encode t texts)).

Definition array2 (rows cols : Z) (v : list Z) : M Array2 :=
  if Z.of_nat (length v) =? rows * cols then Ok {| nrows := rows; ncols := cols; elems := v |}
  else Err (Fail (anyhow_msg ev_shape_error)).

(** The two arrays, then the run. *)
Definition run_arrays (s : Session) (rows cols : Z) (ids mask : list Z) : M (Session * Output) :=
  ids_array ← array2 rows cols ids;
  mask_array ← array2 rows cols mask;
  let '(s', outputs) := ev_run s ids_array mask_array in
  out ← map_err (fun e => Fail (ort_err e)) outputs;
  Ok (s', out).

Definition eval_embed_dense (s : Session) (t : Tokenizer) (texts : list string)
  : M (Session * list (list f32)) :=
  if bool_decide (texts = []) then Ok (s, [])
  else
    encodings ← tokenize t texts;
    first ← expect (encodings !! 0%nat);
    let batch_len := length encodings in
    let seq_len := Z.of_nat (length (get_ids first)) in
    let ids_flat := concat (map get_ids encodings) in
    let mask_flat := concat (map get_attention_mask encodings) in
    '(s', out) ← run_arrays s (Z.of_nat batch_len) seq_len ids_flat mask_flat;
    lhs ← extracted (ev_extract out "last_hidden_state");
    emb ← cls_rows (view3 lhs);
    result ← result_mapM (fun i => dense_row emb i) (seq 0 batch_len);
    Ok (s', result).

(** One position of the token loop. *)
Definition token_step (w : SparseLinearWeights) (ids mask : list Z)
    (token_emb : NdArray (list (list (list f32)))) (token_weights : gmap Z f32) (seq_idx : nat)
  : M (gmap Z f32) :=
  m ← expect (mask !! seq_idx);
  if m =? 0 then Ok token_weights
  else
    id ← expect (ids !! seq_idx);
    let token_id := wrap32 id in
    if bool_decide (token_id ∈ SPECIAL_TOKENS) then Ok token_weights
    else
      batch0 ← index_axis0 token_emb 0;
      hidden ← index_axis0 batch0 seq_idx;
      hidden_slice ← expect (as_slice hidden);
      score ← expect (sparse_project ev_dot hidden_slice (weight w) (bias w));
      if f_gt score f_zero then
        Ok (match token_weights !! token_id with
            | Some v => <[token_id := f_max v score]> token_weights
            | None => <[token_id := score]> token_weights
            end)
      else Ok token_weights.

(** [outputs["token_embeddings"]], else [outputs["last_hidden_state"]]: the first
    index panics when the output does not exist, before the match. *)
Definition token_embeddings (out : Output) : M (NdArray (list (list (list f32)))) :=
  match extracted (ev_extract out "token_embeddings") with
  | Ok t => Ok (view3 t)
  | Err Panic => Err Panic
  | Err (Fail _) => t ← extracted (ev_extract out "last_hidden_state"); Ok (view3 t)
  end.

(** The pooled weights, sorted by token. *)
Definition sparse_of (token_weights : gmap Z f32) : SparseEmbedding :=
  let indices := sort_z (map fst (map_to_list token_weights)) in
  {| indices := indices; values := map (fun i => default f_zero (token_weights !! i)) indices |}.

Definition eval_sparse_text (w : SparseLinearWeights) (t : Tokenizer) (s : Session) (text : string)
  : M (Session * SparseEmbedding) :=
  encodings ← tokenize t [text];
  encoding ← expect (encodings !! 0%nat);
  let input_ids := get_ids encoding in
  let attention_mask := get_attention_mask encoding in
  let seq_len := length input_ids in
  '(s', out) ← run_arrays s 1 (Z.of_nat seq_len) input_ids attention_mask;
  token_emb ← token_embeddings out;
  token_weights ← result_foldM (token_step w input_ids attention_mask token_emb) ∅ (seq 0 seq_len);
  Ok (s', sparse_of token_weights).

Definition eval_embed_sparse (s : Session) (t : Tokenizer) (w : SparseLinearWeights)
    (texts : list string) : M (Session * list SparseEmbedding) :=
  result_foldM
    (fun acc text => '(s', r) ← eval_sparse_text w t acc.1 text; Ok (s', acc.2 ++ [r]))
    (s, []) texts.

(** ** The comparison *)

(** The sessions of the two models. *)
Record Models := { fp32 : Session; fp16 : Session }.

Definition compare_scenario (t32 t16 : Tokenizer) (w : SparseLinearWeights) (m : Models)
    (all : Series) (texts : list string) : M (Models * Series) :=
  '(s32, fp32_embs) ← eval_embed_dense (fp32 m) t32 texts;
  '(s16, fp16_embs) ← eval_embed_dense (fp16 m) t16 texts;
  let cosines := zip_with cosine_similarity fp32_embs fp16_embs in
  let diffs := zip_with max_abs_diff fp32_embs fp16_embs in
  '(s32, fp32_sp) ← eval_embed_sparse s32 t32 w texts;
  '(s16, fp16_sp) ← eval_embed_sparse s16 t16 w texts;
  let jaccards := zip_with (fun a b => jaccard_index (indices a) (indices b)) fp32_sp fp16_sp in
  let correlations :=
    zip_with (fun a b => weight_correlation (indices a) (values a) (indices b) (values b))
      fp32_sp fp16_sp in
  let valid_corrs := filter (fun c => is_nan c = false) correlations in
  Ok ({| fp32 := s32; fp16 := s16 |},
      {| dense_cosines := dense_cosines all ++ cosines;
         dense_diffs := dense_diffs all ++ diffs;
         sparse_jaccards := sparse_jaccards all ++ jaccards;
         sparse_correlations := sparse_correlations all ++ valid_corrs |}).

Definition no_series : Series :=
  {| dense_cosines := []; dense_diffs := []; sparse_jaccards := []; sparse_correlations := [] |}.

Definition compare_corpus (t32 t16 : Tokenizer) (w : SparseLinearWeights) (m : Models)
    (corpus : gmap string (list string)) : M Series :=
  '(_, all) ← result_foldM
    (fun acc name => texts ← expect (corpus !! name); compare_scenario t32 t16 w acc.1 acc.2 texts)
    (m, no_series) (sort_names (map fst (map_to_list corpus)));
  Ok all.

Definition main (world : EvalWorld) : M unit :=
  let fp16_model_path :=
    unwrap_or (env_var world "FP16_MODEL_PATH") "/tmp/bge-m3-cache/xenova-bge-m3-fp16/model_fp16.onnx" in
  corpus ← lift (load_corpus world);
  '(onnx_path, tokenizer_path) ← lift (snd (eval_download_model_files (hub world)));
  fp32_tokenizer ← lift (eval_load_tokenizer tokenizer_path);
  fp32_session ← lift (eval_load_session onnx_path);
  _ ← lift (map_err (fun e => context ("stat " +:+ fp16_model_path) (anyhow_msg e))
             (file_size world fp16_model_path));
  fp16_session ← lift (eval_load_session fp16_model_path);
  fp16_tokenizer ← lift (eval_load_tokenizer tokenizer_path);
  sparse_weights ← load_sparse_weights (bundled_tensors world);
  all ← compare_corpus fp32_tokenizer fp16_tokenizer sparse_weights
          {| fp32 := fp32_session; fp16 := fp16_session |} corpus;
  if all_pass (targets all) then Ok tt
  else Err (Fail (anyhow_msg "Phase A fidelity targets not met")).
End eval.

(** ** The duplicated embedding functions *)

Lemma bin_pack_single `{KeySort nat} n cm : 0 <= n -> bin_pack [n] cm = [[0%nat]].
Proof.
  intros Hn. pose proof (bin_pack_packing [n] cm) as Hp.
  assert (Hp' : Packing [n] cm (bin_pack [n] cm)) by (apply Hp; by repeat constructor). clear Hp.
  pose proof (packing_partition _ _ _ Hp') as Hc. pose proof (packing_chunks _ _ _ Hp') as Hk.
  apply Permutation_singleton_r in Hc.
  destruct (bin_pack [n] cm) as [|c cs]; [done|]. inversion Hk as [|? ? [Hne _] Hks]; subst.
  destruct c as [|i c]; [done|]. simpl in Hc. injection Hc as -> Hc.
  apply app_eq_nil in Hc as [-> Hc]. destruct cs as [|c cs]; [done|].
  inversion Hks as [|? ? [Hne' _] _]; subst. by destruct c.
Qed.

(** The server's pipelines on the runtime of the evaluation. *)
Section agreement.
Context `{KeySort nat} {Tokenizer Session Output : Type} `{EvalRuntime Tokenizer Session Output}.
Variables (t : Tokenizer) (w : SparseLinearWeights).
(** how the server copies arrays *)
Variable copy : list Z -> list Z -> list Z.

Definition server_runtime : Runtime Session Output := {|
  encode_batch := ev_encode t;
  session_run := ev_run;
  run_elapsed_ms _ := 0;
  tokenize_elapsed_ms := 0;
  extract2 _ _ := None;
  extract3 := ev_extract;
  copy_strides := copy;
  dot := ev_dot;
  sparse_weight := weight w;
  sparse_bias := bias w;
  shape_error := ev_shape_error
|}.
#[local] Existing Instance server_runtime.

(** A successful run of a pipeline on one text. *)
Lemma single_text_run {X T} (extract : Output -> M X) row (finish : list (option T) -> M (list T))
    s s' text enc cm out st :
  ev_encode t [text] = Ok [enc] -> get_ids enc <> [] ->
  embed_with extract row finish s [text] cm None = (s', Ok (out, st)) ->
  let n := Z.of_nat (length (get_ids enc)) in
  exists o x v, run_arrays s 1 n (get_ids enc) (get_attention_mask enc) = Ok (s', o) /\
    extract o = Ok x /\ row [enc] x 0%nat 0%nat = Ok v /\ finish [Some v] = Ok out.
Proof.
  intros Henc Hne. unfold embed_with. cbn [encode_batch server_runtime]. rewrite Henc.
  cbn [seq_lengths_of map]. rewrite bin_pack_single by lia. cbn [guard_chunks run_chunks].
  set (n := Z.of_nat (length (get_ids enc))).
  assert (Hn1 : 1 <= n) by (unfold n; destruct (get_ids enc); [done|]; simpl length; lia).
  assert (Hn : chunk_pad [n] [0%nat] = n) by (unfold chunk_pad, len_at; simpl; lia).
  rewrite Hn. unfold build_chunk_arrays. cbn [length chunk_rows].
  cbn [lookup list_lookup expect mbind result_bind].
  unfold pad_row. fold n. replace (Z.to_nat (sat_sub n n)) with 0%nat by (unfold sat_sub; lia).
  rewrite !app_nil_r, !app_nil_l. unfold run_arrays. change (Z.of_nat 1) with 1.
  change (@from_shape_vec Session Output server_runtime) with (@array2 Tokenizer Session Output _).
  destruct (array2 1 n (get_ids enc)) as [ia|]; simpl; [|done].
  destruct (array2 1 n (get_attention_mask enc)) as [ma|]; simpl; [|done].
  destruct (ev_run s ia ma) as [s1 [o|e]]; simpl; [|done].
  destruct (extract o) as [x|] eqn:Hx; simpl; [|done].
  destruct (row [enc] x 0%nat 0%nat) as [v|] eqn:Hv; simpl; [|done].
  destruct (finish [Some v]) as [r|] eqn:Hf; simpl; [|done].
  intros [= <- <- _]. by exists o, x, v.
Qed.

(** The server's loop over the computed scores is the program's loop over the
    hidden states. *)
Lemma token_loop mask ids batch0 tok scores rest j m m' :
  drop j ids = rest -> Forall (fun id => 0 <= id <= U32_MAX) ids -> index_axis0 tok 0 = Ok batch0 ->
  (forall k, (k < length ids)%nat -> exists hidden slice, index_axis0 batch0 k = Ok hidden /\ as_slice hidden = Some slice /\
     is_Some (scores !! k) /\ scores !! k = sparse_project ev_dot slice (weight w) (bias w)) ->
  maxpool_loop mask scores m j rest = Some m' ->
  result_foldM (token_step w ids mask tok) m (seq j (length rest)) = Ok m'.
Proof.
  intros Hd Hu Ht Hs. revert j m Hd. induction rest as [|id rest IH]; intros j m Hd; simpl; [by intros [= ->]|].
  assert (Hid : ids !! j = Some id) by (rewrite <- (Nat.add_0_r j), <- lookup_drop, Hd; done).
  destruct (maxpool_step mask scores m j id) as [m1|] eqn:Hstep; simpl; [|done]. intros Hloop.
  assert (token_step w ids mask tok m j = Ok m1) as ->.
  { unfold maxpool_step in Hstep. unfold token_step. destruct (mask !! j) as [b|]; simpl in *; [|done].
    destruct (b =? 0); [by simplify_eq|]. rewrite Hid. simpl.
    assert (wrap32 id = id) as ->.
    { rewrite Forall_lookup in Hu. specialize (Hu _ _ Hid). unfold U32_MAX in Hu.
      apply Z.mod_small. lia. }
    destruct (bool_decide _); [by simplify_eq|]. rewrite Ht. simpl.
    destruct (Hs j) as (hidden & slice & -> & Hsl & [sc Hsc] & Hp); [by eapply lookup_lt_Some|].
    cbn [mbind result_bind]. rewrite Hsl. cbn [expect mbind result_bind].
    rewrite Hsc in Hstep, Hp. simpl in *. rewrite <- Hp. simpl. by destruct (f_gt _ _); simplify_eq. }
  apply IH; [|done]. erewrite drop_S in Hd by exact Hid. by simplify_eq.
Qed.

Lemma eval_row_agrees enc tok r :
  Forall (fun id => 0 <= id <= U32_MAX) (get_ids enc) ->
  sparse_row [enc] tok 0 0 = Ok r ->
  exists m, result_foldM (token_step w (get_ids enc) (get_attention_mask enc) tok) ∅
              (seq 0 (length (get_ids enc))) = Ok m /\ sparse_of m = r.
Proof.
  intros Hu. unfold sparse_row. cbn [lookup list_lookup expect mbind result_bind].
  destruct (index_axis0 tok 0) as [batch0|] eqn:Ht; simpl; [|done].
  destruct (result_mapM _ (seq 0 (length (get_ids enc)))) as [scores|] eqn:Hm; simpl; [|done].
  unfold sparse_maxpool. destruct (maxpool_loop _ _ _ _ _) as [m|] eqn:Hl; simpl; [|done].
  intros [= <-]. exists m. split; [|done]. apply (token_loop _ _ batch0 _ scores _ 0 ∅ m); try done.
  intros k Hk. destruct (result_mapM_lookup _ _ _ k k Hm) as (y & Hy & Hh); [by apply lookup_seq|].
  destruct (index_axis0 batch0 k) as [hidden|]; simpl in Hh; [|done].
  destruct (as_slice hidden) as [slice|] eqn:Hsl; simpl in Hh; [|done].
  exists hidden, slice. split; [done|]. split; [done|]. rewrite Hy. destruct (sparse_project _ _ _ _); [|done].
  simpl in Hh. simplify_eq. eauto.
Qed.

(** A row the server reads from the copy, the program reads from the view. *)
Lemma view_dense_row lhs rows p v :
  cls_rows (view3 lhs) = Ok rows -> dense_row (to_owned rows) p = Ok v -> dense_row rows p = Ok v.
Proof.
  intros (_ & b & h & sb & Hs & Ht)%cls_rows_view. unfold dense_row, index_axis0, to_owned.
  cbn [nd_shape nd_strides nd_data]. rewrite Hs, Ht.
  destruct (nd_data rows !! p) as [r|]; simpl; [|done].
  rewrite unit_stride_slice. destruct (as_slice _) as [r'|] eqn:Hr; simpl; [|done].
  unfold as_slice in Hr. destruct (is_standard_layout _ _); [|done]. by injection Hr as <-.
Qed.
End agreement.

(** ** Properties *)

(** C37: the functions the program duplicates from the server agree with it: on one
    text with at least one token, whatever the server's sparse pipeline returns on
    the outputs of the FP32 export, the program returns, and whatever the server's
    dense pipeline returns on those of the FP16 export, the program returns, with
    the same session and under every cost model. *)
Theorem eval_matches_server `{KeySort nat} {Tokenizer Session Output}
    `{EvalRuntime Tokenizer Session Output} t w copy (s s' : Session) text enc cm :
  ev_encode t [text] = Ok [enc] -> get_ids enc <> [] ->
  Forall (fun id => 0 <= id <= U32_MAX) (get_ids enc) ->
  (forall out st, embed_sparse (H0 := server_runtime t w copy) s [text] cm Fp32 None = (s', Ok (out, st)) ->
     eval_embed_sparse s t w [text] = Ok (s', out)) /\
  (forall out st, embed_dense (H0 := server_runtime t w copy) s [text] cm Fp16 None = (s', Ok (out, st)) ->
     eval_embed_dense s t [text] = Ok (s', out)).
Proof.
  intros Henc Hne Hu. split; intros out st Hrun.
  - destruct (single_text_run t w copy _ _ _ _ _ _ _ _ _ _ Henc Hne Hrun) as (o & x & v & Ha & Hx & Hv & Hf).
    cbn [token_output] in Hx. destruct (eval_row_agrees t w copy _ _ _ Hu Hv) as (m & Hm & <-).
    unfold eval_embed_sparse. cbn [result_foldM fst snd]. unfold eval_sparse_text, tokenize.
    rewrite Henc. cbn [map_err lift mbind result_bind lookup list_lookup expect]. rewrite Ha.
    cbn [mbind result_bind]. unfold token_embeddings. cbn [extract3 server_runtime] in Hx.
    destruct (extracted _) as [tk|]; simpl in Hx; [|done]. injection Hx as <-.
    cbn [mbind result_bind]. rewrite Hm. simpl. by injection Hf as <-.
  - destruct (single_text_run t w copy _ _ _ _ _ _ _ _ _ _ Henc Hne Hrun) as (o & x & v & Ha & Hx & Hv & Hf).
    unfold eval_embed_dense. rewrite bool_decide_false by done. unfold tokenize.
    rewrite Henc. cbn [map_err lift mbind result_bind lookup list_lookup expect map concat length].
    rewrite !app_nil_r. change (Z.of_nat 1) with 1. rewrite Ha. cbn [mbind result_bind].
    unfold dense_output in Hx. cbn [extract3 server_runtime] in Hx.
    destruct (extracted _) as [lhs|]; [|done]. cbn [mbind result_bind] in *.
    destruct (cls_rows (view3 lhs)) as [rows|] eqn:Hc; simpl in Hx; [|done]. injection Hx as <-.
    cbn [mbind result_bind seq result_mapM]. rewrite (view_dense_row t w copy _ _ _ _ Hc Hv). simpl.
    by injection Hf as <-.
Qed.

(** A stand-in with one token per byte, whose outputs have the names in [names]. *)
Definition byte_eval (names : list string) (hidden : list f32) : EvalRuntime unit nat (nat * nat) := {|
  with_padding_longest u := u;
  ev_encode _ texts := Ok (map byte_encoding texts);
  ev_run s ids _ := (S s, Ok (Z.to_nat (nrows ids), Z.to_nat (ncols ids)));
  ev_extract out name :=
    if bool_decide (name ∈ names)
    then Some (Ok (replicate (fst out) (replicate (snd out) hidden))) else None;
  ev_dot h w := match h, w with x :: _, y :: _ => f32_mul x y | _, _ => f_zero end;
  ev_shape_error := "shape error"
|}.

Definition unit_weights : SparseLinearWeights := {| weight := [f32_of_Z 1; f_zero]; bias := f_zero |}.

Lemma eval_matches_server_witness :
  exists out, eval_embed_sparse (H0 := byte_eval ["token_embeddings"] unit_hidden) 0%nat tt unit_weights ["hi"]
    = Ok (1%nat, out).
Proof.
  destruct (eval_matches_server (H0 := byte_eval ["token_embeddings"] unit_hidden) tt unit_weights (fun _ st => st) 0%nat 1%nat "hi"
    (byte_encoding "hi") (conservative 200000)) as [Hs _].
  - reflexivity.
  - discriminate.
  - apply byte_ids_u32.
  - eexists. eapply Hs. vm_compute. reflexivity.
Defined.

(** ** Output names *)

(** The outputs of a session are those of its model file: each name of the export is
    an output of every run, and no other name is. *)
Class ExportLaws (Tokenizer Session Output : Type) `{EvalRuntime Tokenizer Session Output} := {
  exports : Session -> list string;
  exports_run s ids mask s' out : ev_run s ids mask = (s', Ok out) ->
    exports s' = exports s /\ forall name, is_Some (ev_extract out name) <-> name ∈ exports s;
}.

Section exports.
Context {Tokenizer Session Output : Type} `{ExportLaws Tokenizer Session Output} `{HashOrder}.

Lemma run_arrays_exports s rows cols ids mask s' out :
  run_arrays s rows cols ids mask = Ok (s', out) ->
  exports s' = exports s /\ forall name, is_Some (ev_extract out name) <-> name ∈ exports s.
Proof.
  unfold run_arrays. destruct (array2 rows cols ids) as [ia|]; simpl; [|done].
  destruct (array2 rows cols mask) as [ma|]; simpl; [|done].
  destruct (ev_run s ia ma) as [s1 [o|e]] eqn:Hr; simpl; [|done].
  intros [= <- <-]. by eapply exports_run.
Qed.

Lemma extracted_is_Some {A} (o : option (result string A)) x : extracted o = Ok x -> is_Some o.
Proof. intros ->%extracted_Ok. eauto. Qed.

Lemma dense_exports s t texts s' r :
  eval_embed_dense s t texts = Ok (s', r) ->
  exports s' = exports s /\
  (if bool_decide (texts = []) then r = [] else "last_hidden_state" ∈ exports s).
Proof.
  unfold eval_embed_dense. case_bool_decide; [by intros [= <- <-]|].
  destruct (tokenize t texts) as [encs|]; simpl; [|done].
  destruct (expect _) as [first|]; simpl; [|done].
  destruct (run_arrays _ _ _ _ _) as [[s1 out]|] eqn:Hrun; simpl; [|done].
  apply run_arrays_exports in Hrun as [Hs Hn].
  destruct (extracted _) as [lhs|] eqn:Hx; simpl; [|done].
  destruct (cls_rows (view3 lhs)); simpl; [|done]. destruct (result_mapM _ _); simpl; [|done].
  intros [= <- <-]. split; [done|]. by eapply Hn, extracted_is_Some.
Qed.

Lemma sparse_text_exports w t s text s' r :
  eval_sparse_text w t s text = Ok (s', r) ->
  exports s' = exports s /\ "token_embeddings" ∈ exports s.
Proof.
  unfold eval_sparse_text. destruct (tokenize t [text]) as [encs|]; simpl; [|done].
  destruct (expect _) as [enc|]; simpl; [|done].
  destruct (run_arrays _ _ _ _ _) as [[s1 out]|] eqn:Hrun; simpl; [|done].
  apply run_arrays_exports in Hrun as [Hs Hn].
  destruct (token_embeddings out) as [tok|] eqn:Ht; simpl; [|done].
  destruct (result_foldM _ _ _); simpl; [|done]. intros [= <- _]. split; [done|]. apply Hn.
  unfold token_embeddings in Ht. destruct (ev_extract out "token_embeddings") as [x|]; [eauto|done].
Qed.

Lemma sparse_exports s t w texts s' r :
  eval_embed_sparse s t w texts = Ok (s', r) ->
  exports s' = exports s /\ (texts <> [] -> "token_embeddings" ∈ exports s).
Proof.
  unfold eval_embed_sparse. match goal with |- context [ result_foldM ?g _ _ ] => set (f := g) end.
  generalize (@nil SparseEmbedding). revert s.
  induction texts as [|text texts IH]; intros s acc; cbn [result_foldM]; [by intros [= <- _]|].
  unfold f at 1. cbn [fst snd].
  destruct (eval_sparse_text w t s text) as [[s1 v]|] eqn:Hv; simpl; [|done].
  apply sparse_text_exports in Hv as [Hs Hin]. intros [Hs' _]%IH. split; [congruence|done].
Qed.

(** No series grows when no model has both names. *)
Lemma scenario_exports t32 t16 w m all texts m' all' :
  ~ ("last_hidden_state" ∈ exports (fp32 m) /\ "token_embeddings" ∈ exports (fp32 m)) ->
  compare_scenario t32 t16 w m all texts = Ok (m', all') ->
  exports (fp32 m') = exports (fp32 m) /\ dense_cosines all' = dense_cosines all.
Proof.
  intros Hno. unfold compare_scenario.
  destruct (eval_embed_dense (fp32 m) t32 texts) as [[s1 d1]|] eqn:Hd1; simpl; [|done].
  destruct (eval_embed_dense (fp16 m) t16 texts) as [[s2 d2]|]; simpl; [|done].
  destruct (eval_embed_sparse s1 t32 w texts) as [[s3 p1]|] eqn:Hp1; simpl; [|done].
  destruct (eval_embed_sparse s2 t16 w texts) as [[s4 p2]|]; simpl; [|done].
  intros [= <- <-]. simpl. apply dense_exports in Hd1 as [He Hl]. apply sparse_exports in Hp1 as [He' Ht].
  split; [congruence|]. case_bool_decide as Hnil; [subst d1; by rewrite app_nil_r|].
  exfalso. apply Hno. split; [done|]. rewrite <- He. by apply Ht.
Qed.

Lemma corpus_exports t32 t16 w m corpus all :
  ~ ("last_hidden_state" ∈ exports (fp32 m) /\ "token_embeddings" ∈ exports (fp32 m)) ->
  compare_corpus t32 t16 w m corpus = Ok all -> dense_cosines all = [].
Proof.
  unfold compare_corpus. generalize (sort_names (map fst (map_to_list corpus))).
  change ([] : list SpecFloat.spec_float) with (dense_cosines no_series). generalize no_series. revert m.
  intros m series names. revert m series. induction names as [|n names IH]; intros m series Hno; simpl.
  { by intros [= ->]. }
  destruct (expect (corpus !! n)) as [texts|]; simpl; [|done].
  destruct (compare_scenario _ _ _ _ _ _) as [[m1 all1]|] eqn:Hc; simpl; [|done].
  apply scenario_exports in Hc as [He <-]; [|done]. apply IH. by rewrite He.
Qed.
End exports.

Lemma bind_not_ok {A} (r : M A) (f : A -> M unit) :
  (forall a, r = Ok a -> f a <> Ok tt) -> r ≫= f <> Ok tt.
Proof. destruct r as [a|e]; [|discriminate]. intros Hf. by apply Hf. Qed.

(** C38: the evaluation can never report success on the exports it is written for.
    Its dense function reads [last_hidden_state] and its sparse function
    [token_embeddings] of both models, an index of a missing output panics, and
    so does the first half of the match that is meant to fall back.  When no model
    file has both outputs, [main] does not return [Ok], whatever the corpus, the
    files and the texts are. *)
Theorem main_never_accepts {Builder Tokenizer Session Output} `{Ort Builder Session Tokenizer}
    `{!EvalRuntime Tokenizer Session Output} `{!ExportLaws Tokenizer Session Output} `{HashOrder}
    (world : EvalWorld) :
  (forall s, ~ ("last_hidden_state" ∈ exports s /\ "token_embeddings" ∈ exports s)) ->
  main world <> Ok tt.
Proof.
  intros Hno. unfold main.
  apply bind_not_ok; intros corpus _. apply bind_not_ok; intros [op tp] _.
  do 5 (apply bind_not_ok; intros ? _).
  apply bind_not_ok; intros w _. apply bind_not_ok; intros all Hc.
  apply corpus_exports in Hc; [|apply Hno]. unfold all_pass, targets. cbn [dense_pass]. rewrite Hc.
  replace (f_gt (stats_min []) _) with false by (by vm_compute). discriminate.
Qed.

#[local] Instance example_ort : Ort unit nat unit := {|
  builder := Ok tt;
  with_execution_providers _ b := Ok b;
  with_optimization_level3 b := Ok b;
  with_intra_threads _ b := Ok b;
  commit_from_file _ _ := Ok 0%nat;
  from_file _ := Ok tt;
  with_truncation _ t := Ok t;
  without_padding t := t
|}.

Definition wide_hidden : list f32 := replicate 1024 (f32_of_Z 3).

Definition byte_exports (names : list string) : @ExportLaws unit nat (nat * nat) (byte_eval names wide_hidden).
Proof.
  refine {| exports := fun _ => names |}. intros s ids mask s' out _. split; [done|].
  intros name. simpl. case_bool_decide; (split; [by intros [? ?]|by eauto]).
Defined.

Definition example_world : EvalWorld := {|
  env_var _ := None;
  read_corpus := Ok "{}";
  parse_corpus _ := Ok {[ "short" := ["hi"] ]};
  hub := example_hub;
  file_size _ := Ok 1000;
  bundled_tensors := Some example_tensor
|}.

Definition run_example (names : list string) : M unit :=
  @main unit unit nat (nat * nat) example_ort (byte_eval names wide_hidden) list_order example_world.

(** With the documented exports the program panics; only a model with both outputs
    gets through. *)
Example main_values :
  run_example ["last_hidden_state"] = Err Panic /\
  run_example ["token_embeddings"; "sentence_embedding"] = Err Panic /\
  run_example ["last_hidden_state"; "token_embeddings"] = Ok tt.
Proof. vm_compute. split_and!; reflexivity. Qed.

Lemma main_never_accepts_witness : run_example ["last_hidden_state"] <> Ok tt.
Proof.
  apply (@main_never_accepts unit unit nat (nat * nat) example_ort (byte_eval ["last_hidden_state"] wide_hidden)
    (byte_exports ["last_hidden_state"]) list_order example_world).
  intros s [_ Hin]. revert Hin. apply (bool_decide_unpack _). vm_compute. exact I.
Defined.
